(** * Apolon: change tracking and condition lowering

    A shallow embedding of the runtime of the apolon ORM
    (packages [shared] and [apolon]): the condition algebra and its
    lowering to parameterised SQL, the query builder, the entity
    entries, the change tracker and the unit-of-work flush. *)

From Stdlib Require Import ZArith List Bool Lia.
From Stdlib Require Import Strings.Ascii Strings.String.
From Stdlib Require Import Numbers.DecimalString Numbers.DecimalZ.
From Stdlib Require Import Numbers.HexadecimalString.
From Stdlib Require Import Sorting.Permutation Sorting.Sorted.
Import ListNotations.

Local Open Scope Z_scope.
Local Open Scope list_scope.
Local Open Scope string_scope.

(* ================================================================= *)
(** ** Go runtime: integers, strings, formatting *)

Module GoRuntime.

(** Go's [int] on a 64-bit target: two's complement, arithmetic wraps. *)
Definition int_bits : Z := 64.
Definition max_int : Z := 2 ^ 63 - 1.
Definition min_int : Z := - 2 ^ 63.

Definition wrap_int (z : Z) : Z := (z + 2 ^ 63) mod 2 ^ 64 - 2 ^ 63.

Definition add_int (a b : Z) : Z := wrap_int (a + b).

(** The values an [int] takes. *)
Definition is_int (z : Z) : Prop := min_int <= z <= max_int.

(** [len(x)] as an [int]. *)
Definition len {A} (l : list A) : Z := Z.of_nat (List.length l).

(** The dynamic values an [any] holds in this program: the field
    values of entities, query arguments and scanned columns. *)
Inductive value : Type :=
| VInt (z : Z)
| VStr (s : string)
| VBool (b : bool)
| VNil.

Definition value_eqb (a b : value) : bool :=
  match a, b with
  | VInt x, VInt y => Z.eqb x y
  | VStr x, VStr y => String.eqb x y
  | VBool x, VBool y => Bool.eqb x y
  | VNil, VNil => true
  | _, _ => false
  end.

(** [reflect.DeepEqual] on such values is structural equality. *)
Definition DeepEqual : value -> value -> bool := value_eqb.

(** [fmt.Sprintf("%d", z)]. *)
Definition fmt_d (z : Z) : string :=
  DecimalString.NilZero.string_of_int (Z.to_int z).

(** [fmt.Sprintf("%v", v)]. *)
Definition fmt_v (v : value) : string :=
  match v with
  | VInt z => fmt_d z
  | VStr s => s
  | VBool true => "true"
  | VBool false => "false"
  | VNil => "<nil>"
  end.

(** [fmt.Sprintf("%p", ptr)]: the address in hexadecimal. *)
Definition fmt_p (a : nat) : string :=
  "0x" ++ HexadecimalString.NilZero.string_of_uint (Nat.to_hex_uint a).

(** [strings.Join]. *)
Fixpoint Join (parts : list string) (sep : string) : string :=
  match parts with
  | [] => ""
  | [p] => p
  | p :: ps => p ++ sep ++ Join ps sep
  end.

Definition is_upper (c : ascii) : bool :=
  let n := nat_of_ascii c in (Nat.leb 65 n && Nat.leb n 90)%bool.

Definition lower_ascii (c : ascii) : ascii :=
  if is_upper c then ascii_of_nat (nat_of_ascii c + 32) else c.

(** [strings.ToLower], on the ASCII range. *)
Fixpoint ToLower (s : string) : string :=
  match s with
  | EmptyString => EmptyString
  | String c s' => String (lower_ascii c) (ToLower s')
  end.

Definition comma : ascii := ","%char.
Definition dollar : ascii := "$"%char.

(** [strings.Split(s, ",")[0]], which is also [s[:strings.Index(s, ",")]]
    when there is a comma and [s] otherwise. *)
Fixpoint before_comma (s : string) : string :=
  match s with
  | EmptyString => EmptyString
  | String c s' =>
      if Ascii.eqb c comma then EmptyString else String c (before_comma s')
  end.

End GoRuntime.
Export GoRuntime.

(* ================================================================= *)
(** ** Package shared: conditions (condition.go) *)

Module Shared.

(** The implementations of the [Condition] interface. *)
Unset Elimination Schemes.
Inductive Condition : Type :=
| SimpleCondition (Column Op : string) (Value : value)
| InCondition (Column : string) (Values : list value)
| BetweenCondition (Column : string) (Low High : value)
| NullCondition (Column : string) (IsNull : bool)
| LikeCondition (Column Pattern : string)
| AndCondition (Conditions : list Condition)
| OrCondition (Conditions : list Condition)
| NotCondition (Cond : Condition).
Set Elimination Schemes.

(** The loop of [InCondition.ToSQL]:
    [placeholders[i] = fmt.Sprintf("$%d", idx+i)]. *)
Fixpoint in_placeholders {A} (vals : list A) (idx i : Z) : list string :=
  match vals with
  | [] => []
  | _ :: vs => ("$" ++ fmt_d (add_int idx i)) :: in_placeholders vs idx (i + 1)
  end.

(** The loop shared by [AndCondition.ToSQL], [OrCondition.ToSQL],
    [Query.buildSQL] and [Query.Count]: lower each condition at the
    running index, collect the fragments and the arguments. *)
Definition lower_step (lower : Condition -> Z -> string * list value * Z)
    (st : list string * list value * Z) (cond : Condition)
    : list string * list value * Z :=
  let '(parts, args, idx) := st in
  let '(sql, a, nextIdx) := lower cond idx in
  ((parts ++ [sql])%list, (args ++ a)%list, nextIdx).

Definition lower_all (lower : Condition -> Z -> string * list value * Z)
    (conds : list Condition) (idx : Z) : list string * list value * Z :=
  fold_left (lower_step lower) conds ([], [], idx).

Fixpoint ToSQL (c : Condition) (idx : Z) {struct c}
    : string * list value * Z :=
  match c with
  | SimpleCondition col op v =>
      (col ++ " " ++ op ++ " $" ++ fmt_d idx, [v], add_int idx 1)
  | InCondition col vals =>
      match vals with
      | [] => ("FALSE", [], idx)
      | _ =>
          (col ++ " IN (" ++ Join (in_placeholders vals idx 0) ", " ++ ")",
           vals, add_int idx (len vals))
      end
  | BetweenCondition col lo hi =>
      (col ++ " BETWEEN $" ++ fmt_d idx ++ " AND $" ++ fmt_d (add_int idx 1),
       [lo; hi], add_int idx 2)
  | NullCondition col isNull =>
      if isNull then (col ++ " IS NULL", [], idx)
      else (col ++ " IS NOT NULL", [], idx)
  | LikeCondition col pat =>
      (col ++ " LIKE $" ++ fmt_d idx, [VStr pat], add_int idx 1)
  | AndCondition conds =>
      match conds with
      | [] => ("TRUE", [], idx)
      | _ =>
          let '(parts, args, idx') :=
            fold_left (lower_step ToSQL) conds ([], [], idx) in
          ("(" ++ Join parts " AND " ++ ")", args, idx')
      end
  | OrCondition conds =>
      match conds with
      | [] => ("FALSE", [], idx)
      | _ =>
          let '(parts, args, idx') :=
            fold_left (lower_step ToSQL) conds ([], [], idx) in
          ("(" ++ Join parts " OR " ++ ")", args, idx')
      end
  | NotCondition c' =>
      let '(sql, args, nextIdx) := ToSQL c' idx in
      ("NOT (" ++ sql ++ ")", args, nextIdx)
  end.

(** Induction over condition trees, through the lists of children. *)

Section ConditionInduction.
Variable P : Condition -> Prop.
Hypothesis HSimple : forall col op v, P (SimpleCondition col op v).
Hypothesis HIn : forall col vals, P (InCondition col vals).
Hypothesis HBetween : forall col lo hi, P (BetweenCondition col lo hi).
Hypothesis HNull : forall col b, P (NullCondition col b).
Hypothesis HLike : forall col pat, P (LikeCondition col pat).
Hypothesis HAnd : forall cs, Forall P cs -> P (AndCondition cs).
Hypothesis HOr : forall cs, Forall P cs -> P (OrCondition cs).
Hypothesis HNot : forall c, P c -> P (NotCondition c).

Fixpoint Condition_tree_ind (c : Condition) : P c :=
  match c with
  | SimpleCondition col op v => HSimple col op v
  | InCondition col vals => HIn col vals
  | BetweenCondition col lo hi => HBetween col lo hi
  | NullCondition col b => HNull col b
  | LikeCondition col pat => HLike col pat
  | AndCondition cs =>
      HAnd cs ((fix all (l : list Condition) : Forall P l :=
                  match l with
                  | [] => Forall_nil P
                  | x :: l' => Forall_cons x (Condition_tree_ind x) (all l')
                  end) cs)
  | OrCondition cs =>
      HOr cs ((fix all (l : list Condition) : Forall P l :=
                 match l with
                 | [] => Forall_nil P
                 | x :: l' => Forall_cons x (Condition_tree_ind x) (all l')
                 end) cs)
  | NotCondition c' => HNot c' (Condition_tree_ind c')
  end.
End ConditionInduction.

Definition And (conditions : list Condition) : Condition :=
  AndCondition conditions.
Definition Or (conditions : list Condition) : Condition :=
  OrCondition conditions.
Definition Not (condition : Condition) : Condition :=
  NotCondition condition.

(** order_by.go *)
Record OrderBy : Type := { ob_Column : string; ob_Direction : string }.

Definition OrderBy_ToSQL (o : OrderBy) : string :=
  ob_Column o ++ " " ++ ob_Direction o.

End Shared.
Export Shared.


(* ================================================================= *)
(** ** Reflection: struct types and struct values *)

Module Reflect.

(** The kinds of the fields entities have here. *)
Inductive Kind : Type := KInt | KString | KBool.

(** A struct field: its Go name, its [apolon] tag
    ([f.Tag.Get("apolon")]) and the kind of its type.  Fields are
    exported: [reflect] panics in [Interface()] on any other. *)
Record StructField : Type := {
  Name : string;
  Tag : string;
  FieldKind : Kind
}.

Record StructType : Type := {
  TypeName : string;
  Fields : list StructField
}.

(** A struct value: what an entity pointer points to. *)
Record Struct : Type := {
  type_of : StructType;
  field_values : list value
}.

Definition Kind_eqb (a b : Kind) : bool :=
  match a, b with
  | KInt, KInt | KString, KString | KBool, KBool => true
  | _, _ => false
  end.

Definition StructField_eqb (a b : StructField) : bool :=
  String.eqb (Name a) (Name b) && String.eqb (Tag a) (Tag b)
  && Kind_eqb (FieldKind a) (FieldKind b).

Fixpoint fields_eqb (a b : list StructField) : bool :=
  match a, b with
  | [], [] => true
  | x :: a', y :: b' => StructField_eqb x y && fields_eqb a' b'
  | _, _ => false
  end.

(** Identity of types, as a type assertion on a pointer tests it. *)
Definition StructType_eqb (a b : StructType) : bool :=
  String.eqb (TypeName a) (TypeName b) && fields_eqb (Fields a) (Fields b).

Definition no_field : StructField := {| Name := ""; Tag := ""; FieldKind := KInt |}.

Definition NumField (t : StructType) : nat := List.length (Fields t).

(** [t.Field(i)] and [v.Field(i).Interface()]. *)
Definition TypeField (t : StructType) (i : nat) : StructField :=
  nth i (Fields t) no_field.

Definition Field (v : Struct) (i : nat) : value :=
  nth i (field_values v) VNil.

Fixpoint index_of_name (fs : list StructField) (name : string) (i : nat)
    : option nat :=
  match fs with
  | [] => None
  | f :: fs' =>
      if String.eqb (Name f) name then Some i
      else index_of_name fs' name (S i)
  end.

(** [t.FieldByName(name)]: the index of the field, if there is one. *)
Definition FieldByName (t : StructType) (name : string) : option nat :=
  index_of_name (Fields t) name 0.

Definition zero_of (k : Kind) : value :=
  match k with
  | KInt => VInt 0
  | KString => VStr ""
  | KBool => VBool false
  end.

(** [reflect.ValueOf(v).IsZero()]; it panics on a nil interface. *)
Definition isZeroValue (v : value) : option bool :=
  match v with
  | VInt z => Some (Z.eqb z 0)
  | VStr s => Some (String.eqb s "")
  | VBool b => Some (negb b)
  | VNil => None
  end.

(** [val.Type().ConvertibleTo(field.Type())] and [val.Convert]:
    integers convert to integers and, as runes, to strings; strings
    to strings; booleans to booleans.  [rune] is Go's conversion
    [string(rune(z))]. *)
Definition Convert (rune : Z -> string) (v : value) (k : Kind)
    : option value :=
  match k, v with
  | KInt, VInt z => Some (VInt z)
  | KString, VStr s => Some (VStr s)
  | KString, VInt z => Some (VStr (rune z))
  | KBool, VBool b => Some (VBool b)
  | _, _ => None
  end.

Fixpoint set_nth (i : nat) (x : value) (l : list value) : list value :=
  match l, i with
  | [], _ => []
  | _ :: l', O => x :: l'
  | y :: l', S i' => y :: set_nth i' x l'
  end.

(** [v.Field(i).Set(x)]. *)
Definition SetField (v : Struct) (i : nat) (x : value) : Struct :=
  {| type_of := type_of v; field_values := set_nth i x (field_values v) |}.

End Reflect.
Export Reflect.

(* ================================================================= *)
(** ** Package shared: entity states (entity_state.go), models (model.go) *)

Module SharedModel.

Inductive EntityState : Type :=
| Detached | Unchanged | Added | Modified | Deleted.

Definition EntityState_eqb (a b : EntityState) : bool :=
  match a, b with
  | Detached, Detached | Unchanged, Unchanged | Added, Added
  | Modified, Modified | Deleted, Deleted => true
  | _, _ => false
  end.

Record ModelInfo : Type := { Table : string; Columns : list string }.

(** The loop of [ParseModel]: a field tagged ["-"] is skipped, an
    untagged one is named by its lower-cased Go name, a tagged one by
    the tag up to its first comma. *)
Fixpoint model_columns (fs : list StructField) : list string :=
  match fs with
  | [] => []
  | f :: fs' =>
      if String.eqb (Tag f) "-" then model_columns fs'
      else if String.eqb (Tag f) "" then ToLower (Name f) :: model_columns fs'
      else before_comma (Tag f) :: model_columns fs'
  end.

Definition ParseModel (t : StructType) : ModelInfo :=
  {| Table := ToLower (TypeName t) ++ "s";
     Columns := model_columns (Fields t) |}.

End SharedModel.
Export SharedModel.

(* ================================================================= *)
(** ** Package apolon: the world the runtime works in *)

Module Store.

(** Entities are handled through pointers to struct values. *)
Definition ptr : Type := nat.

(** Go maps keyed by strings ([map[string]V]): lookup, assignment
    (an existing key keeps its place) and [delete]. *)
Fixpoint map_get {V} (k : string) (m : list (string * V)) : option V :=
  match m with
  | [] => None
  | (k', v) :: m' => if String.eqb k' k then Some v else map_get k m'
  end.

Fixpoint map_set {V} (k : string) (v : V) (m : list (string * V))
    : list (string * V) :=
  match m with
  | [] => [(k, v)]
  | (k', v') :: m' =>
      if String.eqb k' k then (k, v) :: m' else (k', v') :: map_set k v m'
  end.

Fixpoint map_delete {V} (k : string) (m : list (string * V))
    : list (string * V) :=
  match m with
  | [] => []
  | (k', v') :: m' =>
      if String.eqb k' k then map_delete k m' else (k', v') :: map_delete k m'
  end.

(** entity_entry.go: [EntityEntry]. *)
Record EntityEntry : Type := {
  Entity : ptr;
  State : EntityState;
  OriginalValues : list (string * value);
  entityType : StructType;
  pkField : string;
  pkValue : value
}.

(** A statement handed to the driver: SQL text and positional
    arguments. *)
Record Stmt : Type := { sql : string; args : list value }.

(** The errors the runtime returns. *)
Inductive error : Type :=
| BeginFailed | CommitFailed | InsertFailed | UpdateFailed | DeleteFailed
| QueryFailed | ScanFailed.

(** The database behind [*sql.DB]: the statements whose effects are
    durable, and for every open transaction the statements it has
    applied but not yet committed. *)
Record Database : Type := {
  durable : list Stmt;
  open_txs : list (nat * list Stmt);
  next_tx : nat
}.

Fixpoint tx_get (h : nat) (txs : list (nat * list Stmt))
    : option (list Stmt) :=
  match txs with
  | [] => None
  | (h', p) :: txs' => if Nat.eqb h' h then Some p else tx_get h txs'
  end.

Fixpoint tx_set (h : nat) (p : list Stmt) (txs : list (nat * list Stmt))
    : list (nat * list Stmt) :=
  match txs with
  | [] => [(h, p)]
  | (h', p') :: txs' =>
      if Nat.eqb h' h then (h, p) :: txs' else (h', p') :: tx_set h p txs'
  end.

Fixpoint tx_del (h : nat) (txs : list (nat * list Stmt))
    : list (nat * list Stmt) :=
  match txs with
  | [] => []
  | (h', p') :: txs' =>
      if Nat.eqb h' h then tx_del h txs' else (h', p') :: tx_del h txs'
  end.

(** What the runtime does not decide: the answers of the database
    driver, [database/sql]'s row scanning, the order in which a
    [range] walks a map (an arbitrary one at each loop, numbered by
    the loop), and Go's rune-to-string conversion. *)
Record Env : Type := {
  env_begin : Database -> bool;
  env_exec : Database -> Stmt -> option Z;
  env_query_row : Database -> Stmt -> option value;
  env_query : Database -> Stmt -> option (list (list value));
  env_scan : list Kind -> list value -> option (list value);
  env_commit : Database -> bool;
  env_range : nat -> list (string * EntityEntry) -> list (string * EntityEntry);
  env_rune : Z -> string
}.

Inductive Action : Type := ActDelete | ActInsert | ActUpdate.

(** What a run does, in order: tracker sweeps, the entries the flush
    acts on, and every call on the connection or on a transaction
    (with the entity a statement is issued for). *)
Inductive Event : Type :=
| EvDetectChanges
| EvBegin (ok : bool)
| EvProcess (a : Action) (key : string)
| EvTxExec (tx : nat) (entity : ptr) (s : Stmt) (r : option Z)
| EvConnQueryRow (entity : ptr) (s : Stmt) (r : option value)
| EvConnQuery (s : Stmt) (ok : bool)
| EvCommit (tx : nat) (ok : bool)
| EvRollback (tx : nat)
| EvAcceptAllChanges.

(** The state of one [*DB] handle and of what it reaches: the
    entities in memory, the tracker's entries
    ([ChangeTracker.entries]), the database, and the history. *)
Record World : Type := {
  heap : ptr -> Struct;
  next_ptr : ptr;
  entries : list (string * EntityEntry);
  conn : Database;
  trace : list Event
}.

Definition with_heap (w : World) (h : ptr -> Struct) : World :=
  {| heap := h; next_ptr := next_ptr w; entries := entries w;
     conn := conn w; trace := trace w |}.

Definition with_entries (w : World) (es : list (string * EntityEntry))
    : World :=
  {| heap := heap w; next_ptr := next_ptr w; entries := es;
     conn := conn w; trace := trace w |}.

Definition with_conn (w : World) (d : Database) : World :=
  {| heap := heap w; next_ptr := next_ptr w; entries := entries w;
     conn := d; trace := trace w |}.

Definition log (w : World) (ev : Event) : World :=
  {| heap := heap w; next_ptr := next_ptr w; entries := entries w;
     conn := conn w; trace := (trace w ++ [ev])%list |}.

Definition store (h : ptr -> Struct) (p : ptr) (v : Struct) : ptr -> Struct :=
  fun q => if Nat.eqb q p then v else h q.

(** Results: a value, a Go [error], or a panic. *)
Inductive res (A : Type) : Type :=
| Ok (a : A)
| Error (e : error)
| Panic.
Arguments Ok {A} a.
Arguments Error {A} e.
Arguments Panic {A}.

(** [tx.Exec(query, args...)]: refused on a transaction that is no
    longer open. *)
Definition tx_exec (E : Env) (tx : nat) (entity : ptr) (s : Stmt) (w : World)
    : option Z * World :=
  match tx_get tx (open_txs (conn w)) with
  | None => (None, log w (EvTxExec tx entity s None))
  | Some p =>
      match env_exec E (conn w) s with
      | Some n =>
          let d := {| durable := durable (conn w);
                      open_txs := tx_set tx (p ++ [s])%list (open_txs (conn w));
                      next_tx := next_tx (conn w) |} in
          (Some n, log (with_conn w d) (EvTxExec tx entity s (Some n)))
      | None => (None, log w (EvTxExec tx entity s None))
      end
  end.

(** [conn.QueryRow(query, args...).Scan(&x)] on the connection itself:
    the statement runs in no transaction and its effect is durable at
    once. *)
Definition conn_query_row (E : Env) (entity : ptr) (s : Stmt) (w : World)
    : option value * World :=
  match env_query_row E (conn w) s with
  | Some v =>
      let d := {| durable := (durable (conn w) ++ [s])%list;
                  open_txs := open_txs (conn w);
                  next_tx := next_tx (conn w) |} in
      (Some v, log (with_conn w d) (EvConnQueryRow entity s (Some v)))
  | None => (None, log w (EvConnQueryRow entity s None))
  end.

(** [conn.Begin()]. *)
Definition conn_begin (E : Env) (w : World) : option nat * World :=
  if env_begin E (conn w) then
    let h := next_tx (conn w) in
    let d := {| durable := durable (conn w);
                open_txs := tx_set h [] (open_txs (conn w));
                next_tx := S h |} in
    (Some h, log (with_conn w d) (EvBegin true))
  else (None, log w (EvBegin false)).

(** [tx.Commit()]: what the transaction applied becomes durable; a
    failed commit leaves nothing of it. *)
Definition tx_commit (E : Env) (tx : nat) (w : World) : bool * World :=
  match tx_get tx (open_txs (conn w)) with
  | None => (false, log w (EvCommit tx false))
  | Some p =>
      if env_commit E (conn w) then
        let d := {| durable := (durable (conn w) ++ p)%list;
                    open_txs := tx_del tx (open_txs (conn w));
                    next_tx := next_tx (conn w) |} in
        (true, log (with_conn w d) (EvCommit tx true))
      else
        let d := {| durable := durable (conn w);
                    open_txs := tx_del tx (open_txs (conn w));
                    next_tx := next_tx (conn w) |} in
        (false, log (with_conn w d) (EvCommit tx false))
  end.

(** [tx.Rollback()]. *)
Definition tx_rollback (tx : nat) (w : World) : World :=
  let d := {| durable := durable (conn w);
              open_txs := tx_del tx (open_txs (conn w));
              next_tx := next_tx (conn w) |} in
  log (with_conn w d) (EvRollback tx).

End Store.
Export Store.

(* ================================================================= *)
(** ** Package apolon: entity entries (entity_entry.go) *)

Module Entry.

(** [splitTag]: the non-empty pieces between commas; [cur] is the
    piece being read. *)
Fixpoint splitTag_from (tag : string) (cur : string) : list string :=
  match tag with
  | EmptyString => if String.eqb cur "" then [] else [cur]
  | String c tag' =>
      if Ascii.eqb c comma then
        if String.eqb cur "" then splitTag_from tag' ""
        else cur :: splitTag_from tag' ""
      else splitTag_from tag' (cur ++ String c "")
  end.

Definition splitTag (tag : string) : list string := splitTag_from tag "".

Definition containsPK (tag : string) : bool :=
  existsb (fun part => String.eqb part "pk") (splitTag tag).

Definition set_State (e : EntityEntry) (s : EntityState) : EntityEntry :=
  {| Entity := Entity e; State := s; OriginalValues := OriginalValues e;
     entityType := entityType e; pkField := pkField e; pkValue := pkValue e |}.

Definition set_OriginalValues (e : EntityEntry) (m : list (string * value))
    : EntityEntry :=
  {| Entity := Entity e; State := State e; OriginalValues := m;
     entityType := entityType e; pkField := pkField e; pkValue := pkValue e |}.

(** The first loop of [captureMetadata]: the first field whose tag
    has the [pk] option. *)
Fixpoint first_pk (fs : list StructField) (v : Struct) (i : nat)
    : option (string * value) :=
  match fs with
  | [] => None
  | f :: fs' =>
      if containsPK (Tag f) then Some (Name f, Field v i)
      else first_pk fs' v (S i)
  end.

Definition captureMetadata (h : ptr -> Struct) (e : EntityEntry)
    : EntityEntry :=
  let v := h (Entity e) in
  let t := type_of v in
  let '(pkf, pkv) :=
    match first_pk (Fields t) v 0 with
    | Some found => found
    | None => (pkField e, pkValue e)
    end in
  let '(pkf, pkv) :=
    if String.eqb pkf "" then
      match FieldByName t "ID" with
      | Some i => (Name (TypeField t i), Field v i)
      | None => (pkf, pkv)
      end
    else (pkf, pkv) in
  {| Entity := Entity e; State := State e;
     OriginalValues := OriginalValues e;
     entityType := t; pkField := pkf; pkValue := pkv |}.

(** The loop of [captureOriginalValues] over the field indices. *)
Definition snapshot_step (t : StructType) (v : Struct)
    (m : list (string * value)) (i : nat) : list (string * value) :=
  map_set (Name (TypeField t i)) (Field v i) m.

Definition captureOriginalValues (h : ptr -> Struct) (e : EntityEntry)
    : EntityEntry :=
  let v := h (Entity e) in
  set_OriginalValues e
    (fold_left (snapshot_step (entityType e) v)
       (seq 0 (NumField (type_of v))) (OriginalValues e)).

Definition newEntityEntry (h : ptr -> Struct) (entity : ptr)
    (state : EntityState) : EntityEntry :=
  let entry := {| Entity := entity; State := state; OriginalValues := [];
                  entityType := {| TypeName := ""; Fields := [] |};
                  pkField := ""; pkValue := VNil |} in
  let entry := captureMetadata h entry in
  match state with
  | Unchanged | Modified => captureOriginalValues h entry
  | _ => entry
  end.

(** [GetPrimaryKey]: the current value of the key field, [nil] when
    the entry has none. *)
Definition GetPrimaryKey (h : ptr -> Struct) (e : EntityEntry) : value :=
  let v := h (Entity e) in
  if String.eqb (pkField e) "" then VNil
  else match FieldByName (type_of v) (pkField e) with
       | Some i => Field v i
       | None => VNil
       end.

Definition changed_step (e : EntityEntry) (v : Struct)
    (changed : list (string * value)) (i : nat) : list (string * value) :=
  let fieldName := Name (TypeField (entityType e) i) in
  let currentValue := Field v i in
  match map_get fieldName (OriginalValues e) with
  | Some originalValue =>
      if negb (DeepEqual currentValue originalValue)
      then map_set fieldName currentValue changed
      else changed
  | None => changed
  end.

(** [GetChangedProperties]; the [nil] map of the other states is the
    empty one. *)
Definition GetChangedProperties (h : ptr -> Struct) (e : EntityEntry)
    : list (string * value) :=
  match State e with
  | Modified | Unchanged =>
      let v := h (Entity e) in
      fold_left (changed_step e v) (seq 0 (NumField (type_of v))) []
  | _ => []
  end.

Definition HasChanges (h : ptr -> Struct) (e : EntityEntry) : bool :=
  match State e with
  | Added | Deleted => true
  | _ => Nat.ltb 0 (List.length (GetChangedProperties h e))
  end.

Definition DetectChanges (h : ptr -> Struct) (e : EntityEntry)
    : EntityEntry :=
  match State e with
  | Unchanged =>
      if Nat.ltb 0 (List.length (GetChangedProperties h e))
      then set_State e Modified else e
  | _ => e
  end.

Definition AcceptChanges (h : ptr -> Struct) (e : EntityEntry)
    : EntityEntry :=
  captureOriginalValues h (set_State e Unchanged).

End Entry.
Export Entry.

(* ================================================================= *)
(** ** Package apolon: the change tracker (change_tracker.go) *)

Module ChangeTracker.

(** [makeKey]: type name and key, or type name and address when the
    key is the zero value; [isZeroValue] panics on a [nil] key. *)
Definition makeKey (h : ptr -> Struct) (entity : ptr) (pk : value)
    : option string :=
  let t := type_of (h entity) in
  match isZeroValue pk with
  | None => None
  | Some true => Some (TypeName t ++ ":ptr:" ++ fmt_p entity)
  | Some false => Some (TypeName t ++ ":" ++ fmt_v pk)
  end.

(** [Track]: [None] is the panic of [makeKey]. *)
Definition Track (entity : ptr) (state : EntityState) (w : World)
    : option (string * EntityEntry * World) :=
  let entry := newEntityEntry (heap w) entity state in
  match makeKey (heap w) entity (GetPrimaryKey (heap w) entry) with
  | None => None
  | Some key => Some (key, entry, with_entries w (map_set key entry (entries w)))
  end.

(** [GetEntry]: first an entry for this very pointer, in the order of
    the [range]; then the entry under the entity's key. *)
Definition GetEntry (E : Env) (site : nat) (entity : ptr) (w : World)
    : option (option (string * EntityEntry)) :=
  match find (fun ke => Nat.eqb (Entity (snd ke)) entity)
             (env_range E site (entries w)) with
  | Some ke => Some (Some ke)
  | None =>
      let tempEntry := newEntityEntry (heap w) entity Detached in
      match makeKey (heap w) entity (GetPrimaryKey (heap w) tempEntry) with
      | None => None
      | Some key =>
          match map_get key (entries w) with
          | Some e => Some (Some (key, e))
          | None => Some None
          end
      end
  end.

Definition GetEntryByKey (t : StructType) (pk : value) (w : World)
    : option EntityEntry :=
  map_get (TypeName t ++ ":" ++ fmt_v pk) (entries w).

Definition EntriesByState (E : Env) (site : nat) (state : EntityState)
    (w : World) : list (string * EntityEntry) :=
  filter (fun ke => EntityState_eqb (State (snd ke)) state)
         (env_range E site (entries w)).

(** [ChangeTracker.DetectChanges]: every entry of the map, through
    its pointer. *)
Definition DetectChanges_all (E : Env) (site : nat) (w : World) : World :=
  log (with_entries w
         (fold_left
            (fun m ke => map_set (fst ke) (DetectChanges (heap w) (snd ke)) m)
            (env_range E site (entries w)) (entries w)))
      EvDetectChanges.

Definition AcceptAllChanges (E : Env) (site : nat) (w : World) : World :=
  log (with_entries w
         (fold_left
            (fun m ke =>
               if EntityState_eqb (State (snd ke)) Deleted
               then map_delete (fst ke) m
               else map_set (fst ke) (AcceptChanges (heap w) (snd ke)) m)
            (env_range E site (entries w)) (entries w)))
      EvAcceptAllChanges.

End ChangeTracker.
Export ChangeTracker.

(* ================================================================= *)
(** ** Package apolon: the database handle and the flush (db.go) *)

Module DB.

(** The [range] loops of the run, by number. *)
Definition site_DetectChanges : nat := 0.
Definition site_Deleted : nat := 1.
Definition site_Added : nat := 2.
Definition site_Modified : nat := 3.
Definition site_Unchanged : nat := 4.
Definition site_AcceptAllChanges : nat := 5.
Definition site_GetEntry : nat := 6.

Definition Add (entity : ptr) (w : World)
    : option (string * EntityEntry * World) :=
  Track entity Added w.

Definition mark (E : Env) (state : EntityState) (entity : ptr) (w : World)
    : option (string * EntityEntry * World) :=
  match GetEntry E site_GetEntry entity w with
  | None => None
  | Some (Some (key, entry)) =>
      let entry := set_State entry state in
      Some (key, entry, with_entries w (map_set key entry (entries w)))
  | Some None => Track entity state w
  end.

Definition Update (E : Env) (entity : ptr) (w : World)
    : option (string * EntityEntry * World) :=
  mark E Modified entity w.

Definition Remove (E : Env) (entity : ptr) (w : World)
    : option (string * EntityEntry * World) :=
  mark E Deleted entity w.

Definition Attach (entity : ptr) (w : World)
    : option (string * EntityEntry * World) :=
  Track entity Unchanged w.

(** [getPKColumnName]. *)
Definition getPKColumnName (t : StructType) (pkField : string) : string :=
  match FieldByName t pkField with
  | None => ToLower pkField
  | Some i =>
      let tag := Tag (TypeField t i) in
      if String.eqb tag "" then ToLower pkField else before_comma tag
  end.

(** [setPKValue]; [None] is the panic of [val.Type()] on the
    reflection of a [nil] value. *)
Definition setPKValue (E : Env) (h : ptr -> Struct) (entity : ptr)
    (pkField : string) (x : value) : option (ptr -> Struct) :=
  let v := h entity in
  match FieldByName (type_of v) pkField with
  | None => Some h
  | Some i =>
      match x with
      | VNil => None
      | _ =>
          match Convert (env_rune E) x (FieldKind (TypeField (type_of v) i)) with
          | Some x' => Some (store h entity (SetField v i x'))
          | None => Some h
          end
      end
  end.

(** The loop of [executeInsert] over [info.Fields]. *)
Fixpoint insert_loop (e : EntityEntry) (v : Struct) (columns : list string)
    (i : nat) (acc : list string * list value * list string)
    : option (list string * list value * list string) :=
  match columns with
  | [] => Some acc
  | col :: rest =>
      let '(cols, vals, placeholders) := acc in
      let vals' := (vals ++ [Field v i])%list in
      let taken :=
        insert_loop e v rest (S i)
          ((cols ++ [col])%list, vals',
           (placeholders ++ [("$" ++ fmt_d (len vals'))%string])%list) in
      if negb (String.eqb (pkField e) "")
         && String.eqb (Name (TypeField (entityType e) i)) (pkField e)
      then match isZeroValue (Field v i) with
           | None => None
           | Some true => insert_loop e v rest (S i) acc
           | Some false => taken
           end
      else taken
  end.

Definition executeInsert (E : Env) (tx : nat) (e : EntityEntry) (w : World)
    : res Z * World :=
  let v := heap w (Entity e) in
  let info := ParseModel (type_of v) in
  match insert_loop e v (Columns info) 0 ([], [], []) with
  | None => (Panic, w)
  | Some (cols, vals, placeholders) =>
      let query :=
        "INSERT INTO " ++ Table info ++ " (" ++ Join cols ", "
        ++ ") VALUES (" ++ Join placeholders ", " ++ ")" in
      let pkColName := getPKColumnName (type_of v) (pkField e) in
      if negb (String.eqb (pkField e) "") && negb (String.eqb pkColName "")
      then
        let query := query ++ " RETURNING " ++ pkColName in
        match conn_query_row E (Entity e) {| sql := query; args := vals |} w with
        | (None, w') => (Error InsertFailed, w')
        | (Some newPK, w') =>
            match setPKValue E (heap w') (Entity e) (pkField e) newPK with
            | None => (Panic, w')
            | Some h' => (Ok 1, with_heap w' h')
            end
        end
      else
        match tx_exec E tx (Entity e) {| sql := query; args := vals |} w with
        | (None, w') => (Error InsertFailed, w')
        | (Some n, w') => (Ok n, w')
        end
  end.

(** The loop of [executeUpdate] over [info.Fields]. *)
Fixpoint update_loop (e : EntityEntry) (v : Struct)
    (changed : list (string * value)) (columns : list string) (i : nat)
    (acc : list string * list value * Z) : list string * list value * Z :=
  match columns with
  | [] => acc
  | col :: rest =>
      let '(setClauses, vals, paramIdx) := acc in
      match map_get (Name (TypeField (entityType e) i)) changed with
      | Some _ =>
          update_loop e v changed rest (S i)
            ((setClauses ++ [(col ++ " = $" ++ fmt_d paramIdx)%string])%list,
             (vals ++ [Field v i])%list, add_int paramIdx 1)
      | None => update_loop e v changed rest (S i) acc
      end
  end.

Definition executeUpdate (E : Env) (tx : nat) (e : EntityEntry) (w : World)
    : res Z * World :=
  let changed := GetChangedProperties (heap w) e in
  if Z.eqb (len changed) 0 then (Ok 0, w)
  else
    let v := heap w (Entity e) in
    let info := ParseModel (type_of v) in
    let '(setClauses, vals, paramIdx) :=
      update_loop e v changed (Columns info) 0 ([], [], 1) in
    let pkColName := getPKColumnName (type_of v) (pkField e) in
    let pkValue := GetPrimaryKey (heap w) e in
    let vals := (vals ++ [pkValue])%list in
    let query :=
      "UPDATE " ++ Table info ++ " SET " ++ Join setClauses ", "
      ++ " WHERE " ++ pkColName ++ " = $" ++ fmt_d paramIdx in
    match tx_exec E tx (Entity e) {| sql := query; args := vals |} w with
    | (None, w') => (Error UpdateFailed, w')
    | (Some n, w') => (Ok n, w')
    end.

Definition executeDelete (E : Env) (tx : nat) (e : EntityEntry) (w : World)
    : res Z * World :=
  let v := heap w (Entity e) in
  let info := ParseModel (type_of v) in
  let pkColName := getPKColumnName (type_of v) (pkField e) in
  let pkValue := GetPrimaryKey (heap w) e in
  let query :=
    "DELETE FROM " ++ Table info ++ " WHERE " ++ pkColName ++ " = $1" in
  match tx_exec E tx (Entity e) {| sql := query; args := [pkValue] |} w with
  | (None, w') => (Error DeleteFailed, w')
  | (Some n, w') => (Ok n, w')
  end.

(** What [SaveChangesContext] returns: the count alone, the count so
    far with an error, or a panic that unwinds through it. *)
Inductive outcome : Type :=
| Saved (affected : Z)
| Aborted (affected : Z) (e : error)
| Crashed.

(** One of the first three loops of [SaveChangesContext]. *)
Fixpoint run_entries (exec : EntityEntry -> World -> res Z * World)
    (a : Action) (es : list (string * EntityEntry)) (affected : Z)
    (w : World) : outcome * World :=
  match es with
  | [] => (Saved affected, w)
  | (key, entry) :: es' =>
      match exec entry (log w (EvProcess a key)) with
      | (Ok n, w') => run_entries exec a es' (add_int affected n) w'
      | (Error err, w') => (Aborted affected err, w')
      | (Panic, w') => (Crashed, w')
      end
  end.

(** Its last loop: the [Unchanged] entries that have changes. *)
Fixpoint run_unchanged (E : Env) (tx : nat) (es : list (string * EntityEntry))
    (affected : Z) (w : World) : outcome * World :=
  match es with
  | [] => (Saved affected, w)
  | (key, entry) :: es' =>
      if HasChanges (heap w) entry then
        match executeUpdate E tx entry (log w (EvProcess ActUpdate key)) with
        | (Ok n, w') => run_unchanged E tx es' (add_int affected n) w'
        | (Error err, w') => (Aborted affected err, w')
        | (Panic, w') => (Crashed, w')
        end
      else run_unchanged E tx es' affected w
  end.

(** A loop, then what follows it unless it returned. *)
Definition and_then (r : outcome * World)
    (k : Z -> World -> outcome * World) : outcome * World :=
  match r with
  | (Saved affected, w) => k affected w
  | other => other
  end.

(** The four loops, on the transaction [tx]. *)
Definition flush_statements (E : Env) (tx : nat) (w : World)
    : outcome * World :=
  and_then
    (run_entries (executeDelete E tx) ActDelete
       (EntriesByState E site_Deleted Deleted w) 0 w)
    (fun affected w =>
  and_then
    (run_entries (executeInsert E tx) ActInsert
       (EntriesByState E site_Added Added w) affected w)
    (fun affected w =>
  and_then
    (run_entries (executeUpdate E tx) ActUpdate
       (EntriesByState E site_Modified Modified w) affected w)
    (fun affected w =>
     run_unchanged E tx
       (EntriesByState E site_Unchanged Unchanged w) affected w))).

(** The deferred function: roll back while the flush still owns its
    transaction. *)
Definition deferred (ownTx : bool) (tx : nat) (w : World) : World :=
  if ownTx then tx_rollback tx w else w.

Definition SaveChangesContext (E : Env) (tx : option nat) (w : World)
    : outcome * World :=
  let w := DetectChanges_all E site_DetectChanges w in
  let begun :=
    match tx with
    | Some h => (Some (h, false), w)
    | None =>
        match conn_begin E w with
        | (Some h, w') => (Some (h, true), w')
        | (None, w') => (None, w')
        end
    end in
  match begun with
  | (None, w) => (Aborted 0 BeginFailed, w)
  | (Some (h, ownTx), w) =>
      match flush_statements E h w with
      | (Saved affected, w) =>
          if ownTx then
            match tx_commit E h w with
            | (true, w) =>
                (Saved affected, AcceptAllChanges E site_AcceptAllChanges w)
            | (false, w) => (Aborted affected CommitFailed, deferred true h w)
            end
          else (Saved affected, AcceptAllChanges E site_AcceptAllChanges w)
      | (other, w) => (other, deferred ownTx h w)
      end
  end.

Definition SaveChanges (E : Env) (w : World) : outcome * World :=
  SaveChangesContext E None w.

End DB.
Export DB.

(* ================================================================= *)
(** ** Package apolon: the query builder (query.go) *)

Module QueryBuilder.

(** [Query[T]]; [q_type] is the entity type [T]. *)
Record Query : Type := {
  q_type : StructType;
  q_table : string;
  q_columns : list string;
  q_conditions : list Condition;
  q_orderBys : list OrderBy;
  q_limit : option Z;
  q_offset : option Z;
  q_tracking : bool
}.

Definition newQuery (T : StructType) : Query :=
  let info := ParseModel T in
  {| q_type := T; q_table := Table info; q_columns := Columns info;
     q_conditions := []; q_orderBys := []; q_limit := None;
     q_offset := None; q_tracking := true |}.

Definition Where (q : Query) (c : Condition) : Query :=
  {| q_type := q_type q; q_table := q_table q; q_columns := q_columns q;
     q_conditions := (q_conditions q ++ [c])%list;
     q_orderBys := q_orderBys q; q_limit := q_limit q;
     q_offset := q_offset q; q_tracking := q_tracking q |}.

Definition OrderBy_ (q : Query) (o : OrderBy) : Query :=
  {| q_type := q_type q; q_table := q_table q; q_columns := q_columns q;
     q_conditions := q_conditions q;
     q_orderBys := (q_orderBys q ++ [o])%list; q_limit := q_limit q;
     q_offset := q_offset q; q_tracking := q_tracking q |}.

Definition Limit (q : Query) (n : Z) : Query :=
  {| q_type := q_type q; q_table := q_table q; q_columns := q_columns q;
     q_conditions := q_conditions q; q_orderBys := q_orderBys q;
     q_limit := Some n; q_offset := q_offset q; q_tracking := q_tracking q |}.

Definition Offset (q : Query) (n : Z) : Query :=
  {| q_type := q_type q; q_table := q_table q; q_columns := q_columns q;
     q_conditions := q_conditions q; q_orderBys := q_orderBys q;
     q_limit := q_limit q; q_offset := Some n; q_tracking := q_tracking q |}.

Definition set_tracking (q : Query) (b : bool) : Query :=
  {| q_type := q_type q; q_table := q_table q; q_columns := q_columns q;
     q_conditions := q_conditions q; q_orderBys := q_orderBys q;
     q_limit := q_limit q; q_offset := q_offset q; q_tracking := b |}.

Definition AsTracking (q : Query) : Query := set_tracking q true.
Definition AsNoTracking (q : Query) : Query := set_tracking q false.

(** [buildSQL]: the text is built piece by piece as the
    [strings.Builder] receives it. *)
Definition buildSQL (q : Query) : string * list value :=
  let sb := "SELECT " ++ Join (q_columns q) ", " ++ " FROM " ++ q_table q in
  let '(sb, args) :=
    match q_conditions q with
    | [] => (sb, [])
    | _ =>
        let '(whereParts, args, _) := lower_all ToSQL (q_conditions q) 1 in
        (sb ++ " WHERE " ++ Join whereParts " AND ", args)
    end in
  let sb :=
    match q_orderBys q with
    | [] => sb
    | _ => sb ++ " ORDER BY " ++ Join (map OrderBy_ToSQL (q_orderBys q)) ", "
    end in
  let sb :=
    match q_limit q with
    | Some n => sb ++ " LIMIT " ++ fmt_d n
    | None => sb
    end in
  let sb :=
    match q_offset q with
    | Some n => sb ++ " OFFSET " ++ fmt_d n
    | None => sb
    end in
  (sb, args).

Definition ToSQL_query (q : Query) : string * list value := buildSQL q.

(** [conn.Query]: a read, nothing of the database changes. *)
Definition conn_query (E : Env) (s : Stmt) (w : World)
    : option (list (list value)) * World :=
  match env_query E (conn w) s with
  | Some rows => (Some rows, log w (EvConnQuery s true))
  | None => (None, log w (EvConnQuery s false))
  end.

(** The loop over [rows.Next()] with [scanStruct]: every row is
    scanned into the fields of a new [T], in the order of the
    fields. *)
Fixpoint scan_rows (E : Env) (T : StructType) (rows : list (list value))
    : option (list Struct) :=
  match rows with
  | [] => Some []
  | row :: rows' =>
      match env_scan E (map FieldKind (Fields T)) row with
      | None => None
      | Some vals =>
          match scan_rows E T rows' with
          | None => None
          | Some items =>
              Some ({| type_of := T; field_values := vals |} :: items)
          end
      end
  end.

(** The elements of the result slice in memory: consecutive fresh
    addresses. *)
Fixpoint place (items : list Struct) (h : ptr -> Struct) (p : ptr)
    : list ptr * (ptr -> Struct) * ptr :=
  match items with
  | [] => ([], h, p)
  | v :: items' =>
      let '(ps, h', p') := place items' (store h p v) (S p) in
      (p :: ps, h', p')
  end.

(** [Track(&results[i], Unchanged)] for every [i]. *)
Fixpoint track_all (ps : list ptr) (w : World) : option World :=
  match ps with
  | [] => Some w
  | p :: ps' =>
      match Track p Unchanged w with
      | None => None
      | Some (_, _, w') => track_all ps' w'
      end
  end.

(** [ToSlice]: the result is the list of the addresses of the
    elements of the slice it returns. *)
Definition ToSlice (E : Env) (q : Query) (w : World)
    : res (list ptr) * World :=
  let '(text, qargs) := buildSQL q in
  match conn_query E {| sql := text; args := qargs |} w with
  | (None, w) => (Error QueryFailed, w)
  | (Some rows, w) =>
      match scan_rows E (q_type q) rows with
      | None => (Error ScanFailed, w)
      | Some items =>
          let '(ps, h, p) := place items (heap w) (next_ptr w) in
          let w := {| heap := h; next_ptr := p; entries := entries w;
                      conn := conn w; trace := trace w |} in
          if q_tracking q then
            match track_all ps w with
            | None => (Panic, w)
            | Some w' => (Ok ps, w')
            end
          else (Ok ps, w)
      end
  end.

(** [First]: sets the limit of the query it is called on. *)
Definition First (E : Env) (q : Query) (w : World)
    : res (option ptr) * Query * World :=
  let q := Limit q 1 in
  match ToSlice E q w with
  | (Ok [], w) => (Ok None, q, w)
  | (Ok (p :: _), w) => (Ok (Some p), q, w)
  | (Error e, w) => (Error e, q, w)
  | (Panic, w) => (Panic, q, w)
  end.

(** The first loop of [getPKColumnFromType]. *)
Fixpoint first_pk_column (fs : list StructField) : option string :=
  match fs with
  | [] => None
  | f :: fs' =>
      if containsPK (Tag f) then Some (before_comma (Tag f))
      else first_pk_column fs'
  end.

Definition getPKColumnFromType (T : StructType) : string :=
  match first_pk_column (Fields T) with
  | Some col => col
  | None =>
      match FieldByName T "ID" with
      | Some i =>
          let tag := Tag (TypeField T i) in
          if String.eqb tag "" then "id" else before_comma tag
      | None => "id"
      end
  end.

(** [Find]: the identity map first, the database on a miss. *)
Definition Find (E : Env) (q : Query) (pk : value) (w : World)
    : res (option ptr) * Query * World :=
  let hit :=
    match GetEntryByKey (q_type q) pk w with
    | Some entry =>
        if StructType_eqb (type_of (heap w (Entity entry))) (q_type q)
        then Some (Entity entry) else None
    | None => None
    end in
  match hit with
  | Some result => (Ok (Some result), q, w)
  | None =>
      let pkColName := getPKColumnFromType (q_type q) in
      First E (Where q (SimpleCondition pkColName "=" pk)) w
  end.

End QueryBuilder.
Export QueryBuilder.

(* ================================================================= *)
(** ** Well-formed inputs *)

Module Wf.

(** Every [range] over a map visits each of its entries once, in
    some order. *)
Definition fair_range (E : Env) : Prop :=
  forall site (m : list (string * EntityEntry)),
    Permutation (env_range E site m) m.

(** The entries of the tracker form a map: one entry per key. *)
Definition tracker_ok (w : World) : Prop := NoDup (map fst (entries w)).

(** A struct type declares each field name once. *)
Definition type_ok (t : StructType) : Prop := NoDup (map Name (Fields t)).


(** The entries a run acts on, in order. *)
Fixpoint actions_of (evs : list Event) : list (Action * string) :=
  match evs with
  | [] => []
  | EvProcess a key :: evs' => (a, key) :: actions_of evs'
  | _ :: evs' => actions_of evs'
  end.

(** A statement issued for the entity at [p]. *)
Definition stmt_for (p : ptr) (ev : Event) : bool :=
  match ev with
  | EvTxExec _ q _ _ => Nat.eqb q p
  | EvConnQueryRow q _ _ => Nat.eqb q p
  | _ => false
  end.

(** The events of the loops of a flush: an entry is taken up, or a
    statement is issued. *)
Definition dml_event (ev : Event) : bool :=
  match ev with
  | EvProcess _ _ | EvTxExec _ _ _ _ | EvConnQueryRow _ _ _ => true
  | _ => false
  end.

(** What acting on one entry may do to the world: at most one
    statement, issued for the entity of the entry; no other entity
    changes, no entity changes its type or its number of fields, and
    the tracker and the transactions other than [tx] are left
    alone. *)
Definition entry_effect (p : ptr) (w w' : World) : Prop :=
  entries w' = entries w /\
  (forall q, q <> p -> heap w' q = heap w q) /\
  (forall q, type_of (heap w' q) = type_of (heap w q)) /\
  (forall q, List.length (field_values (heap w' q))
             = List.length (field_values (heap w q))) /\
  exists evs, trace w' = (trace w ++ evs)%list /\
              forallb (stmt_for p) evs = true.

(** What the loops of a flush leave as it is: the tracker, and the
    type and the number of fields of every entity. *)
Definition same_shape (w w' : World) : Prop :=
  entries w' = entries w /\
  (forall q, type_of (heap w' q) = type_of (heap w q)) /\
  (forall q, List.length (field_values (heap w' q))
             = List.length (field_values (heap w q))).

(** The place of a state in the order of the flush. *)
Definition phase (s : EntityState) : nat :=
  match s with
  | Deleted => 0 | Added => 1 | Modified => 2 | Unchanged => 3
  | Detached => 4
  end.

(** No statement is issued for the entity at [p], and its field
    values stay as they are, over the part of a run from [w0] to [w]. *)
Definition untouched (p : ptr) (w0 w : World) : Prop :=
  heap w p = heap w0 p /\
  exists evs, trace w = (trace w0 ++ evs)%list /\
              forallb (fun ev => negb (stmt_for p ev)) evs = true.

(** A list without its element of index [i]. *)
Definition drop_nth {A} (i : nat) (l : list A) : list A :=
  (firstn i l ++ skipn (S i) l)%list.

(** The placeholders [$a+1 .. $a+n]. *)
Definition numbered (a n : nat) : list string :=
  map (fun m => "$" ++ fmt_d (Z.of_nat (a + m))) (seq 1 n).

(** Every field of the type is a column: none is tagged ["-"]. *)
Definition all_mapped (t : StructType) : bool :=
  forallb (fun f => negb (String.eqb (Tag f) "-")) (Fields t).

(** A struct value has a value for each field of its type. *)
Definition struct_ok (v : Struct) : Prop :=
  List.length (field_values v) = NumField (type_of v).

(** The database generates keys that are there (not NULL), fit a key
    field of kind [k] and are not its zero value. *)
Definition generates_keys (E : Env) (k : Kind) : Prop :=
  forall d s x, env_query_row E d s = Some x ->
    x <> VNil /\
    exists x', Convert (env_rune E) x k = Some x' /\ isZeroValue x' = Some false.

(** The types and sizes of the entities are those of the world [w0]. *)
Definition shaped_as (w0 w : World) : Prop :=
  (forall q, type_of (heap w q) = type_of (heap w0 q)) /\
  (forall q, List.length (field_values (heap w q))
             = List.length (field_values (heap w0 q))).

(** The key [GetPrimaryKey] reads from an entity whose struct value
    is [v]. *)
Definition primary_key_of (v : Struct) : value :=
  GetPrimaryKey (fun _ => v) (newEntityEntry (fun _ => v) 0%nat Detached).



End Wf.
Export Wf.

(* ================================================================= *)
(** ** The demo program (apolon-demo): model.go and the values of main.go *)

Module Demo.

(** [type Patient struct { ID int; Name string; Age int }] with its
    tags. *)
Definition Patient : StructType :=
  {| TypeName := "Patient";
     Fields := [ {| Name := "ID"; Tag := "id,pk"; FieldKind := KInt |};
                 {| Name := "Name"; Tag := "name"; FieldKind := KString |};
                 {| Name := "Age"; Tag := "age"; FieldKind := KInt |} ] |}.

Definition patient (id : Z) (name : string) (age : Z) : Struct :=
  {| type_of := Patient; field_values := [VInt id; VStr name; VInt age] |}.

(** The field accessors the generator writes for [Patient]
    (fields.go: [IntField.Gt], [IntField.Lt], [StringField.Contains],
    [IntField.Desc]). *)
Definition Age_Gt (val : Z) : Condition := SimpleCondition "age" ">" (VInt val).
Definition Age_Lt (val : Z) : Condition := SimpleCondition "age" "<" (VInt val).
Definition Name_Contains (val : string) : Condition :=
  LikeCondition "name" ("%" ++ val ++ "%").
Definition Age_Desc : OrderBy := {| ob_Column := "age"; ob_Direction := "DESC" |}.

(** The query of the "Generated SQL Examples" step of main.go. *)
Definition demo_query : Query :=
  Limit (OrderBy_ (Where (Where (newQuery Patient) (Age_Gt 18))
                         (Name_Contains "Milica")) Age_Desc) 10.

(** The condition of its "OR condition" step. *)
Definition demo_or : Condition := Or [Age_Lt 18; Age_Gt 25].

(** Memory in which nothing has been allocated yet. *)
Definition no_struct : Struct :=
  {| type_of := {| TypeName := ""; Fields := [] |}; field_values := [] |}.

Definition empty_db : Database :=
  {| durable := []; open_txs := []; next_tx := 0 |}.

Definition empty_world : World :=
  {| heap := fun _ => no_struct; next_ptr := 1%nat; entries := [];
     conn := empty_db; trace := [] |}.

(** [p := &Patient{...}]. *)
Definition new (v : Struct) (w : World) : ptr * World :=
  (next_ptr w,
   {| heap := store (heap w) (next_ptr w) v; next_ptr := S (next_ptr w);
      entries := entries w; conn := conn w; trace := trace w |}).

(** [p.F = x] for the field of index [i]. *)
Definition assign (p : ptr) (i : nat) (x : value) (w : World) : World :=
  with_heap w (store (heap w) p (SetField (heap w p) i x)).

(** A PostgreSQL that accepts everything: keys come from a sequence
    (the next one is 2), every statement touches one row, reads
    return [rows]. *)
Definition obliging (rows : list (list value)) : Env :=
  {| env_begin := fun _ => true;
     env_exec := fun _ _ => Some 1;
     env_query_row := fun d _ => Some (VInt (Z.of_nat (List.length (durable d)) + 2));
     env_query := fun _ _ => Some rows;
     env_scan := fun _ row => Some row;
     env_commit := fun _ => true;
     env_range := fun _ m => m;
     env_rune := fun _ => "" |}.

(** The same, but it refuses every UPDATE. *)
Definition refusing_updates : Env :=
  {| env_begin := fun _ => true;
     env_exec := fun _ s => if String.prefix "UPDATE" (sql s) then None else Some 1;
     env_query_row := fun d _ => Some (VInt (Z.of_nat (List.length (durable d)) + 2));
     env_query := fun _ _ => Some [];
     env_scan := fun _ row => Some row;
     env_commit := fun _ => true;
     env_range := fun _ m => m;
     env_rune := fun _ => "" |}.

(** Memory after [milica1 := &Patient{ID: 1, Name: "Milica1", Age: 25}],
    the patient main.go loads and then ages by a year; its address
    is 1. *)
Definition milica_world : World :=
  snd (new (patient 1 "Milica1" 25) empty_world).

Definition tracked (p : ptr) (st : EntityState) (w : World) : World :=
  match Track p st w with
  | Some (_, _, w') => w'
  | None => w
  end.

(** main.go, "Update with Change Tracking": Milica1 has been loaded,
    so she is tracked as Unchanged, and then [patient.Age = 26]. *)
Definition dirty_world : World :=
  assign 1%nat 2%nat (VInt 26) (tracked 1%nat Unchanged milica_world).

(** In addition a new patient waits for its INSERT:
    [db.Add(&Patient{Name: "Milica2", Age: 30})]. *)
Definition pending_world : World :=
  let '(p, w) := new (patient 0 "Milica2" 30) dirty_world in
  tracked p Added w.

(** The caller has begun a transaction of its own, which it passes to
    [SaveChangesContext]; its handle is 0. *)
Definition borrowed_world : World := snd (conn_begin (obliging []) dirty_world).

End Demo.
Export Demo.

(* ================================================================= *)
(** ** Observations on lowered SQL text *)

Module Lowering.

Definition digit_of (c : ascii) : option (Decimal.uint -> Decimal.uint) :=
  match c with
  | "0"%char => Some Decimal.D0 | "1"%char => Some Decimal.D1
  | "2"%char => Some Decimal.D2 | "3"%char => Some Decimal.D3
  | "4"%char => Some Decimal.D4 | "5"%char => Some Decimal.D5
  | "6"%char => Some Decimal.D6 | "7"%char => Some Decimal.D7
  | "8"%char => Some Decimal.D8 | "9"%char => Some Decimal.D9
  | _ => None
  end.

(** The longest run of decimal digits a text starts with. *)
Fixpoint read_uint (s : string) : Decimal.uint :=
  match s with
  | EmptyString => Decimal.Nil
  | String c s' =>
      match digit_of c with
      | Some d => d (read_uint s')
      | None => Decimal.Nil
      end
  end.

(** The positional placeholders [$n] of a SQL text, in the order in
    which they occur. *)
Fixpoint placeholders (s : string) : list Z :=
  match s with
  | EmptyString => []
  | String c s' =>
      if Ascii.eqb c dollar then
        match read_uint s' with
        | Decimal.Nil => placeholders s'
        | d => Z.of_uint d :: placeholders s'
        end
      else placeholders s'
  end.

(** Text that carries no [$]: an identifier or operator that cannot be
    mistaken for a placeholder. *)
Fixpoint dollar_free (s : string) : bool :=
  match s with
  | EmptyString => true
  | String c s' => negb (Ascii.eqb c dollar) && dollar_free s'
  end.

Fixpoint cond_wf (c : Condition) : bool :=
  match c with
  | SimpleCondition col op _ => dollar_free col && dollar_free op
  | InCondition col _ => dollar_free col
  | BetweenCondition col _ _ => dollar_free col
  | NullCondition col _ => dollar_free col
  | LikeCondition col _ => dollar_free col
  | AndCondition cs => forallb cond_wf cs
  | OrCondition cs => forallb cond_wf cs
  | NotCondition c' => cond_wf c'
  end.

(** [idx, idx+1, ..., idx+n-1]. *)
Fixpoint iota (idx : Z) (n : nat) : list Z :=
  match n with
  | O => []
  | S n' => idx :: iota (idx + 1) n'
  end.

(** Leaves of a condition tree, its nullness leaves, and the number
    of argument slots its leaves ask for. *)
Fixpoint leaves (c : Condition) : nat :=
  match c with
  | AndCondition cs => list_sum (map leaves cs)
  | OrCondition cs => list_sum (map leaves cs)
  | NotCondition c' => leaves c'
  | _ => 1
  end.

Fixpoint null_leaves (c : Condition) : nat :=
  match c with
  | NullCondition _ _ => 1
  | AndCondition cs => list_sum (map null_leaves cs)
  | OrCondition cs => list_sum (map null_leaves cs)
  | NotCondition c' => null_leaves c'
  | _ => 0
  end.

Fixpoint slots (c : Condition) : nat :=
  match c with
  | SimpleCondition _ _ _ => 1
  | InCondition _ vals => List.length vals
  | BetweenCondition _ _ _ => 2
  | NullCondition _ _ => 0
  | LikeCondition _ _ => 1
  | AndCondition cs => list_sum (map slots cs)
  | OrCondition cs => list_sum (map slots cs)
  | NotCondition c' => slots c'
  end.

(** Trees whose leaves are comparisons, pattern matches and nullness
    tests only. *)
Fixpoint unary_leaves (c : Condition) : bool :=
  match c with
  | SimpleCondition _ _ _ => true
  | LikeCondition _ _ => true
  | NullCondition _ _ => true
  | InCondition _ _ => false
  | BetweenCondition _ _ _ => false
  | AndCondition cs => forallb unary_leaves cs
  | OrCondition cs => forallb unary_leaves cs
  | NotCondition c' => unary_leaves c'
  end.

(** The threading loop written by recursion on the conditions; it is
    what the accumulating loop [lower_all] computes. *)
Fixpoint lower_seq (lower : Condition -> Z -> string * list value * Z)
    (conds : list Condition) (idx : Z) : list string * list value * Z :=
  match conds with
  | [] => ([], [], idx)
  | c :: cs =>
      let '(sql, a, next) := lower c idx in
      let '(ps, az, fin) := lower_seq lower cs next in
      (sql :: ps, (a ++ az)%list, fin)
  end.

(** A fragment [f] carries exactly the placeholders [phs] when it is
    followed by anything that does not go on with a digit. *)
Definition emits (f : string) (phs : list Z) : Prop :=
  forall rest, read_uint rest = Decimal.Nil ->
    placeholders (f ++ rest) = (phs ++ placeholders rest)%list.

(** A literal without placeholder that starts with something other
    than a digit. *)
Definition plain_sep (a : string) : Prop :=
  dollar_free a = true /\ forall rest, read_uint (a ++ rest) = Decimal.Nil.


End Lowering.
Export Lowering.

(* ================================================================= *)
(** ** Package apolon: the rest of the change tracker (change_tracker.go) *)

Module Tracker.

Definition site_Entries : nat := 7.
Definition site_HasChanges : nat := 8.
Definition site_GetOrTrack : nat := 9.

(** [Entries]: the entries in the order of the [range]. *)
Definition Entries (E : Env) (site : nat) (w : World) : list EntityEntry :=
  map snd (env_range E site (entries w)).

(** The loop of [ChangeTracker.HasChanges]: it returns at the first
    entry that is Added or Deleted, or is Modified or Unchanged and
    has changes. *)
Fixpoint has_changes_loop (h : ptr -> Struct)
    (es : list (string * EntityEntry)) : bool :=
  match es with
  | [] => false
  | (_, entry) :: es' =>
      if EntityState_eqb (State entry) Added
         || EntityState_eqb (State entry) Deleted
      then true
      else if (EntityState_eqb (State entry) Modified
               || EntityState_eqb (State entry) Unchanged)
              && HasChanges h entry
      then true
      else has_changes_loop h es'
  end.

(** [ChangeTracker.HasChanges]. *)
Definition HasChanges_all (E : Env) (site : nat) (w : World) : bool :=
  has_changes_loop (heap w) (env_range E site (entries w)).

(** [Clear]. *)
Definition Clear (w : World) : World := with_entries w [].

(** [Untrack]: the key is made from the entity as it is now; [None]
    is the panic of [makeKey]. *)
Definition Untrack (entity : ptr) (w : World) : option World :=
  let tempEntry := newEntityEntry (heap w) entity Detached in
  match makeKey (heap w) entity (GetPrimaryKey (heap w) tempEntry) with
  | None => None
  | Some key => Some (with_entries w (map_delete key (entries w)))
  end.

(** [GetOrTrack]. *)
Definition GetOrTrack (E : Env) (site : nat) (entity : ptr)
    (state : EntityState) (w : World)
    : option (string * EntityEntry * World) :=
  match GetEntry E site entity w with
  | None => None
  | Some (Some (key, entry)) => Some (key, entry, w)
  | Some None => Track entity state w
  end.

(** [TrackRange] on a slice, given by the addresses of its elements
    (the elements themselves when they are pointers); any other
    argument is ignored. *)
Fixpoint track_each (ps : list ptr) (state : EntityState) (w : World)
    : option World :=
  match ps with
  | [] => Some w
  | p :: ps' =>
      match Track p state w with
      | None => None
      | Some (_, _, w') => track_each ps' state w'
      end
  end.

Definition TrackRange (entities : option (list ptr)) (state : EntityState)
    (w : World) : option World :=
  match entities with
  | Some ps => track_each ps state w
  | None => Some w
  end.

End Tracker.
Export Tracker.

(* ================================================================= *)
(** ** Package apolon: counting (query.go) and sets (dbset.go) *)

Module QueryOps.

(** The statement of [Count]: the table and the conditions of the
    query, lowered from index 1 as in [buildSQL]. *)
Definition count_sql (q : Query) : string * list value :=
  let sb := "SELECT COUNT(*) FROM " ++ q_table q in
  match q_conditions q with
  | [] => (sb, [])
  | _ =>
      let '(whereParts, args, _) := lower_all ToSQL (q_conditions q) 1 in
      (sb ++ " WHERE " ++ Join whereParts " AND ", args)
  end.

(** [Count]: [QueryRow(...).Scan(&count)] with [count] an [int]; a
    read, nothing of the database changes.  An error stands for the
    pair of the count 0 and that error. *)
Definition Count (E : Env) (q : Query) (w : World) : res Z * World :=
  let '(text, qargs) := count_sql q in
  let s := {| sql := text; args := qargs |} in
  match env_query_row E (conn w) s with
  | None => (Error QueryFailed, log w (EvConnQuery s false))
  | Some x =>
      match env_scan E [KInt] [x] with
      | Some [VInt n] => (Ok n, log w (EvConnQuery s true))
      | _ => (Error ScanFailed, log w (EvConnQuery s true))
      end
  end.

(** [Exists]: [count > 0], and [false] with the error of [Count]. *)
Definition Exists (E : Env) (q : Query) (w : World) : res bool * World :=
  match Count E q w with
  | (Ok count, w') => (Ok (Z.ltb 0 count), w')
  | (Error e, w') => (Error e, w')
  | (Panic, w') => (Panic, w')
  end.

(** dbset.go: every method starts from a new query. *)
Definition DbSet_Query (T : StructType) : Query := newQuery T.
Definition DbSet_Where (T : StructType) (c : Condition) : Query :=
  Where (newQuery T) c.
Definition DbSet_OrderBy (T : StructType) (o : OrderBy) : Query :=
  OrderBy_ (newQuery T) o.
Definition DbSet_First (E : Env) (T : StructType) (w : World)
    : res (option ptr) * Query * World :=
  First E (newQuery T) w.
Definition DbSet_Count (E : Env) (T : StructType) (w : World)
    : res Z * World :=
  Count E (newQuery T) w.

End QueryOps.
Export QueryOps.

(* ================================================================= *)
(** ** Go runtime: more of strings and strconv *)

Module GoStrings.

Definition bytes_of (s : string) : list nat :=
  map nat_of_ascii (list_ascii_of_string s).

(** The UTF-8 encodings of the runes with Unicode's White_Space
    property ([unicode.IsSpace]): U+0009 to U+000D, U+0020, U+0085,
    U+00A0, U+1680, U+2000 to U+200A, U+2028, U+2029, U+202F, U+205F
    and U+3000. *)
Definition space_runes : list (list nat) :=
  [ [9]; [10]; [11]; [12]; [13]; [32];
    [194; 133]; [194; 160]; [225; 154; 128];
    [226; 128; 128]; [226; 128; 129]; [226; 128; 130]; [226; 128; 131];
    [226; 128; 132]; [226; 128; 133]; [226; 128; 134]; [226; 128; 135];
    [226; 128; 136]; [226; 128; 137]; [226; 128; 138];
    [226; 128; 168]; [226; 128; 169]; [226; 128; 175];
    [226; 129; 159]; [227; 128; 128] ]%nat.

(** [l] without its prefix [pat], when it has it. *)
Fixpoint strip (pat l : list nat) : option (list nat) :=
  match pat, l with
  | [], _ => Some l
  | a :: pat', b :: l' => if Nat.eqb a b then strip pat' l' else None
  | _ :: _, [] => None
  end.

Fixpoint strip_any (pats : list (list nat)) (l : list nat)
    : option (list nat) :=
  match pats with
  | [] => None
  | pat :: pats' =>
      match strip pat l with
      | Some rest => Some rest
      | None => strip_any pats' l
      end
  end.

(** Leading runes of the set [pats] removed; [n] bounds the number of
    runes. *)
Fixpoint trim_left (pats : list (list nat)) (n : nat) (l : list nat)
    : list nat :=
  match n with
  | O => l
  | S n' =>
      match strip_any pats l with
      | Some rest => trim_left pats n' rest
      | None => l
      end
  end.

(** [strings.TrimSpace]: white space is removed at the front, then at
    the back (where a rune is read backwards). *)
Definition TrimSpace (s : string) : string :=
  let l := bytes_of s in
  let l := trim_left space_runes (List.length l) l in
  let r := trim_left (map (@rev nat) space_runes) (List.length l) (rev l) in
  string_of_list_ascii (map ascii_of_nat (rev r)).

(** [strings.HasPrefix] and [strings.TrimPrefix]. *)
Definition HasPrefix (s pre : string) : bool := String.prefix pre s.

Definition TrimPrefix (s pre : string) : string :=
  if HasPrefix s pre
  then String.substring (String.length pre) (String.length s - String.length pre) s
  else s.

(** [strings.Split(s, ",")]: every piece between commas, the empty
    ones too; [cur] is the piece being read. *)
Fixpoint Split_from (s cur : string) : list string :=
  match s with
  | EmptyString => [cur]
  | String c s' =>
      if Ascii.eqb c comma then cur :: Split_from s' ""
      else Split_from s' (cur ++ String c "")
  end.

Definition Split_comma (s : string) : list string := Split_from s "".

Definition digit_val (c : ascii) : option Z :=
  let n := nat_of_ascii c in
  if (Nat.leb 48 n && Nat.leb n 57)%bool then Some (Z.of_nat n - 48) else None.

Fixpoint digits_val (s : string) (acc : Z) : option Z :=
  match s with
  | EmptyString => Some acc
  | String c s' =>
      match digit_val c with
      | Some d => digits_val s' (10 * acc + d)
      | None => None
      end
  end.

(** [strconv.Atoi]: an optional sign and at least one decimal digit,
    within the range of [int]; [None] is its error. *)
Definition Atoi (s : string) : option Z :=
  let '(neg, ds) :=
    match s with
    | String "-"%char r => (true, r)
    | String "+"%char r => (false, r)
    | _ => (false, s)
    end in
  match ds with
  | EmptyString => None
  | _ =>
      match digits_val ds 0 with
      | Some n =>
          let z := if neg then - n else n in
          if (Z.leb min_int z && Z.leb z max_int)%bool then Some z else None
      | None => None
      end
  end.

(** The line feed of the DDL text. *)
Definition nl : string := String (ascii_of_nat 10) "".

End GoStrings.
Export GoStrings.

(* ================================================================= *)
(** ** Package shared: schemas (schema.go) *)

Module Schema.

(** The kinds [goTypeToSQLType] tells apart; [KOther] is any kind its
    switch leaves to the default. *)
Inductive GoKind : Type :=
| Int | Int8 | Int16 | Int32 | Int64
| Uint | Uint8 | Uint16 | Uint32 | Uint64
| String_ | Bool | Float32 | Float64
| Ptr | Slice | Struct_ | KOther.

(** The types of fields: predeclared types by kind, [time.Time],
    pointers, slices, other types by name and kind, and types
    defined on another ([type A int]). *)
Inductive GoType : Type :=
| TBasic (k : GoKind) (name : string)
| TTime
| TPtr (elem : GoType)
| TSlice (elem : GoType)
| TNamed (name : string) (underlying : GoType).

(** [t.Kind()]. *)
Fixpoint kind_of (t : GoType) : GoKind :=
  match t with
  | TBasic k _ => k
  | TTime => Struct_
  | TPtr _ => Ptr
  | TSlice _ => Slice
  | TNamed _ u => kind_of u
  end.

(** [t.Elem()] of a pointer or slice type. *)
Fixpoint elem_of (t : GoType) : GoType :=
  match t with
  | TPtr e => e
  | TSlice e => e
  | TNamed _ u => elem_of u
  | _ => t
  end.

(** [t.String()]. *)
Fixpoint type_string (t : GoType) : string :=
  match t with
  | TBasic _ name => name
  | TTime => "time.Time"
  | TPtr e => "*" ++ type_string e
  | TSlice e => "[]" ++ type_string e
  | TNamed name _ => name
  end.

(** [t == reflect.TypeOf(time.Time{})]. *)
Definition is_time (t : GoType) : bool :=
  match t with
  | TTime => true
  | _ => false
  end.

(** The type of a field of the kinds entities have here. *)
Definition type_of_kind (k : Kind) : GoType :=
  match k with
  | KInt => TBasic Int "int"
  | KString => TBasic String_ "string"
  | KBool => TBasic Bool "bool"
  end.

Record ColumnInfo : Type := {
  ci_Name : string;
  ci_GoType : string;
  ci_SQLType : string;
  ci_IsPrimaryKey : bool;
  ci_IsNotNull : bool;
  ci_IsUnique : bool;
  ci_DefaultValue : option string;
  ci_Size : Z
}.

Record SchemaInfo : Type := {
  si_Table : string;
  si_Columns : list ColumnInfo
}.

(** [parseTagOption]: the first case of the switch that applies. *)
Definition parseTagOption (col : ColumnInfo) (opt : string) : ColumnInfo :=
  let opt := TrimSpace opt in
  if String.eqb opt "pk" then
    {| ci_Name := ci_Name col; ci_GoType := ci_GoType col;
       ci_SQLType := ci_SQLType col; ci_IsPrimaryKey := true;
       ci_IsNotNull := true; ci_IsUnique := true;
       ci_DefaultValue := ci_DefaultValue col; ci_Size := ci_Size col |}
  else if String.eqb opt "notnull" then
    {| ci_Name := ci_Name col; ci_GoType := ci_GoType col;
       ci_SQLType := ci_SQLType col; ci_IsPrimaryKey := ci_IsPrimaryKey col;
       ci_IsNotNull := true; ci_IsUnique := ci_IsUnique col;
       ci_DefaultValue := ci_DefaultValue col; ci_Size := ci_Size col |}
  else if String.eqb opt "unique" then
    {| ci_Name := ci_Name col; ci_GoType := ci_GoType col;
       ci_SQLType := ci_SQLType col; ci_IsPrimaryKey := ci_IsPrimaryKey col;
       ci_IsNotNull := ci_IsNotNull col; ci_IsUnique := true;
       ci_DefaultValue := ci_DefaultValue col; ci_Size := ci_Size col |}
  else if HasPrefix opt "default:" then
    {| ci_Name := ci_Name col; ci_GoType := ci_GoType col;
       ci_SQLType := ci_SQLType col; ci_IsPrimaryKey := ci_IsPrimaryKey col;
       ci_IsNotNull := ci_IsNotNull col; ci_IsUnique := ci_IsUnique col;
       ci_DefaultValue := Some (TrimPrefix opt "default:");
       ci_Size := ci_Size col |}
  else if HasPrefix opt "size:" then
    match Atoi (TrimPrefix opt "size:") with
    | Some size =>
        {| ci_Name := ci_Name col; ci_GoType := ci_GoType col;
           ci_SQLType := ci_SQLType col;
           ci_IsPrimaryKey := ci_IsPrimaryKey col;
           ci_IsNotNull := ci_IsNotNull col; ci_IsUnique := ci_IsUnique col;
           ci_DefaultValue := ci_DefaultValue col; ci_Size := size |}
    | None => col
    end
  else if HasPrefix opt "type:" then
    {| ci_Name := ci_Name col; ci_GoType := ci_GoType col;
       ci_SQLType := TrimPrefix opt "type:";
       ci_IsPrimaryKey := ci_IsPrimaryKey col;
       ci_IsNotNull := ci_IsNotNull col; ci_IsUnique := ci_IsUnique col;
       ci_DefaultValue := ci_DefaultValue col; ci_Size := ci_Size col |}
  else col.

(** [goTypeToSQLType]. *)
Definition goTypeToSQLType (t : GoType) (col : ColumnInfo) : string :=
  let t := match kind_of t with Ptr => elem_of t | _ => t end in
  if is_time t then "TIMESTAMP WITH TIME ZONE"
  else
    match kind_of t with
    | Int | Int32 | Uint | Uint32 =>
        if ci_IsPrimaryKey col then "SERIAL" else "INTEGER"
    | Int64 | Uint64 =>
        if ci_IsPrimaryKey col then "BIGSERIAL" else "BIGINT"
    | Int8 | Int16 | Uint8 | Uint16 => "SMALLINT"
    | String_ =>
        if Z.ltb 0 (ci_Size col) then "VARCHAR(" ++ fmt_d (ci_Size col) ++ ")"
        else "TEXT"
    | Bool => "BOOLEAN"
    | Float32 | Float64 => "DOUBLE PRECISION"
    | Slice =>
        match kind_of (elem_of t) with
        | Uint8 => "BYTEA"
        | _ => "JSONB"
        end
    | _ => "TEXT"
    end.

(** [parseColumnInfo] for a field with the Go name [fname], the type
    [ftype] and the tag [tag]. *)
Definition parseColumnInfo (fname : string) (ftype : GoType) (tag : string)
    : ColumnInfo :=
  let col := {| ci_Name := ""; ci_GoType := type_string ftype;
                ci_SQLType := ""; ci_IsPrimaryKey := false;
                ci_IsNotNull := false; ci_IsUnique := false;
                ci_DefaultValue := None; ci_Size := 0 |} in
  let col :=
    if String.eqb tag "" then
      {| ci_Name := ToLower fname; ci_GoType := ci_GoType col;
         ci_SQLType := ci_SQLType col;
         ci_IsPrimaryKey := ci_IsPrimaryKey col;
         ci_IsNotNull := ci_IsNotNull col; ci_IsUnique := ci_IsUnique col;
         ci_DefaultValue := ci_DefaultValue col; ci_Size := ci_Size col |}
    else
      let parts := Split_comma tag in
      let col :=
        {| ci_Name := hd "" parts; ci_GoType := ci_GoType col;
           ci_SQLType := ci_SQLType col;
           ci_IsPrimaryKey := ci_IsPrimaryKey col;
           ci_IsNotNull := ci_IsNotNull col; ci_IsUnique := ci_IsUnique col;
           ci_DefaultValue := ci_DefaultValue col; ci_Size := ci_Size col |} in
      fold_left parseTagOption (tl parts) col in
  if String.eqb (ci_SQLType col) "" then
    {| ci_Name := ci_Name col; ci_GoType := ci_GoType col;
       ci_SQLType := goTypeToSQLType ftype col;
       ci_IsPrimaryKey := ci_IsPrimaryKey col;
       ci_IsNotNull := ci_IsNotNull col; ci_IsUnique := ci_IsUnique col;
       ci_DefaultValue := ci_DefaultValue col; ci_Size := ci_Size col |}
  else col.

(** The loop of [ParseSchema]: a field tagged ["-"] is skipped. *)
Fixpoint schema_columns (fs : list StructField) : list ColumnInfo :=
  match fs with
  | [] => []
  | f :: fs' =>
      if String.eqb (Tag f) "-" then schema_columns fs'
      else parseColumnInfo (Name f) (type_of_kind (FieldKind f)) (Tag f)
           :: schema_columns fs'
  end.

Definition ParseSchema (t : StructType) : SchemaInfo :=
  {| si_Table := ToLower (TypeName t) ++ "s";
     si_Columns := schema_columns (Fields t) |}.

End Schema.
Export Schema.

(* ================================================================= *)
(** ** Package apolon: migrations (migration.go) *)

Module Migration.

(** [buildColumnDefinition]. *)
Definition buildColumnDefinition (col : ColumnInfo) : string :=
  let parts := [ci_Name col; ci_SQLType col] in
  let parts :=
    if ci_IsPrimaryKey col then (parts ++ ["PRIMARY KEY"])%list else parts in
  let parts :=
    if ci_IsNotNull col && negb (ci_IsPrimaryKey col)
    then (parts ++ ["NOT NULL"])%list else parts in
  let parts :=
    if ci_IsUnique col then (parts ++ ["UNIQUE"])%list else parts in
  let parts :=
    match ci_DefaultValue col with
    | Some d => (parts ++ ["DEFAULT"; d])%list
    | None => parts
    end in
  Join parts " ".

(** [BuildCreateTableSQL]. *)
Definition BuildCreateTableSQL (schema : SchemaInfo) : string :=
  "CREATE TABLE IF NOT EXISTS " ++ si_Table schema ++ " (" ++ nl
  ++ Join (map (fun col => "    " ++ buildColumnDefinition col)
               (si_Columns schema)) ("," ++ nl)
  ++ nl ++ ")".

(** [conn.Exec(query, args...)] on the connection itself: the
    statement runs in no transaction and its effect is durable at
    once.  The history has no event for this call; it shows in what
    is durable. *)
Definition conn_exec (E : Env) (s : Stmt) (w : World) : option Z * World :=
  match env_exec E (conn w) s with
  | Some n =>
      let d := {| durable := (durable (conn w) ++ [s])%list;
                  open_txs := open_txs (conn w);
                  next_tx := next_tx (conn w) |} in
      (Some n, with_conn w d)
  | None => (None, w)
  end.

(** [AutoMigrate], for entities given by their types; the error it
    returns names the table that could not be created. *)
Fixpoint AutoMigrate (E : Env) (entities : list StructType) (w : World)
    : option string * World :=
  match entities with
  | [] => (None, w)
  | entity :: rest =>
      let schema := ParseSchema entity in
      let text := BuildCreateTableSQL schema in
      match conn_exec E {| sql := text; args := [] |} w with
      | (None, w') => (Some (si_Table schema), w')
      | (Some _, w') => AutoMigrate E rest w'
      end
  end.

End Migration.
Export Migration.

(* ================================================================= *)
(** ** Package apolon: immediate inserts (entity_builder.go) *)

Module Builder.

(** The first loop of [Insert]: the first field whose tag has the
    [pk] option, with its column. *)
Fixpoint first_pk_field (fs : list StructField) : option (string * string) :=
  match fs with
  | [] => None
  | f :: fs' =>
      if containsPK (Tag f) then Some (Name f, hd "" (Split_comma (Tag f)))
      else first_pk_field fs'
  end.

(** Its loop over [info.Fields]. *)
Fixpoint Insert_loop (t : StructType) (v : Struct) (pkFieldName : string)
    (columns : list string) (i : nat)
    (acc : list string * list value * list string)
    : option (list string * list value * list string) :=
  match columns with
  | [] => Some acc
  | f :: rest =>
      let '(cols, vals, placeholders) := acc in
      let vals' := (vals ++ [Field v i])%list in
      let taken :=
        Insert_loop t v pkFieldName rest (S i)
          ((cols ++ [f])%list, vals',
           (placeholders ++ [("$" ++ fmt_d (len vals'))%string])%list) in
      if String.eqb (Name (TypeField t i)) pkFieldName
      then match isZeroValue (Field v i) with
           | None => None
           | Some true => Insert_loop t v pkFieldName rest (S i) acc
           | Some false => taken
           end
      else taken
  end.

(** What [Insert] returns: [nil], the error of the statement (wrapped
    as ["insert failed"] on the RETURNING path, as the driver gave
    it on the other), or a panic. *)
Inductive inserted : Type :=
| Inserted
| InsertError (wrapped : bool)
| InsertPanic.

(** [Insert]: the statement goes to the connection at once, and the
    model is tracked as Unchanged when it succeeded. *)
Definition Insert (E : Env) (model : ptr) (w : World) : inserted * World :=
  let v := heap w model in
  let t := type_of v in
  let info := ParseModel t in
  let '(pkFieldName, pkColName) :=
    match first_pk_field (Fields t) with
    | Some found => found
    | None => ("", "")
    end in
  let '(pkFieldName, pkColName) :=
    if String.eqb pkFieldName "" then
      match FieldByName t "ID" with
      | Some _ => ("ID", "id")
      | None => (pkFieldName, pkColName)
      end
    else (pkFieldName, pkColName) in
  match Insert_loop t v pkFieldName (Columns info) 0 ([], [], []) with
  | None => (InsertPanic, w)
  | Some (cols, vals, placeholders) =>
      let query :=
        "INSERT INTO " ++ Table info ++ " (" ++ Join cols ", "
        ++ ") VALUES (" ++ Join placeholders ", " ++ ")" in
      let pkSkipped := negb (existsb (fun col => String.eqb col pkColName) cols) in
      if negb (String.eqb pkFieldName "") && negb (String.eqb pkColName "")
         && pkSkipped
      then
        let query := query ++ " RETURNING " ++ pkColName in
        match conn_query_row E model {| sql := query; args := vals |} w with
        | (None, w') => (InsertError true, w')
        | (Some newPK, w') =>
            match setPKValue E (heap w') model pkFieldName newPK with
            | None => (InsertPanic, w')
            | Some h' =>
                match Track model Unchanged (with_heap w' h') with
                | None => (InsertPanic, with_heap w' h')
                | Some (_, _, w'') => (Inserted, w'')
                end
            end
        end
      else
        match conn_exec E {| sql := query; args := vals |} w with
        | (None, w') => (InsertError false, w')
        | (Some _, w') =>
            match Track model Unchanged w' with
            | None => (InsertPanic, w')
            | Some (_, _, w'') => (Inserted, w'')
            end
        end
  end.

(** db.go: [AddRange] and [RemoveRange]. *)
Fixpoint AddRange (entities : list ptr) (w : World) : option World :=
  match entities with
  | [] => Some w
  | entity :: rest =>
      match Add entity w with
      | None => None
      | Some (_, _, w') => AddRange rest w'
      end
  end.

Fixpoint RemoveRange (E : Env) (entities : list ptr) (w : World)
    : option World :=
  match entities with
  | [] => Some w
  | entity :: rest =>
      match Remove E entity w with
      | None => None
      | Some (_, _, w') => RemoveRange E rest w'
      end
  end.

End Builder.
Export Builder.

(* ================================================================= *)
(** ** Further observations *)

Module Observe.

(** Text that carries no comma. *)
Fixpoint comma_free (s : string) : bool :=
  match s with
  | EmptyString => true
  | String c s' => negb (Ascii.eqb c comma) && comma_free s'
  end.


(** Every field of the type has a name, as Go has it. *)
Definition named_fields (t : StructType) : Prop :=
  Forall (fun f => Name f <> "") (Fields t).

(** A statement sent to the database, whatever the entity. *)
Definition statement_event (ev : Event) : bool :=
  match ev with
  | EvTxExec _ _ _ _ | EvConnQueryRow _ _ _ | EvConnQuery _ _ => true
  | _ => false
  end.

(** The key under which the tracker files the entity at [p]. *)
Definition key_of (h : ptr -> Struct) (p : ptr) : option string :=
  makeKey h p (GetPrimaryKey h (newEntityEntry h p Detached)).

(** The statement [ToSlice] sends for a query. *)
Definition select_stmt (q : Query) : Stmt :=
  {| sql := fst (buildSQL q); args := snd (buildSQL q) |}.

(** The statement an event carries, if it is one. *)
Definition event_stmt (ev : Event) : option Stmt :=
  match ev with
  | EvTxExec _ _ s _ | EvConnQueryRow _ s _ | EvConnQuery s _ => Some s
  | _ => None
  end.

(** A statement whose text carries the placeholders [$1 .. $n], in
    this order, for its [n] arguments. *)
Definition aligned (s : Stmt) : Prop :=
  placeholders (sql s) = iota 1 (List.length (args s)).

(** The names a type gives to SQL (its table, its columns and the
    column of the key field [pkf]) carry no [$], and its fields can
    be counted by an [int]. *)
Definition sql_safe (t : StructType) (pkf : string) : Prop :=
  dollar_free (Table (ParseModel t)) = true /\
  forallb dollar_free (Columns (ParseModel t)) = true /\
  dollar_free (getPKColumnName t pkf) = true /\
  Z.of_nat (NumField t) < max_int.

(** Whether the field of index [i] is among the changed ones: the
    test of the loop of [executeUpdate]. *)
Definition is_changed (e : EntityEntry) (changed : list (string * value))
    (i : nat) : bool :=
  match map_get (Name (TypeField (entityType e) i)) changed with
  | Some _ => true
  | None => false
  end.

End Observe.
Export Observe.

(* ================================================================= *)
(** ** The statements of a flush in its history *)

Module History.

(** The words a statement of each kind begins with. *)
Definition verb (a : Action) : string :=
  match a with
  | ActDelete => "DELETE FROM "
  | ActInsert => "INSERT INTO "
  | ActUpdate => "UPDATE "
  end.

(** A statement of the kind of [a], sent for the entity at [p]. *)
Definition dml_of (a : Action) (p : ptr) (ev : Event) : bool :=
  match ev with
  | EvTxExec _ q s _ => Nat.eqb q p && String.prefix (verb a) (sql s)
  | EvConnQueryRow q s _ => Nat.eqb q p && String.prefix (verb a) (sql s)
  | _ => false
  end.

(** What acting on an entry adds to the history: at most one
    statement, of the kind of [a] and for the entity of the entry. *)
Definition block_effect (a : Action) (e : EntityEntry) (w w' : World) : Prop :=
  exists ss, trace w' = (trace w ++ ss)%list /\
             (List.length ss <= 1)%nat /\
             forallb (dml_of a (Entity e)) ss = true.

(** A stretch of history in which the entries [kes] are taken up one
    after the other for [a]: for each of them the mark that it is
    taken up, and then at most one statement, which is of the kind of
    [a] and for the entity of this entry. *)
Fixpoint taken_up (a : Action) (kes : list (string * EntityEntry))
    (evs : list Event) : Prop :=
  match kes with
  | [] => evs = []
  | (k, e) :: kes' =>
      exists ss rest,
        evs = (EvProcess a k :: ss ++ rest)%list /\
        (List.length ss <= 1)%nat /\
        forallb (dml_of a (Entity e)) ss = true /\
        taken_up a kes' rest
  end.

(** A stretch of history without statements and in which no entry is
    taken up. *)
Definition quiet (evs : list Event) : Prop :=
  forallb (fun ev => negb (dml_event ev)) evs = true.

End History.
Export History.

(* ================================================================= *)
(** ** A type with a field that is not a column *)

Module Accounts.

(** [type Account struct { Secret string; ID int; Name string }] with
    the tags [-], [id,pk] and [name]: the first keeps [Secret] out of
    the model. *)
Definition Account : StructType :=
  {| TypeName := "Account";
     Fields := [ {| Name := "Secret"; Tag := "-"; FieldKind := KString |};
                 {| Name := "ID"; Tag := "id,pk"; FieldKind := KInt |};
                 {| Name := "Name"; Tag := "name"; FieldKind := KString |} ] |}.

Definition account (secret : string) (id : Z) (name : string) : Struct :=
  {| type_of := Account;
     field_values := [VStr secret; VInt id; VStr name] |}.

(** [db.Add(&Account{Secret: "s3cret", Name: "Ana"})]: the account is
    at address 1 and waits for its INSERT. *)
Definition account_world : World :=
  let '(p, w) := new (account "s3cret" 0 "Ana") empty_world in
  tracked p Added w.

End Accounts.
Export Accounts.

(* ================================================================= *)
(** * Properties *)

(** ** Machine integers *)

Lemma wrap_int_small z : min_int <= z <= max_int -> wrap_int z = z.
Proof.
  unfold wrap_int, min_int, max_int. intros H.
  rewrite Z.mod_small; lia.
Qed.

Lemma wrap_int_add_l a b : wrap_int (wrap_int a + b) = wrap_int (a + b).
Proof.
  unfold wrap_int.
  replace ((a + 2 ^ 63) mod 2 ^ 64 - 2 ^ 63 + b + 2 ^ 63)
    with ((a + 2 ^ 63) mod 2 ^ 64 + b) by lia.
  rewrite Z.add_mod_idemp_l by lia.
  f_equal. f_equal. lia.
Qed.

Lemma add_int_assoc a b c : add_int (add_int a b) c = add_int a (b + c).
Proof.
  unfold add_int. rewrite wrap_int_add_l. f_equal. lia.
Qed.

Lemma add_int_0 a : min_int <= a <= max_int -> add_int a 0 = a.
Proof. intros. unfold add_int. rewrite Z.add_0_r. now apply wrap_int_small. Qed.

Lemma add_int_small a b :
  min_int <= a + b <= max_int -> add_int a b = a + b.
Proof. apply wrap_int_small. Qed.

(** ** Strings *)

Lemma append_assoc (a b c : string) : (a ++ b) ++ c = a ++ (b ++ c).
Proof. induction a as [|x a IH]; simpl; [reflexivity | now rewrite IH]. Qed.

Lemma append_nil_r (a : string) : a ++ "" = a.
Proof. induction a as [|x a IH]; simpl; [reflexivity | now rewrite IH]. Qed.

Lemma dollar_free_app a b :
  dollar_free (a ++ b) = dollar_free a && dollar_free b.
Proof.
  induction a as [|x a IH]; simpl; [reflexivity|].
  rewrite IH. now rewrite andb_assoc.
Qed.

(** ** Scanning placeholders *)

Lemma placeholders_free_app a b :
  dollar_free a = true -> placeholders (a ++ b) = placeholders b.
Proof.
  induction a as [|x a IH]; simpl; [reflexivity|].
  intros H. apply andb_true_iff in H as [Hx Ha].
  apply negb_true_iff in Hx. rewrite Hx. now apply IH.
Qed.

Lemma string_of_uint_free d :
  dollar_free (DecimalString.NilEmpty.string_of_uint d) = true.
Proof. induction d; simpl; auto. Qed.

Lemma read_uint_print d rest :
  read_uint rest = Decimal.Nil ->
  read_uint (DecimalString.NilEmpty.string_of_uint d ++ rest) = d.
Proof. intros Hr. induction d; simpl; try (now f_equal); assumption. Qed.

Lemma fmt_d_nonneg z :
  0 <= z ->
  exists d, d <> Decimal.Nil /\ Z.of_uint d = z /\
            fmt_d z = DecimalString.NilEmpty.string_of_uint d.
Proof.
  intros Hz. unfold fmt_d.
  pose proof (DecimalZ.of_to z) as Hot.
  destruct z as [|p|p]; try lia; simpl in *.
  - exists (Decimal.D0 Decimal.Nil). repeat split. discriminate.
  - exists (Pos.to_uint p). repeat split.
    + apply DecimalPos.Unsigned.to_uint_nonnil.
    + exact Hot.
    + unfold DecimalString.NilZero.string_of_uint.
      destruct (Pos.to_uint p) eqn:E; try reflexivity.
      now apply DecimalPos.Unsigned.to_uint_nonnil in E.
Qed.

Lemma fmt_d_free z : 0 <= z -> dollar_free (fmt_d z) = true.
Proof.
  intros Hz. destruct (fmt_d_nonneg z Hz) as (d & _ & _ & ->).
  apply string_of_uint_free.
Qed.

(** A placeholder followed by text that does not go on with a digit
    is read back as its index. *)
Lemma placeholders_dollar z rest :
  0 <= z -> read_uint rest = Decimal.Nil ->
  placeholders ("$" ++ fmt_d z ++ rest) = z :: placeholders rest.
Proof.
  intros Hz Hr. destruct (fmt_d_nonneg z Hz) as (d & Hd & Hv & Hs).
  cbn [append placeholders]. change (Ascii.eqb "$"%char dollar) with true.
  cbn iota.
  rewrite (placeholders_free_app (fmt_d z)) by now apply fmt_d_free.
  rewrite Hs, read_uint_print by assumption.
  destruct d; try contradiction; now rewrite <- Hv.
Qed.


(** ** The threading loop *)

Lemma lower_all_acc lower cs : forall parts args idx,
  fold_left (lower_step lower) cs (parts, args, idx) =
  let '(ps, az, fin) := lower_seq lower cs idx in
  ((parts ++ ps)%list, (args ++ az)%list, fin).
Proof.
  induction cs as [|c cs IH]; intros parts args idx; simpl.
  - now rewrite !app_nil_r.
  - destruct (lower c idx) as [[sql a] next] eqn:E.
    rewrite IH. destruct (lower_seq lower cs next) as [[ps az] fin].
    now rewrite <- !app_assoc.
Qed.

Lemma lower_all_seq lower cs idx :
  lower_all lower cs idx = lower_seq lower cs idx.
Proof.
  unfold lower_all. rewrite lower_all_acc.
  now destruct (lower_seq lower cs idx) as [[ps az] fin].
Qed.

Lemma ToSQL_And cs idx :
  cs <> [] ->
  ToSQL (AndCondition cs) idx =
  let '(ps, az, fin) := lower_seq ToSQL cs idx in
  ("(" ++ Join ps " AND " ++ ")", az, fin).
Proof.
  intros Hne. destruct cs as [|c cs]; [contradiction|].
  cbn [ToSQL]. rewrite lower_all_acc.
  now destruct (lower_seq ToSQL (c :: cs) idx) as [[ps az] fin].
Qed.

Lemma ToSQL_Or cs idx :
  cs <> [] ->
  ToSQL (OrCondition cs) idx =
  let '(ps, az, fin) := lower_seq ToSQL cs idx in
  ("(" ++ Join ps " OR " ++ ")", az, fin).
Proof.
  intros Hne. destruct cs as [|c cs]; [contradiction|].
  cbn [ToSQL]. rewrite lower_all_acc.
  now destruct (lower_seq ToSQL (c :: cs) idx) as [[ps az] fin].
Qed.

(** ** Index accounting *)

Lemma wrap_int_is_int z : is_int (wrap_int z).
Proof.
  unfold is_int, wrap_int, min_int, max_int.
  pose proof (Z.mod_pos_bound (z + 2 ^ 63) (2 ^ 64)). lia.
Qed.

Lemma lower_seq_count cs :
  Forall (fun c => forall idx, is_int idx ->
            List.length (snd (fst (ToSQL c idx))) = slots c /\
            snd (ToSQL c idx) = add_int idx (Z.of_nat (slots c))) cs ->
  forall idx, is_int idx ->
    List.length (snd (fst (lower_seq ToSQL cs idx))) = list_sum (map slots cs) /\
    snd (lower_seq ToSQL cs idx) = add_int idx (Z.of_nat (list_sum (map slots cs))).
Proof.
  induction 1 as [|c cs Hc _ IH]; intros idx Hi; simpl.
  - split; [reflexivity|]. now rewrite add_int_0.
  - destruct (Hc idx Hi) as [Hl Hn].
    destruct (ToSQL c idx) as [[sql a] next]; simpl in *.
    assert (Hi' : is_int next) by (subst next; apply wrap_int_is_int).
    destruct (IH next Hi') as [Hl' Hn'].
    destruct (lower_seq ToSQL cs next) as [[ps az] fin]; simpl in *.
    split.
    + rewrite length_app. lia.
    + rewrite Hn', Hn, add_int_assoc. f_equal. lia.
Qed.

Lemma ToSQL_count c : forall idx, is_int idx ->
  List.length (snd (fst (ToSQL c idx))) = slots c /\
  snd (ToSQL c idx) = add_int idx (Z.of_nat (slots c)).
Proof.
  induction c using Condition_tree_ind; intros idx Hi.
  - simpl. auto.
  - destruct vals; simpl; [split; [reflexivity | now rewrite add_int_0]|].
    split; reflexivity.
  - simpl. auto.
  - destruct b; simpl; (split; [reflexivity | now rewrite add_int_0]).
  - simpl. auto.
  - destruct cs as [|c cs]; [simpl; split; [reflexivity | now rewrite add_int_0]|].
    rewrite ToSQL_And by discriminate.
    pose proof (lower_seq_count _ H idx Hi) as [Hl Hn].
    destruct (lower_seq ToSQL (c :: cs) idx) as [[ps az] fin]. auto.
  - destruct cs as [|c cs]; [simpl; split; [reflexivity | now rewrite add_int_0]|].
    rewrite ToSQL_Or by discriminate.
    pose proof (lower_seq_count _ H idx Hi) as [Hl Hn].
    destruct (lower_seq ToSQL (c :: cs) idx) as [[ps az] fin]. auto.
  - cbn [ToSQL slots]. destruct (IHc idx Hi) as [Hl Hn].
    destruct (ToSQL c idx) as [[sql a] next]. auto.
Qed.

(** ** Placeholders of lowered fragments *)

Lemma iota_app idx n m :
  iota idx (n + m) = (iota idx n ++ iota (idx + Z.of_nat n) m)%list.
Proof.
  revert idx. induction n as [|n IH]; intros idx; simpl.
  - now rewrite Z.add_0_r.
  - rewrite IH. do 3 f_equal. lia.
Qed.

Lemma emits_nil : emits "" [].
Proof. intros rest _. reflexivity. Qed.

Lemma emits_free a : dollar_free a = true -> emits a [].
Proof. intros Ha rest _. now apply placeholders_free_app. Qed.

Lemma emits_lit_l a f phs :
  dollar_free a = true -> emits f phs -> emits (a ++ f) phs.
Proof.
  intros Ha Hf rest Hr. rewrite append_assoc, placeholders_free_app by assumption.
  now apply Hf.
Qed.

Lemma emits_lit_r a f phs :
  plain_sep a -> emits f phs -> emits (f ++ a) phs.
Proof.
  intros [Ha Hd] Hf rest Hr. rewrite append_assoc, Hf by apply Hd.
  now rewrite placeholders_free_app.
Qed.

Lemma emits_sep a f g p q :
  plain_sep a -> emits f p -> emits g q -> emits (f ++ a ++ g) (p ++ q)%list.
Proof.
  intros [Ha Hd] Hf Hg rest Hr.
  rewrite !append_assoc, Hf by apply Hd.
  rewrite placeholders_free_app by assumption.
  rewrite Hg by assumption. now rewrite app_assoc.
Qed.

Lemma emits_placeholder z : 0 <= z -> emits ("$" ++ fmt_d z) [z].
Proof.
  intros Hz rest Hr. rewrite append_assoc. now apply placeholders_dollar.
Qed.

Ltac plain := split; [reflexivity | intros; reflexivity].

Lemma emits_Join sep parts phss :
  plain_sep sep -> Forall2 emits parts phss ->
  emits (Join parts sep) (List.concat phss).
Proof.
  intros Hs H. induction H as [|f p parts phss Hf HF IH]; simpl.
  - apply emits_nil.
  - destruct parts as [|g parts].
    + inversion HF; subst. simpl. now rewrite app_nil_r.
    + now apply emits_sep.
Qed.

Lemma in_placeholders_emits {A} (vals : list A) idx : forall i,
  0 <= idx -> 0 <= i -> idx + i + len vals <= max_int ->
  exists phss,
    Forall2 emits (in_placeholders vals idx i) phss /\
    List.concat phss = iota (idx + i) (List.length vals).
Proof.
  unfold len. induction vals as [|v vals IH]; intros i Hidx Hi Hb; simpl.
  - exists []. split; constructor.
  - destruct (IH (i + 1)) as (phss & HF & Hc); try lia.
    { simpl List.length in Hb. lia. }
    exists ([idx + i] :: phss). split.
    + constructor; [|assumption].
      rewrite add_int_small.
      * apply emits_placeholder. lia.
      * simpl List.length in Hb. unfold min_int, max_int in *. lia.
    + simpl. rewrite Hc. do 2 f_equal. lia.
Qed.

Lemma lower_seq_emits cs :
  Forall (fun c => forall idx, cond_wf c = true -> 0 <= idx ->
            idx + Z.of_nat (slots c) <= max_int ->
            emits (fst (fst (ToSQL c idx))) (iota idx (slots c))) cs ->
  forall idx, forallb cond_wf cs = true -> 0 <= idx ->
    idx + Z.of_nat (list_sum (map slots cs)) <= max_int ->
    exists phss,
      Forall2 emits (fst (fst (lower_seq ToSQL cs idx))) phss /\
      List.concat phss = iota idx (list_sum (map slots cs)).
Proof.
  induction 1 as [|c cs Hc _ IH]; intros idx Hwf Hidx Hb;
    cbn [forallb map lower_seq] in *.
  - exists []. split; constructor.
  - change (list_sum (slots c :: map slots cs))
      with (slots c + list_sum (map slots cs))%nat in *.
    apply andb_true_iff in Hwf as [Hwc Hwcs].
    assert (Hi : is_int idx) by (unfold is_int, min_int, max_int in *; lia).
    specialize (Hc idx Hwc Hidx ltac:(lia)).
    destruct (ToSQL_count c idx Hi) as [_ Hn].
    destruct (ToSQL c idx) as [[sql a] next]; cbn [fst snd] in *.
    assert (Hnext : next = idx + Z.of_nat (slots c)).
    { rewrite Hn. apply add_int_small. unfold min_int, max_int in *. lia. }
    destruct (IH next Hwcs) as (phss & HF & Hcat); try lia.
    destruct (lower_seq ToSQL cs next) as [[ps az] fin]; cbn [fst snd] in *.
    exists (iota idx (slots c) :: phss). split.
    + now constructor.
    + simpl. rewrite Hcat, Hnext. now rewrite iota_app.
Qed.

Lemma ToSQL_emits c : forall idx,
  cond_wf c = true -> 0 <= idx ->
  idx + Z.of_nat (slots c) <= max_int ->
  emits (fst (fst (ToSQL c idx))) (iota idx (slots c)).
Proof.
  induction c using Condition_tree_ind; intros idx Hwf Hidx Hb;
    cbn [cond_wf slots] in *.
  - apply andb_true_iff in Hwf as [Hc Ho]. cbn [ToSQL fst iota].
    apply emits_lit_l; [assumption|].
    apply (emits_lit_l " "); [reflexivity|].
    apply emits_lit_l; [assumption|].
    apply (emits_lit_l " "); [reflexivity|].
    now apply emits_placeholder.
  - destruct vals as [|v vals]; [now apply emits_free|].
    cbn [ToSQL fst].
    destruct (in_placeholders_emits (v :: vals) idx 0) as (phss & HF & Hc);
      try lia.
    { unfold len. lia. }
    apply emits_lit_l; [assumption|].
    apply (emits_lit_l " IN ("); [reflexivity|].
    rewrite Z.add_0_r in Hc. rewrite <- Hc.
    apply emits_lit_r; [plain|].
    apply emits_Join; [plain | assumption].
  - cbn [ToSQL fst iota].
    apply emits_lit_l; [assumption|].
    apply (emits_lit_l " BETWEEN "); [reflexivity|].
    rewrite add_int_small by (unfold min_int, max_int in *; lia).
    change (emits (("$" ++ fmt_d idx) ++ " AND " ++ ("$" ++ fmt_d (idx + 1)))
              ([idx] ++ [idx + 1])%list).
    apply (emits_sep " AND "); [plain | |]; apply emits_placeholder; lia.
  - destruct b; cbn [ToSQL fst iota]; apply emits_free;
      rewrite dollar_free_app, Hwf; reflexivity.
  - cbn [ToSQL fst iota].
    apply emits_lit_l; [assumption|].
    apply (emits_lit_l " LIKE "); [reflexivity|].
    now apply emits_placeholder.
  - destruct cs as [|c cs]; [now apply emits_free|].
    rewrite ToSQL_And by discriminate.
    destruct (lower_seq_emits _ H idx Hwf Hidx Hb) as (phss & HF & Hc).
    destruct (lower_seq ToSQL (c :: cs) idx) as [[ps az] fin]. cbn [fst] in *.
    rewrite <- Hc. apply (emits_lit_l "("); [reflexivity|].
    apply emits_lit_r; [plain|]. apply emits_Join; [plain | assumption].
  - destruct cs as [|c cs]; [now apply emits_free|].
    rewrite ToSQL_Or by discriminate.
    destruct (lower_seq_emits _ H idx Hwf Hidx Hb) as (phss & HF & Hc).
    destruct (lower_seq ToSQL (c :: cs) idx) as [[ps az] fin]. cbn [fst] in *.
    rewrite <- Hc. apply (emits_lit_l "("); [reflexivity|].
    apply emits_lit_r; [plain|]. apply emits_Join; [plain | assumption].
  - cbn [ToSQL]. specialize (IHc idx Hwf Hidx Hb).
    destruct (ToSQL c idx) as [[sql a] next]. cbn [fst] in *.
    apply (emits_lit_l "NOT ("); [reflexivity|].
    apply emits_lit_r; [plain | assumption].
Qed.

Lemma emits_text f phs : emits f phs -> placeholders f = phs.
Proof.
  intros H. specialize (H "" eq_refl).
  now rewrite append_nil_r, app_nil_r in H.
Qed.


Lemma dollar_free_Join parts sep :
  forallb dollar_free parts = true -> dollar_free sep = true ->
  dollar_free (Join parts sep) = true.
Proof.
  intros Hp Hs. induction parts as [|p parts IH]; [reflexivity|].
  cbn [forallb] in Hp. apply andb_true_iff in Hp as [Hp Hps].
  destruct parts as [|p' parts]; [exact Hp|].
  change (Join (p :: p' :: parts) sep) with (p ++ sep ++ Join (p' :: parts) sep).
  rewrite !dollar_free_app, Hp, Hs. now apply IH.
Qed.

Lemma iota_length idx n : List.length (iota idx n) = n.
Proof. revert idx. induction n; intros; simpl; auto. Qed.





(** What one condition lowers to, from an index at which its
    placeholders do not overflow. *)
Lemma ToSQL_placeholders c idx :
  cond_wf c = true -> 0 <= idx -> idx + Z.of_nat (slots c) <= max_int ->
  placeholders (fst (fst (ToSQL c idx))) = iota idx (slots c) /\
  List.length (snd (fst (ToSQL c idx))) = slots c /\
  snd (ToSQL c idx) = idx + Z.of_nat (slots c).
Proof.
  intros Hwf Hidx Hb.
  assert (Hi : is_int idx) by (unfold is_int, min_int, max_int in *; lia).
  destruct (ToSQL_count c idx Hi) as [Hl Hn].
  split; [|split]; [|assumption|].
  - now apply emits_text, ToSQL_emits.
  - rewrite Hn. apply add_int_small. unfold min_int, max_int in *. lia.
Qed.

(** What the conjunction of a query lowers to. *)
Lemma lower_all_placeholders cs idx :
  forallb cond_wf cs = true -> 0 <= idx ->
  idx + Z.of_nat (list_sum (map slots cs)) <= max_int ->
  emits (Join (fst (fst (lower_all ToSQL cs idx))) " AND ")
        (iota idx (list_sum (map slots cs))) /\
  List.length (snd (fst (lower_all ToSQL cs idx))) = list_sum (map slots cs).
Proof.
  intros Hwf Hidx Hb. rewrite lower_all_seq.
  assert (Hi : is_int idx) by (unfold is_int, min_int, max_int in *; lia).
  split.
  - destruct (lower_seq_emits cs) with (idx := idx) as (phss & HF & Hc);
      try assumption.
    { apply Forall_forall. intros c _ i. apply ToSQL_emits. }
    rewrite <- Hc. apply emits_Join; [plain | assumption].
  - apply lower_seq_count; [|assumption].
    apply Forall_forall. intros c _ i. apply ToSQL_count.
Qed.

Lemma where_emits sel conds sb args :
  dollar_free sel = true -> forallb cond_wf conds = true ->
  (sb, args) =
    match conds with
    | [] => (sel, [])
    | _ :: _ =>
        let '(whereParts, args, _) := lower_all ToSQL conds 1 in
        (sel ++ " WHERE " ++ Join whereParts " AND ", args)
    end ->
  1 + len args <= max_int ->
  emits sb (iota 1 (List.length args)).
Proof.
  unfold len. intros Hsel Hc Heq Hb.
  assert (Hlen : List.length (snd (fst (lower_all ToSQL conds 1)))
                 = list_sum (map slots conds)).
  { rewrite lower_all_seq. apply lower_seq_count.
    - apply Forall_forall. intros c' _ i. apply ToSQL_count.
    - unfold is_int, min_int, max_int. lia. }
  assert (He : 1 + Z.of_nat (list_sum (map slots conds)) <= max_int ->
               emits (Join (fst (fst (lower_all ToSQL conds 1))) " AND ")
                     (iota 1 (list_sum (map slots conds)))).
  { intros Hb'. apply lower_all_placeholders; [assumption | lia | assumption]. }
  destruct conds as [|c cs].
  - inversion Heq; subst. now apply emits_free.
  - destruct (lower_all ToSQL (c :: cs) 1) as [[wp a] nx].
    inversion Heq; subst. cbn [fst snd] in *. rewrite Hlen in *.
    apply emits_lit_l; [assumption|].
    apply (emits_lit_l " WHERE "); [reflexivity | now apply He].
Qed.


(* ================================================================= *)
(** * The condition algebra *)



(** C5. Edge cases of lowering: an IN without values is the literal
    FALSE, with no placeholder and no argument, never an empty
    [IN ()]; an IN with N values returns these N values as arguments
    and moves the index by N, its text carrying the N placeholders
    [$idx .. $idx+N-1]; an AND without children is TRUE and an OR
    without children is FALSE, neither of them consuming a
    placeholder. *)
Theorem C5_lowering_edge_cases :
  (forall col idx, ToSQL (InCondition col []) idx = ("FALSE", [], idx)) /\
  (forall col vals idx, vals <> [] ->
     exists text,
       ToSQL (InCondition col vals) idx
         = (text, vals, add_int idx (len vals)) /\
       (dollar_free col = true -> 1 <= idx -> idx + len vals <= max_int ->
        add_int idx (len vals) = idx + len vals /\
        placeholders text = iota idx (List.length vals))) /\
  (forall idx, ToSQL (AndCondition []) idx = ("TRUE", [], idx)) /\
  (forall idx, ToSQL (OrCondition []) idx = ("FALSE", [], idx)).
Proof.
  split; [reflexivity | split; [|split; reflexivity]].
  intros col vals idx Hne.
  destruct vals as [|v vals]; [contradiction|].
  eexists. split; [reflexivity|].
  intros Hcol Hidx Hb. unfold len in *.
  destruct (ToSQL_placeholders (InCondition col (v :: vals)) idx Hcol)
    as (Hp & _ & Hn); [lia | exact Hb |].
  cbn [ToSQL fst snd slots] in Hp, Hn. unfold len in Hn. split; assumption.
Qed.

Lemma C5_lowering_edge_cases_witness :
  exists text,
    ToSQL (InCondition "id" [VInt 1; VInt 2; VInt 3]) 4 = (text, [VInt 1; VInt 2; VInt 3], 7)
    /\ placeholders text = [4; 5; 6].
Proof.
  destruct C5_lowering_edge_cases as (_ & Hin & _).
  destruct (Hin "id" [VInt 1; VInt 2; VInt 3] 4 ltac:(discriminate))
    as (text & Heq & Hph).
  exists text. split; [exact Heq|].
  apply Hph; [reflexivity | lia | vm_compute; discriminate].
Defined.

Lemma unary_slots c :
  unary_leaves c = true -> (slots c + null_leaves c = leaves c)%nat.
Proof.
  induction c using Condition_tree_ind;
    cbn [unary_leaves slots leaves null_leaves];
    try reflexivity; try discriminate; try assumption.
  - intros Hu. induction H as [|c cs Hc _ IH]; [reflexivity|].
    cbn [forallb] in Hu. apply andb_true_iff in Hu as [Hu1 Hu2].
    cbn [map]. specialize (Hc Hu1). specialize (IH Hu2).
    change (list_sum (slots c :: map slots cs))
      with (slots c + list_sum (map slots cs))%nat.
    change (list_sum (null_leaves c :: map null_leaves cs))
      with (null_leaves c + list_sum (map null_leaves cs))%nat.
    change (list_sum (leaves c :: map leaves cs))
      with (leaves c + list_sum (map leaves cs))%nat.
    lia.
  - intros Hu. induction H as [|c cs Hc _ IH]; [reflexivity|].
    cbn [forallb] in Hu. apply andb_true_iff in Hu as [Hu1 Hu2].
    cbn [map]. specialize (Hc Hu1). specialize (IH Hu2).
    change (list_sum (slots c :: map slots cs))
      with (slots c + list_sum (map slots cs))%nat.
    change (list_sum (null_leaves c :: map null_leaves cs))
      with (null_leaves c + list_sum (map null_leaves cs))%nat.
    change (list_sum (leaves c :: map leaves cs))
      with (leaves c + list_sum (map leaves cs))%nat.
    lia.
Qed.

(** C9, as the code has it.  The number of placeholders a condition
    tree consumes is the number of argument slots of its leaves: one
    for a comparison or a pattern match, two for a range, one per
    value for a set membership, none for a nullness test; it equals
    the number of returned arguments and the number of placeholders
    in the text.  For a tree whose leaves are comparisons, pattern
    matches and nullness tests only, this is the number of leaves
    minus the number of nullness leaves. *)
Theorem C9_placeholder_count :
  forall c idx, 1 <= idx -> idx + Z.of_nat (slots c) <= max_int ->
    let '(text, args, nextIdx) := ToSQL c idx in
    nextIdx - idx = Z.of_nat (slots c) /\
    List.length args = slots c /\
    (cond_wf c = true -> List.length (placeholders text) = slots c) /\
    (unary_leaves c = true -> slots c = (leaves c - null_leaves c)%nat).
Proof.
  intros c idx Hidx Hb.
  assert (Hi : is_int idx) by (unfold is_int, min_int, max_int in *; lia).
  pose proof (ToSQL_count c idx Hi) as [Hl Hn].
  pose proof (fun H => ToSQL_placeholders c idx H ltac:(lia) Hb) as Hp.
  destruct (ToSQL c idx) as [[text args] nextIdx]. cbn [fst snd] in *.
  split; [|split; [assumption|split]].
  - rewrite Hn, add_int_small; [lia|]. unfold min_int, max_int in *. lia.
  - intros Hwf. destruct (Hp Hwf) as (-> & _). apply iota_length.
  - intros Hu. pose proof (unary_slots c Hu). lia.
Qed.

Lemma C9_placeholder_count_witness :
  let '(text, args, nextIdx) := ToSQL demo_or 1 in
  nextIdx - 1 = 2 /\ List.length args = 2%nat /\
  List.length (placeholders text) = 2%nat /\
  slots demo_or = (leaves demo_or - null_leaves demo_or)%nat.
Proof.
  pose proof (C9_placeholder_count demo_or 1 ltac:(lia)
                ltac:(vm_compute; discriminate)) as H.
  cbv beta iota delta [demo_or] in *.
  destruct (ToSQL (Or [Age_Lt 18; Age_Gt 25]) 1) as [[text args] nextIdx].
  destruct H as (H1 & H2 & H3 & H4).
  split; [exact H1 | split; [exact H2 | split; [now apply H3 | now apply H4]]].
Defined.

(** C9, as the spec words it, fails on a range leaf: the tree has one
    leaf and no nullness leaf, and lowering it consumes two
    placeholders. *)
Lemma C9_range_leaf_counterexample :
  let c := And [BetweenCondition "age" (VInt 18) (VInt 65)] in
  let '(_, args, nextIdx) := ToSQL c 1 in
  leaves c = 1%nat /\ null_leaves c = 0%nat /\
  nextIdx - 1 = 2 /\ List.length args = 2%nat /\
  nextIdx - 1 <> Z.of_nat (leaves c - null_leaves c).
Proof. vm_compute. repeat split; discriminate. Qed.

(* ================================================================= *)
(** * Maps keyed by strings *)

Lemma map_get_set {V} k k' (v : V) m :
  map_get k (map_set k' v m) =
  if String.eqb k' k then Some v else map_get k m.
Proof.
  induction m as [|[k0 v0] m IH]; cbn [map_get map_set].
  - reflexivity.
  - destruct (String.eqb k0 k') eqn:E0; cbn [map_get].
    + apply String.eqb_eq in E0. subst k0.
      destruct (String.eqb k' k); reflexivity.
    + rewrite IH. destruct (String.eqb k0 k) eqn:E1; [|reflexivity].
      apply String.eqb_eq in E1. subst k0.
      now rewrite String.eqb_sym, E0.
Qed.

Lemma map_get_delete {V} k k' (m : list (string * V)) :
  map_get k (map_delete k' m) =
  if String.eqb k' k then None else map_get k m.
Proof.
  induction m as [|[k0 v0] m IH]; cbn [map_get map_delete].
  - now destruct (String.eqb k' k).
  - destruct (String.eqb k0 k') eqn:E0; cbn [map_get].
    + rewrite IH. apply String.eqb_eq in E0. subst k0.
      now destruct (String.eqb k' k).
    + rewrite IH. destruct (String.eqb k0 k) eqn:E1; [|reflexivity].
      apply String.eqb_eq in E1. subst k0.
      now rewrite String.eqb_sym, E0.
Qed.

Lemma map_get_In {V} k (v : V) m : map_get k m = Some v -> In (k, v) m.
Proof.
  induction m as [|[k0 v0] m IH]; simpl; [discriminate|].
  destruct (String.eqb k0 k) eqn:E.
  - apply String.eqb_eq in E. intros [= ->]. left. now subst.
  - auto.
Qed.

Lemma map_get_None {V} k (m : list (string * V)) :
  map_get k m = None <-> ~ In k (map fst m).
Proof.
  induction m as [|[k0 v0] m IH]; simpl; [tauto|].
  destruct (String.eqb k0 k) eqn:E.
  - apply String.eqb_eq in E. split; [discriminate | intros H; exfalso; auto].
  - apply String.eqb_neq in E. rewrite IH. tauto.
Qed.

Lemma In_map_get {V} k (v : V) m :
  NoDup (map fst m) -> In (k, v) m -> map_get k m = Some v.
Proof.
  induction m as [|[k0 v0] m IH]; simpl; [tauto|].
  intros Hnd [Heq|Hin]; inversion Hnd as [|? ? Hni Hnd']; subst.
  - inversion Heq; subst. now rewrite String.eqb_refl.
  - destruct (String.eqb k0 k) eqn:E; [|auto].
    apply String.eqb_eq in E. subst k0. exfalso. apply Hni.
    change k with (fst (k, v)). now apply in_map.
Qed.

Lemma map_get_perm {V} k (m m' : list (string * V)) :
  Permutation m' m -> NoDup (map fst m) -> map_get k m' = map_get k m.
Proof.
  intros Hp Hnd.
  assert (Hnd' : NoDup (map fst m')).
  { eapply Permutation_NoDup; [|exact Hnd]. apply Permutation_map.
    now apply Permutation_sym. }
  destruct (map_get k m) as [v|] eqn:E.
  - apply In_map_get; [assumption|]. apply map_get_In in E.
    eapply Permutation_in; [apply Permutation_sym|]; eassumption.
  - apply map_get_None. apply map_get_None in E. intros Hin. apply E.
    eapply Permutation_in; [|exact Hin]. now apply Permutation_map.
Qed.

Lemma map_set_keys {V} k (v : V) m x :
  In x (map fst (map_set k v m)) <-> x = k \/ In x (map fst m).
Proof.
  induction m as [|[k0 v0] m IH]; simpl.
  - intuition.
  - destruct (String.eqb k0 k) eqn:E; simpl.
    + apply String.eqb_eq in E. subst. intuition.
    + rewrite IH. intuition.
Qed.

Lemma map_set_NoDup {V} k (v : V) m :
  NoDup (map fst m) -> NoDup (map fst (map_set k v m)).
Proof.
  induction m as [|[k0 v0] m IH]; simpl; intros Hnd.
  - constructor; [tauto | constructor].
  - inversion Hnd as [|? ? Hni Hnd']; subst.
    destruct (String.eqb k0 k) eqn:E; simpl.
    + apply String.eqb_eq in E. subst. now constructor.
    + constructor; [|auto]. rewrite map_set_keys. intros [->|H]; [|auto].
      now rewrite String.eqb_refl in E.
Qed.

Lemma map_delete_keys {V} k (m : list (string * V)) x :
  In x (map fst (map_delete k m)) <-> x <> k /\ In x (map fst m).
Proof.
  induction m as [|[k0 v0] m IH]; simpl.
  - tauto.
  - destruct (String.eqb k0 k) eqn:E; simpl.
    + apply String.eqb_eq in E. subst. rewrite IH. intuition. now subst.
    + apply String.eqb_neq in E. rewrite IH. intuition. now subst.
Qed.

Lemma map_delete_NoDup {V} k (m : list (string * V)) :
  NoDup (map fst m) -> NoDup (map fst (map_delete k m)).
Proof.
  induction m as [|[k0 v0] m IH]; simpl; intros Hnd; [constructor|].
  inversion Hnd as [|? ? Hni Hnd']; subst.
  destruct (String.eqb k0 k); simpl; [auto|].
  constructor; [|auto]. rewrite map_delete_keys. tauto.
Qed.

(** A sweep that replaces every entry it meets: what is under a key
    afterwards. *)
Lemma sweep_get {V} (f : V -> V) k (it m : list (string * V)) :
  NoDup (map fst it) ->
  map_get k (fold_left (fun m ke => map_set (fst ke) (f (snd ke)) m) it m) =
  match map_get k it with
  | Some v => Some (f v)
  | None => map_get k m
  end.
Proof.
  revert m. induction it as [|[k0 v0] it IH]; intros m Hnd; simpl.
  - reflexivity.
  - inversion Hnd as [|? ? Hni Hnd']; subst. rewrite IH by assumption.
    destruct (String.eqb k0 k) eqn:E.
    + apply String.eqb_eq in E. subst k0.
      apply map_get_None in Hni. rewrite Hni.
      now rewrite map_get_set, String.eqb_refl.
    + destruct (map_get k it); [reflexivity|].
      now rewrite map_get_set, E.
Qed.

Lemma sweep_keys {V} (f : V -> V) (it m : list (string * V)) :
  incl (map fst it) (map fst m) ->
  map fst (fold_left (fun m ke => map_set (fst ke) (f (snd ke)) m) it m)
  = map fst m.
Proof.
  revert m. induction it as [|[k0 v0] it IH]; intros m Hin; simpl.
  - reflexivity.
  - assert (Hk : forall (m : list (string * V)) v, In k0 (map fst m) ->
               map fst (map_set k0 v m) = map fst m).
    { clear. induction m as [|[k1 v1] m IH]; simpl; intros v; [tauto|].
      destruct (String.eqb k1 k0) eqn:E; simpl.
      - apply String.eqb_eq in E. now subst.
      - apply String.eqb_neq in E. intros [H|H]; [contradiction|].
        now rewrite IH. }
    rewrite IH.
    + apply Hk. apply Hin. now left.
    + rewrite Hk by (apply Hin; now left).
      intros x Hx. apply Hin. now right.
Qed.

(* ================================================================= *)
(** * Entity entries *)



Lemma index_of_name_spec fs name k i :
  index_of_name fs name k = Some i ->
  (k <= i)%nat /\ (i - k < List.length fs)%nat /\
  Name (nth (i - k) fs no_field) = name.
Proof.
  revert k. induction fs as [|f fs IH]; intros k; simpl; [discriminate|].
  destruct (String.eqb (Name f) name) eqn:E.
  - intros [= <-]. apply String.eqb_eq in E. rewrite Nat.sub_diag.
    repeat split; [lia | lia | assumption].
  - intros H. apply IH in H as (H1 & H2 & H3).
    replace (i - k)%nat with (S (i - S k)) by lia.
    repeat split; [lia | lia | assumption].
Qed.

Lemma FieldByName_spec t name i :
  FieldByName t name = Some i ->
  (i < NumField t)%nat /\ Name (TypeField t i) = name.
Proof.
  unfold FieldByName, NumField, TypeField. intros H.
  apply index_of_name_spec in H as (_ & H2 & H3).
  rewrite Nat.sub_0_r in *. auto.
Qed.

Lemma field_name_inj t i j :
  type_ok t -> (i < NumField t)%nat -> (j < NumField t)%nat ->
  Name (TypeField t i) = Name (TypeField t j) -> i = j.
Proof.
  unfold type_ok, NumField, TypeField. intros Hnd Hi Hj Heq.
  rewrite (NoDup_nth (map Name (Fields t)) "") in Hnd.
  apply Hnd; rewrite ?length_map; try assumption.
  change "" with (Name no_field). now rewrite !map_nth.
Qed.




Lemma captureMetadata_facts h e :
  Entity (captureMetadata h e) = Entity e /\
  State (captureMetadata h e) = State e /\
  OriginalValues (captureMetadata h e) = OriginalValues e /\
  entityType (captureMetadata h e) = type_of (h (Entity e)).
Proof.
  unfold captureMetadata.
  destruct (first_pk _ _ _) as [[pkf pkv]|];
    [destruct (String.eqb pkf "") | destruct (String.eqb (pkField e) "")];
    try destruct (FieldByName _ _); auto.
Qed.

Lemma captureOriginalValues_facts h e :
  Entity (captureOriginalValues h e) = Entity e /\
  State (captureOriginalValues h e) = State e /\
  entityType (captureOriginalValues h e) = entityType e /\
  pkField (captureOriginalValues h e) = pkField e.
Proof. unfold captureOriginalValues. auto. Qed.

Lemma newEntityEntry_facts h p st :
  Entity (newEntityEntry h p st) = p /\
  State (newEntityEntry h p st) = st /\
  entityType (newEntityEntry h p st) = type_of (h p).
Proof.
  unfold newEntityEntry.
  set (e0 := {| Entity := p; State := st; OriginalValues := [];
                entityType := _; pkField := ""; pkValue := VNil |}).
  destruct (captureMetadata_facts h e0) as (H1 & H2 & H3 & H4).
  destruct (captureOriginalValues_facts h (captureMetadata h e0))
    as (G1 & G2 & G3 & G4).
  destruct st; rewrite ?G1, ?G2, ?G3, ?H1, ?H2, ?H4; auto.
Qed.


Lemma nth_set_nth i x l j :
  (i < List.length l)%nat ->
  nth j (set_nth i x l) VNil = if Nat.eqb j i then x else nth j l VNil.
Proof.
  revert i j. induction l as [|y l IH]; intros i j Hi; simpl in Hi; [lia|].
  destruct i as [|i], j as [|j]; simpl; try reflexivity.
  apply IH. lia.
Qed.


Lemma Field_SetField v i x j :
  (i < List.length (field_values v))%nat ->
  Field (SetField v i x) j = if Nat.eqb j i then x else Field v j.
Proof. intros H. unfold Field, SetField. cbn [field_values]. now apply nth_set_nth. Qed.





(* ================================================================= *)
(** * The change tracker *)

Lemma fair_NoDup E site w :
  fair_range E -> tracker_ok w ->
  NoDup (map fst (env_range E site (entries w))).
Proof.
  intros Hf Hok. eapply Permutation_NoDup; [|exact Hok].
  apply Permutation_map, Permutation_sym, Hf.
Qed.

Lemma Track_facts p st w key e w1 :
  Track p st w = Some (key, e, w1) ->
  e = newEntityEntry (heap w) p st /\
  heap w1 = heap w /\ next_ptr w1 = next_ptr w /\
  conn w1 = conn w /\ trace w1 = trace w /\
  entries w1 = map_set key e (entries w) /\
  map_get key (entries w1) = Some e.
Proof.
  unfold Track. destruct (makeKey _ _ _) as [k|]; [|discriminate].
  intros [= <- <- <-]. cbn. rewrite map_get_set, String.eqb_refl. auto 10.
Qed.

Lemma Track_ok p st w key e w1 :
  Track p st w = Some (key, e, w1) -> tracker_ok w -> tracker_ok w1.
Proof.
  intros H Hok. apply Track_facts in H as (_ & _ & _ & _ & _ & He & _).
  unfold tracker_ok in *. rewrite He. now apply map_set_NoDup.
Qed.

Lemma DetectChanges_all_get E site w key :
  fair_range E -> tracker_ok w ->
  map_get key (entries (DetectChanges_all E site w)) =
  option_map (DetectChanges (heap w)) (map_get key (entries w)).
Proof.
  intros Hf Hok. unfold DetectChanges_all. cbn [entries log with_entries].
  rewrite (sweep_get (DetectChanges (heap w))) by now apply fair_NoDup.
  rewrite (map_get_perm key (entries w)) by (apply Hf || exact Hok).
  now destruct (map_get key (entries w)).
Qed.

Lemma store_same h p v : store h p v p = v.
Proof. unfold store. now rewrite Nat.eqb_refl. Qed.

Lemma store_other h p v q : q <> p -> store h p v q = h q.
Proof. unfold store. intros H. apply Nat.eqb_neq in H. now rewrite H. Qed.


Lemma obliging_fair rows : fair_range (obliging rows).
Proof. intros site m. apply Permutation_refl. Qed.

Lemma refusing_updates_fair : fair_range refusing_updates.
Proof. intros site m. apply Permutation_refl. Qed.

Lemma Patient_ok : type_ok Patient.
Proof.
  unfold type_ok. cbn. repeat constructor; cbn; intuition discriminate.
Qed.


(* ================================================================= *)
(** * The statements of a flush *)

Lemma tx_exec_facts E tx p s w r w' :
  tx_exec E tx p s w = (r, w') ->
  heap w' = heap w /\ entries w' = entries w /\
  durable (conn w') = durable (conn w) /\
  trace w' = (trace w ++ [EvTxExec tx p s r])%list.
Proof.
  unfold tx_exec. destruct (tx_get tx _) as [pend|].
  - destruct (env_exec E _ s) as [n|]; intros [= <- <-]; cbn; auto.
  - intros [= <- <-]; cbn; auto.
Qed.

Lemma conn_query_row_facts E p s w r w' :
  conn_query_row E p s w = (r, w') ->
  heap w' = heap w /\ entries w' = entries w /\
  open_txs (conn w') = open_txs (conn w) /\
  trace w' = (trace w ++ [EvConnQueryRow p s r])%list.
Proof.
  unfold conn_query_row.
  destruct (env_query_row E _ s) as [v|]; intros [= <- <-]; cbn; auto.
Qed.

Lemma entry_effect_refl p w : entry_effect p w w.
Proof.
  repeat split; auto. exists []. now rewrite app_nil_r.
Qed.

Lemma entry_effect_stmt p w w' ev :
  heap w' = heap w -> entries w' = entries w ->
  trace w' = (trace w ++ [ev])%list -> stmt_for p ev = true ->
  entry_effect p w w'.
Proof.
  intros Hh He Ht Hs. unfold entry_effect. rewrite Hh, He.
  repeat split; auto. exists [ev]. split; [assumption|].
  cbn. now rewrite Hs.
Qed.

Lemma executeDelete_effect E tx e w r w' :
  executeDelete E tx e w = (r, w') ->
  entry_effect (Entity e) w w' /\ heap w' = heap w.
Proof.
  unfold executeDelete.
  destruct (tx_exec E tx (Entity e) _ w) as [[n|] w1] eqn:Hx;
    intros [= <- <-]; apply tx_exec_facts in Hx as (Hh & He & _ & Ht);
    (split; [|assumption]);
    (eapply entry_effect_stmt; [eassumption..|cbn; apply Nat.eqb_refl]).
Qed.

Lemma executeUpdate_effect E tx e w r w' :
  executeUpdate E tx e w = (r, w') ->
  entry_effect (Entity e) w w' /\ heap w' = heap w.
Proof.
  unfold executeUpdate.
  destruct (Z.eqb (len (GetChangedProperties (heap w) e)) 0).
  - intros [= <- <-]. split; [apply entry_effect_refl | reflexivity].
  - destruct (update_loop _ _ _ _ _ _) as [[setClauses vals] paramIdx].
    destruct (tx_exec E tx (Entity e) _ w) as [[n|] w1] eqn:Hx;
      intros [= <- <-]; apply tx_exec_facts in Hx as (Hh & He & _ & Ht);
      (split; [|assumption]);
      (eapply entry_effect_stmt; [eassumption..|cbn; apply Nat.eqb_refl]).
Qed.

(** No statement is issued for an entry without changed properties. *)
Lemma executeUpdate_clean E tx e w :
  GetChangedProperties (heap w) e = [] -> executeUpdate E tx e w = (Ok 0, w).
Proof. intros H. unfold executeUpdate. now rewrite H. Qed.

Lemma set_nth_length i x l : List.length (set_nth i x l) = List.length l.
Proof.
  revert i. induction l as [|y l IH]; intros [|i]; simpl; auto.
Qed.

Lemma setPKValue_frame E h p f x h' :
  setPKValue E h p f x = Some h' ->
  (forall q, q <> p -> h' q = h q) /\
  (forall q, type_of (h' q) = type_of (h q)) /\
  (forall q, List.length (field_values (h' q)) = List.length (field_values (h q))).
Proof.
  unfold setPKValue. destruct (FieldByName _ f) as [i|]; [|intros [= <-]; auto].
  assert (Hstore : forall x',
            (forall q, q <> p -> store h p (SetField (h p) i x') q = h q) /\
            (forall q, type_of (store h p (SetField (h p) i x') q) = type_of (h q)) /\
            (forall q, List.length (field_values (store h p (SetField (h p) i x') q))
                       = List.length (field_values (h q)))).
  { intros x'. repeat split; intros q; unfold store.
    - intros Hq. apply Nat.eqb_neq in Hq. now rewrite Hq.
    - destruct (Nat.eqb_spec q p) as [->|]; reflexivity.
    - destruct (Nat.eqb_spec q p) as [->|]; [|reflexivity].
      cbn. apply set_nth_length. }
  destruct x; try discriminate;
    (destruct (Convert _ _ _) as [x'|]; intros [= <-]; [apply Hstore | auto]).
Qed.

Lemma executeInsert_effect E tx e w r w' :
  executeInsert E tx e w = (r, w') -> entry_effect (Entity e) w w'.
Proof.
  unfold executeInsert.
  destruct (insert_loop _ _ _ _ _) as [[[cols vals] phs]|];
    [|intros [= <- <-]; apply entry_effect_refl].
  destruct (negb _ && negb _)%bool.
  - destruct (conn_query_row E (Entity e) _ w) as [[newPK|] w1] eqn:Hq;
      apply conn_query_row_facts in Hq as (Hh & He & _ & Ht).
    + assert (H1 : entry_effect (Entity e) w w1)
        by (eapply entry_effect_stmt; [eassumption..|cbn; apply Nat.eqb_refl]).
      destruct (setPKValue E (heap w1) (Entity e) (pkField e) newPK) as [h'|] eqn:Hs;
        intros [= <- <-]; [|assumption].
      apply setPKValue_frame in Hs as (F1 & F2 & F3).
      destruct H1 as (G1 & G2 & G3 & G4 & G5).
      unfold entry_effect. cbn [heap entries trace with_heap].
      repeat split; try assumption.
      * intros q Hq. now rewrite F1, G2.
      * intros q. now rewrite F2, G3.
      * intros q. now rewrite F3, G4.
    + intros [= <- <-].
      eapply entry_effect_stmt; [eassumption..|cbn; apply Nat.eqb_refl].
  - destruct (tx_exec E tx (Entity e) _ w) as [[n|] w1] eqn:Hx;
      intros [= <- <-]; apply tx_exec_facts in Hx as (Hh & He & _ & Ht);
      (eapply entry_effect_stmt; [eassumption..|cbn; apply Nat.eqb_refl]).
Qed.

(* ================================================================= *)
(** * The loops of a flush *)

(** What holds before a loop and is kept by every step holds after it. *)
Lemma run_entries_inv (Inv : World -> Prop) exec a es : forall aff w r w',
  run_entries exec a es aff w = (r, w') ->
  Inv w ->
  (forall k e w1 r1 w2, In (k, e) es -> Inv w1 ->
     exec e (log w1 (EvProcess a k)) = (r1, w2) -> Inv w2) ->
  Inv w'.
Proof.
  induction es as [|[k e] es IH]; intros aff w r w' Hrun Hinv Hstep; simpl in Hrun.
  - now inversion Hrun; subst.
  - destruct (exec e (log w (EvProcess a k))) as [[n|err|] w1] eqn:Hx.
    + eapply IH; [exact Hrun | |].
      * eapply Hstep; [now left | exact Hinv | exact Hx].
      * intros k' e' w2 r2 w3 Hin. apply Hstep. now right.
    + inversion Hrun; subst. eapply Hstep; [now left | exact Hinv | exact Hx].
    + inversion Hrun; subst. eapply Hstep; [now left | exact Hinv | exact Hx].
Qed.

(** What the step of one entry establishes, and every later step
    keeps, holds after a loop that ran to its end. *)
Lemma run_entries_saved (Inv Q : World -> Prop) exec a es k e :
  forall aff w aff' w',
  run_entries exec a es aff w = (Saved aff', w') ->
  In (k, e) es \/ Q w -> Inv w ->
  (forall k' e' w1 r1 w2, In (k', e') es -> Inv w1 ->
     exec e' (log w1 (EvProcess a k')) = (r1, w2) -> Inv w2) ->
  (forall w1 n w2, Inv w1 -> exec e (log w1 (EvProcess a k)) = (Ok n, w2) -> Q w2) ->
  (forall k' e' w1 n w2, In (k', e') es -> Inv w1 -> Q w1 ->
     exec e' (log w1 (EvProcess a k')) = (Ok n, w2) -> Q w2) ->
  Q w'.
Proof.
  induction es as [|[k0 e0] es IH];
    intros aff w aff' w' Hrun Hin Hinv Hstep Hest Hkeep; simpl in Hrun.
  - inversion Hrun; subst. destruct Hin as [[]|HQ]. exact HQ.
  - destruct (exec e0 (log w (EvProcess a k0))) as [[n|err|] w1] eqn:Hx;
      try discriminate.
    assert (Hinv1 : Inv w1) by (apply (Hstep k0 e0 w _ w1 (or_introl eq_refl) Hinv Hx)).
    apply (IH _ _ _ _ Hrun); try assumption.
    + destruct Hin as [[Heq|Hin]|HQ].
      * inversion Heq; subst k0 e0. right. apply (Hest w n w1 Hinv Hx).
      * now left.
      * right. apply (Hkeep k0 e0 w n w1 (or_introl eq_refl) Hinv HQ Hx).
    + intros k' e' w2 r2 w3 Hin'. apply (Hstep k' e' w2 r2 w3 (or_intror Hin')).
    + intros k' e' w2 n2 w3 Hin'. apply (Hkeep k' e' w2 n2 w3 (or_intror Hin')).
Qed.

Lemma actions_of_app evs evs' :
  actions_of (evs ++ evs') = (actions_of evs ++ actions_of evs')%list.
Proof.
  induction evs as [|ev evs IH]; [reflexivity|].
  destruct ev; simpl; now rewrite ?IH.
Qed.

Lemma stmt_for_actions p evs :
  forallb (stmt_for p) evs = true ->
  actions_of evs = [] /\ forallb dml_event evs = true.
Proof.
  induction evs as [|ev evs IH]; [auto|]. cbn [forallb].
  intros H. apply andb_true_iff in H as [H1 H2]. destruct (IH H2) as [IA ID].
  destruct ev; try discriminate; cbn; auto.
Qed.

(** The trace of one of the first three loops: the entries are taken
    up in the order of the list, up to the one at which the loop
    returns. *)
Lemma run_entries_trace exec a es : forall aff w r w',
  (forall e w1 r1 w2, exec e w1 = (r1, w2) -> entry_effect (Entity e) w1 w2) ->
  run_entries exec a es aff w = (r, w') ->
  exists evs n,
    trace w' = (trace w ++ evs)%list /\
    forallb dml_event evs = true /\
    actions_of evs = map (pair a) (map fst (firstn n es)) /\
    (forall x, r = Saved x -> firstn n es = es).
Proof.
  induction es as [|[k e] es IH]; intros aff w r w' Hexec Hrun; simpl in Hrun.
  - inversion Hrun; subst. exists [], 0%nat. rewrite app_nil_r. auto.
  - destruct (exec e (log w (EvProcess a k))) as [[n|err|] w1] eqn:Hx;
      pose proof (Hexec _ _ _ _ Hx) as (_ & _ & _ & _ & evs1 & Ht1 & Hs1);
      apply stmt_for_actions in Hs1 as [Ha1 Hd1]; cbn [trace log] in Ht1.
    + destruct (IH _ _ _ _ Hexec Hrun) as (evs & m & Ht & Hd & Ha & Hall).
      exists (EvProcess a k :: evs1 ++ evs)%list, (S m). repeat split.
      * rewrite Ht, Ht1, <- !app_assoc. reflexivity.
      * cbn. now rewrite forallb_app, Hd1, Hd.
      * cbn. now rewrite actions_of_app, Ha1, Ha.
      * intros x Hr. cbn. f_equal. eauto.
    + inversion Hrun; subst.
      exists (EvProcess a k :: evs1)%list, 1%nat. repeat split.
      * rewrite Ht1, <- app_assoc. reflexivity.
      * cbn. exact Hd1.
      * cbn. now rewrite Ha1.
      * discriminate.
    + inversion Hrun; subst.
      exists (EvProcess a k :: evs1)%list, 1%nat. repeat split.
      * rewrite Ht1, <- app_assoc. reflexivity.
      * cbn. exact Hd1.
      * cbn. now rewrite Ha1.
      * discriminate.
Qed.

(** The same for the last loop, which takes up the entries that have
    changes and leaves memory as it is. *)
Lemma run_unchanged_trace E tx es : forall aff w r w',
  run_unchanged E tx es aff w = (r, w') ->
  heap w' = heap w /\ entries w' = entries w /\
  exists evs n,
    trace w' = (trace w ++ evs)%list /\
    forallb dml_event evs = true /\
    actions_of evs =
      map (pair ActUpdate)
        (map fst (filter (fun ke => HasChanges (heap w) (snd ke)) (firstn n es))) /\
    (forall x, r = Saved x -> firstn n es = es).
Proof.
  induction es as [|[k e] es IH]; intros aff w r w' Hrun; simpl in Hrun.
  - inversion Hrun; subst. repeat split. exists [], 0%nat. rewrite app_nil_r. auto.
  - destruct (HasChanges (heap w) e) eqn:Hc.
    + destruct (executeUpdate E tx e (log w (EvProcess ActUpdate k)))
        as [[n|err|] w1] eqn:Hx;
        pose proof (executeUpdate_effect _ _ _ _ _ _ Hx)
          as ((He1 & _ & _ & _ & evs1 & Ht1 & Hs1) & Hh1);
        apply stmt_for_actions in Hs1 as [Ha1 Hd1];
        cbn [trace log heap entries] in Ht1, Hh1, He1.
      * destruct (IH _ _ _ _ Hrun) as (Hh & He & evs & m & Ht & Hd & Ha & Hall).
        rewrite Hh1 in Hh, Ha. rewrite He1 in He.
        repeat split; try assumption.
        exists (EvProcess ActUpdate k :: evs1 ++ evs)%list, (S m). repeat split.
        -- rewrite Ht, Ht1, <- !app_assoc. reflexivity.
        -- cbn. now rewrite forallb_app, Hd1, Hd.
        -- cbn. rewrite Hc. cbn. now rewrite actions_of_app, Ha1, Ha.
        -- intros x Hr. cbn. f_equal. eauto.
      * inversion Hrun; subst. repeat split; try assumption.
        exists (EvProcess ActUpdate k :: evs1)%list, 1%nat. repeat split.
        -- rewrite Ht1, <- app_assoc. reflexivity.
        -- cbn. exact Hd1.
        -- cbn. rewrite Hc. cbn. now rewrite Ha1.
        -- discriminate.
      * inversion Hrun; subst. repeat split; try assumption.
        exists (EvProcess ActUpdate k :: evs1)%list, 1%nat. repeat split.
        -- rewrite Ht1, <- app_assoc. reflexivity.
        -- cbn. exact Hd1.
        -- cbn. rewrite Hc. cbn. now rewrite Ha1.
        -- discriminate.
    + destruct (IH _ _ _ _ Hrun) as (Hh & He & evs & m & Ht & Hd & Ha & Hall).
      repeat split; try assumption.
      exists evs, (S m). repeat split; try assumption.
      * cbn. rewrite Hc. exact Ha.
      * intros x Hr. cbn. f_equal. eauto.
Qed.

Lemma same_shape_refl w : same_shape w w.
Proof. repeat split. Qed.

Lemma same_shape_trans w1 w2 w3 :
  same_shape w1 w2 -> same_shape w2 w3 -> same_shape w1 w3.
Proof.
  intros (A1 & A2 & A3) (B1 & B2 & B3). repeat split.
  - congruence.
  - intros q. now rewrite B2.
  - intros q. now rewrite B3.
Qed.

Lemma entry_effect_shape p k a w w' :
  entry_effect p (log w (EvProcess a k)) w' -> same_shape w w'.
Proof. intros (H1 & _ & H3 & H4 & _). repeat split; assumption. Qed.

Lemma run_entries_shape exec a es aff w r w' :
  (forall e w1 r1 w2, exec e w1 = (r1, w2) -> entry_effect (Entity e) w1 w2) ->
  run_entries exec a es aff w = (r, w') -> same_shape w w'.
Proof.
  intros Hexec Hrun.
  apply (run_entries_inv (same_shape w) exec a es aff w r w' Hrun).
  - apply same_shape_refl.
  - intros k e w1 r1 w2 _ Hs Hx. eapply same_shape_trans; [exact Hs|].
    eapply entry_effect_shape, Hexec, Hx.
Qed.

Lemma EntriesByState_same E site st w w' :
  entries w' = entries w ->
  EntriesByState E site st w' = EntriesByState E site st w.
Proof. unfold EntriesByState. now intros ->. Qed.

Lemma executeDelete_entry E tx e w r w' :
  executeDelete E tx e w = (r, w') -> entry_effect (Entity e) w w'.
Proof. intros H. now apply executeDelete_effect in H. Qed.

Lemma executeUpdate_entry E tx e w r w' :
  executeUpdate E tx e w = (r, w') -> entry_effect (Entity e) w w'.
Proof. intros H. now apply executeUpdate_effect in H. Qed.

(** The four loops together: the entries are taken up state by
    state, within a state in the order of the [range] of its loop. *)
Lemma flush_statements_spec E tx w r w' :
  flush_statements E tx w = (r, w') ->
  same_shape w w' /\
  exists evs n1 n2 n3 n4,
    trace w' = (trace w ++ evs)%list /\
    forallb dml_event evs = true /\
    actions_of evs =
      (map (pair ActDelete)
         (map fst (firstn n1 (EntriesByState E site_Deleted Deleted w)))
       ++ map (pair ActInsert)
            (map fst (firstn n2 (EntriesByState E site_Added Added w)))
       ++ map (pair ActUpdate)
            (map fst (firstn n3 (EntriesByState E site_Modified Modified w)))
       ++ map (pair ActUpdate)
            (map fst (filter (fun ke => HasChanges (heap w') (snd ke))
                        (firstn n4 (EntriesByState E site_Unchanged Unchanged w)))))%list /\
    (forall x, r = Saved x ->
       firstn n1 (EntriesByState E site_Deleted Deleted w)
         = EntriesByState E site_Deleted Deleted w /\
       firstn n2 (EntriesByState E site_Added Added w)
         = EntriesByState E site_Added Added w /\
       firstn n3 (EntriesByState E site_Modified Modified w)
         = EntriesByState E site_Modified Modified w /\
       firstn n4 (EntriesByState E site_Unchanged Unchanged w)
         = EntriesByState E site_Unchanged Unchanged w).
Proof.
  unfold flush_statements, and_then. intros H.
  destruct (run_entries (executeDelete E tx) ActDelete _ 0 w) as [r1 w1] eqn:L1.
  pose proof (run_entries_shape _ _ _ _ _ _ _ (executeDelete_entry E tx) L1) as S1.
  destruct (run_entries_trace _ _ _ _ _ _ _ (executeDelete_entry E tx) L1)
    as (evs1 & n1 & T1 & D1 & A1 & F1).
  destruct r1 as [a1|a1 err|]; cycle 1.
  { inversion H; subst. split; [exact S1|].
    exists evs1, n1, 0%nat, 0%nat, 0%nat. cbn [firstn map filter].
    rewrite !app_nil_r. repeat split; try assumption; discriminate. }
  { inversion H; subst. split; [exact S1|].
    exists evs1, n1, 0%nat, 0%nat, 0%nat. cbn [firstn map filter].
    rewrite !app_nil_r. repeat split; try assumption; discriminate. }
  destruct (run_entries (executeInsert E tx) ActInsert _ a1 w1) as [r2 w2] eqn:L2.
  pose proof (run_entries_shape _ _ _ _ _ _ _ (executeInsert_effect E tx) L2) as S2.
  destruct (run_entries_trace _ _ _ _ _ _ _ (executeInsert_effect E tx) L2)
    as (evs2 & n2 & T2 & D2 & A2 & F2).
  rewrite (EntriesByState_same _ _ _ _ _ (proj1 S1)) in *.
  pose proof (same_shape_trans _ _ _ S1 S2) as S12.
  destruct r2 as [a2|a2 err|]; cycle 1.
  { inversion H; subst. split; [exact S12|].
    exists (evs1 ++ evs2)%list, n1, n2, 0%nat, 0%nat. cbn [firstn map filter].
    rewrite !app_nil_r, T2, T1, <- app_assoc, forallb_app, actions_of_app, D1, D2, A1, A2.
    repeat split; discriminate. }
  { inversion H; subst. split; [exact S12|].
    exists (evs1 ++ evs2)%list, n1, n2, 0%nat, 0%nat. cbn [firstn map filter].
    rewrite !app_nil_r, T2, T1, <- app_assoc, forallb_app, actions_of_app, D1, D2, A1, A2.
    repeat split; discriminate. }
  destruct (run_entries (executeUpdate E tx) ActUpdate _ a2 w2) as [r3 w3] eqn:L3.
  pose proof (run_entries_shape _ _ _ _ _ _ _ (executeUpdate_entry E tx) L3) as S3.
  destruct (run_entries_trace _ _ _ _ _ _ _ (executeUpdate_entry E tx) L3)
    as (evs3 & n3 & T3 & D3 & A3 & F3).
  rewrite (EntriesByState_same _ _ _ _ _ (proj1 S12)) in *.
  pose proof (same_shape_trans _ _ _ S12 S3) as S123.
  destruct r3 as [a3|a3 err|]; cycle 1.
  { inversion H; subst. split; [exact S123|].
    exists (evs1 ++ evs2 ++ evs3)%list, n1, n2, n3, 0%nat. cbn [firstn map filter].
    rewrite !app_nil_r, T3, T2, T1, <- !app_assoc, !forallb_app, !actions_of_app,
      D1, D2, D3, A1, A2, A3.
    repeat split; discriminate. }
  { inversion H; subst. split; [exact S123|].
    exists (evs1 ++ evs2 ++ evs3)%list, n1, n2, n3, 0%nat. cbn [firstn map filter].
    rewrite !app_nil_r, T3, T2, T1, <- !app_assoc, !forallb_app, !actions_of_app,
      D1, D2, D3, A1, A2, A3.
    repeat split; discriminate. }
  destruct (run_unchanged_trace _ _ _ _ _ _ _ H)
    as (Hh & He & evs4 & n4 & T4 & D4 & A4 & F4).
  rewrite (EntriesByState_same _ _ _ _ _ (proj1 S123)) in *.
  split.
  { destruct S123 as (B1 & B2 & B3). repeat split.
    - congruence.
    - intros q. now rewrite Hh.
    - intros q. now rewrite Hh. }
  exists (evs1 ++ evs2 ++ evs3 ++ evs4)%list, n1, n2, n3, n4.
  rewrite T4, T3, T2, T1, <- !app_assoc, !forallb_app, !actions_of_app,
    D1, D2, D3, D4, A1, A2, A3, A4, Hh.
  split; [reflexivity|]. split; [reflexivity|]. split; [reflexivity|].
  intros x Hr.
  split; [eapply F1; eauto|]. split; [eapply F2; eauto|].
  split; [eapply F3; eauto | eapply F4; eauto].
Qed.

(* ================================================================= *)
(** * The flush as a whole *)

Lemma conn_begin_facts E w h w' :
  conn_begin E w = (Some h, w') ->
  heap w' = heap w /\ entries w' = entries w /\
  durable (conn w') = durable (conn w) /\
  trace w' = (trace w ++ [EvBegin true])%list.
Proof.
  unfold conn_begin. destruct (env_begin E (conn w)); intros [= <- <-]; cbn; auto.
Qed.

Lemma conn_begin_fail E w w' :
  conn_begin E w = (None, w') -> w' = log w (EvBegin false).
Proof.
  unfold conn_begin. destruct (env_begin E (conn w)); now intros [= <-].
Qed.

Lemma tx_commit_facts E h w b w' :
  tx_commit E h w = (b, w') ->
  heap w' = heap w /\ entries w' = entries w /\
  trace w' = (trace w ++ [EvCommit h b])%list.
Proof.
  unfold tx_commit. destruct (tx_get h _) as [p|].
  - destruct (env_commit E (conn w)); intros [= <- <-]; cbn; auto.
  - intros [= <- <-]; cbn; auto.
Qed.

(** The ways through [SaveChangesContext]. *)
Lemma SaveChangesContext_inv E tx w r w' :
  SaveChangesContext E tx w = (r, w') ->
  let wd := DetectChanges_all E site_DetectChanges w in
  (tx = None /\ r = Aborted 0 BeginFailed /\ w' = log wd (EvBegin false)) \/
  exists h ownTx wb rf wf,
    ((tx = Some h /\ ownTx = false /\ wb = wd) \/
     (tx = None /\ ownTx = true /\ conn_begin E wd = (Some h, wb))) /\
    flush_statements E h wb = (rf, wf) /\
    ((exists n, rf = Saved n /\ ownTx = false /\ r = Saved n /\
                w' = AcceptAllChanges E site_AcceptAllChanges wf) \/
     (exists n wc, rf = Saved n /\ ownTx = true /\
                   tx_commit E h wf = (true, wc) /\ r = Saved n /\
                   w' = AcceptAllChanges E site_AcceptAllChanges wc) \/
     (exists n wc, rf = Saved n /\ ownTx = true /\
                   tx_commit E h wf = (false, wc) /\
                   r = Aborted n CommitFailed /\ w' = tx_rollback h wc) \/
     ((forall n, rf <> Saved n) /\ r = rf /\ w' = deferred ownTx h wf)).
Proof.
  unfold SaveChangesContext. intros H.
  set (wd := DetectChanges_all E site_DetectChanges w) in *.
  destruct tx as [h|].
  - right. destruct (flush_statements E h wd) as [rf wf] eqn:Hf.
    exists h, false, wd, rf, wf. split; [left; auto|]. split; [exact Hf|].
    destruct rf as [n|n err|]; inversion H; subst.
    + left. exists n. auto.
    + right. right. right. repeat split; discriminate.
    + right. right. right. repeat split; discriminate.
  - destruct (conn_begin E wd) as [[h|] wb] eqn:Hb.
    + right. destruct (flush_statements E h wb) as [rf wf] eqn:Hf.
      exists h, true, wb, rf, wf. split; [right; auto|]. split; [exact Hf|].
      destruct rf as [n|n err|].
      * destruct (tx_commit E h wf) as [[|] wc] eqn:Hc; inversion H; subst.
        -- right. left. exists n, wc. auto.
        -- right. right. left. exists n, wc. auto.
      * inversion H; subst. right. right. right. repeat split; discriminate.
      * inversion H; subst. right. right. right. repeat split; discriminate.
    + left. apply conn_begin_fail in Hb. inversion H; subst. auto.
Qed.

Lemma dml_not_accept evs :
  forallb dml_event evs = true ->
  ~ In EvAcceptAllChanges evs /\ (forall h b, ~ In (EvCommit h b) evs) /\
  (forall h, ~ In (EvRollback h) evs).
Proof.
  rewrite forallb_forall. intros H. repeat split.
  - intros Hin. apply H in Hin. discriminate.
  - intros h b Hin. apply H in Hin. discriminate.
  - intros h Hin. apply H in Hin. discriminate.
Qed.

(** C2, as the code has it.  [AcceptAllChanges] runs on the success
    path only, as the very last step of the flush.  When the flush
    owns its transaction, the step before it is the successful commit
    of that transaction.  When the caller supplied the transaction,
    the flush neither commits nor rolls back: acceptance follows the
    last statement, while the changes are still uncommitted. *)
Theorem C2_accept_on_success :
  forall E tx w r w',
    SaveChangesContext E tx w = (r, w') ->
    exists evs,
      trace w' = (trace w ++ evs)%list /\
      ((forall n, r <> Saved n) -> ~ In EvAcceptAllChanges evs) /\
      (forall n, r = Saved n ->
         exists evs0,
           ~ In EvAcceptAllChanges evs0 /\
           match tx with
           | None =>
               exists h, evs = (evs0 ++ [EvCommit h true; EvAcceptAllChanges])%list
           | Some _ =>
               evs = (evs0 ++ [EvAcceptAllChanges])%list /\
               (forall h b, ~ In (EvCommit h b) evs0) /\
               (forall h, ~ In (EvRollback h) evs0)
           end).
Proof.
  intros E tx w r w' H. apply SaveChangesContext_inv in H. cbv zeta in H.
  set (wd := DetectChanges_all E site_DetectChanges w) in *.
  assert (Td : trace wd = (trace w ++ [EvDetectChanges])%list) by reflexivity.
  destruct H as [(Htx & Hr & Hw)|(h & ownTx & wb & rf & wf & Hbegin & Hflush & Hend)].
  - subst. exists [EvDetectChanges; EvBegin false]. cbn [trace log].
    rewrite Td, <- app_assoc. split; [reflexivity|]. split.
    + intros _ [Hin|[Hin|[]]]; discriminate.
    + discriminate.
  - apply flush_statements_spec in Hflush as (_ & evs & _ & _ & _ & _ & Tf & Df & _).
    pose proof (dml_not_accept evs Df) as (NA & NC & NR).
    assert (Hb : exists pre, trace wb = (trace w ++ pre)%list /\
                   ~ In EvAcceptAllChanges pre /\
                   (ownTx = false -> (forall h b, ~ In (EvCommit h b) pre) /\
                                     (forall h, ~ In (EvRollback h) pre))).
    { destruct Hbegin as [(_ & _ & ->)|(_ & -> & Hb)].
      - exists [EvDetectChanges]. split; [exact Td|]. split.
        + intros [Hin|[]]; discriminate.
        + intros _. split; [intros h0 b [Hin|[]] | intros h0 [Hin|[]]]; discriminate.
      - apply conn_begin_facts in Hb as (_ & _ & _ & Tb).
        exists [EvDetectChanges; EvBegin true]. rewrite Tb, Td, <- app_assoc.
        split; [reflexivity|]. split; [|discriminate].
        intros [Hin|[Hin|[]]]; discriminate. }
    destruct Hb as (pre & Tb & NAp & Hsup).
    assert (NApe : ~ In EvAcceptAllChanges (pre ++ evs)%list)
      by (rewrite in_app_iff; tauto).
    destruct Hend as [(n & -> & -> & -> & ->)
                     |[(n & wc & -> & -> & Hc & -> & ->)
                     |[(n & wc & -> & -> & Hc & -> & ->)
                     |(Hns & -> & ->)]]].
    + exists (pre ++ evs ++ [EvAcceptAllChanges])%list. cbn [trace AcceptAllChanges log with_entries].
      rewrite Tf, Tb, <- !app_assoc. split; [reflexivity|]. split.
      * intros Hn. now destruct (Hn n).
      * intros n' _. exists (pre ++ evs)%list. split; [exact NApe|].
        destruct Hbegin as [(-> & _ & _)|(_ & Hff & _)]; [|discriminate].
        destruct (Hsup eq_refl) as [NCp NRp].
        rewrite <- app_assoc. split; [reflexivity|].
        split; intros; rewrite in_app_iff; intros [Hin|Hin];
          try (eapply NCp; eassumption); try (eapply NC; eassumption);
          try (eapply NRp; eassumption); eapply NR; eassumption.
    + apply tx_commit_facts in Hc as (_ & _ & Tc).
      exists (pre ++ evs ++ [EvCommit h true; EvAcceptAllChanges])%list.
      cbn [trace AcceptAllChanges log with_entries].
      rewrite Tc, Tf, Tb, <- !app_assoc. split; [reflexivity|]. split.
      * intros Hn. now destruct (Hn n).
      * intros n' _. exists (pre ++ evs)%list. split; [exact NApe|].
        destruct Hbegin as [(_ & Hff & _)|(-> & _ & _)]; [discriminate|].
        exists h. now rewrite <- app_assoc.
    + apply tx_commit_facts in Hc as (_ & _ & Tc).
      exists (pre ++ evs ++ [EvCommit h false; EvRollback h])%list.
      cbn [trace tx_rollback log with_conn].
      rewrite Tc, Tf, Tb, <- !app_assoc. split; [reflexivity|]. split.
      * intros _. rewrite !in_app_iff. intros [Hin|[Hin|[Hin|[Hin|[]]]]];
          try discriminate; tauto.
      * discriminate.
    + exists (pre ++ evs ++ (if ownTx then [EvRollback h] else []))%list. split.
      * destruct ownTx; cbn [deferred trace tx_rollback log with_conn];
          rewrite Tf, Tb, <- ?app_assoc; [reflexivity|now rewrite app_nil_r].
      * split.
        -- intros _. rewrite !in_app_iff. intros [Hin|[Hin|Hin]]; try tauto.
           destruct ownTx; [destruct Hin as [Hin|[]]; discriminate | destruct Hin].
        -- intros n Hr. now destruct (Hns n).
Qed.

(* ================================================================= *)
(** * The order of a flush *)

Lemma In_firstn {A} (x : A) n l : In x (firstn n l) -> In x l.
Proof.
  revert n. induction l as [|y l IH]; intros [|n]; simpl; try tauto.
  intros [H|H]; [now left | right; eauto].
Qed.

Lemma NoDup_map_firstn {A B} (f : A -> B) n l :
  NoDup (map f l) -> NoDup (map f (firstn n l)).
Proof.
  revert n. induction l as [|x l IH]; intros [|n] H; simpl; try constructor.
  - inversion H as [|? ? Hni Hnd]; subst. intros Hin. apply Hni.
    apply in_map_iff in Hin as (y & Hy & Hin). apply in_map_iff.
    exists y. split; [assumption|]. eapply In_firstn. eassumption.
  - inversion H; subst. now apply IH.
Qed.

Lemma NoDup_map_filter {A B} (f : A -> B) g l :
  NoDup (map f l) -> NoDup (map f (filter g l)).
Proof.
  induction l as [|x l IH]; intros H; simpl; [constructor|].
  inversion H as [|? ? Hni Hnd]; subst.
  destruct (g x); simpl; [|auto]. constructor; [|auto].
  intros Hin. apply Hni. apply in_map_iff in Hin as (y & Hy & Hin).
  apply in_map_iff. exists y. split; [assumption|].
  now apply filter_In in Hin.
Qed.

Lemma DetectChanges_all_ok E w :
  fair_range E -> tracker_ok w ->
  tracker_ok (DetectChanges_all E site_DetectChanges w).
Proof.
  intros Hf Hok. unfold tracker_ok, DetectChanges_all.
  cbn [entries log with_entries].
  rewrite (sweep_keys (DetectChanges (heap w))); [exact Hok|].
  intros k Hk. eapply Permutation_in; [|exact Hk].
  apply Permutation_map, Hf.
Qed.

(** The entries a loop of the flush ranges over. *)
Lemma EntriesByState_In E site st w k e :
  fair_range E -> tracker_ok w ->
  (In (k, e) (EntriesByState E site st w) <->
   map_get k (entries w) = Some e /\ State e = st).
Proof.
  intros Hf Hok. unfold EntriesByState. rewrite filter_In. cbn [snd].
  assert (Hin : In (k, e) (env_range E site (entries w)) <->
                map_get k (entries w) = Some e).
  { split; intros H.
    - apply In_map_get; [exact Hok|]. eapply Permutation_in; [apply Hf | exact H].
    - apply map_get_In in H.
      eapply Permutation_in; [apply Permutation_sym, Hf | exact H]. }
  rewrite Hin.
  assert (Hs : EntityState_eqb (State e) st = true <-> State e = st)
    by (destruct (State e), st; simpl; split; intros; congruence).
  now rewrite Hs.
Qed.

Lemma EntriesByState_NoDup E site st w :
  fair_range E -> tracker_ok w ->
  NoDup (map fst (EntriesByState E site st w)).
Proof.
  intros Hf Hok. unfold EntriesByState.
  apply NoDup_map_filter. now apply fair_NoDup.
Qed.

Lemma In_keys_firstn {V} k n (l : list (string * V)) :
  In k (map fst (firstn n l)) -> exists v, In (k, v) l.
Proof.
  intros H. apply in_map_iff in H as ([k' v] & Hk & Hin). cbn in Hk. subst.
  exists v. eapply In_firstn. eassumption.
Qed.

(** The trace of a flush that got its transaction: detection, the
    loops, and what ends the flush; only the loops take up entries,
    and nothing after them touches memory. *)
Lemma SaveChangesContext_trace E tx w r w' h ownTx wb rf wf :
  let wd := DetectChanges_all E site_DetectChanges w in
  ((tx = Some h /\ ownTx = false /\ wb = wd) \/
   (tx = None /\ ownTx = true /\ conn_begin E wd = (Some h, wb))) ->
  ((exists n, rf = Saved n /\ ownTx = false /\ r = Saved n /\
              w' = AcceptAllChanges E site_AcceptAllChanges wf) \/
   (exists n wc, rf = Saved n /\ ownTx = true /\
                 tx_commit E h wf = (true, wc) /\ r = Saved n /\
                 w' = AcceptAllChanges E site_AcceptAllChanges wc) \/
   (exists n wc, rf = Saved n /\ ownTx = true /\
                 tx_commit E h wf = (false, wc) /\
                 r = Aborted n CommitFailed /\ w' = tx_rollback h wc) \/
   ((forall n, rf <> Saved n) /\ r = rf /\ w' = deferred ownTx h wf)) ->
  (heap wb = heap w /\ entries wb = entries wd /\
   exists pre, trace wb = (trace w ++ EvDetectChanges :: pre)%list /\
               actions_of pre = [] /\
               forallb (fun ev => negb (dml_event ev)) pre = true) /\
  (heap w' = heap wf /\
   exists post, trace w' = (trace wf ++ post)%list /\ actions_of post = [] /\
                forallb (fun ev => negb (dml_event ev)) post = true) /\
  (forall n, r = Saved n -> rf = Saved n).
Proof.
  intros wd Hbegin Hend. split; [|split].
  - destruct Hbegin as [(_ & _ & ->)|(_ & _ & Hb)].
    + repeat split. exists []. repeat split.
    + apply conn_begin_facts in Hb as (Hh & He & _ & Tb).
      rewrite Hh, He, Tb. repeat split. exists [EvBegin true].
      cbn [trace wd DetectChanges_all log]. now rewrite <- app_assoc.
  - destruct Hend as [(n & -> & -> & -> & ->)
                     |[(n & wc & -> & -> & Hc & -> & ->)
                     |[(n & wc & -> & -> & Hc & -> & ->)
                     |(Hns & -> & ->)]]].
    + split; [reflexivity|]. exists [EvAcceptAllChanges]. repeat split.
    + apply tx_commit_facts in Hc as (Hh & _ & Tc). split; [exact Hh|].
      exists [EvCommit h true; EvAcceptAllChanges].
      cbn [trace AcceptAllChanges log with_entries]. rewrite Tc, <- app_assoc.
      repeat split.
    + apply tx_commit_facts in Hc as (Hh & _ & Tc). split; [exact Hh|].
      exists [EvCommit h false; EvRollback h].
      cbn [trace tx_rollback log with_conn]. rewrite Tc, <- app_assoc.
      repeat split.
    + destruct ownTx; cbn [deferred]; (split; [reflexivity|]).
      * exists [EvRollback h]. repeat split.
      * exists []. now rewrite app_nil_r.
  - intros n Hr.
    destruct Hend as [(m & -> & _ & -> & _)
                     |[(m & wc & -> & _ & _ & -> & _)
                     |[(m & wc & _ & _ & _ & -> & _)
                     |(Hns & <- & _)]]]; try congruence; try discriminate.
Qed.

(** ** The statements of the loops *)

Lemma prefix_app (s t : string) : String.prefix s (s ++ t) = true.
Proof.
  induction s as [|c s IH]; cbn; [now destruct t|].
  destruct (Ascii.ascii_dec c c) as [_|Hn]; [exact IH|now destruct Hn].
Qed.

Lemma DetectChanges_State h e :
  State (DetectChanges h e) =
  if EntityState_eqb (State e) Unchanged && HasChanges h e
  then Modified else State e.
Proof.
  unfold DetectChanges, HasChanges.
  destruct (State e) eqn:Hs; cbn [EntityState_eqb andb]; try exact Hs.
  destruct (Nat.ltb _ _); [reflexivity|exact Hs].
Qed.

Lemma DetectChanges_keeps h e :
  Entity (DetectChanges h e) = Entity e /\
  OriginalValues (DetectChanges h e) = OriginalValues e.
Proof.
  unfold DetectChanges. destruct (State e); auto.
  destruct (Nat.ltb _ _); auto.
Qed.

Lemma block_none a e w : block_effect a e w w.
Proof. exists []. rewrite app_nil_r. repeat split. cbn. lia. Qed.

Lemma block_one a e w w' ev :
  trace w' = (trace w ++ [ev])%list -> dml_of a (Entity e) ev = true ->
  block_effect a e w w'.
Proof.
  intros Ht Hd. exists [ev]. split; [exact Ht|]. split; [cbn; lia|].
  cbn. now rewrite Hd.
Qed.

Lemma executeDelete_block E tx e w r w' :
  executeDelete E tx e w = (r, w') -> block_effect ActDelete e w w'.
Proof.
  unfold executeDelete. intros H.
  destruct (tx_exec E tx (Entity e) _ w) as [n wx] eqn:Hq.
  apply tx_exec_facts in Hq as (_ & _ & _ & Htr).
  assert (wx = w') by (destruct n; now inversion H). subst wx.
  eapply block_one; [exact Htr|].
  cbn [dml_of sql verb]. now rewrite Nat.eqb_refl, prefix_app.
Qed.

Lemma executeUpdate_block E tx e w r w' :
  executeUpdate E tx e w = (r, w') -> block_effect ActUpdate e w w'.
Proof.
  unfold executeUpdate. intros H.
  destruct (Z.eqb _ 0); [inversion H; subst; apply block_none|].
  destruct (update_loop _ _ _ _ _ _) as [[sc vs] idx].
  destruct (tx_exec E tx (Entity e) _ w) as [n wx] eqn:Hq.
  apply tx_exec_facts in Hq as (_ & _ & _ & Htr).
  assert (wx = w') by (destruct n; now inversion H). subst wx.
  eapply block_one; [exact Htr|].
  cbn [dml_of sql verb]. now rewrite Nat.eqb_refl, prefix_app.
Qed.

Lemma executeInsert_block E tx e w r w' :
  executeInsert E tx e w = (r, w') -> block_effect ActInsert e w w'.
Proof.
  unfold executeInsert. intros H.
  destruct (insert_loop _ _ _ _ _) as [[[cs vs] phs]|];
    [|inversion H; subst; apply block_none].
  destruct (negb _ && negb _)%bool.
  - destruct (conn_query_row E (Entity e) _ w) as [x wx] eqn:Hq.
    apply conn_query_row_facts in Hq as (_ & _ & _ & Htr).
    assert (Ht : trace w' = trace wx).
    { destruct x as [newPK|]; [|now inversion H].
      destruct (setPKValue _ _ _ _ _); now inversion H. }
    eapply block_one; [rewrite Ht; exact Htr|].
    cbn [dml_of sql verb]. rewrite Nat.eqb_refl, append_assoc.
    now rewrite prefix_app.
  - destruct (tx_exec E tx (Entity e) _ w) as [n wx] eqn:Hq.
    apply tx_exec_facts in Hq as (_ & _ & _ & Htr).
    assert (wx = w') by (destruct n; now inversion H). subst wx.
    eapply block_one; [exact Htr|].
    cbn [dml_of sql verb]. now rewrite Nat.eqb_refl, prefix_app.
Qed.

(** One of the first three loops: the entries are taken up in the
    order of the list, each with its statement, up to the one at
    which the loop returns. *)
Lemma run_entries_blocks exec a es : forall aff w r w',
  (forall e w1 r1 w2, exec e w1 = (r1, w2) -> block_effect a e w1 w2) ->
  run_entries exec a es aff w = (r, w') ->
  exists evs n,
    trace w' = (trace w ++ evs)%list /\
    taken_up a (firstn n es) evs /\
    (forall x, r = Saved x -> firstn n es = es).
Proof.
  induction es as [|[k e] es IH]; intros aff w r w' Hexec Hrun; simpl in Hrun.
  - inversion Hrun; subst. exists [], 0%nat. rewrite app_nil_r.
    repeat split.
  - destruct (exec e (log w (EvProcess a k))) as [res w1] eqn:Hx.
    destruct (Hexec _ _ _ _ Hx) as (ss & Ht1 & Hl1 & Hs1).
    cbn [trace log] in Ht1.
    destruct res as [n|err|].
    + destruct (IH _ _ _ _ Hexec Hrun) as (evs & m & Ht & Hb & Hall).
      exists (EvProcess a k :: ss ++ evs)%list, (S m). split; [|split].
      * rewrite Ht, Ht1, <- !app_assoc. reflexivity.
      * cbn [firstn taken_up]. exists ss, evs. auto.
      * intros x Hr. cbn. f_equal. eauto.
    + inversion Hrun; subst.
      exists (EvProcess a k :: ss ++ [])%list, 1%nat. split; [|split].
      * rewrite Ht1, app_nil_r, <- app_assoc. reflexivity.
      * cbn [firstn taken_up]. exists ss, []. auto.
      * discriminate.
    + inversion Hrun; subst.
      exists (EvProcess a k :: ss ++ [])%list, 1%nat. split; [|split].
      * rewrite Ht1, app_nil_r, <- app_assoc. reflexivity.
      * cbn [firstn taken_up]. exists ss, []. auto.
      * discriminate.
Qed.

(** The same for the last loop, which takes up the entries that have
    changes. *)
Lemma run_unchanged_blocks E tx es : forall aff w r w',
  run_unchanged E tx es aff w = (r, w') ->
  exists evs n,
    trace w' = (trace w ++ evs)%list /\
    taken_up ActUpdate
      (filter (fun ke => HasChanges (heap w) (snd ke)) (firstn n es)) evs /\
    (forall x, r = Saved x -> firstn n es = es).
Proof.
  induction es as [|[k e] es IH]; intros aff w r w' Hrun; simpl in Hrun.
  - inversion Hrun; subst. exists [], 0%nat. rewrite app_nil_r.
    repeat split.
  - destruct (HasChanges (heap w) e) eqn:Hc.
    + destruct (executeUpdate E tx e (log w (EvProcess ActUpdate k)))
        as [res w1] eqn:Hx.
      destruct (executeUpdate_block _ _ _ _ _ _ Hx) as (ss & Ht1 & Hl1 & Hs1).
      destruct (executeUpdate_effect _ _ _ _ _ _ Hx) as (_ & Hh1).
      cbn [trace log heap] in Ht1, Hh1.
      destruct res as [n|err|].
      * destruct (IH _ _ _ _ Hrun) as (evs & m & Ht & Hb & Hall).
        rewrite Hh1 in Hb.
        exists (EvProcess ActUpdate k :: ss ++ evs)%list, (S m). split; [|split].
        -- rewrite Ht, Ht1, <- !app_assoc. reflexivity.
        -- cbn [firstn filter snd]. rewrite Hc. cbn [taken_up].
           exists ss, evs. auto.
        -- intros x Hr. cbn. f_equal. eauto.
      * inversion Hrun; subst.
        exists (EvProcess ActUpdate k :: ss ++ [])%list, 1%nat. split; [|split].
        -- rewrite Ht1, app_nil_r, <- app_assoc. reflexivity.
        -- cbn [firstn filter snd]. rewrite Hc. cbn [taken_up].
           exists ss, []. auto.
        -- discriminate.
      * inversion Hrun; subst.
        exists (EvProcess ActUpdate k :: ss ++ [])%list, 1%nat. split; [|split].
        -- rewrite Ht1, app_nil_r, <- app_assoc. reflexivity.
        -- cbn [firstn filter snd]. rewrite Hc. cbn [taken_up].
           exists ss, []. auto.
        -- discriminate.
    + destruct (IH _ _ _ _ Hrun) as (evs & m & Ht & Hb & Hall).
      exists evs, (S m). split; [exact Ht|]. split.
      * cbn [firstn filter snd]. now rewrite Hc.
      * intros x Hr. cbn. f_equal. eauto.
Qed.

(** The four loops together: state by state, within a state in the
    order of the [range] of its loop, every entry with its
    statement. *)
Lemma flush_statements_blocks E tx w r w' :
  flush_statements E tx w = (r, w') ->
  exists evs1 evs2 evs3 evs4 n1 n2 n3 n4,
    trace w' = (trace w ++ evs1 ++ evs2 ++ evs3 ++ evs4)%list /\
    taken_up ActDelete
      (firstn n1 (EntriesByState E site_Deleted Deleted w)) evs1 /\
    taken_up ActInsert
      (firstn n2 (EntriesByState E site_Added Added w)) evs2 /\
    taken_up ActUpdate
      (firstn n3 (EntriesByState E site_Modified Modified w)) evs3 /\
    taken_up ActUpdate
      (filter (fun ke => HasChanges (heap w') (snd ke))
         (firstn n4 (EntriesByState E site_Unchanged Unchanged w))) evs4 /\
    (forall x, r = Saved x ->
       firstn n1 (EntriesByState E site_Deleted Deleted w)
         = EntriesByState E site_Deleted Deleted w /\
       firstn n2 (EntriesByState E site_Added Added w)
         = EntriesByState E site_Added Added w /\
       firstn n3 (EntriesByState E site_Modified Modified w)
         = EntriesByState E site_Modified Modified w /\
       firstn n4 (EntriesByState E site_Unchanged Unchanged w)
         = EntriesByState E site_Unchanged Unchanged w).
Proof.
  unfold flush_statements, and_then. intros H.
  destruct (run_entries (executeDelete E tx) ActDelete _ 0 w) as [r1 w1] eqn:L1.
  pose proof (run_entries_shape _ _ _ _ _ _ _ (executeDelete_entry E tx) L1) as S1.
  destruct (run_entries_blocks _ _ _ _ _ _ _ (executeDelete_block E tx) L1)
    as (evs1 & n1 & T1 & B1 & F1).
  destruct r1 as [a1|a1 err|]; cycle 1.
  { inversion H; subst.
    exists evs1, [], [], [], n1, 0%nat, 0%nat, 0%nat. cbn [firstn filter taken_up].
    rewrite !app_nil_r. repeat split; try assumption; discriminate. }
  { inversion H; subst.
    exists evs1, [], [], [], n1, 0%nat, 0%nat, 0%nat. cbn [firstn filter taken_up].
    rewrite !app_nil_r. repeat split; try assumption; discriminate. }
  destruct (run_entries (executeInsert E tx) ActInsert _ a1 w1) as [r2 w2] eqn:L2.
  pose proof (run_entries_shape _ _ _ _ _ _ _ (executeInsert_effect E tx) L2) as S2.
  destruct (run_entries_blocks _ _ _ _ _ _ _ (executeInsert_block E tx) L2)
    as (evs2 & n2 & T2 & B2 & F2).
  rewrite (EntriesByState_same _ _ _ _ _ (proj1 S1)) in *.
  pose proof (same_shape_trans _ _ _ S1 S2) as S12.
  destruct r2 as [a2|a2 err|]; cycle 1.
  { inversion H; subst.
    exists evs1, evs2, [], [], n1, n2, 0%nat, 0%nat. cbn [firstn filter taken_up].
    rewrite !app_nil_r, T2, T1, <- app_assoc.
    repeat split; try assumption; discriminate. }
  { inversion H; subst.
    exists evs1, evs2, [], [], n1, n2, 0%nat, 0%nat. cbn [firstn filter taken_up].
    rewrite !app_nil_r, T2, T1, <- app_assoc.
    repeat split; try assumption; discriminate. }
  destruct (run_entries (executeUpdate E tx) ActUpdate _ a2 w2) as [r3 w3] eqn:L3.
  pose proof (run_entries_shape _ _ _ _ _ _ _ (executeUpdate_entry E tx) L3) as S3.
  destruct (run_entries_blocks _ _ _ _ _ _ _ (executeUpdate_block E tx) L3)
    as (evs3 & n3 & T3 & B3 & F3).
  rewrite (EntriesByState_same _ _ _ _ _ (proj1 S12)) in *.
  pose proof (same_shape_trans _ _ _ S12 S3) as S123.
  destruct r3 as [a3|a3 err|]; cycle 1.
  { inversion H; subst.
    exists evs1, evs2, evs3, [], n1, n2, n3, 0%nat. cbn [firstn filter taken_up].
    rewrite !app_nil_r, T3, T2, T1, <- !app_assoc.
    repeat split; try assumption; discriminate. }
  { inversion H; subst.
    exists evs1, evs2, evs3, [], n1, n2, n3, 0%nat. cbn [firstn filter taken_up].
    rewrite !app_nil_r, T3, T2, T1, <- !app_assoc.
    repeat split; try assumption; discriminate. }
  destruct (run_unchanged_trace _ _ _ _ _ _ _ H) as (Hh & _).
  destruct (run_unchanged_blocks _ _ _ _ _ _ _ H) as (evs4 & n4 & T4 & B4 & F4).
  rewrite (EntriesByState_same _ _ _ _ _ (proj1 S123)) in *.
  rewrite <- Hh in B4.
  exists evs1, evs2, evs3, evs4, n1, n2, n3, n4.
  rewrite T4, T3, T2, T1, <- !app_assoc.
  split; [reflexivity|]. repeat (split; [assumption|]).
  intros x Hr.
  split; [eapply F1; eauto|]. split; [eapply F2; eauto|].
  split; [eapply F3; eauto | eapply F4; eauto].
Qed.

(** C4. Every flush first sweeps all tracked entries with
    [DetectChanges]: an Unchanged entry that differs from its
    snapshot becomes Modified, every other entry keeps its state.
    Then it takes up entries in the order: Deleted entries, Added
    entries, Modified entries, and Unchanged entries that have
    changes.  The statements of the flush lie in this part of its
    history and nowhere else: each entry taken up is followed, before
    the next one is taken up, by at most one statement, which is a
    DELETE, an INSERT or an UPDATE according to the state of the entry
    and is sent for the entity of that entry.  No entry is taken up
    twice; a flush that succeeds takes up every such entry. *)
Theorem C4_flush_order :
  forall E tx w r w',
    fair_range E -> tracker_ok w ->
    SaveChangesContext E tx w = (r, w') ->
    let wd := DetectChanges_all E site_DetectChanges w in
    (forall k,
       match map_get k (entries w) with
       | Some e =>
           exists e',
             map_get k (entries wd) = Some e' /\
             Entity e' = Entity e /\ OriginalValues e' = OriginalValues e /\
             State e' =
               if EntityState_eqb (State e) Unchanged && HasChanges (heap w) e
               then Modified else State e
       | None => map_get k (entries wd) = None
       end) /\
    exists pre dels inss upds upds' post ds ins ms us,
      trace w' =
        (trace w ++ EvDetectChanges
           :: pre ++ dels ++ inss ++ upds ++ upds' ++ post)%list /\
      quiet pre /\ quiet post /\
      taken_up ActDelete ds dels /\ taken_up ActInsert ins inss /\
      taken_up ActUpdate ms upds /\ taken_up ActUpdate us upds' /\
      NoDup (map fst (ds ++ ins ++ ms ++ us)) /\
      (forall k e, In (k, e) ds ->
         map_get k (entries wd) = Some e /\ State e = Deleted) /\
      (forall k e, In (k, e) ins ->
         map_get k (entries wd) = Some e /\ State e = Added) /\
      (forall k e, In (k, e) ms ->
         map_get k (entries wd) = Some e /\ State e = Modified) /\
      (forall k e, In (k, e) us ->
         map_get k (entries wd) = Some e /\ State e = Unchanged /\
         HasChanges (heap w') e = true) /\
      (forall n, r = Saved n ->
         forall k e, map_get k (entries wd) = Some e ->
           match State e with
           | Deleted => In (k, e) ds
           | Added => In (k, e) ins
           | Modified => In (k, e) ms
           | Unchanged => HasChanges (heap w') e = true -> In (k, e) us
           | Detached => True
           end).
Proof.
  intros E tx w r w' Hfair Hok H wd.
  pose proof (DetectChanges_all_ok E w Hfair Hok) as Hokd. fold wd in Hokd.
  split.
  { intros k. unfold wd. rewrite DetectChanges_all_get by assumption.
    destruct (map_get k (entries w)) as [e|]; [|reflexivity].
    exists (DetectChanges (heap w) e). split; [reflexivity|].
    destruct (DetectChanges_keeps (heap w) e) as (HE & HO).
    split; [exact HE|]. split; [exact HO|]. apply DetectChanges_State. }
  apply SaveChangesContext_inv in H. cbv zeta in H. fold wd in H.
  destruct H as [(Htx & Hr & Hw)|(h & ownTx & wb & rf & wf & Hbegin & Hflush & Hend)].
  { subst. exists [EvBegin false], [], [], [], [], [], [], [], [], [].
    cbn [trace log app map taken_up].
    split; [unfold wd; cbn [trace DetectChanges_all log]; now rewrite <- app_assoc|].
    split; [reflexivity|]. split; [reflexivity|].
    do 4 (split; [reflexivity|]). split; [constructor|].
    split; [intros k e []|]. split; [intros k e []|]. split; [intros k e []|].
    split; [intros k e []|]. discriminate. }
  destruct (SaveChangesContext_trace E tx w r w' h ownTx wb rf wf Hbegin Hend)
    as ((_ & Hewb & pre & Tb & _ & Qpre) & (Hhw' & post & Tw' & _ & Qpost) & Hsaved).
  fold wd in Hewb.
  apply flush_statements_blocks in Hflush
    as (evs1 & evs2 & evs3 & evs4 & n1 & n2 & n3 & n4
        & Tf & B1 & B2 & B3 & B4 & Hfull).
  rewrite <- Hhw' in B4.
  rewrite !(EntriesByState_same E _ _ wd wb Hewb) in *.
  set (Dl := EntriesByState E site_Deleted Deleted wd) in *.
  set (Al := EntriesByState E site_Added Added wd) in *.
  set (Ml := EntriesByState E site_Modified Modified wd) in *.
  set (Ul := EntriesByState E site_Unchanged Unchanged wd) in *.
  set (hc := fun ke : string * EntityEntry => HasChanges (heap w') (snd ke)) in *.
  assert (Hpair : forall site st n k e,
            In (k, e) (firstn n (EntriesByState E site st wd)) ->
            map_get k (entries wd) = Some e /\ State e = st).
  { intros site st n k e Hin. apply In_firstn in Hin.
    now apply (EntriesByState_In E site st wd k e Hfair Hokd). }
  assert (Hstate : forall site st n k,
            In k (map fst (firstn n (EntriesByState E site st wd))) ->
            exists e, map_get k (entries wd) = Some e /\ State e = st).
  { intros site st n k Hin. apply In_keys_firstn in Hin as (e & Hin).
    exists e. now apply (EntriesByState_In E site st wd k e Hfair Hokd). }
  assert (HUp : forall k e, In (k, e) (filter hc (firstn n4 Ul)) ->
            map_get k (entries wd) = Some e /\ State e = Unchanged /\
            HasChanges (heap w') e = true).
  { intros k e Hin. apply filter_In in Hin as [Hin Hc].
    apply (Hpair _ _ _ _ _) in Hin as [Hg Hs]. auto. }
  assert (HU : forall k, In k (map fst (filter hc (firstn n4 Ul))) ->
            exists e, map_get k (entries wd) = Some e /\ State e = Unchanged /\
                      HasChanges (heap w') e = true).
  { intros k Hin. apply in_map_iff in Hin as ([k' e] & Hk & Hin).
    cbn in Hk. subst k'. exists e. now apply HUp. }
  exists pre, evs1, evs2, evs3, evs4, post,
    (firstn n1 Dl), (firstn n2 Al), (firstn n3 Ml), (filter hc (firstn n4 Ul)).
  split; [rewrite Tw', Tf, Tb, <- !app_assoc; reflexivity|].
  split; [exact Qpre|]. split; [exact Qpost|].
  do 4 (split; [assumption|]).
  split.
  { rewrite !map_app.
    assert (Hdis : forall st1 st2 k e1 e2,
              map_get k (entries wd) = Some e1 -> State e1 = st1 ->
              map_get k (entries wd) = Some e2 -> State e2 = st2 ->
              st1 <> st2 -> False) by (intros; congruence).
    apply NoDup_app; [| apply NoDup_app; [| apply NoDup_app |] |].
    - apply NoDup_map_firstn, EntriesByState_NoDup; assumption.
    - apply NoDup_map_firstn, EntriesByState_NoDup; assumption.
    - apply NoDup_map_firstn, EntriesByState_NoDup; assumption.
    - apply NoDup_map_filter, NoDup_map_firstn, EntriesByState_NoDup; assumption.
    - intros k H1 H2. apply Hstate in H1 as (e1 & G1 & S1).
      apply HU in H2 as (e2 & G2 & S2 & _).
      apply (Hdis _ _ _ _ _ G1 S1 G2 S2). discriminate.
    - intros k H1 H2. apply Hstate in H1 as (e1 & G1 & S1).
      apply in_app_iff in H2 as [H2|H2].
      + apply Hstate in H2 as (e2 & G2 & S2).
        apply (Hdis _ _ _ _ _ G1 S1 G2 S2). discriminate.
      + apply HU in H2 as (e2 & G2 & S2 & _).
        apply (Hdis _ _ _ _ _ G1 S1 G2 S2). discriminate.
    - intros k H1 H2. apply Hstate in H1 as (e1 & G1 & S1).
      apply in_app_iff in H2 as [H2|H2];
        [|apply in_app_iff in H2 as [H2|H2]].
      + apply Hstate in H2 as (e2 & G2 & S2).
        apply (Hdis _ _ _ _ _ G1 S1 G2 S2). discriminate.
      + apply Hstate in H2 as (e2 & G2 & S2).
        apply (Hdis _ _ _ _ _ G1 S1 G2 S2). discriminate.
      + apply HU in H2 as (e2 & G2 & S2 & _).
        apply (Hdis _ _ _ _ _ G1 S1 G2 S2). discriminate. }
  split; [intros k e Hin; now apply Hpair in Hin|].
  split; [intros k e Hin; now apply Hpair in Hin|].
  split; [intros k e Hin; now apply Hpair in Hin|].
  split; [exact HUp|].
  intros n Hr k e Hget. apply Hsaved in Hr.
  destruct (Hfull n Hr) as (F1 & F2 & F3 & F4).
  assert (Hin : forall site, In (k, e) (EntriesByState E site (State e) wd))
    by (intros site; apply EntriesByState_In; auto).
  destruct (State e) eqn:Hst; [exact I | | | |].
  - intros Hc. rewrite F4. apply filter_In. split; [apply Hin | exact Hc].
  - rewrite F2. apply Hin.
  - rewrite F3. apply Hin.
  - rewrite F1. apply Hin.
Qed.

Lemma pending_world_ok : tracker_ok pending_world.
Proof.
  unfold tracker_ok. vm_compute.
  repeat constructor; cbn; intuition discriminate.
Qed.

Lemma C4_flush_order_witness :
  exists r w',
    SaveChangesContext (obliging []) None pending_world = (r, w') /\
    exists pre dels inss upds upds' post ds ins ms us,
      trace w' =
        (trace pending_world ++ EvDetectChanges
           :: pre ++ dels ++ inss ++ upds ++ upds' ++ post)%list /\
      quiet pre /\ quiet post /\
      taken_up ActDelete ds dels /\ taken_up ActInsert ins inss /\
      taken_up ActUpdate ms upds /\ taken_up ActUpdate us upds' /\
      NoDup (map fst (ds ++ ins ++ ms ++ us)).
Proof.
  destruct (SaveChangesContext (obliging []) None pending_world) as [r w'] eqn:H.
  exists r, w'. split; [reflexivity|].
  destruct (C4_flush_order (obliging []) None pending_world r w'
              (obliging_fair []) pending_world_ok H)
    as (_ & pre & dels & inss & upds & upds' & post & ds & ins & ms & us
        & H1 & H2 & H3 & H4 & H5 & H6 & H7 & H8 & _).
  exists pre, dels, inss, upds, upds', post, ds, ins, ms, us. auto 10.
Defined.

Lemma C2_accept_on_success_witness :
  exists r w',
    SaveChangesContext (obliging []) None pending_world = (r, w') /\
    exists evs,
      trace w' = (trace pending_world ++ evs)%list /\
      ((forall n, r <> Saved n) -> ~ In EvAcceptAllChanges evs) /\
      (forall n, r = Saved n ->
         exists evs0,
           ~ In EvAcceptAllChanges evs0 /\
           exists h, evs = (evs0 ++ [EvCommit h true; EvAcceptAllChanges])%list).
Proof.
  destruct (SaveChangesContext (obliging []) None pending_world) as [r w'] eqn:H.
  exists r, w'. split; [reflexivity|].
  exact (C2_accept_on_success (obliging []) None pending_world r w' H).
Defined.

(** C2, as the spec words it, fails when the caller supplies the
    transaction: the flush succeeds and accepts the changes (the
    entry of Milica1 is Unchanged again) although no commit took
    place: the UPDATE still sits in the open transaction 0, and
    nothing is durable. *)
Lemma C2_borrowed_transaction_counterexample :
  let '(r, w') := SaveChangesContext (obliging []) (Some 0%nat) borrowed_world in
  r = Saved 1 /\
  In EvAcceptAllChanges (trace w') /\
  (forall h b, ~ In (EvCommit h b) (trace w')) /\
  tx_get 0 (open_txs (conn w')) =
    Some [{| sql := "UPDATE patients SET age = $1 WHERE id = $2";
             args := [VInt 26; VInt 1] |}] /\
  durable (conn w') = [] /\
  option_map State (map_get "Patient:1" (entries w')) = Some Unchanged.
Proof.
  vm_compute. repeat split; auto 10.
  intros h b H. repeat (destruct H as [H|H]; [discriminate|]). exact H.
Qed.

(** C1 at the failing input.  A new patient waits for its INSERT and
    Milica1 for her UPDATE; the database refuses the UPDATE.  The
    flush returns the error and rolls its transaction back, and yet
    the INSERT is durable: it ran on the connection ([conn.QueryRow]),
    not in the transaction, and the key it generated has been written
    into the entity. *)
Lemma C1_insert_survives_rollback :
  let '(r, w') := SaveChangesContext refusing_updates None pending_world in
  r = Aborted 1 UpdateFailed /\
  trace w' =
    [EvDetectChanges; EvBegin true;
     EvProcess ActInsert "Patient:ptr:0x2";
     EvConnQueryRow 2%nat
       {| sql := "INSERT INTO patients (name, age) VALUES ($1, $2) RETURNING id";
          args := [VStr "Milica2"; VInt 30] |} (Some (VInt 2));
     EvProcess ActUpdate "Patient:1";
     EvTxExec 0 1%nat
       {| sql := "UPDATE patients SET age = $1 WHERE id = $2";
          args := [VInt 26; VInt 1] |} None;
     EvRollback 0] /\
  open_txs (conn w') = [] /\
  durable (conn w') =
    [{| sql := "INSERT INTO patients (name, age) VALUES ($1, $2) RETURNING id";
        args := [VStr "Milica2"; VInt 30] |}] /\
  Field (heap w' 2%nat) 0 = VInt 2.
Proof. vm_compute. repeat split. Qed.

(* ================================================================= *)
(** * Invariants of a flush *)

Lemma run_unchanged_inv (Inv : World -> Prop) E tx es : forall aff w r w',
  run_unchanged E tx es aff w = (r, w') ->
  Inv w ->
  (forall k e w1 r1 w2, In (k, e) es -> Inv w1 ->
     executeUpdate E tx e (log w1 (EvProcess ActUpdate k)) = (r1, w2) -> Inv w2) ->
  Inv w'.
Proof.
  induction es as [|[k e] es IH]; intros aff w r w' Hrun Hinv Hstep; simpl in Hrun.
  - now inversion Hrun; subst.
  - assert (Hstep' : forall k' e' w1 r1 w2, In (k', e') es -> Inv w1 ->
              executeUpdate E tx e' (log w1 (EvProcess ActUpdate k')) = (r1, w2) ->
              Inv w2)
      by (intros k' e' w1 r1 w2 Hin; apply Hstep; now right).
    destruct (HasChanges (heap w) e); [|eapply IH; eassumption].
    destruct (executeUpdate E tx e (log w (EvProcess ActUpdate k)))
      as [[n|err|] w1] eqn:Hx;
      pose proof (Hstep k e w _ w1 (or_introl eq_refl) Hinv Hx) as Hinv1.
    + eapply IH; eassumption.
    + now inversion Hrun; subst.
    + now inversion Hrun; subst.
Qed.

(** What holds when the loops start, and is kept by every step on an
    entry of the tracker in the state of its loop, holds when they
    end. *)
Lemma flush_statements_inv (Inv : World -> Prop) E tx w r w' :
  fair_range E -> tracker_ok w ->
  flush_statements E tx w = (r, w') -> Inv w ->
  (forall k e w1 r1 w2,
     map_get k (entries w) = Some e -> State e = Deleted -> Inv w1 ->
     executeDelete E tx e (log w1 (EvProcess ActDelete k)) = (r1, w2) -> Inv w2) ->
  (forall k e w1 r1 w2,
     map_get k (entries w) = Some e -> State e = Added -> Inv w1 ->
     executeInsert E tx e (log w1 (EvProcess ActInsert k)) = (r1, w2) -> Inv w2) ->
  (forall k e w1 r1 w2,
     map_get k (entries w) = Some e ->
     State e = Modified \/ State e = Unchanged -> Inv w1 ->
     executeUpdate E tx e (log w1 (EvProcess ActUpdate k)) = (r1, w2) -> Inv w2) ->
  Inv w'.
Proof.
  intros Hfair Hok H Hinv HD HA HM.
  unfold flush_statements, and_then in H.
  assert (Hin : forall site st k e,
            In (k, e) (EntriesByState E site st w) ->
            map_get k (entries w) = Some e /\ State e = st)
    by (intros; now apply (EntriesByState_In E site st w k e Hfair Hok)).
  destruct (run_entries (executeDelete E tx) ActDelete _ 0 w) as [r1 w1] eqn:L1.
  pose proof (run_entries_shape _ _ _ _ _ _ _ (executeDelete_entry E tx) L1) as S1.
  assert (I1 : Inv w1).
  { apply (run_entries_inv Inv _ _ _ _ _ _ _ L1 Hinv).
    intros k e x r0 y Hke. apply Hin in Hke as [Hg Hs]. now apply HD. }
  destruct r1 as [a1|a1 err|]; [|now inversion H; subst..].
  rewrite (EntriesByState_same _ _ _ _ _ (proj1 S1)) in H.
  destruct (run_entries (executeInsert E tx) ActInsert _ a1 w1) as [r2 w2] eqn:L2.
  pose proof (run_entries_shape _ _ _ _ _ _ _ (executeInsert_effect E tx) L2) as S2.
  assert (I2 : Inv w2).
  { apply (run_entries_inv Inv _ _ _ _ _ _ _ L2 I1).
    intros k e x r0 y Hke. apply Hin in Hke as [Hg Hs]. now apply HA. }
  pose proof (same_shape_trans _ _ _ S1 S2) as S12.
  destruct r2 as [a2|a2 err|]; [|now inversion H; subst..].
  rewrite (EntriesByState_same _ _ _ _ _ (proj1 S12)) in H.
  destruct (run_entries (executeUpdate E tx) ActUpdate _ a2 w2) as [r3 w3] eqn:L3.
  pose proof (run_entries_shape _ _ _ _ _ _ _ (executeUpdate_entry E tx) L3) as S3.
  assert (I3 : Inv w3).
  { apply (run_entries_inv Inv _ _ _ _ _ _ _ L3 I2).
    intros k e x r0 y Hke. apply Hin in Hke as [Hg Hs]. apply HM; auto. }
  pose proof (same_shape_trans _ _ _ S12 S3) as S123.
  destruct r3 as [a3|a3 err|]; [|now inversion H; subst..].
  rewrite (EntriesByState_same _ _ _ _ _ (proj1 S123)) in H.
  apply (run_unchanged_inv Inv _ _ _ _ _ _ _ H I3).
  intros k e x r0 y Hke. apply Hin in Hke as [Hg Hs]. apply HM; auto.
Qed.

Lemma In_map_set {V} k (v : V) m k' v' :
  In (k', v') (map_set k v m) -> (k', v') = (k, v) \/ In (k', v') m.
Proof.
  induction m as [|[k0 v0] m IH]; simpl.
  - intros [H|[]]. now left.
  - destruct (String.eqb k0 k); simpl; intros [H|H]; auto.
    apply IH in H. tauto.
Qed.

Lemma GetEntry_untracked E site p w :
  fair_range E -> GetEntry E site p w = Some None ->
  (forall k e, In (k, e) (entries w) -> Entity e <> p) /\
  exists key,
    makeKey (heap w) p (GetPrimaryKey (heap w) (newEntityEntry (heap w) p Detached))
      = Some key /\
    map_get key (entries w) = None.
Proof.
  intros Hfair. unfold GetEntry.
  destruct (find _ _) as [ke|] eqn:Hfind; [discriminate|].
  destruct (makeKey _ _ _) as [key|] eqn:Hkey; [|discriminate].
  destruct (map_get key (entries w)) eqn:Hget; [discriminate|]. intros _.
  split; [|exists key; auto].
  intros k e Hin Heq.
  assert (Hin' : In (k, e) (env_range E site (entries w)))
    by (eapply Permutation_in; [apply Permutation_sym, Hfair | exact Hin]).
  apply (find_none _ _ Hfind) in Hin'. cbn in Hin'.
  apply Nat.eqb_neq in Hin'. contradiction.
Qed.

Lemma captureMetadata_pk h e e' :
  Entity e = Entity e' -> pkField e = pkField e' -> pkValue e = pkValue e' ->
  pkField (captureMetadata h e) = pkField (captureMetadata h e').
Proof.
  intros HE HF HV. unfold captureMetadata. rewrite HE, HF, HV.
  destruct (first_pk _ _ _) as [[pkf pkv]|];
    [destruct (String.eqb pkf "") | destruct (String.eqb (pkField e') "")];
    try destruct (FieldByName _ _); reflexivity.
Qed.

Lemma newEntityEntry_pk h p st st' :
  pkField (newEntityEntry h p st) = pkField (newEntityEntry h p st').
Proof.
  unfold newEntityEntry.
  set (e0 := {| Entity := p; State := st; OriginalValues := [];
                entityType := _; pkField := ""; pkValue := VNil |}).
  set (e1 := {| Entity := p; State := st'; OriginalValues := [];
                entityType := _; pkField := ""; pkValue := VNil |}).
  assert (H : pkField (captureMetadata h e0) = pkField (captureMetadata h e1))
    by (now apply captureMetadata_pk).
  destruct (captureOriginalValues_facts h (captureMetadata h e0)) as (_ & _ & _ & G0).
  destruct (captureOriginalValues_facts h (captureMetadata h e1)) as (_ & _ & _ & G1).
  destruct st, st'; rewrite ?G0, ?G1; exact H.
Qed.

Lemma GetPrimaryKey_pk h e e' :
  Entity e = Entity e' -> pkField e = pkField e' ->
  GetPrimaryKey h e = GetPrimaryKey h e'.
Proof. intros HE HF. unfold GetPrimaryKey. now rewrite HE, HF. Qed.

Lemma DetectChanges_Entity h e : Entity (DetectChanges h e) = Entity e.
Proof.
  unfold DetectChanges. destruct (State e); try reflexivity.
  now destruct (Nat.ltb _ _).
Qed.

Lemma stmt_for_other p q evs :
  q <> p -> forallb (stmt_for q) evs = true ->
  forallb (fun ev => negb (stmt_for p ev)) evs = true.
Proof.
  intros Hne H. rewrite forallb_forall in *. intros ev Hin.
  specialize (H ev Hin). destruct ev; try reflexivity; cbn in *;
    apply Nat.eqb_eq in H; subst; apply negb_true_iff, Nat.eqb_neq; congruence.
Qed.

Lemma bookkeeping_not_stmt p evs :
  forallb (fun ev => negb (dml_event ev)) evs = true ->
  forallb (fun ev => negb (stmt_for p ev)) evs = true.
Proof.
  rewrite !forallb_forall. intros H ev Hin. specialize (H ev Hin).
  destruct ev; try reflexivity; discriminate.
Qed.

Lemma untouched_refl p w : untouched p w w.
Proof. split; [reflexivity|]. exists []. now rewrite app_nil_r. Qed.

Lemma untouched_foreign p q a k w0 x y :
  q <> p -> untouched p w0 x ->
  entry_effect q (log x (EvProcess a k)) y -> untouched p w0 y.
Proof.
  intros Hne (Hh & evs & Ht & Hs) (_ & Hf & _ & _ & evs' & Ht' & Hs').
  split.
  - rewrite Hf by congruence. exact Hh.
  - exists (evs ++ EvProcess a k :: evs')%list. cbn [trace log] in Ht'.
    rewrite Ht', Ht, <- !app_assoc. split; [reflexivity|].
    rewrite forallb_app, Hs. cbn. now apply (stmt_for_other p q).
Qed.

Lemma untouched_log p a k w0 x :
  untouched p w0 x -> untouched p w0 (log x (EvProcess a k)).
Proof.
  intros (Hh & evs & Ht & Hs). split; [exact Hh|].
  exists (evs ++ [EvProcess a k])%list. cbn [trace log].
  rewrite Ht, <- app_assoc. split; [reflexivity|].
  rewrite forallb_app, Hs. reflexivity.
Qed.



(* ================================================================= *)
(** * Inserts *)

Lemma model_columns_mapped fs :
  forallb (fun f => negb (String.eqb (Tag f) "-")) fs = true ->
  model_columns fs =
  map (fun f => if String.eqb (Tag f) "" then ToLower (Name f)
                else before_comma (Tag f)) fs.
Proof.
  induction fs as [|f fs IH]; [reflexivity|]. cbn [forallb model_columns map].
  intros H. apply andb_true_iff in H as [H1 H2]. apply negb_true_iff in H1.
  rewrite H1, (IH H2). now destruct (String.eqb (Tag f) "").
Qed.

(** The loop over two runs of columns is the loop over the first and
    then over the second. *)
Lemma insert_loop_app e v cs1 cs2 : forall k acc,
  insert_loop e v (cs1 ++ cs2) k acc =
  match insert_loop e v cs1 k acc with
  | Some acc' => insert_loop e v cs2 (k + List.length cs1) acc'
  | None => None
  end.
Proof.
  induction cs1 as [|c cs1 IH]; intros k [[cols vals] phs].
  - cbn. now rewrite Nat.add_0_r.
  - cbn [app insert_loop List.length].
    replace (k + S (List.length cs1))%nat with (S k + List.length cs1)%nat by lia.
    destruct (negb _ && _)%bool; [destruct (isZeroValue _) as [[|]|]|];
      try reflexivity; apply IH.
Qed.

(** Away from the key field the loop takes every column. *)
Lemma insert_loop_take e v cs : forall k cols vals phs,
  (forall j, (j < List.length cs)%nat ->
     (negb (String.eqb (pkField e) "")
      && String.eqb (Name (TypeField (entityType e) (k + j))) (pkField e))%bool
     = false) ->
  insert_loop e v cs k (cols, vals, phs) =
  Some ((cols ++ cs)%list,
        (vals ++ map (Field v) (seq k (List.length cs)))%list,
        (phs ++ numbered (List.length vals) (List.length cs))%list).
Proof.
  unfold numbered.
  induction cs as [|c cs IH]; intros k cols vals phs Hpk.
  - cbn. now rewrite !app_nil_r.
  - cbn [insert_loop List.length seq map].
    pose proof (Hpk 0%nat ltac:(cbn; lia)) as H0. rewrite Nat.add_0_r in H0.
    rewrite H0, IH.
    + rewrite <- !app_assoc. cbn [app].
      assert (Hhead : len (vals ++ [Field v k])%list
                      = Z.of_nat (List.length vals + 1))
        by (unfold len; rewrite length_app; reflexivity).
      assert (Htail :
                map (fun m => "$" ++ fmt_d (Z.of_nat
                       (List.length (vals ++ [Field v k])%list + m)))
                    (seq 1 (List.length cs)) =
                map (fun m => "$" ++ fmt_d (Z.of_nat (List.length vals + m)))
                    (seq 2 (List.length cs))).
      { rewrite <- (seq_shift (List.length cs) 1), map_map. apply map_ext.
        intros m. rewrite length_app. cbn [List.length].
        do 3 f_equal. lia. }
      now rewrite Hhead, Htail.
    + intros j Hj. specialize (Hpk (S j) ltac:(cbn; lia)).
      now replace (S k + j)%nat with (k + S j)%nat by lia.
Qed.

Lemma seq_firstn n : forall a m,
  (n <= m)%nat -> firstn n (seq a m) = seq a n.
Proof.
  induction n as [|n IH]; intros a [|m] H; cbn; try reflexivity; try lia.
  f_equal. apply IH. lia.
Qed.

Lemma numbered_app a n m :
  numbered a (n + m) = (numbered a n ++ numbered (a + n) m)%list.
Proof.
  unfold numbered. rewrite seq_app, map_app. f_equal.
  rewrite <- (Nat.add_comm n 1). clear.
  revert a. generalize 1%nat as s. induction m as [|m IH]; intros s a; cbn;
    [reflexivity|].
  f_equal.
  - do 3 f_equal. lia.
  - replace (S (n + s)) with (n + S s)%nat by lia. apply IH.
Qed.

(** With a key field that holds its zero value, the loop takes every
    column but the one of the key field. *)
Lemma insert_loop_zero_key e v cs i :
  (i < List.length cs)%nat ->
  (forall j, (j < List.length cs)%nat ->
     (negb (String.eqb (pkField e) "")
      && String.eqb (Name (TypeField (entityType e) j)) (pkField e))%bool
     = Nat.eqb j i) ->
  isZeroValue (Field v i) = Some true ->
  insert_loop e v cs 0 ([], [], []) =
  Some (drop_nth i cs,
        drop_nth i (map (Field v) (seq 0 (List.length cs))),
        numbered 0 (List.length cs - 1)).
Proof.
  intros Hi Hpk Hz.
  destruct (nth_error cs i) as [c|] eqn:Hc;
    [|apply nth_error_None in Hc; lia].
  pose proof (firstn_skipn_middle i cs Hc) as Hsplit.
  rewrite <- Hsplit at 1. rewrite insert_loop_app.
  assert (Hl1 : List.length (firstn i cs) = i) by (rewrite length_firstn; lia).
  rewrite insert_loop_take.
  2:{ intros j Hj. rewrite Hl1 in Hj. cbn [Nat.add]. rewrite Hpk by lia.
      apply Nat.eqb_neq. lia. }
  rewrite Hl1. cbn [Nat.add app insert_loop List.length].
  rewrite (Hpk i Hi), Nat.eqb_refl, Hz.
  rewrite insert_loop_take.
  2:{ intros j Hj. rewrite length_skipn in Hj. rewrite Hpk by lia.
      apply Nat.eqb_neq. lia. }
  rewrite length_skipn, length_map, length_seq. unfold drop_nth.
  rewrite firstn_map, skipn_map, seq_firstn by lia.
  rewrite skipn_seq. cbn [Nat.add].
  replace (List.length cs - 1)%nat with (i + (List.length cs - S i))%nat by lia.
  now rewrite numbered_app.
Qed.

Lemma pk_test_index e t i :
  entityType e = t -> type_ok t -> pkField e <> "" ->
  FieldByName t (pkField e) = Some i ->
  forall j, (j < NumField t)%nat ->
    (negb (String.eqb (pkField e) "")
     && String.eqb (Name (TypeField (entityType e) j)) (pkField e))%bool
    = Nat.eqb j i.
Proof.
  intros Hty Hok Hne Hf j Hj. apply FieldByName_spec in Hf as [Hi Hname].
  apply String.eqb_neq in Hne. rewrite Hne, Hty. cbn [negb andb].
  destruct (Nat.eqb_spec j i) as [->|Hji].
  - rewrite Hname. apply String.eqb_refl.
  - apply String.eqb_neq. intros Heq. apply Hji.
    apply (field_name_inj t j i Hok Hj Hi). congruence.
Qed.

Lemma model_columns_length t :
  all_mapped t = true -> List.length (Columns (ParseModel t)) = NumField t.
Proof.
  intros H. unfold ParseModel, NumField. cbn [Columns].
  rewrite model_columns_mapped by exact H. apply length_map.
Qed.

(** In a type whose fields are all columns, the column of a field is
    the one [getPKColumnName] gives for its name. *)
Lemma key_column t f i :
  all_mapped t = true -> FieldByName t f = Some i ->
  nth i (Columns (ParseModel t)) "" = getPKColumnName t f.
Proof.
  intros Hm Hf. unfold getPKColumnName. rewrite Hf.
  apply FieldByName_spec in Hf as [Hi Hname].
  unfold ParseModel. cbn [Columns]. rewrite model_columns_mapped by exact Hm.
  unfold TypeField in *.
  set (col := fun f0 => if String.eqb (Tag f0) "" then ToLower (Name f0)
                        else before_comma (Tag f0)).
  change "" with (col no_field) at 1. rewrite map_nth. unfold col.
  now rewrite Hname.
Qed.

Lemma conn_query_row_some E p s w v w' :
  conn_query_row E p s w = (Some v, w') -> env_query_row E (conn w) s = Some v.
Proof.
  unfold conn_query_row. destruct (env_query_row E (conn w) s); now intros [= <- _].
Qed.

(** A successful INSERT for an entry with a key field leaves a
    generated key in that field. *)
Lemma executeInsert_sets_key E tx e w m w' i :
  executeInsert E tx e w = (Ok m, w') ->
  pkField e <> "" ->
  getPKColumnName (type_of (heap w (Entity e))) (pkField e) <> "" ->
  FieldByName (type_of (heap w (Entity e))) (pkField e) = Some i ->
  (i < List.length (field_values (heap w (Entity e))))%nat ->
  generates_keys E (FieldKind (TypeField (type_of (heap w (Entity e))) i)) ->
  m = 1 /\ isZeroValue (Field (heap w' (Entity e)) i) = Some false.
Proof.
  unfold executeInsert. intros H Hne Hcol Hf Hi Hgen.
  destruct (insert_loop _ _ _ _ _) as [[[cols vals] phs]|]; [|discriminate].
  apply String.eqb_neq in Hne, Hcol. rewrite Hne, Hcol in H. cbn [negb andb] in H.
  destruct (conn_query_row E (Entity e) _ w) as [[newPK|] w1] eqn:Hq; [|discriminate].
  pose proof (conn_query_row_some _ _ _ _ _ _ Hq) as Hrow.
  apply conn_query_row_facts in Hq as (Hh & _).
  destruct (Hgen _ _ _ Hrow) as (Hnil & x' & Hconv & Hzero).
  unfold setPKValue in H. rewrite Hh, Hf, Hconv in H.
  destruct newPK; try contradiction; inversion H; subst;
    cbn [heap with_heap]; rewrite store_same, Field_SetField, Nat.eqb_refl by assumption;
    auto.
Qed.

(** What is under a key after [AcceptAllChanges]. *)
Lemma accept_get h k (it m : list (string * EntityEntry)) :
  NoDup (map fst it) ->
  map_get k
    (fold_left
       (fun m ke =>
          if EntityState_eqb (State (snd ke)) Deleted
          then map_delete (fst ke) m
          else map_set (fst ke) (AcceptChanges h (snd ke)) m) it m) =
  match map_get k it with
  | Some e => if EntityState_eqb (State e) Deleted then None
              else Some (AcceptChanges h e)
  | None => map_get k m
  end.
Proof.
  revert m. induction it as [|[k0 e0] it IH]; intros m Hnd; simpl.
  - reflexivity.
  - inversion Hnd as [|? ? Hni Hnd']; subst. rewrite IH by assumption.
    destruct (String.eqb k0 k) eqn:E.
    + apply String.eqb_eq in E. subst k0.
      apply map_get_None in Hni. rewrite Hni.
      destruct (EntityState_eqb (State e0) Deleted).
      * now rewrite map_get_delete, String.eqb_refl.
      * now rewrite map_get_set, String.eqb_refl.
    + destruct (map_get k it); [reflexivity|].
      destruct (EntityState_eqb (State e0) Deleted).
      * now rewrite map_get_delete, E.
      * now rewrite map_get_set, E.
Qed.

Lemma AcceptAllChanges_get E site w k :
  fair_range E -> tracker_ok w ->
  map_get k (entries (AcceptAllChanges E site w)) =
  match map_get k (entries w) with
  | Some e => if EntityState_eqb (State e) Deleted then None
              else Some (AcceptChanges (heap w) e)
  | None => None
  end.
Proof.
  intros Hf Hok. unfold AcceptAllChanges. cbn [entries log with_entries].
  rewrite accept_get by now apply fair_NoDup.
  rewrite (map_get_perm k (entries w)) by (apply Hf || exact Hok).
  now destruct (map_get k (entries w)).
Qed.

(** What the INSERT of an Added entry establishes, and every later
    step keeps, holds after loops that ran to their end. *)
Lemma flush_statements_saved (Inv Q : World -> Prop) E tx w n w' key e :
  fair_range E -> tracker_ok w ->
  flush_statements E tx w = (Saved n, w') ->
  map_get key (entries w) = Some e -> State e = Added -> Inv w ->
  (forall k e w1 r1 w2,
     map_get k (entries w) = Some e -> State e = Deleted -> Inv w1 ->
     executeDelete E tx e (log w1 (EvProcess ActDelete k)) = (r1, w2) -> Inv w2) ->
  (forall k e w1 r1 w2,
     map_get k (entries w) = Some e -> State e = Added -> Inv w1 ->
     executeInsert E tx e (log w1 (EvProcess ActInsert k)) = (r1, w2) -> Inv w2) ->
  (forall k e w1 r1 w2,
     map_get k (entries w) = Some e ->
     State e = Modified \/ State e = Unchanged -> Inv w1 ->
     executeUpdate E tx e (log w1 (EvProcess ActUpdate k)) = (r1, w2) -> Inv w2) ->
  (forall w1 m w2, Inv w1 ->
     executeInsert E tx e (log w1 (EvProcess ActInsert key)) = (Ok m, w2) -> Q w2) ->
  (forall k e' w1 m w2,
     map_get k (entries w) = Some e' -> State e' = Added -> Inv w1 -> Q w1 ->
     executeInsert E tx e' (log w1 (EvProcess ActInsert k)) = (Ok m, w2) -> Q w2) ->
  (forall k e' w1 r1 w2,
     map_get k (entries w) = Some e' ->
     State e' = Modified \/ State e' = Unchanged -> Inv w1 -> Q w1 ->
     executeUpdate E tx e' (log w1 (EvProcess ActUpdate k)) = (r1, w2) -> Q w2) ->
  Q w'.
Proof.
  intros Hfair Hok H Hkey Hadded Hinv HD HA HM Hest HkA HkM.
  unfold flush_statements, and_then in H.
  assert (Hin : forall site st k e,
            In (k, e) (EntriesByState E site st w) <->
            map_get k (entries w) = Some e /\ State e = st)
    by (intros; apply EntriesByState_In; assumption).
  destruct (run_entries (executeDelete E tx) ActDelete _ 0 w) as [r1 w1] eqn:L1.
  pose proof (run_entries_shape _ _ _ _ _ _ _ (executeDelete_entry E tx) L1) as S1.
  assert (I1 : Inv w1).
  { apply (run_entries_inv Inv _ _ _ _ _ _ _ L1 Hinv).
    intros k e0 x r0 y Hke. apply Hin in Hke as [Hg Hs]. now apply HD. }
  destruct r1 as [a1|a1 err|]; [|discriminate..].
  rewrite (EntriesByState_same _ _ _ _ _ (proj1 S1)) in H.
  destruct (run_entries (executeInsert E tx) ActInsert _ a1 w1) as [r2 w2] eqn:L2.
  pose proof (run_entries_shape _ _ _ _ _ _ _ (executeInsert_effect E tx) L2) as S2.
  assert (I2 : Inv w2).
  { apply (run_entries_inv Inv _ _ _ _ _ _ _ L2 I1).
    intros k e0 x r0 y Hke. apply Hin in Hke as [Hg Hs]. now apply HA. }
  pose proof (same_shape_trans _ _ _ S1 S2) as S12.
  destruct r2 as [a2|a2 err|]; [|discriminate..].
  assert (Q2 : Q w2).
  { apply (run_entries_saved Inv Q _ _ _ key e _ _ _ _ L2); try assumption.
    - left. apply Hin. auto.
    - intros k e0 x r0 y Hke. apply Hin in Hke as [Hg Hs]. now apply HA.
    - intros k e0 x m y Hke. apply Hin in Hke as [Hg Hs]. now apply HkA. }
  rewrite (EntriesByState_same _ _ _ _ _ (proj1 S12)) in H.
  destruct (run_entries (executeUpdate E tx) ActUpdate _ a2 w2) as [r3 w3] eqn:L3.
  pose proof (run_entries_shape _ _ _ _ _ _ _ (executeUpdate_entry E tx) L3) as S3.
  assert (I3 : Inv w3 /\ Q w3).
  { apply (run_entries_inv (fun x => Inv x /\ Q x) _ _ _ _ _ _ _ L3 (conj I2 Q2)).
    intros k e0 x r0 y Hke [Hi Hq] Hx. apply Hin in Hke as [Hg Hs]. split.
    - eapply HM; eauto.
    - eapply HkM; eauto. }
  pose proof (same_shape_trans _ _ _ S12 S3) as S123.
  destruct r3 as [a3|a3 err|]; [|discriminate..].
  rewrite (EntriesByState_same _ _ _ _ _ (proj1 S123)) in H.
  apply (run_unchanged_inv (fun x => Inv x /\ Q x) _ _ _ _ _ _ _ H I3).
  intros k e0 x r0 y Hke [Hi Hq] Hx. apply Hin in Hke as [Hg Hs]. split.
  - eapply HM; eauto.
  - eapply HkM; eauto.
Qed.

Lemma DetectChanges_pkField h e : pkField (DetectChanges h e) = pkField e.
Proof.
  unfold DetectChanges. destruct (State e); try reflexivity.
  now destruct (Nat.ltb _ _).
Qed.

Lemma AcceptChanges_facts h e :
  Entity (AcceptChanges h e) = Entity e /\ State (AcceptChanges h e) = Unchanged.
Proof. unfold AcceptChanges, captureOriginalValues. auto. Qed.

Lemma shaped_as_step p a k w0 x y :
  shaped_as w0 x -> entry_effect p (log x (EvProcess a k)) y -> shaped_as w0 y.
Proof.
  intros [H1 H2] (_ & _ & G1 & G2 & _). split; intros q.
  - now rewrite G1, <- H1.
  - now rewrite G2, <- H2.
Qed.

(** C6. The INSERT of an entry whose key field holds its zero value
    does not always leave the key column out.  The loop of
    [executeInsert] walks the columns of the model and takes, for the
    column of index [i], the field of index [i] of the struct; a
    field that the tag [-] keeps out of the model shifts the two
    against each other.  For the account of [account_world], whose
    first field is such a field and whose key [ID] is zero, the flush
    succeeds with
    [INSERT INTO accounts (id) VALUES ($1) RETURNING id] and the
    argument ["s3cret"]: the key column is listed, with the value of
    the field that is no column, and the column [name] is left out
    in its place.  The key read back is still written into [ID], and
    the entry ends up Unchanged. *)
Theorem C6_skipped_field_shifts_columns :
  let e := newEntityEntry (heap account_world) 1%nat Added in
  let stmt :=
    {| sql := "INSERT INTO accounts (id) VALUES ($1) RETURNING id";
       args := [VStr "s3cret"] |} in
  map_get "Account:ptr:0x1" (entries account_world) = Some e /\
  State e = Added /\ pkField e = "ID" /\
  isZeroValue (GetPrimaryKey (heap account_world) e) = Some true /\
  Columns (ParseModel Account) = ["id"; "name"] /\
  getPKColumnName Account (pkField e) = "id" /\
  (exists w1,
     executeInsert (obliging []) 0%nat e account_world = (Ok 1, w1) /\
     trace w1 = (trace account_world
                 ++ [EvConnQueryRow 1%nat stmt (Some (VInt 2))])%list) /\
  exists w',
    SaveChangesContext (obliging []) None account_world = (Saved 1, w') /\
    durable (conn w') = [stmt] /\
    field_values (heap w' 1%nat) = [VStr "s3cret"; VInt 2; VStr "Ana"] /\
    option_map State (map_get "Account:ptr:0x1" (entries w')) = Some Unchanged.
Proof.
  cbv zeta. repeat (split; [reflexivity|]). split.
  - eexists. split; vm_compute; reflexivity.
  - eexists. split; [vm_compute; reflexivity|]. repeat split.
Qed.

(** X28.  For a type all of whose fields are columns (none carries
    the tag [-]): the INSERT of an entry whose key field holds its
    zero value lists every column but the key column, ends in
    RETURNING with the key column, runs as a query that reads the
    generated key back, and writes that key into the key field of the
    entity.  For every type: after a flush that succeeded, the key
    field of an entity that was Added holds a key that is not the
    zero value, and its entry is Unchanged.  (The entry has a key
    field, which has a column; the entries that point to the entity
    name the same key field; the database generates keys that fit
    the key field and are not zero.) *)
Theorem X28_insert_generated_key :
  (forall E tx e w i,
     let v := heap w (Entity e) in
     let t := type_of v in
     entityType e = t -> type_ok t -> all_mapped t = true ->
     pkField e <> "" -> FieldByName t (pkField e) = Some i ->
     isZeroValue (Field v i) = Some true ->
     getPKColumnName t (pkField e) <> "" ->
     let stmt :=
       {| sql := ("INSERT INTO " ++ Table (ParseModel t) ++ " ("
                  ++ Join (drop_nth i (Columns (ParseModel t))) ", "
                  ++ ") VALUES (" ++ Join (numbered 0 (NumField t - 1)) ", "
                  ++ ")")
                 ++ " RETURNING " ++ getPKColumnName t (pkField e);
          args := drop_nth i (map (Field v) (seq 0 (NumField t))) |} in
     nth i (Columns (ParseModel t)) "" = getPKColumnName t (pkField e) /\
     forall newPK x,
       env_query_row E (conn w) stmt = Some newPK -> newPK <> VNil ->
       Convert (env_rune E) newPK (FieldKind (TypeField t i)) = Some x ->
       (i < List.length (field_values v))%nat ->
       exists w',
         executeInsert E tx e w = (Ok 1, w') /\
         trace w' = (trace w ++ [EvConnQueryRow (Entity e) stmt (Some newPK)])%list /\
         heap w' (Entity e) = SetField v i x /\
         Field (heap w' (Entity e)) i = x) /\
  (forall E tx w key e i n w',
     fair_range E -> tracker_ok w ->
     map_get key (entries w) = Some e -> State e = Added ->
     let p := Entity e in
     let t := type_of (heap w p) in
     pkField e <> "" -> FieldByName t (pkField e) = Some i ->
     (i < List.length (field_values (heap w p)))%nat ->
     getPKColumnName t (pkField e) <> "" ->
     (forall k' e', In (k', e') (entries w) -> Entity e' = p ->
        pkField e' = pkField e) ->
     generates_keys E (FieldKind (TypeField t i)) ->
     SaveChangesContext E tx w = (Saved n, w') ->
     isZeroValue (Field (heap w' p) i) = Some false /\
     exists e', map_get key (entries w') = Some e' /\
                Entity e' = p /\ State e' = Unchanged).
Proof.
  split.
  - intros E tx e w i v t Hty Hok Hmap Hne Hf Hz Hcol stmt.
    split; [now apply key_column|].
    intros newPK x Hrow Hnil Hconv Hi.
    unfold executeInsert. fold v. fold t.
    rewrite (insert_loop_zero_key e v (Columns (ParseModel t)) i).
    + rewrite (model_columns_length t Hmap).
      pose proof Hne as Hne'. pose proof Hcol as Hcol'.
      apply String.eqb_neq in Hne', Hcol'. rewrite Hne', Hcol'. cbn [negb andb].
      fold stmt. unfold conn_query_row. rewrite Hrow.
      unfold setPKValue. cbn [heap with_conn log]. fold v. fold t.
      rewrite Hf, Hconv.
      eexists. split.
      * destruct newPK; try contradiction; reflexivity.
      * cbn [trace heap with_heap with_conn log].
        split; [reflexivity|]. rewrite store_same. split; [reflexivity|].
        now rewrite Field_SetField, Nat.eqb_refl.
    + rewrite (model_columns_length t Hmap).
      now apply FieldByName_spec in Hf.
    + intros j Hj. rewrite (model_columns_length t Hmap) in Hj.
      now apply (pk_test_index e t i).
    + exact Hz.
  - intros E tx w key e i n w' Hfair Hok Hkey Hadded p t Hne Hf Hi Hcol Hshare Hgen Hsave.
    pose proof (DetectChanges_all_ok E w Hfair Hok) as Hokd.
    set (wd := DetectChanges_all E site_DetectChanges w) in *.
    assert (Hkeyd : map_get key (entries wd) = Some e).
    { unfold wd. rewrite DetectChanges_all_get, Hkey by assumption. cbn.
      unfold DetectChanges. now rewrite Hadded. }
    assert (Hshared : forall k' e', map_get k' (entries wd) = Some e' ->
                        Entity e' = p -> pkField e' = pkField e).
    { intros k' e' Hg Hp. unfold wd in Hg.
      rewrite DetectChanges_all_get in Hg by assumption.
      destruct (map_get k' (entries w)) as [e0|] eqn:Hg0; [|discriminate].
      cbn in Hg. inversion Hg; subst e'.
      rewrite DetectChanges_Entity in Hp. rewrite DetectChanges_pkField.
      apply map_get_In in Hg0. now apply (Hshare k' e0). }
    apply SaveChangesContext_inv in Hsave. cbv zeta in Hsave. fold wd in Hsave.
    destruct Hsave as [(_ & Hr & _)|(h & ownTx & wb & rf & wf & Hbegin & Hflush & Hend)];
      [discriminate|].
    destruct (SaveChangesContext_trace E tx w (Saved n) w' h ownTx wb rf wf Hbegin Hend)
      as ((Hhb & Hewb & _) & (Hhw & _) & Hsaved).
    fold wd in Hewb. rewrite (Hsaved n eq_refl) in *.
    assert (Hokb : tracker_ok wb) by (unfold tracker_ok; now rewrite Hewb).
    pose proof (flush_statements_spec _ _ _ _ _ Hflush) as ((Hef & _) & _).
    assert (Hstep : forall (e' : EntityEntry) k x m y,
              Entity e' = p -> pkField e' = pkField e -> shaped_as wb x ->
              executeInsert E h e' (log x (EvProcess ActInsert k)) = (Ok m, y) ->
              isZeroValue (Field (heap y p) i) = Some false).
    { intros e' k x m y Hp Hpk [Hs1 Hs2] Hx.
      rewrite <- Hp.
      apply (executeInsert_sets_key E h e' _ m y i Hx); cbn [heap log];
        rewrite ?Hpk, ?Hp, ?Hs1, ?Hs2, ?Hhb; assumption. }
    assert (HQ : isZeroValue (Field (heap wf p) i) = Some false).
    { apply (flush_statements_saved (shaped_as wb)
               (fun x => isZeroValue (Field (heap x p) i) = Some false)
               E h wb n wf key e Hfair Hokb Hflush);
        rewrite ?Hewb; try assumption.
      - split; reflexivity.
      - intros k e0 x r1 y _ _ Hs Hx. eapply shaped_as_step; [exact Hs|].
        eapply executeDelete_entry, Hx.
      - intros k e0 x r1 y _ _ Hs Hx. eapply shaped_as_step; [exact Hs|].
        eapply executeInsert_effect, Hx.
      - intros k e0 x r1 y _ _ Hs Hx. eapply shaped_as_step; [exact Hs|].
        eapply executeUpdate_entry, Hx.
      - intros x m y Hs Hx. now apply (Hstep e key x m y).
      - intros k e' x m y Hg _ Hs Hq Hx.
        destruct (Nat.eq_dec (Entity e') p) as [Hp|Hp].
        + apply (Hstep e' k x m y); auto. now apply (Hshared k e').
        + apply executeInsert_effect in Hx as (_ & Hfr & _).
          rewrite Hfr by congruence. exact Hq.
      - intros k e' x r1 y _ _ _ Hq Hx.
        apply executeUpdate_effect in Hx as [_ Hh]. cbn [heap log] in Hh.
        now rewrite Hh. }
    split; [now rewrite Hhw|].
    assert (Hacc : forall x, heap x = heap wf -> entries x = entries wf ->
              exists e', map_get key (entries (AcceptAllChanges E site_AcceptAllChanges x))
                         = Some e' /\ Entity e' = p /\ State e' = Unchanged).
    { intros x Hhx Hex. rewrite AcceptAllChanges_get;
        [|assumption|unfold tracker_ok; now rewrite Hex, Hef, Hewb].
      rewrite Hex, Hef, Hewb, Hkeyd, Hadded. cbn.
      eexists. split; [reflexivity|]. apply AcceptChanges_facts. }
    destruct Hend as [(m & _ & _ & _ & ->)
                     |[(m & wc & _ & _ & Hc & _ & ->)
                     |[(m & wc & _ & _ & _ & Hr & _)
                     |(Hns & _ & _)]]].
    + now apply Hacc.
    + apply tx_commit_facts in Hc as (Hh & He & _). now apply Hacc.
    + discriminate.
    + now destruct (Hns n).
Qed.

Lemma obliging_generates rows : generates_keys (obliging rows) KInt.
Proof.
  intros d s x H. cbn in H. injection H as <-.
  split; [discriminate|].
  eexists. split; [reflexivity|].
  cbn. destruct (Z.eqb_spec (Z.of_nat (List.length (durable d)) + 2) 0) as [E|E];
    [lia|reflexivity].
Qed.

(** The new patient of the demo, added with no key: its INSERT, and
    the flush that carries it. *)
Lemma X28_insert_generated_key_witness :
  exists e w1 w',
    map_get "Patient:ptr:0x2" (entries pending_world) = Some e /\
    executeInsert (obliging []) 0%nat e pending_world = (Ok 1, w1) /\
    trace w1 =
      (trace pending_world ++
       [EvConnQueryRow 2%nat
          {| sql := "INSERT INTO patients (name, age) VALUES ($1, $2) RETURNING id";
             args := [VStr "Milica2"; VInt 30] |} (Some (VInt 2))])%list /\
    Field (heap w1 2%nat) 0 = VInt 2 /\
    SaveChangesContext (obliging []) None pending_world = (Saved 2, w') /\
    isZeroValue (Field (heap w' 2%nat) 0) = Some false /\
    exists e', map_get "Patient:ptr:0x2" (entries w') = Some e' /\
               Entity e' = 2%nat /\ State e' = Unchanged.
Proof.
  destruct X28_insert_generated_key as [Hone Hflush].
  exists (newEntityEntry (heap pending_world) 2%nat Added).
  destruct (Hone (obliging []) 0%nat (newEntityEntry (heap pending_world) 2%nat Added)
              pending_world 0%nat eq_refl Patient_ok eq_refl)
    as [_ Hins]; [discriminate|reflexivity|reflexivity|discriminate|].
  destruct (Hins (VInt 2) (VInt 2) eq_refl) as (w1 & H1 & H2 & _ & H3);
    [discriminate|reflexivity|cbn; lia|].
  exists w1.
  exists (snd (SaveChangesContext (obliging []) None pending_world)).
  assert (Hs : SaveChangesContext (obliging []) None pending_world
               = (Saved 2, snd (SaveChangesContext (obliging []) None pending_world)))
    by (vm_compute; reflexivity).
  split; [reflexivity|]. split; [exact H1|]. split; [exact H2|]. split; [exact H3|].
  split; [exact Hs|].
  apply (Hflush (obliging []) None pending_world "Patient:ptr:0x2"
           (newEntityEntry (heap pending_world) 2%nat Added) 0%nat 2
           (snd (SaveChangesContext (obliging []) None pending_world))).
  - apply obliging_fair.
  - apply pending_world_ok.
  - reflexivity.
  - reflexivity.
  - discriminate.
  - reflexivity.
  - cbn; lia.
  - discriminate.
  - intros k' e' [H|[H|[]]] He; injection H as <- <-; [discriminate He|reflexivity].
  - apply obliging_generates.
  - exact Hs.
Defined.

(* ================================================================= *)
(** * Find and the identity map *)

Lemma Kind_eqb_refl k : Kind_eqb k k = true.
Proof. now destruct k. Qed.

Lemma fields_eqb_refl fs : fields_eqb fs fs = true.
Proof.
  induction fs as [|f fs IH]; [reflexivity|]. cbn. unfold StructField_eqb.
  now rewrite !String.eqb_refl, Kind_eqb_refl, IH.
Qed.

Lemma StructType_eqb_refl t : StructType_eqb t t = true.
Proof. unfold StructType_eqb. now rewrite String.eqb_refl, fields_eqb_refl. Qed.

Lemma captureMetadata_local h h' e e' :
  h (Entity e) = h' (Entity e') ->
  pkField e = pkField e' -> pkValue e = pkValue e' ->
  pkField (captureMetadata h e) = pkField (captureMetadata h' e').
Proof.
  intros HE HF HV. unfold captureMetadata. rewrite HE, HF, HV.
  destruct (first_pk _ _ _) as [[pkf pkv]|];
    [destruct (String.eqb pkf "") | destruct (String.eqb (pkField e') "")];
    try destruct (FieldByName _ _); reflexivity.
Qed.

Lemma newEntityEntry_local h h' p p' st st' :
  h p = h' p' ->
  pkField (newEntityEntry h p st) = pkField (newEntityEntry h' p' st').
Proof.
  intros Hp. unfold newEntityEntry.
  set (e0 := {| Entity := p; State := st; OriginalValues := [];
                entityType := _; pkField := ""; pkValue := VNil |}).
  set (e1 := {| Entity := p'; State := st'; OriginalValues := [];
                entityType := _; pkField := ""; pkValue := VNil |}).
  assert (H : pkField (captureMetadata h e0) = pkField (captureMetadata h' e1))
    by (now apply captureMetadata_local).
  destruct (captureOriginalValues_facts h (captureMetadata h e0)) as (_ & _ & _ & G0).
  destruct (captureOriginalValues_facts h' (captureMetadata h' e1)) as (_ & _ & _ & G1).
  destruct st, st'; rewrite ?G0, ?G1; exact H.
Qed.

Lemma GetPrimaryKey_local h p st :
  GetPrimaryKey h (newEntityEntry h p st) = primary_key_of (h p).
Proof.
  unfold primary_key_of, GetPrimaryKey.
  rewrite (newEntityEntry_local h (fun _ => h p) p 0%nat st Detached eq_refl).
  destruct (newEntityEntry_facts h p st) as (-> & _).
  reflexivity.
Qed.

(** Under which key an entity with a key that is not zero is
    tracked. *)
Lemma Track_key p st w :
  isZeroValue (primary_key_of (heap w p)) = Some false ->
  Track p st w =
  Some (TypeName (type_of (heap w p)) ++ ":" ++ fmt_v (primary_key_of (heap w p)),
        newEntityEntry (heap w) p st,
        with_entries w
          (map_set (TypeName (type_of (heap w p)) ++ ":"
                    ++ fmt_v (primary_key_of (heap w p)))
                   (newEntityEntry (heap w) p st) (entries w))).
Proof.
  intros Hnz. unfold Track, makeKey. now rewrite GetPrimaryKey_local, Hnz.
Qed.


Lemma scan_rows_length E T rows items :
  scan_rows E T rows = Some items -> List.length items = List.length rows.
Proof.
  revert items. induction rows as [|row rows IH]; intros items; cbn.
  - now intros [= <-].
  - destruct (env_scan E _ row); [|discriminate].
    destruct (scan_rows E T rows) as [its|]; [|discriminate].
    intros [= <-]. cbn. f_equal. now apply IH.
Qed.





(* ================================================================= *)
(** * Further properties of the code *)

(** ** Tags (entity_entry.go) *)

Lemma Join_cons p ps sep :
  ps <> [] -> Join (p :: ps) sep = p ++ sep ++ Join ps sep.
Proof. destruct ps; [congruence|reflexivity]. Qed.

Lemma comma_free_app a b :
  comma_free (a ++ b) = (comma_free a && comma_free b)%bool.
Proof.
  induction a as [|c a IH]; cbn; [reflexivity|].
  now rewrite IH, andb_assoc.
Qed.

Lemma splitTag_from_pieces tag : forall cur,
  comma_free cur = true ->
  exists pieces,
    pieces <> [] /\ Join pieces "," = cur ++ tag /\
    Forall (fun p => comma_free p = true) pieces /\
    splitTag_from tag cur = filter (fun p => negb (String.eqb p "")) pieces.
Proof.
  induction tag as [|c tag IH]; intros cur Hcur.
  - exists [cur]. repeat split.
    + discriminate.
    + cbn. now rewrite append_nil_r.
    + now constructor.
    + cbn. now destruct (String.eqb cur "").
  - cbn [splitTag_from]. destruct (Ascii.eqb c comma) eqn:Hc.
    + apply Ascii.eqb_eq in Hc. subst c.
      destruct (IH "" eq_refl) as (ps & Hne & HJ & Hall & Hs).
      exists (cur :: ps). repeat split.
      * discriminate.
      * rewrite Join_cons by exact Hne. now rewrite HJ.
      * now constructor.
      * cbn [filter]. rewrite Hs. now destruct (String.eqb cur "").
    + destruct (IH (cur ++ String c "")) as (ps & Hne & HJ & Hall & Hs).
      { rewrite comma_free_app, Hcur. cbn. now rewrite Hc. }
      exists ps. repeat split; try assumption.
      rewrite HJ, append_assoc. reflexivity.
Qed.

(** X1.  [splitTag] returns the pieces of the tag between its commas,
    in order and without the empty ones; [containsPK] holds when one
    of these pieces is [pk]. *)
Theorem X1_splitTag_pieces :
  forall tag,
    exists pieces,
      pieces <> [] /\ Join pieces "," = tag /\
      Forall (fun p => comma_free p = true) pieces /\
      splitTag tag = filter (fun p => negb (String.eqb p "")) pieces /\
      (containsPK tag = true <-> In "pk" pieces).
Proof.
  intros tag. destruct (splitTag_from_pieces tag "" eq_refl) as (ps & Hne & HJ & Hall & Hs).
  exists ps. repeat split; try assumption.
  - unfold containsPK, splitTag. rewrite Hs, existsb_exists.
    intros (x & Hin & Hx). apply filter_In in Hin. apply String.eqb_eq in Hx.
    now subst x.
  - intros Hin. unfold containsPK, splitTag. rewrite Hs. apply existsb_exists.
    exists "pk". split; [|reflexivity]. apply filter_In. now split.
Qed.

(** ** Changed properties (entity_entry.go) *)





(** ** The tracker as a map of entries (change_tracker.go) *)

Lemma find_hit {A} (f : A -> bool) l x :
  In x l -> f x = true -> exists y, find f l = Some y.
Proof.
  intros Hin Hx. destruct (find f l) as [y|] eqn:Hf; [now exists y|].
  now rewrite (find_none _ _ Hf x Hin) in Hx.
Qed.

Lemma range_In E site w :
  fair_range E ->
  forall ke, In ke (env_range E site (entries w)) <-> In ke (entries w).
Proof.
  intros Hfair ke. split; apply Permutation_in;
    [apply Hfair | apply Permutation_sym, Hfair].
Qed.

(** The first loop of [GetEntry] finds an entry as soon as one points
    to the entity. *)
Lemma GetEntry_by_pointer E site p w k e :
  fair_range E -> In (k, e) (entries w) -> Entity e = p ->
  exists k' e', GetEntry E site p w = Some (Some (k', e')) /\
                In (k', e') (entries w) /\ Entity e' = p.
Proof.
  intros Hfair Hin He. unfold GetEntry.
  destruct (find_hit (fun ke => Nat.eqb (Entity (snd ke)) p)
              (env_range E site (entries w)) (k, e)) as [[k' e'] Hf].
  - now apply range_In.
  - cbn. now apply Nat.eqb_eq.
  - rewrite Hf. exists k', e'. split; [reflexivity|].
    apply find_some in Hf. destruct Hf as [Hin' Hp].
    split; [now apply (range_In E site w) in Hin'|].
    now apply Nat.eqb_eq in Hp.
Qed.

(** The key [Track], [GetEntry] and [Untrack] make for an entity does
    not depend on the state the entry is created with. *)
Lemma entity_key h p st st' :
  makeKey h p (GetPrimaryKey h (newEntityEntry h p st)) =
  makeKey h p (GetPrimaryKey h (newEntityEntry h p st')).
Proof.
  f_equal. apply GetPrimaryKey_pk.
  - destruct (newEntityEntry_facts h p st) as (-> & _).
    now destruct (newEntityEntry_facts h p st') as (-> & _).
  - apply newEntityEntry_pk.
Qed.

(** X3.  An entity that has just been tracked is found by [GetEntry]
    through its pointer, whatever the order of the map: the entry
    returned points to it; it is the entry [Track] made when no other
    entry pointed to the entity before. *)
Theorem X3_track_then_get_entry :
  forall E site p st w key e w1,
    fair_range E -> tracker_ok w ->
    Track p st w = Some (key, e, w1) ->
    (exists k' e',
       GetEntry E site p w1 = Some (Some (k', e')) /\
       map_get k' (entries w1) = Some e' /\ Entity e' = p) /\
    ((forall k e0, In (k, e0) (entries w) -> Entity e0 = p -> k = key) ->
     GetEntry E site p w1 = Some (Some (key, e))).
Proof.
  intros E site p st w key e w1 Hfair Hok Ht.
  pose proof (Track_ok _ _ _ _ _ _ Ht Hok) as Hok1.
  destruct (Track_facts _ _ _ _ _ _ Ht) as (He & _ & _ & _ & _ & Hes & Hget).
  assert (Hp : Entity e = p)
    by (rewrite He; apply newEntityEntry_facts).
  destruct (GetEntry_by_pointer E site p w1 key e Hfair (map_get_In _ _ _ Hget) Hp)
    as (k' & e' & HG & Hin & Hp').
  split.
  - exists k', e'. split; [exact HG|]. split; [|exact Hp'].
    now apply In_map_get.
  - intros Huniq. rewrite HG. pose proof Hin as Hin1. rewrite Hes in Hin.
    apply In_map_set in Hin. destruct Hin as [Heq|Hin].
    + now inversion Heq.
    + assert (k' = key) by (eapply Huniq; eassumption). subst k'.
      apply (In_map_get _ _ _ Hok1) in Hin1. congruence.
Qed.

(** The patient of the demo is attached and then looked up. *)
Lemma X3_track_then_get_entry_witness :
  exists key e w1,
    Track 1%nat Unchanged milica_world = Some (key, e, w1) /\
    GetEntry (obliging []) site_GetEntry 1%nat w1 = Some (Some (key, e)).
Proof.
  destruct (Track 1%nat Unchanged milica_world) as [[[key e] w1]|] eqn:Ht;
    [|discriminate].
  exists key, e, w1. split; [reflexivity|].
  apply (X3_track_then_get_entry (obliging []) site_GetEntry 1%nat Unchanged
           milica_world key e w1 (obliging_fair []));
    [constructor | exact Ht | intros k e0 []].
Defined.

(** X4.  [Untrack] undoes [Track]: with the entity as it was when it
    was tracked, [Untrack] removes the entry under the key [Track]
    filed it under and leaves every other entry and the entities
    alone; when that key was free before, every lookup answers as it
    did before the entity was tracked. *)
Theorem X4_track_then_untrack :
  forall p st w key e w1,
    Track p st w = Some (key, e, w1) ->
    exists w2,
      Untrack p w1 = Some w2 /\
      heap w2 = heap w /\ conn w2 = conn w /\ trace w2 = trace w /\
      (forall k, map_get k (entries w2) =
                 if String.eqb key k then None else map_get k (entries w)) /\
      (map_get key (entries w) = None ->
       forall k, map_get k (entries w2) = map_get k (entries w)).
Proof.
  intros p st w key e w1 Ht.
  destruct (Track_facts _ _ _ _ _ _ Ht) as (He & Hh & _ & Hc & Htr & Hes & _).
  unfold Track in Ht. unfold Untrack. rewrite Hh.
  rewrite (entity_key (heap w) p Detached st).
  destruct (makeKey (heap w) p _) as [key'|]; [|discriminate].
  assert (key' = key) by congruence. subst key'.
  eexists. split; [reflexivity|]. cbn [heap conn trace entries with_entries].
  assert (Hk : forall k, map_get k (map_delete key (entries w1)) =
                         if String.eqb key k then None else map_get k (entries w)).
  { intros k. rewrite map_get_delete, Hes.
    destruct (String.eqb key k) eqn:Hk; [reflexivity|].
    now rewrite map_get_set, Hk. }
  repeat split; try assumption.
  intros Hfree k. rewrite Hk. destruct (String.eqb key k) eqn:Hkk; [|reflexivity].
  apply String.eqb_eq in Hkk. now subst k.
Qed.

Lemma X4_track_then_untrack_witness :
  exists key e w1 w2,
    Track 1%nat Unchanged milica_world = Some (key, e, w1) /\
    Untrack 1%nat w1 = Some w2 /\
    forall k, map_get k (entries w2) = map_get k (entries milica_world).
Proof.
  destruct (Track 1%nat Unchanged milica_world) as [[[key e] w1]|] eqn:Ht;
    [|discriminate].
  destruct (X4_track_then_untrack 1%nat Unchanged milica_world key e w1 Ht)
    as (w2 & Hu & _ & _ & _ & _ & Hfree).
  exists key, e, w1, w2. split; [reflexivity|]. split; [exact Hu|].
  apply Hfree. reflexivity.
Defined.

Lemma GetEntry_found E site p w k e :
  GetEntry E site p w = Some (Some (k, e)) -> fair_range E ->
  In (k, e) (entries w).
Proof.
  unfold GetEntry. intros H Hfair.
  destruct (find _ _) as [ke|] eqn:Hf.
  - inversion H; subst ke. apply find_some in Hf.
    now apply (range_In E site w).
  - destruct (makeKey _ _ _) as [key|]; [|discriminate].
    destruct (map_get key (entries w)) as [e0|] eqn:Hg; [|discriminate].
    inversion H; subst. now apply map_get_In.
Qed.

(** When [GetEntry] has an answer for an entity in one order of the
    map, it has one in every order. *)
Lemma GetEntry_some E site site' p w ke :
  fair_range E -> GetEntry E site p w = Some (Some ke) ->
  exists ke', GetEntry E site' p w = Some (Some ke').
Proof.
  intros Hfair H. unfold GetEntry in H.
  destruct (find _ (env_range E site (entries w))) as [[k e]|] eqn:Hf.
  - apply find_some in Hf. destruct Hf as [Hin Hp]. cbn in Hp.
    apply Nat.eqb_eq in Hp. apply (range_In E site w Hfair) in Hin.
    destruct (GetEntry_by_pointer E site' p w k e Hfair Hin Hp)
      as (k' & e' & HG & _).
    now exists (k', e').
  - unfold GetEntry.
    destruct (find _ (env_range E site' (entries w))) as [ke'|];
      [now exists ke'|].
    destruct (makeKey _ _ _) as [key|]; [|discriminate].
    destruct (map_get key (entries w)) as [e0|]; [|discriminate].
    now exists (key, e0).
Qed.

(** X5.  [GetOrTrack] never replaces an entry.  The entry it returns
    is in the tracker afterwards; when [GetEntry] had an answer the
    tracker is left as it was, otherwise the entity is tracked under
    a key that was free; and a second [GetOrTrack] for the same
    entity, in whatever state, changes nothing at all.  Which of the
    two it is follows the answer of [GetEntry]: with an answer
    [GetOrTrack] returns that very entry and the world as it was,
    without one it returns the entry [Track] makes. *)
Theorem X5_get_or_track :
  forall E site p st w key e w1,
    fair_range E -> tracker_ok w ->
    GetOrTrack E site p st w = Some (key, e, w1) ->
    map_get key (entries w1) = Some e /\
    (w1 = w \/
     (map_get key (entries w) = None /\
      entries w1 = map_set key e (entries w) /\ Entity e = p /\ State e = st)) /\
    (forall site' st',
      exists key' e', GetOrTrack E site' p st' w1 = Some (key', e', w1)) /\
    match GetEntry E site p w with
    | Some (Some (k0, e0)) => key = k0 /\ e = e0 /\ w1 = w
    | Some None =>
        Track p st w = Some (key, e, w1) /\
        map_get key (entries w) = None /\
        e = newEntityEntry (heap w) p st /\ heap w1 = heap w
    | None => False
    end.
Proof.
  intros E site p st w key e w1 Hfair Hok H. unfold GetOrTrack in H.
  destruct (GetEntry E site p w) as [[[k0 e0]|]|] eqn:HG; [| |discriminate].
  - inversion H; subst k0 e0 w1. clear H.
    split; [apply In_map_get; [exact Hok|now apply (GetEntry_found E site p)]|].
    split; [now left|].
    split; [|auto].
    intros site' st'. unfold GetOrTrack.
    destruct (GetEntry_some E site site' p w _ Hfair HG) as [[k' e'] ->].
    now exists k', e'.
  - destruct (GetEntry_untracked E site p w Hfair HG) as (_ & key0 & Hk0 & Hfree).
    destruct (Track_facts _ _ _ _ _ _ H) as (He & Hh & _ & _ & _ & Hes & Hget).
    assert (key0 = key).
    { unfold Track in H. rewrite (entity_key (heap w) p st Detached), Hk0 in H.
      now inversion H. }
    subst key0.
    split; [exact Hget|].
    split.
    { right. split; [exact Hfree|]. split; [exact Hes|].
      rewrite He. split; apply newEntityEntry_facts. }
    split; [|auto].
    intros site' st'. unfold GetOrTrack.
    assert (Hp : Entity e = p) by (rewrite He; apply newEntityEntry_facts).
    destruct (GetEntry_by_pointer E site' p w1 key e Hfair
                (map_get_In _ _ _ Hget) Hp) as (k' & e' & -> & _).
    now exists k', e'.
Qed.

Lemma X5_get_or_track_witness :
  exists key e w1,
    GetOrTrack (obliging []) site_GetOrTrack 1%nat Unchanged milica_world
      = Some (key, e, w1) /\
    map_get key (entries w1) = Some e /\
    forall site' st',
      exists key' e',
        GetOrTrack (obliging []) site' 1%nat st' w1 = Some (key', e', w1).
Proof.
  destruct (GetOrTrack (obliging []) site_GetOrTrack 1%nat Unchanged milica_world)
    as [[[key e] w1]|] eqn:H; [|discriminate].
  exists key, e, w1. split; [reflexivity|].
  destruct (X5_get_or_track (obliging []) site_GetOrTrack 1%nat Unchanged
              milica_world key e w1 (obliging_fair [])) as (H1 & _ & H2 & _);
    [constructor | exact H | now split].
Defined.

Lemma has_changes_loop_existsb h es :
  has_changes_loop h es = existsb (fun ke => HasChanges h (snd ke)) es.
Proof.
  induction es as [|[k e] es IH]; [reflexivity|].
  cbn [has_changes_loop existsb snd]. rewrite IH.
  unfold HasChanges, GetChangedProperties.
  destruct (State e); cbn; reflexivity.
Qed.

(** X6.  [ChangeTracker.HasChanges] does not depend on the order in
    which the map is walked: it holds exactly when some tracked entry
    has changes, that is, is Added or Deleted, or is Modified or
    Unchanged with a field that differs from its snapshot. *)
Theorem X6_tracker_has_changes :
  forall E site w,
    fair_range E ->
    (HasChanges_all E site w = true <->
     exists k e, In (k, e) (entries w) /\ HasChanges (heap w) e = true).
Proof.
  intros E site w Hfair. unfold HasChanges_all.
  rewrite has_changes_loop_existsb, existsb_exists. split.
  - intros ([k e] & Hin & Hc). exists k, e.
    split; [now apply (range_In E site w Hfair)|exact Hc].
  - intros (k & e & Hin & Hc). exists (k, e).
    split; [now apply (range_In E site w Hfair)|exact Hc].
Qed.

Lemma X6_tracker_has_changes_witness :
  HasChanges_all (obliging []) site_HasChanges dirty_world = true <->
  exists k e, In (k, e) (entries dirty_world) /\
              HasChanges (heap dirty_world) e = true.
Proof.
  apply (X6_tracker_has_changes (obliging []) site_HasChanges dirty_world).
  apply obliging_fair.
Defined.

(** ** The tracker across a flush (db.go) *)

Lemma map_set_same {V} k (v : V) m :
  NoDup (map fst m) -> In (k, v) m -> map_set k v m = m.
Proof.
  induction m as [|[k' v'] m IH]; intros Hnd Hin; [contradiction|].
  cbn [map_set]. inversion Hnd as [|? ? Hk Hnd']; subst.
  destruct Hin as [Heq|Hin].
  - inversion Heq; subst. now rewrite String.eqb_refl.
  - destruct (String.eqb k' k) eqn:Hkk.
    + apply String.eqb_eq in Hkk. subst k'. exfalso. apply Hk.
      now apply (in_map fst) in Hin.
    + now rewrite IH.
Qed.

Lemma DetectChanges_clean h e : HasChanges h e = false -> DetectChanges h e = e.
Proof.
  unfold HasChanges, DetectChanges. destruct (State e); try reflexivity.
  now intros ->.
Qed.

(** Sweeping a map with a function that keeps the entries it meets
    leaves the map as it is. *)
Lemma sweep_same {V} (f : V -> V) (it m : list (string * V)) :
  NoDup (map fst m) -> incl it m -> (forall ke, In ke it -> f (snd ke) = snd ke) ->
  fold_left (fun m ke => map_set (fst ke) (f (snd ke)) m) it m = m.
Proof.
  intros Hnd. induction it as [|[k v] it IH]; intros Hincl Hf; [reflexivity|].
  cbn [fold_left fst snd].
  pose proof (Hf (k, v) (or_introl eq_refl)) as Hv. cbn [snd] in Hv. rewrite Hv.
  rewrite map_set_same; [|exact Hnd|apply Hincl; now left].
  apply IH.
  - intros x Hx. apply Hincl. now right.
  - intros ke Hke. apply Hf. now right.
Qed.

Lemma DetectChanges_all_clean E site w :
  fair_range E -> tracker_ok w ->
  (forall k e, In (k, e) (entries w) -> HasChanges (heap w) e = false) ->
  DetectChanges_all E site w = log w EvDetectChanges.
Proof.
  intros Hfair Hok Hclean. unfold DetectChanges_all.
  rewrite sweep_same; [now destruct w|exact Hok| |].
  - intros ke Hke. now apply (range_In E site w Hfair).
  - intros [k e] Hke. cbn [snd]. apply DetectChanges_clean.
    apply (Hclean k). now apply (range_In E site w Hfair).
Qed.

Lemma filter_none {A} (f : A -> bool) l :
  (forall x, In x l -> f x = false) -> filter f l = [].
Proof.
  induction l as [|a l IH]; intros H; [reflexivity|].
  cbn [filter]. rewrite (H a (or_introl eq_refl)). apply IH.
  intros x Hx. apply H. now right.
Qed.

(** A loop of the flush over entries that have nothing to send: the
    entries are taken up one by one and nothing else happens. *)
Lemma run_entries_idle exec a es : forall w,
  (forall k e x, In (k, e) es -> heap x = heap w -> exec e x = (Ok 0, x)) ->
  run_entries exec a es 0 w =
  (Saved 0,
   {| heap := heap w; next_ptr := next_ptr w; entries := entries w;
      conn := conn w;
      trace := (trace w ++ map (EvProcess a) (map fst es))%list |}).
Proof.
  induction es as [|[k e] es IH]; intros w Hexec.
  - cbn. rewrite app_nil_r. now destruct w.
  - cbn [run_entries].
    rewrite (Hexec k e (log w (EvProcess a k)) (or_introl eq_refl) eq_refl).
    change (add_int 0 0) with 0. rewrite IH.
    + cbn [heap next_ptr entries conn trace log map fst].
      now rewrite <- app_assoc.
    + intros k' e' x Hin Hx. apply (Hexec k' e'); [now right|exact Hx].
Qed.

Lemma run_unchanged_idle E tx es : forall aff w,
  (forall k e, In (k, e) es -> HasChanges (heap w) e = false) ->
  run_unchanged E tx es aff w = (Saved aff, w).
Proof.
  induction es as [|[k e] es IH]; intros aff w H; [reflexivity|].
  cbn [run_unchanged]. rewrite (H k e (or_introl eq_refl)).
  apply IH. intros k' e' Hin. apply (H k' e'). now right.
Qed.

Lemma HasChanges_false h e :
  HasChanges h e = false ->
  State e <> Added /\ State e <> Deleted /\ GetChangedProperties h e = [].
Proof.
  unfold HasChanges. destruct (State e) eqn:Hs; try discriminate;
    intros H; (split; [discriminate|split; [discriminate|]]).
  - unfold GetChangedProperties. now rewrite Hs.
  - destruct (GetChangedProperties h e); [reflexivity|discriminate].
  - destruct (GetChangedProperties h e); [reflexivity|discriminate].
Qed.

(** The four loops on a tracker whose entries have no changes. *)
Lemma flush_statements_idle E tx w :
  fair_range E -> tracker_ok w ->
  (forall k e, In (k, e) (entries w) -> HasChanges (heap w) e = false) ->
  exists ks,
    flush_statements E tx w =
    (Saved 0,
     {| heap := heap w; next_ptr := next_ptr w; entries := entries w;
        conn := conn w;
        trace := (trace w ++ map (EvProcess ActUpdate) ks)%list |}).
Proof.
  intros Hfair Hok Hclean.
  assert (Hno : forall st, st = Deleted \/ st = Added ->
                forall site, EntriesByState E site st w = []).
  { intros st Hst site. unfold EntriesByState. apply filter_none.
    intros [k e] Hin. apply (range_In E site w Hfair) in Hin.
    destruct (HasChanges_false _ _ (Hclean k e Hin)) as (Ha & Hd & _).
    cbn [snd]. destruct Hst as [-> | ->]; destruct (State e); try reflexivity;
      congruence. }
  exists (map fst (EntriesByState E site_Modified Modified w)).
  unfold flush_statements.
  rewrite (Hno Deleted (or_introl eq_refl)). cbn [run_entries and_then].
  rewrite (Hno Added (or_intror eq_refl)). cbn [run_entries and_then].
  rewrite run_entries_idle.
  - cbn [and_then]. rewrite run_unchanged_idle; [reflexivity|].
    intros k e Hin. cbn [heap].
    unfold EntriesByState in Hin. cbn [entries] in Hin.
    apply filter_In in Hin. destruct Hin as [Hin _].
    apply (range_In E _ w Hfair) in Hin. now apply (Hclean k).
  - intros k e x Hin Hx. apply executeUpdate_clean. rewrite Hx.
    apply filter_In in Hin. destruct Hin as [Hin _].
    apply (range_In E _ w Hfair) in Hin.
    now apply (HasChanges_false _ _ (Hclean k e Hin)).
Qed.

Lemma tx_get_set h p txs : tx_get h (tx_set h p txs) = Some p.
Proof.
  induction txs as [|[h' p'] txs IH]; cbn.
  - now rewrite Nat.eqb_refl.
  - destruct (Nat.eqb h' h) eqn:Hh; cbn; [now rewrite Nat.eqb_refl|].
    now rewrite Hh.
Qed.

Lemma no_statement_app evs evs' :
  forallb (fun ev => negb (statement_event ev)) evs = true ->
  forallb (fun ev => negb (statement_event ev)) evs' = true ->
  forallb (fun ev => negb (statement_event ev)) (evs ++ evs') = true.
Proof. intros H H'. now rewrite forallb_app, H, H'. Qed.

Lemma no_statement_process a ks :
  forallb (fun ev => negb (statement_event ev)) (map (EvProcess a) ks) = true.
Proof. induction ks; [reflexivity|exact IHks]. Qed.

(** A flush of a tracker whose entries have no changes. *)
Lemma clean_flush E tx w r w' :
  fair_range E -> tracker_ok w ->
  (forall k e, In (k, e) (entries w) -> HasChanges (heap w) e = false) ->
  SaveChangesContext E tx w = (r, w') ->
  heap w' = heap w /\ durable (conn w') = durable (conn w) /\
  (exists evs, trace w' = (trace w ++ evs)%list /\
               forallb (fun ev => negb (statement_event ev)) evs = true) /\
  (r = Saved 0 \/ r = Aborted 0 BeginFailed \/ r = Aborted 0 CommitFailed).
Proof.
  intros Hfair Hok Hclean H. unfold SaveChangesContext in H.
  rewrite (DetectChanges_all_clean E _ w Hfair Hok Hclean) in H.
  destruct tx as [h|].
  - destruct (flush_statements_idle E h (log w EvDetectChanges) Hfair Hok Hclean)
      as [ks Hf].
    rewrite Hf in H. inversion H; subst r w'. clear H Hf.
    cbn [AcceptAllChanges heap conn trace log with_entries entries].
    repeat split; [|now left].
    exists (EvDetectChanges :: map (EvProcess ActUpdate) ks ++ [EvAcceptAllChanges])%list.
    split; [now rewrite <- !app_assoc|].
    cbn [forallb statement_event negb andb].
    apply no_statement_app; [apply no_statement_process|reflexivity].
  - unfold conn_begin in H. cbn [conn log] in H.
    destruct (env_begin E (conn w)).
    + set (wb := log (with_conn (log w EvDetectChanges) _) (EvBegin true)) in H.
      destruct (flush_statements_idle E (next_tx (conn w)) wb Hfair Hok Hclean)
        as [ks Hf].
      rewrite Hf in H. clear Hf. unfold tx_commit in H.
      cbn [conn heap trace entries next_ptr open_txs wb log with_conn] in H.
      rewrite tx_get_set in H.
      destruct (env_commit E _); inversion H; subst r w'; clear H.
      * cbn [AcceptAllChanges heap conn trace log with_entries entries with_conn
               durable].
        split; [reflexivity|]. split; [now rewrite app_nil_r|].
        split; [|now left].
        exists ([EvDetectChanges; EvBegin true] ++ map (EvProcess ActUpdate) ks
                ++ [EvCommit (next_tx (conn w)) true; EvAcceptAllChanges])%list.
        split; [now rewrite <- !app_assoc|].
        apply no_statement_app; [reflexivity|].
        apply no_statement_app; [apply no_statement_process|reflexivity].
      * cbn [deferred tx_rollback heap conn trace log with_conn durable].
        split; [reflexivity|]. split; [reflexivity|].
        split; [|now right; right].
        exists ([EvDetectChanges; EvBegin true] ++ map (EvProcess ActUpdate) ks
                ++ [EvCommit (next_tx (conn w)) false;
                    EvRollback (next_tx (conn w))])%list.
        split; [now rewrite <- !app_assoc|].
        apply no_statement_app; [reflexivity|].
        apply no_statement_app; [apply no_statement_process|reflexivity].
    + inversion H; subst r w'. cbn [heap conn trace log].
      repeat split; [|now right; left].
      exists [EvDetectChanges; EvBegin false]. split; [|reflexivity].
      now rewrite <- app_assoc.
Qed.

Lemma DetectChanges_facts h e :
  Entity (DetectChanges h e) = Entity e /\
  entityType (DetectChanges h e) = entityType e /\
  OriginalValues (DetectChanges h e) = OriginalValues e /\
  (State (DetectChanges h e) = Deleted <-> State e = Deleted).
Proof.
  unfold DetectChanges. destruct (State e) eqn:Hs;
    try (rewrite Hs; repeat split; intros; congruence).
  destruct (Nat.ltb _ _); cbn; rewrite ?Hs; repeat split; intros; congruence.
Qed.

Lemma accept_keys h (it m : list (string * EntityEntry)) :
  NoDup (map fst m) ->
  NoDup (map fst
    (fold_left
       (fun m ke =>
          if EntityState_eqb (State (snd ke)) Deleted
          then map_delete (fst ke) m
          else map_set (fst ke) (AcceptChanges h (snd ke)) m) it m)).
Proof.
  revert m. induction it as [|ke it IH]; intros m Hnd; [exact Hnd|].
  cbn [fold_left]. apply IH.
  destruct (EntityState_eqb _ _);
    [now apply map_delete_NoDup | now apply map_set_NoDup].
Qed.

Lemma AcceptAllChanges_ok E site w :
  tracker_ok w -> tracker_ok (AcceptAllChanges E site w).
Proof. intros Hok. unfold tracker_ok, AcceptAllChanges. cbn. now apply accept_keys. Qed.

(** Where a flush that succeeded leaves the tracker and the types of
    the entities. *)
Lemma flush_success_state E tx w n w' :
  fair_range E -> tracker_ok w ->
  SaveChangesContext E tx w = (Saved n, w') ->
  tracker_ok w' /\
  (forall q, type_of (heap w' q) = type_of (heap w q)) /\
  forall key,
    map_get key (entries w') =
    match map_get key (entries w) with
    | Some e =>
        if EntityState_eqb (State e) Deleted then None
        else Some (AcceptChanges (heap w') (DetectChanges (heap w) e))
    | None => None
    end.
Proof.
  intros Hfair Hok H.
  pose proof (DetectChanges_all_ok E w Hfair Hok) as Hokd.
  pose proof (fun k => DetectChanges_all_get E site_DetectChanges w k Hfair Hok) as Hgd.
  destruct (SaveChangesContext_inv _ _ _ _ _ H) as [(_ & Hr & _)|Hcase];
    [discriminate|].
  destruct Hcase as (h & ownTx & wb & rf & wf & Hb & Hf & Hend).
  destruct (SaveChangesContext_trace E tx w (Saved n) w' h ownTx wb rf wf Hb Hend)
    as ((Hhb & Heb & _) & (Hhw & _) & _).
  destruct (flush_statements_spec _ _ _ _ _ Hf) as ((Hes & Hty & _) & _).
  assert (Hokf : tracker_ok wf) by (unfold tracker_ok; now rewrite Hes, Heb).
  assert (Hacc : exists wa, w' = AcceptAllChanges E site_AcceptAllChanges wa /\
                            heap wa = heap wf /\ entries wa = entries wf).
  { destruct Hend as [(m & _ & _ & _ & ->)
                     |[(m & wc & _ & _ & Hc & _ & ->)
                     |[(m & wc & _ & _ & _ & Hr & _)
                     |(Hns & <- & _)]]].
    - now exists wf.
    - apply tx_commit_facts in Hc as (Hh & He & _). now exists wc.
    - discriminate.
    - now destruct (Hns n). }
  destruct Hacc as (wa & -> & Hha & Hea).
  assert (Hoka : tracker_ok wa) by (unfold tracker_ok; now rewrite Hea).
  split; [now apply AcceptAllChanges_ok|].
  split.
  - intros q. cbn [AcceptAllChanges heap log with_entries].
    now rewrite Hha, Hty, Hhb.
  - intros key. rewrite (AcceptAllChanges_get E _ wa key Hfair Hoka).
    rewrite Hea, Hes, Heb. fold (DetectChanges_all E site_DetectChanges w).
    rewrite Hgd. cbn [AcceptAllChanges heap log with_entries].
    destruct (map_get key (entries w)) as [e|]; [|reflexivity].
    cbn [option_map].
    destruct (DetectChanges_facts (heap w) e) as (_ & _ & _ & Hdel).
    destruct (State e) eqn:Hs, (State (DetectChanges (heap w) e)) eqn:Hs';
      cbn [EntityState_eqb]; try reflexivity;
      try (destruct Hdel as [Hd1 Hd2]; first [now discriminate Hd1 | now discriminate Hd2]).
Qed.





(** X8.  A flush that does not succeed accepts nothing: whatever
    failed, the tracker is left as [DetectChanges] left it, every
    entry under its key and in the state it had (an Unchanged entry
    with changes is Modified), with the snapshot it had. *)
Theorem X8_failed_flush_keeps_tracker :
  forall E tx w r w',
    fair_range E -> tracker_ok w ->
    SaveChangesContext E tx w = (r, w') ->
    (forall n, r <> Saved n) ->
    forall key,
      map_get key (entries w') =
      option_map (DetectChanges (heap w)) (map_get key (entries w)).
Proof.
  intros E tx w r w' Hfair Hok H Hr key.
  rewrite <- (DetectChanges_all_get E site_DetectChanges w key Hfair Hok).
  destruct (SaveChangesContext_inv _ _ _ _ _ H) as [(_ & _ & ->)|Hcase];
    [reflexivity|].
  destruct Hcase as (h & ownTx & wb & rf & wf & Hb & Hf & Hend).
  destruct (SaveChangesContext_trace E tx w r w' h ownTx wb rf wf Hb Hend)
    as ((_ & Heb & _) & _ & _).
  destruct (flush_statements_spec _ _ _ _ _ Hf) as ((Hes & _) & _).
  f_equal. rewrite <- Heb, <- Hes.
  destruct Hend as [(m & _ & _ & -> & _)
                   |[(m & wc & _ & _ & _ & -> & _)
                   |[(m & wc & _ & _ & Hc & _ & ->)
                   |(_ & _ & ->)]]].
  - now destruct (Hr m).
  - now destruct (Hr m).
  - apply tx_commit_facts in Hc as (_ & He & _). exact He.
  - now destruct ownTx.
Qed.

Lemma X8_failed_flush_keeps_tracker_witness :
  exists w',
    SaveChangesContext refusing_updates None pending_world
      = (Aborted 1 UpdateFailed, w') /\
    forall key,
      map_get key (entries w') =
      option_map (DetectChanges (heap pending_world))
                 (map_get key (entries pending_world)).
Proof.
  exists (snd (SaveChangesContext refusing_updates None pending_world)).
  assert (Hs : SaveChangesContext refusing_updates None pending_world
               = (Aborted 1 UpdateFailed,
                  snd (SaveChangesContext refusing_updates None pending_world)))
    by (vm_compute; reflexivity).
  split; [exact Hs|].
  apply (X8_failed_flush_keeps_tracker refusing_updates None pending_world _ _
           refusing_updates_fair pending_world_ok Hs).
  discriminate.
Defined.

Lemma has_changes_none E site w :
  fair_range E -> HasChanges_all E site w = false ->
  forall k e, In (k, e) (entries w) -> HasChanges (heap w) e = false.
Proof.
  intros Hfair H k e Hin. unfold HasChanges_all in H.
  rewrite has_changes_loop_existsb in H.
  destruct (HasChanges (heap w) e) eqn:Hc; [|reflexivity].
  assert (Hex : existsb (fun ke => HasChanges (heap w) (snd ke))
                        (env_range E site (entries w)) = true).
  { apply existsb_exists. exists (k, e).
    split; [now apply (range_In E site w Hfair)|exact Hc]. }
  congruence.
Qed.

(** X9.  When [ChangeTracker.HasChanges] answers no, a flush sends no
    statement to the database: the entities and what is durable stay
    as they are, and the flush returns zero rows (with the error of
    [Begin] or [Commit] when one of them fails). *)
Theorem X9_nothing_to_flush :
  forall E site tx w r w',
    fair_range E -> tracker_ok w ->
    HasChanges_all E site w = false ->
    SaveChangesContext E tx w = (r, w') ->
    heap w' = heap w /\ durable (conn w') = durable (conn w) /\
    (exists evs, trace w' = (trace w ++ evs)%list /\
                 forallb (fun ev => negb (statement_event ev)) evs = true) /\
    (r = Saved 0 \/ r = Aborted 0 BeginFailed \/ r = Aborted 0 CommitFailed).
Proof.
  intros E site tx w r w' Hfair Hok Hno H.
  apply (clean_flush E tx w r w' Hfair Hok); [|exact H].
  now apply (has_changes_none E site).
Qed.

Lemma X9_nothing_to_flush_witness :
  exists w',
    SaveChangesContext (obliging []) None (tracked 1%nat Unchanged milica_world)
      = (Saved 0, w') /\
    durable (conn w') = [] /\
    exists evs,
      trace w' = evs /\
      forallb (fun ev => negb (statement_event ev)) evs = true.
Proof.
  pose (w' := snd (SaveChangesContext (obliging []) None
                     (tracked 1%nat Unchanged milica_world))).
  assert (Hs : SaveChangesContext (obliging []) None
                 (tracked 1%nat Unchanged milica_world) = (Saved 0, w'))
    by (vm_compute; reflexivity).
  destruct (X9_nothing_to_flush (obliging []) site_HasChanges None
              (tracked 1%nat Unchanged milica_world) (Saved 0) w' (obliging_fair []))
    as (_ & Hd & (evs & Ht & Hn) & _);
    [repeat constructor; intros [] | reflexivity | exact Hs |].
  exists w'. split; [exact Hs|]. split; [exact Hd|].
  exists evs. split; [exact Ht|exact Hn].
Defined.



(** ** The key column (db.go, query.go, entity_entry.go) *)

Lemma containsPK_nonempty tag : containsPK tag = true -> tag <> "".
Proof. intros H ->. discriminate. Qed.

Lemma first_pk_spec fs v : forall i,
  match first_pk fs v i with
  | Some (nm, _) =>
      exists f, In f fs /\ containsPK (Tag f) = true /\ nm = Name f /\
                first_pk_column fs = Some (before_comma (Tag f))
  | None => first_pk_column fs = None
  end.
Proof.
  induction fs as [|f fs IH]; intros i; [reflexivity|].
  cbn [first_pk first_pk_column].
  destruct (containsPK (Tag f)) eqn:Hpk.
  - exists f. repeat split; [now left|exact Hpk].
  - specialize (IH (S i)). destruct (first_pk fs v (S i)) as [[nm x]|].
    + destruct IH as (g & Hin & Hg & Hn & Hc). exists g.
      repeat split; try assumption. now right.
    + exact IH.
Qed.

Lemma In_field_index t f :
  In f (Fields t) -> exists j, (j < NumField t)%nat /\ TypeField t j = f.
Proof.
  intros Hin. apply (In_nth _ _ no_field) in Hin.
  destruct Hin as (j & Hj & Hn). now exists j.
Qed.

(** X11.  [Find] looks a key up in the column that UPDATE, DELETE and
    the RETURNING clause of INSERT name: for an entry with a key
    field, [getPKColumnName] on that field and [getPKColumnFromType]
    give the same column.  An entry without a key field is the
    exception: the statements of the flush name the empty column
    while [Find] falls back on [id]. *)
Theorem X11_key_column_agreement :
  forall h p st,
    let t := type_of (h p) in
    let e := newEntityEntry h p st in
    type_ok t -> named_fields t ->
    (pkField e <> "" -> getPKColumnName t (pkField e) = getPKColumnFromType t) /\
    (pkField e = "" ->
     getPKColumnName t (pkField e) = "" /\ getPKColumnFromType t = "id").
Proof.
  intros h p st t e Hok Hnamed.
  assert (Hpk : pkField e =
                pkField (captureMetadata h
                  {| Entity := p; State := st; OriginalValues := [];
                     entityType := {| TypeName := ""; Fields := [] |};
                     pkField := ""; pkValue := VNil |})).
  { unfold e, newEntityEntry.
    destruct st; try reflexivity;
      now destruct (captureOriginalValues_facts h
                      (captureMetadata h
                         {| Entity := p; State := Unchanged; OriginalValues := [];
                            entityType := {| TypeName := ""; Fields := [] |};
                            pkField := ""; pkValue := VNil |})) as (_ & _ & _ & ->)
      || now destruct (captureOriginalValues_facts h
                      (captureMetadata h
                         {| Entity := p; State := Modified; OriginalValues := [];
                            entityType := {| TypeName := ""; Fields := [] |};
                            pkField := ""; pkValue := VNil |})) as (_ & _ & _ & ->). }
  rewrite Hpk. clear Hpk. unfold captureMetadata. cbn [Entity pkField pkValue].
  fold t. unfold getPKColumnFromType.
  pose proof (first_pk_spec (Fields t) (h p) 0) as Hf.
  assert (Hnoname : FieldByName t "" = None).
  { destruct (FieldByName t "") as [i|] eqn:Hi; [|reflexivity].
    apply FieldByName_spec in Hi. destruct Hi as [Hi Hn].
    exfalso. unfold named_fields in Hnamed. rewrite Forall_forall in Hnamed.
    apply (Hnamed (TypeField t i)); [|exact Hn].
    apply nth_In. exact Hi. }
  destruct (first_pk (Fields t) (h p) 0) as [[nm x]|].
  - destruct Hf as (f & Hin & Hc & -> & Hcol).
    assert (Hne : Name f <> "").
    { unfold named_fields in Hnamed. rewrite Forall_forall in Hnamed.
      now apply Hnamed. }
    pose proof Hne as Hneb. apply String.eqb_neq in Hneb.
    rewrite Hneb. cbn [pkField]. rewrite Hcol.
    split; [|intros; contradiction].
    intros _. unfold getPKColumnName.
    destruct (In_field_index t f Hin) as (j & Hj & Hfj).
    destruct (FieldByName t (Name f)) as [i|] eqn:Hi.
    + apply FieldByName_spec in Hi. destruct Hi as [Hi Hn].
      assert (i = j) by (apply (field_name_inj t); try assumption; now rewrite Hfj).
      subst i. rewrite Hfj.
      pose proof (containsPK_nonempty _ Hc) as Ht. apply String.eqb_neq in Ht.
      now rewrite Ht.
    + exfalso. unfold FieldByName in Hi.
      assert (Hall : forall fs k, index_of_name fs (Name f) k = None -> ~ In f fs).
      { induction fs as [|g fs IH]; intros k Hk; [now intros []|].
        cbn in Hk. destruct (String.eqb (Name g) (Name f)) eqn:Hg; [discriminate|].
        intros [->|Hin']; [now rewrite String.eqb_refl in Hg|].
        now apply (IH (S k)). }
      now apply (Hall _ _ Hi).
  - cbn [String.eqb]. rewrite Hf.
    destruct (FieldByName t "ID") as [i|] eqn:Hid.
    + cbn [pkField]. pose proof (FieldByName_spec _ _ _ Hid) as [Hi Hn].
      rewrite Hn. split; [|discriminate].
      intros _. unfold getPKColumnName. rewrite Hid.
      now destruct (String.eqb (Tag (TypeField t i)) "").
    + cbn [pkField]. split; [intros; contradiction|].
      intros _. unfold getPKColumnName. now rewrite Hnoname.
Qed.

Lemma Patient_named : named_fields Patient.
Proof. repeat constructor; discriminate. Qed.

(** The patients of the demo, and a type with no field at all. *)
Lemma X11_key_column_agreement_witness :
  getPKColumnName Patient "ID" = getPKColumnFromType Patient /\
  getPKColumnName (type_of no_struct) "" = "" /\
  getPKColumnFromType (type_of no_struct) = "id".
Proof.
  split.
  - destruct (X11_key_column_agreement (heap milica_world) 1%nat Unchanged
                Patient_ok Patient_named) as [H _].
    apply H. discriminate.
  - destruct (X11_key_column_agreement (heap empty_world) 0%nat Unchanged)
      as [_ H]; [constructor | constructor |].
    now apply H.
Defined.

(** ** The statements of the flush (db.go) *)

Lemma iota_snoc idx n : (iota idx n ++ [idx + Z.of_nat n])%list = iota idx (S n).
Proof.
  replace (S n) with (n + 1)%nat by lia. rewrite iota_app. reflexivity.
Qed.

Lemma Forall2_snoc {A B} (R : A -> B -> Prop) l l' x y :
  Forall2 R l l' -> R x y -> Forall2 R (l ++ [x]) (l' ++ [y]).
Proof. intros H Hxy. apply Forall2_app; [exact H|]. now constructor. Qed.

Lemma concat_snoc {A} (ls : list (list A)) l :
  List.concat (ls ++ [l]) = (List.concat ls ++ l)%list.
Proof. rewrite concat_app. cbn. now rewrite app_nil_r. Qed.

Lemma emits_assignment col idx :
  dollar_free col = true -> 0 <= idx ->
  emits (col ++ " = $" ++ fmt_d idx) [idx].
Proof.
  intros Hc Hi.
  change (col ++ " = $" ++ fmt_d idx) with (col ++ " = " ++ "$" ++ fmt_d idx).
  apply emits_lit_l; [exact Hc|].
  apply (emits_lit_l " = "); [reflexivity|]. now apply emits_placeholder.
Qed.

(** The loop of [executeUpdate]: one SET clause and one argument for
    each column whose field is among the changed ones, numbered from
    the running index. *)
Lemma update_loop_spec e v changed cols : forall i sc vs idx,
  forallb dollar_free cols = true -> 0 <= idx ->
  idx + len cols <= max_int ->
  exists sc' phss,
    update_loop e v changed cols i (sc, vs, idx) =
      ((sc ++ sc')%list,
       (vs ++ map (Field v) (filter (is_changed e changed)
                               (seq i (List.length cols))))%list,
       idx + len (filter (is_changed e changed) (seq i (List.length cols)))) /\
    Forall2 emits sc' phss /\
    List.concat phss =
      iota idx (List.length (filter (is_changed e changed)
                               (seq i (List.length cols)))).
Proof.
  unfold len.
  induction cols as [|col cols IH]; intros i sc vs idx Hfree Hidx Hb.
  - exists [], []. cbn. rewrite !app_nil_r, Z.add_0_r.
    repeat split. constructor.
  - cbn [forallb] in Hfree. apply andb_true_iff in Hfree as [Hcol Hfree].
    cbn [List.length] in Hb.
    cbn [update_loop List.length seq filter].
    destruct (is_changed e changed i) eqn:Hch; unfold is_changed in Hch;
      destruct (map_get (Name (TypeField (entityType e) i)) changed) as [x|];
      try discriminate.
    + rewrite add_int_small by (unfold min_int, max_int in *; lia).
      destruct (IH (S i) (sc ++ [(col ++ " = $" ++ fmt_d idx)%string])%list
                  (vs ++ [Field v i])%list (idx + 1) Hfree) as (sc' & phss & Hl & Hf & Hc);
        [lia|lia|].
      exists ((col ++ " = $" ++ fmt_d idx) :: sc'), ([idx] :: phss).
      rewrite Hl. cbn [map List.length]. rewrite <- !app_assoc. cbn [app].
      split; [f_equal; lia|].
      split; [constructor; [now apply emits_assignment|exact Hf]|].
      cbn [List.concat app iota]. now rewrite Hc.
    + destruct (IH (S i) sc vs idx Hfree) as (sc' & phss & Hl & Hf & Hc);
        [lia|lia|].
      exists sc', phss. now rewrite Hl.
Qed.

Lemma model_columns_le fs :
  (List.length (model_columns fs) <= List.length fs)%nat.
Proof.
  induction fs as [|f fs IH]; [constructor|]. cbn [model_columns List.length].
  destruct (String.eqb (Tag f) "-"); [lia|].
  destruct (String.eqb (Tag f) ""); cbn [List.length]; lia.
Qed.

Lemma where_key_sep pkc :
  dollar_free pkc = true -> plain_sep (" WHERE " ++ pkc ++ " = ").
Proof.
  intros H. split; [|intros; reflexivity].
  change (" WHERE " ++ pkc ++ " = ") with (" WHERE " ++ (pkc ++ " = ")).
  rewrite dollar_free_app, dollar_free_app, H. reflexivity.
Qed.

(** What [executeUpdate] sends: nothing when no property changed;
    otherwise one UPDATE on the transaction, whose arguments are the
    present values of the changed fields, in the order of the fields,
    and then the key. *)
Lemma executeUpdate_stmt E tx e w r w' :
  sql_safe (type_of (heap w (Entity e))) (pkField e) ->
  executeUpdate E tx e w = (r, w') ->
  (GetChangedProperties (heap w) e = [] /\ r = Ok 0 /\ w' = w) \/
  (GetChangedProperties (heap w) e <> [] /\
   exists s n,
     trace w' = (trace w ++ [EvTxExec tx (Entity e) s n])%list /\
     aligned s /\
     args s =
       (map (Field (heap w (Entity e)))
          (filter (is_changed e (GetChangedProperties (heap w) e))
             (seq 0 (List.length
                       (Columns (ParseModel (type_of (heap w (Entity e))))))))
        ++ [GetPrimaryKey (heap w) e])%list /\
     r = match n with Some k => Ok k | None => Error UpdateFailed end).
Proof.
  intros (Ht & Hcols & Hpk & Hn) H. unfold executeUpdate in H.
  remember (GetChangedProperties (heap w) e) as changed eqn:Hch.
  set (v := heap w (Entity e)) in *.
  set (t := type_of v) in *.
  destruct (Z.eqb (len changed) 0) eqn:Hz.
  { left. apply Z.eqb_eq in Hz. unfold len in Hz.
    destruct changed; [now inversion H|cbn in Hz; lia]. }
  right. split; [now intros ->|].
  assert (Hb : 1 + len (Columns (ParseModel t)) <= max_int).
  { unfold len. cbn [Columns ParseModel].
    pose proof (model_columns_le (Fields t)). unfold NumField in Hn. lia. }
  destruct (update_loop_spec e v changed (Columns (ParseModel t)) 0 [] [] 1
              Hcols ltac:(lia) Hb) as (sc & phss & Hl & Hf & Hc).
  rewrite Hl in H. cbn [app] in H.
  set (ix := filter (is_changed e changed)
               (seq 0 (List.length (Columns (ParseModel t))))) in *.
  set (s := {| sql := "UPDATE " ++ Table (ParseModel t) ++ " SET "
                      ++ Join sc ", " ++ " WHERE "
                      ++ getPKColumnName t (pkField e) ++ " = $"
                      ++ fmt_d (1 + len ix);
               args := (map (Field v) ix ++ [GetPrimaryKey (heap w) e])%list |}) in *.
  destruct (tx_exec E tx (Entity e) s w) as [n wx] eqn:Hx.
  apply tx_exec_facts in Hx. destruct Hx as (_ & _ & _ & Htr).
  exists s, n. 
  assert (Hw : wx = w' /\ r = match n with Some k => Ok k | None => Error UpdateFailed end)
    by (destruct n; inversion H; auto).
  destruct Hw as [<- ->].
  split; [exact Htr|]. split; [|split; reflexivity].
  unfold aligned. apply emits_text. cbn [sql args s].
  rewrite length_app, length_map. cbn [List.length].
  replace (List.length ix + 1)%nat with (S (List.length ix)) by lia.
  rewrite <- iota_snoc.
  apply (emits_lit_l "UPDATE "); [reflexivity|].
  apply emits_lit_l; [exact Ht|].
  apply (emits_lit_l " SET "); [reflexivity|].
  replace (" WHERE " ++ getPKColumnName t (pkField e) ++ " = $" ++ fmt_d (1 + len ix))
    with ((" WHERE " ++ getPKColumnName t (pkField e) ++ " = ")
          ++ "$" ++ fmt_d (1 + len ix))
    by (cbn; now rewrite append_assoc).
  apply emits_sep.
  - now apply where_key_sep.
  - rewrite <- Hc. apply emits_Join; [plain|exact Hf].
  - unfold len. apply emits_placeholder. lia.
Qed.

Lemma numbered_emits a n :
  exists phss,
    Forall2 emits (numbered a n) phss /\
    List.concat phss = iota (Z.of_nat a + 1) n.
Proof.
  unfold numbered. change 1 with (Z.of_nat 1). generalize 1%nat as s.
  induction n as [|n IH]; intros s.
  - exists []. split; [constructor|reflexivity].
  - destruct (IH (S s)) as (phss & Hf & Hc).
    exists ([Z.of_nat (a + s)] :: phss). cbn [seq map List.concat app iota]. split.
    + constructor; [apply emits_placeholder; lia|exact Hf].
    + rewrite Hc. f_equal; [lia|]. f_equal. lia.
Qed.

(** The loop of [executeInsert]: as many columns as values, and the
    placeholders number the values from 1. *)
Lemma insert_loop_shape e v columns : forall i cs vs phs cs' vs' phs',
  forallb dollar_free columns = true ->
  insert_loop e v columns i (cs, vs, phs) = Some (cs', vs', phs') ->
  exists cs2 vs2,
    cs' = (cs ++ cs2)%list /\ vs' = (vs ++ vs2)%list /\
    phs' = (phs ++ numbered (List.length vs) (List.length vs2))%list /\
    List.length cs2 = List.length vs2 /\
    (List.length vs2 <= List.length columns)%nat /\
    forallb dollar_free cs2 = true.
Proof.
  induction columns as [|col rest IH]; intros i cs vs phs cs' vs' phs' Hfree H.
  - cbn in H. inversion H; subst. exists [], []. cbn.
    rewrite !app_nil_r. repeat split. constructor.
  - cbn [forallb] in Hfree. apply andb_true_iff in Hfree as [Hcol Hfree].
    cbn [insert_loop] in H.
    assert (Htaken :
      insert_loop e v rest (S i)
        ((cs ++ [col])%list, (vs ++ [Field v i])%list,
         (phs ++ [("$" ++ fmt_d (len (vs ++ [Field v i])%list))%string])%list)
      = Some (cs', vs', phs') ->
      exists cs2 vs2,
        cs' = (cs ++ cs2)%list /\ vs' = (vs ++ vs2)%list /\
        phs' = (phs ++ numbered (List.length vs) (List.length vs2))%list /\
        List.length cs2 = List.length vs2 /\
        (List.length vs2 <= S (List.length rest))%nat /\
        forallb dollar_free cs2 = true).
    { intros Ht. destruct (IH _ _ _ _ _ _ _ Hfree Ht)
        as (cs2 & vs2 & -> & -> & -> & Hl & Hle & Hf).
      exists (col :: cs2), (Field v i :: vs2).
      rewrite <- !app_assoc. cbn [app List.length forallb].
      repeat split; try lia; [|now rewrite Hcol].
      f_equal. replace (S (List.length vs2)) with (1 + List.length vs2)%nat by lia.
      rewrite numbered_app.
      change (numbered (List.length vs) 1)
        with [("$" ++ fmt_d (Z.of_nat (List.length vs + 1)))%string].
      cbn [app]. unfold len. rewrite length_app. cbn [List.length]. reflexivity. }
    assert (Hskip :
      insert_loop e v rest (S i) (cs, vs, phs) = Some (cs', vs', phs') ->
      exists cs2 vs2,
        cs' = (cs ++ cs2)%list /\ vs' = (vs ++ vs2)%list /\
        phs' = (phs ++ numbered (List.length vs) (List.length vs2))%list /\
        List.length cs2 = List.length vs2 /\
        (List.length vs2 <= S (List.length rest))%nat /\
        forallb dollar_free cs2 = true).
    { intros Ht. destruct (IH _ _ _ _ _ _ _ Hfree Ht)
        as (cs2 & vs2 & -> & -> & -> & Hl & Hle & Hf).
      exists cs2, vs2. repeat split; try assumption. lia. }
    cbn [List.length].
    destruct (negb (String.eqb (pkField e) "")
              && String.eqb (Name (TypeField (entityType e) i)) (pkField e))%bool.
    + destruct (isZeroValue (Field v i)) as [[|]|]; [auto|auto|discriminate].
    + auto.
Qed.

Lemma returning_sep pkc :
  dollar_free pkc = true -> plain_sep (" RETURNING " ++ pkc).
Proof.
  intros H. split; [|intros; reflexivity].
  rewrite dollar_free_app, H. reflexivity.
Qed.

Lemma insert_text_emits T cols n :
  dollar_free T = true -> forallb dollar_free cols = true ->
  emits ("INSERT INTO " ++ T ++ " (" ++ Join cols ", " ++ ") VALUES ("
         ++ Join (numbered 0 n) ", " ++ ")")
        (iota 1 n).
Proof.
  intros HT Hc.
  apply (emits_lit_l "INSERT INTO "); [reflexivity|].
  apply emits_lit_l; [exact HT|].
  apply (emits_lit_l " ("); [reflexivity|].
  apply emits_lit_l; [now apply dollar_free_Join|].
  apply (emits_lit_l ") VALUES ("); [reflexivity|].
  apply emits_lit_r; [plain|].
  destruct (numbered_emits 0 n) as (phss & Hf & Hcc).
  change (Z.of_nat 0 + 1) with 1 in Hcc. rewrite <- Hcc.
  apply emits_Join; [plain|exact Hf].
Qed.

(** What [executeInsert] sends: one INSERT, on the connection with a
    RETURNING clause when the entry has a key field with a column,
    on the transaction otherwise. *)
Lemma executeInsert_stmt E tx e w r w' :
  sql_safe (type_of (heap w (Entity e))) (pkField e) ->
  executeInsert E tx e w = (r, w') ->
  (r = Panic /\ w' = w) \/
  exists s,
    aligned s /\
    (List.length (args s)
     <= List.length (Columns (ParseModel (type_of (heap w (Entity e))))))%nat /\
    ((pkField e <> "" /\
      getPKColumnName (type_of (heap w (Entity e))) (pkField e) <> "" /\
      exists x, trace w' = (trace w ++ [EvConnQueryRow (Entity e) s x])%list) \/
     ((pkField e = "" \/
       getPKColumnName (type_of (heap w (Entity e))) (pkField e) = "") /\
      exists n, trace w' = (trace w ++ [EvTxExec tx (Entity e) s n])%list)).
Proof.
  intros (Ht & Hcols & Hpk & Hn) H. unfold executeInsert in H.
  set (v := heap w (Entity e)) in *. set (t := type_of v) in *.
  destruct (insert_loop e v (Columns (ParseModel t)) 0 ([], [], []))
    as [[[cs vs] phs]|] eqn:Hl; [|left; now inversion H].
  right.
  destruct (insert_loop_shape _ _ _ _ _ _ _ _ _ _ Hcols Hl)
    as (cs2 & vs2 & -> & -> & -> & Hlen & Hle & Hfree).
  cbn [app List.length] in *.
  pose proof (insert_text_emits (Table (ParseModel t)) cs2 (List.length vs2)
                Ht Hfree) as Hem.
  set (query := "INSERT INTO " ++ Table (ParseModel t) ++ " (" ++ Join cs2 ", "
                ++ ") VALUES (" ++ Join (numbered 0 (List.length vs2)) ", "
                ++ ")") in *.
  destruct (negb (String.eqb (pkField e) "")
            && negb (String.eqb (getPKColumnName t (pkField e)) ""))%bool eqn:Hret.
  - apply andb_true_iff in Hret as [H1 H2].
    apply negb_true_iff in H1, H2. apply String.eqb_neq in H1, H2.
    set (s := {| sql := query ++ " RETURNING " ++ getPKColumnName t (pkField e);
                 args := vs2 |}) in *.
    exists s. split; [|split; [exact Hle|left; split; [exact H1|split; [exact H2|]]]].
    + unfold aligned. apply emits_text. cbn [sql args s].
      apply emits_lit_r; [now apply returning_sep|exact Hem].
    + destruct (conn_query_row E (Entity e) s w) as [x wx] eqn:Hq.
      apply conn_query_row_facts in Hq. destruct Hq as (_ & _ & _ & Htr).
      exists x. rewrite <- Htr.
      destruct x as [newPK|]; [|now inversion H].
      destruct (setPKValue _ _ _ _ _); now inversion H.
  - set (s := {| sql := query; args := vs2 |}) in *.
    exists s. split; [|split; [exact Hle|right; split]].
    + unfold aligned. apply emits_text. exact Hem.
    + apply andb_false_iff in Hret as [H1|H1];
        apply negb_false_iff, String.eqb_eq in H1; auto.
    + destruct (tx_exec E tx (Entity e) s w) as [n wx] eqn:Hq.
      apply tx_exec_facts in Hq. destruct Hq as (_ & _ & _ & Htr).
      exists n. rewrite <- Htr. destruct n; now inversion H.
Qed.

(** What [executeDelete] sends: one DELETE on the transaction, with
    the key as its argument. *)
Lemma executeDelete_stmt E tx e w r w' :
  sql_safe (type_of (heap w (Entity e))) (pkField e) ->
  executeDelete E tx e w = (r, w') ->
  exists s n,
    trace w' = (trace w ++ [EvTxExec tx (Entity e) s n])%list /\
    aligned s /\ args s = [GetPrimaryKey (heap w) e] /\
    r = match n with Some k => Ok k | None => Error DeleteFailed end.
Proof.
  intros (Ht & _ & Hpk & _) H. unfold executeDelete in H.
  set (t := type_of (heap w (Entity e))) in *.
  set (s := {| sql := "DELETE FROM " ++ Table (ParseModel t) ++ " WHERE "
                      ++ getPKColumnName t (pkField e) ++ " = $1";
               args := [GetPrimaryKey (heap w) e] |}) in *.
  destruct (tx_exec E tx (Entity e) s w) as [n wx] eqn:Hq.
  apply tx_exec_facts in Hq. destruct Hq as (_ & _ & _ & Htr).
  exists s, n. split; [destruct n; inversion H; subst; exact Htr|].
  split; [|split; [reflexivity|destruct n; now inversion H]].
  unfold aligned. apply emits_text. cbn [sql args s List.length iota].
  apply (emits_lit_l "DELETE FROM "); [reflexivity|].
  apply emits_lit_l; [exact Ht|].
  apply (emits_lit_l " WHERE "); [reflexivity|].
  change (getPKColumnName t (pkField e) ++ " = $1")
    with (getPKColumnName t (pkField e) ++ " = $" ++ fmt_d 1).
  now apply emits_assignment.
Qed.

(** The events a run has added carry aligned statements only. *)
Lemma aligned_app (evs evs' : list Event) :
  (forall ev s, In ev evs -> event_stmt ev = Some s -> aligned s) ->
  (forall ev s, In ev evs' -> event_stmt ev = Some s -> aligned s) ->
  forall ev s, In ev (evs ++ evs') -> event_stmt ev = Some s -> aligned s.
Proof.
  intros H H' ev s Hin. apply in_app_or in Hin. destruct Hin; eauto.
Qed.

Lemma aligned_quiet (evs : list Event) :
  forallb (fun ev => negb (statement_event ev)) evs = true ->
  forall ev s, In ev evs -> event_stmt ev = Some s -> aligned s.
Proof.
  rewrite forallb_forall. intros H ev s Hin Hs. apply H in Hin.
  destruct ev; cbn in *; discriminate.
Qed.

(** The first steps of a flush: the sweep, and [Begin] when the flush
    owns its transaction. *)
Lemma begun_trace E tx w h ownTx wb :
  let wd := DetectChanges_all E site_DetectChanges w in
  ((tx = Some h /\ ownTx = false /\ wb = wd) \/
   (tx = None /\ ownTx = true /\ conn_begin E wd = (Some h, wb))) ->
  exists pre, trace wb = (trace w ++ pre)%list /\
              forallb (fun ev => negb (statement_event ev)) pre = true.
Proof.
  intros wd [(_ & _ & ->)|(_ & _ & Hb)].
  - exists [EvDetectChanges]. split; reflexivity.
  - apply conn_begin_facts in Hb. destruct Hb as (_ & _ & _ & ->).
    exists [EvDetectChanges; EvBegin true].
    cbn [trace wd DetectChanges_all log]. now rewrite <- app_assoc.
Qed.

(** Its last steps. *)
Lemma ended_trace E h ownTx r rf w' wf :
  ((exists n, rf = Saved n /\ ownTx = false /\ r = Saved n /\
              w' = AcceptAllChanges E site_AcceptAllChanges wf) \/
   (exists n wc, rf = Saved n /\ ownTx = true /\
                 tx_commit E h wf = (true, wc) /\ r = Saved n /\
                 w' = AcceptAllChanges E site_AcceptAllChanges wc) \/
   (exists n wc, rf = Saved n /\ ownTx = true /\
                 tx_commit E h wf = (false, wc) /\
                 r = Aborted n CommitFailed /\ w' = tx_rollback h wc) \/
   ((forall n, rf <> Saved n) /\ r = rf /\ w' = deferred ownTx h wf)) ->
  exists post, trace w' = (trace wf ++ post)%list /\
               forallb (fun ev => negb (statement_event ev)) post = true.
Proof.
  intros [(n & _ & _ & _ & ->)
         |[(n & wc & _ & _ & Hc & _ & ->)
         |[(n & wc & _ & _ & Hc & _ & ->)
         |(_ & _ & ->)]]].
  - exists [EvAcceptAllChanges]. split; reflexivity.
  - apply tx_commit_facts in Hc as (_ & _ & Tc).
    exists [EvCommit h true; EvAcceptAllChanges].
    cbn [trace AcceptAllChanges log with_entries]. now rewrite Tc, <- app_assoc.
  - apply tx_commit_facts in Hc as (_ & _ & Tc).
    exists [EvCommit h false; EvRollback h].
    cbn [trace tx_rollback log with_conn]. now rewrite Tc, <- app_assoc.
  - destruct ownTx; cbn [deferred].
    + exists [EvRollback h]. split; reflexivity.
    + exists []. now rewrite app_nil_r.
Qed.

(** Every statement of a flush is aligned, when the names of the
    tracked types are safe. *)
Lemma flush_aligned E tx w r w' :
  fair_range E -> tracker_ok w ->
  (forall k e, In (k, e) (entries w) ->
     sql_safe (type_of (heap w (Entity e))) (pkField e)) ->
  SaveChangesContext E tx w = (r, w') ->
  exists evs,
    trace w' = (trace w ++ evs)%list /\
    forall ev s, In ev evs -> event_stmt ev = Some s -> aligned s.
Proof.
  intros Hfair Hok Hsafe H.
  pose proof (DetectChanges_all_ok E w Hfair Hok) as Hokd.
  pose proof (fun k => DetectChanges_all_get E site_DetectChanges w k Hfair Hok) as Hgd.
  destruct (SaveChangesContext_inv _ _ _ _ _ H) as [(_ & _ & ->)|Hcase].
  { exists [EvDetectChanges; EvBegin false]. split.
    - cbn [trace DetectChanges_all log]. now rewrite <- app_assoc.
    - now apply aligned_quiet. }
  destruct Hcase as (h & ownTx & wb & rf & wf & Hb & Hf & Hend).
  destruct (SaveChangesContext_trace E tx w r w' h ownTx wb rf wf Hb Hend)
    as ((Hhb & Heb & _) & _ & _).
  destruct (begun_trace E tx w h ownTx wb Hb) as (pre & Hpre & Hqpre).
  destruct (ended_trace E h ownTx r rf w' wf Hend) as (post & Hpost & Hqpost).
  assert (Hokb : tracker_ok wb) by (unfold tracker_ok; now rewrite Heb).
  assert (Hsafeb : forall k e, map_get k (entries wb) = Some e ->
            Entity e = Entity e /\
            sql_safe (type_of (heap w (Entity e))) (pkField e)).
  { intros k e Hk. split; [reflexivity|].
    rewrite Heb in Hk. fold (DetectChanges_all E site_DetectChanges w) in Hk.
    rewrite Hgd in Hk.
    destruct (map_get k (entries w)) as [e0|] eqn:Hk0; [|discriminate].
    injection Hk as <-.
    rewrite DetectChanges_pkField, DetectChanges_Entity.
    apply (Hsafe k). now apply map_get_In. }
  set (Inv := fun x : World =>
         (forall q, type_of (heap x q) = type_of (heap w q)) /\
         exists evs, trace x = (trace wb ++ evs)%list /\
           forall ev s, In ev evs -> event_stmt ev = Some s -> aligned s).
  assert (Hinv : Inv wf).
  { apply (flush_statements_inv Inv E h wb rf wf Hfair Hokb Hf).
    - split; [intros q; now rewrite Hhb|].
      exists []. split; [now rewrite app_nil_r|intros ev s []].
    - intros k e w1 r1 w2 Hk _ (Hty & evs & Htr & Hal) Hx.
      destruct (executeDelete_effect _ _ _ _ _ _ Hx) as ((_ & _ & Hty2 & _) & _).
      apply executeDelete_stmt in Hx;
        [|cbn [heap log]; rewrite Hty; now apply (Hsafeb k)].
      destruct Hx as (s & n & Htr2 & Has & _).
      split; [intros q; now rewrite Hty2; cbn [heap log]; rewrite Hty|].
      exists (evs ++ [EvProcess ActDelete k; EvTxExec h (Entity e) s n])%list.
      split; [rewrite Htr2; cbn [trace log]; rewrite Htr, <- !app_assoc; reflexivity|].
      apply aligned_app; [exact Hal|].
      intros ev s' [<-|[<-|[]]] Hs; [discriminate|]. now inversion Hs; subst.
    - intros k e w1 r1 w2 Hk _ (Hty & evs & Htr & Hal) Hx.
      destruct (executeInsert_effect _ _ _ _ _ _ Hx) as (_ & _ & Hty2 & _).
      apply executeInsert_stmt in Hx;
        [|cbn [heap log]; rewrite Hty; now apply (Hsafeb k)].
      split; [intros q; now rewrite Hty2; cbn [heap log]; rewrite Hty|].
      destruct Hx as [(_ & ->)|(s & Has & _ & Hroute)].
      + exists (evs ++ [EvProcess ActInsert k])%list.
        split; [cbn [trace log]; now rewrite Htr, <- !app_assoc|].
        apply aligned_app; [exact Hal|]. intros ev s' [<-|[]] Hs. discriminate.
      + destruct Hroute as [(_ & _ & x & Htr2)|(_ & n & Htr2)].
        * exists (evs ++ [EvProcess ActInsert k; EvConnQueryRow (Entity e) s x])%list.
          split; [rewrite Htr2; cbn [trace log]; rewrite Htr, <- !app_assoc; reflexivity|].
          apply aligned_app; [exact Hal|].
          intros ev s' [<-|[<-|[]]] Hs; [discriminate|]. now inversion Hs; subst.
        * exists (evs ++ [EvProcess ActInsert k; EvTxExec h (Entity e) s n])%list.
          split; [rewrite Htr2; cbn [trace log]; rewrite Htr, <- !app_assoc; reflexivity|].
          apply aligned_app; [exact Hal|].
          intros ev s' [<-|[<-|[]]] Hs; [discriminate|]. now inversion Hs; subst.
    - intros k e w1 r1 w2 Hk _ (Hty & evs & Htr & Hal) Hx.
      destruct (executeUpdate_effect _ _ _ _ _ _ Hx) as ((_ & _ & Hty2 & _) & _).
      apply executeUpdate_stmt in Hx;
        [|cbn [heap log]; rewrite Hty; now apply (Hsafeb k)].
      split; [intros q; now rewrite Hty2; cbn [heap log]; rewrite Hty|].
      destruct Hx as [(_ & _ & ->)|(_ & s & n & Htr2 & Has & _)].
      + exists (evs ++ [EvProcess ActUpdate k])%list.
        split; [cbn [trace log]; now rewrite Htr, <- !app_assoc|].
        apply aligned_app; [exact Hal|]. intros ev s' [<-|[]] Hs. discriminate.
      + exists (evs ++ [EvProcess ActUpdate k; EvTxExec h (Entity e) s n])%list.
        split; [rewrite Htr2; cbn [trace log]; rewrite Htr, <- !app_assoc; reflexivity|].
        apply aligned_app; [exact Hal|].
        intros ev s' [<-|[<-|[]]] Hs; [discriminate|]. now inversion Hs; subst. }
  destruct Hinv as (_ & evs & Htr & Hal).
  exists (pre ++ evs ++ post)%list. split.
  - now rewrite Hpost, Htr, Hpre, <- !app_assoc.
  - apply aligned_app; [now apply aligned_quiet|].
    apply aligned_app; [exact Hal|now apply aligned_quiet].
Qed.

Lemma Patient_safe : sql_safe Patient "ID".
Proof. repeat split. Qed.

(** X12.  [executeUpdate] sends nothing and returns zero rows for an
    entry without changed properties.  Otherwise it sends, on the
    transaction, one statement whose text carries the placeholders
    [$1 .. $n] in this order for its [n] arguments.  Its loop walks
    the columns of the model and takes for the column of index [i]
    the field of index [i] of the struct: the arguments are the
    present values of the fields at those indexes, below the number
    of columns, at which the type of the entry has a field that is a
    changed property, in the order of the indexes, and last the key.
    For a type all of whose fields are columns (none carries the tag
    [-]) the indexes run over all its fields.  (The names of the type
    carry no [$].) *)
Theorem X12_update_statement :
  forall E tx e w r w',
    sql_safe (type_of (heap w (Entity e))) (pkField e) ->
    executeUpdate E tx e w = (r, w') ->
    (GetChangedProperties (heap w) e = [] /\ r = Ok 0 /\ w' = w) \/
    (GetChangedProperties (heap w) e <> [] /\
     exists s n,
       trace w' = (trace w ++ [EvTxExec tx (Entity e) s n])%list /\
       placeholders (sql s) = iota 1 (List.length (args s)) /\
       args s =
         (map (Field (heap w (Entity e)))
            (filter (is_changed e (GetChangedProperties (heap w) e))
               (seq 0 (List.length
                         (Columns (ParseModel (type_of (heap w (Entity e))))))))
          ++ [GetPrimaryKey (heap w) e])%list /\
       (all_mapped (type_of (heap w (Entity e))) = true ->
        args s =
          (map (Field (heap w (Entity e)))
             (filter (is_changed e (GetChangedProperties (heap w) e))
                (seq 0 (NumField (type_of (heap w (Entity e))))))
           ++ [GetPrimaryKey (heap w) e])%list) /\
       r = match n with Some k => Ok k | None => Error UpdateFailed end).
Proof.
  intros E tx e w r w' Hsafe H.
  destruct (executeUpdate_stmt E tx e w r w' Hsafe H)
    as [Hnil|(Hne & s & n & Ht & Hal & Ha & Hr)]; [now left|].
  right. split; [exact Hne|]. exists s, n.
  split; [exact Ht|]. split; [exact Hal|]. split; [exact Ha|].
  split; [|exact Hr].
  intros Hm. rewrite Ha. now rewrite (model_columns_length _ Hm).
Qed.

(** Milica1 of the demo, aged to 26, in the transaction of the
    caller. *)
Lemma X12_update_statement_witness :
  exists e s w',
    map_get "Patient:1" (entries borrowed_world) = Some e /\
    executeUpdate (obliging []) 0%nat e borrowed_world = (Ok 1, w') /\
    trace w' = (trace borrowed_world ++ [EvTxExec 0%nat 1%nat s (Some 1)])%list /\
    placeholders (sql s) = [1; 2] /\
    args s = [VInt 26; VInt 1].
Proof.
  pose (e := newEntityEntry (heap milica_world) 1%nat Unchanged).
  pose (w' := snd (executeUpdate (obliging []) 0%nat e borrowed_world)).
  assert (Hx : executeUpdate (obliging []) 0%nat e borrowed_world = (Ok 1, w'))
    by (vm_compute; reflexivity).
  destruct (X12_update_statement (obliging []) 0%nat e borrowed_world (Ok 1) w'
              Patient_safe Hx) as [(Hnil & _)|(_ & s & n & Ht & Hp & Ha & _ & Hr)];
    [discriminate Hnil|].
  exists e, s, w'. split; [reflexivity|]. split; [exact Hx|].
  assert (Hn : n = Some 1) by (destruct n; [now inversion Hr|discriminate Hr]).
  rewrite Hn in Ht. split; [exact Ht|].
  split; [rewrite Hp, Ha; reflexivity|rewrite Ha; reflexivity].
Defined.

(** The text of the INSERT and where it goes. *)
Lemma executeInsert_text E tx e w r w' :
  sql_safe (type_of (heap w (Entity e))) (pkField e) ->
  executeInsert E tx e w = (r, w') ->
  (r = Panic /\ w' = w) \/
  exists s cols,
    aligned s /\
    List.length cols = List.length (args s) /\
    (List.length (args s)
     <= List.length (Columns (ParseModel (type_of (heap w (Entity e))))))%nat /\
    ((pkField e <> "" /\
      getPKColumnName (type_of (heap w (Entity e))) (pkField e) <> "" /\
      sql s =
        ("INSERT INTO " ++ Table (ParseModel (type_of (heap w (Entity e))))
         ++ " (" ++ Join cols ", " ++ ") VALUES ("
         ++ Join (numbered 0 (List.length (args s))) ", " ++ ")")
        ++ " RETURNING "
        ++ getPKColumnName (type_of (heap w (Entity e))) (pkField e) /\
      exists x, trace w' = (trace w ++ [EvConnQueryRow (Entity e) s x])%list) \/
     ((pkField e = "" \/
       getPKColumnName (type_of (heap w (Entity e))) (pkField e) = "") /\
      sql s =
        "INSERT INTO " ++ Table (ParseModel (type_of (heap w (Entity e))))
        ++ " (" ++ Join cols ", " ++ ") VALUES ("
        ++ Join (numbered 0 (List.length (args s))) ", " ++ ")" /\
      exists n, trace w' = (trace w ++ [EvTxExec tx (Entity e) s n])%list)).
Proof.
  intros (Ht & Hcols & Hpk & Hn) H. unfold executeInsert in H.
  set (v := heap w (Entity e)) in *. set (t := type_of v) in *.
  destruct (insert_loop e v (Columns (ParseModel t)) 0 ([], [], []))
    as [[[cs vs] phs]|] eqn:Hl; [|left; now inversion H].
  right.
  destruct (insert_loop_shape _ _ _ _ _ _ _ _ _ _ Hcols Hl)
    as (cs2 & vs2 & -> & -> & -> & Hlen & Hle & Hfree).
  cbn [app List.length] in *.
  pose proof (insert_text_emits (Table (ParseModel t)) cs2 (List.length vs2)
                Ht Hfree) as Hem.
  set (query := "INSERT INTO " ++ Table (ParseModel t) ++ " (" ++ Join cs2 ", "
                ++ ") VALUES (" ++ Join (numbered 0 (List.length vs2)) ", "
                ++ ")") in *.
  destruct (negb (String.eqb (pkField e) "")
            && negb (String.eqb (getPKColumnName t (pkField e)) ""))%bool eqn:Hret.
  - apply andb_true_iff in Hret as [H1 H2].
    apply negb_true_iff in H1, H2. apply String.eqb_neq in H1, H2.
    set (s := {| sql := query ++ " RETURNING " ++ getPKColumnName t (pkField e);
                 args := vs2 |}) in *.
    exists s, cs2. split; [|split; [exact Hlen|split; [exact Hle|]]].
    + unfold aligned. apply emits_text. cbn [sql args s].
      apply emits_lit_r; [now apply returning_sep|exact Hem].
    + left. split; [exact H1|]. split; [exact H2|]. split; [reflexivity|].
      destruct (conn_query_row E (Entity e) s w) as [x wx] eqn:Hq.
      apply conn_query_row_facts in Hq. destruct Hq as (_ & _ & _ & Htr).
      exists x. rewrite <- Htr.
      destruct x as [newPK|]; [|now inversion H].
      destruct (setPKValue _ _ _ _ _); now inversion H.
  - set (s := {| sql := query; args := vs2 |}) in *.
    exists s, cs2. split; [|split; [exact Hlen|split; [exact Hle|right; split]]].
    + unfold aligned. apply emits_text. exact Hem.
    + apply andb_false_iff in Hret as [H1|H1];
        apply negb_false_iff, String.eqb_eq in H1; auto.
    + split; [reflexivity|].
      destruct (tx_exec E tx (Entity e) s w) as [n wx] eqn:Hq.
      apply tx_exec_facts in Hq. destruct Hq as (_ & _ & _ & Htr).
      exists n. rewrite <- Htr. destruct n; now inversion H.
Qed.

(** X13.  The INSERT of [executeInsert] reads
    [INSERT INTO table (columns) VALUES ($1, ..., $n)] with one
    column and one placeholder for each of its [n] arguments, at most
    one argument for each column of the model.  When the entry has a
    key field with a column, the text ends in [RETURNING] and that
    column, and the statement goes to the connection itself;
    otherwise the text ends after the values and the statement goes
    to the transaction.  (The names of the type carry no [$]; the
    panic is that of a key field holding [nil].) *)
Theorem X13_insert_statement :
  forall E tx e w r w',
    sql_safe (type_of (heap w (Entity e))) (pkField e) ->
    executeInsert E tx e w = (r, w') ->
    (r = Panic /\ w' = w) \/
    exists s cols,
      placeholders (sql s) = iota 1 (List.length (args s)) /\
      List.length cols = List.length (args s) /\
      (List.length (args s)
       <= List.length (Columns (ParseModel (type_of (heap w (Entity e))))))%nat /\
      ((pkField e <> "" /\
        getPKColumnName (type_of (heap w (Entity e))) (pkField e) <> "" /\
        sql s =
          ("INSERT INTO " ++ Table (ParseModel (type_of (heap w (Entity e))))
           ++ " (" ++ Join cols ", " ++ ") VALUES ("
           ++ Join (numbered 0 (List.length (args s))) ", " ++ ")")
          ++ " RETURNING "
          ++ getPKColumnName (type_of (heap w (Entity e))) (pkField e) /\
        exists x, trace w' = (trace w ++ [EvConnQueryRow (Entity e) s x])%list) \/
       ((pkField e = "" \/
         getPKColumnName (type_of (heap w (Entity e))) (pkField e) = "") /\
        sql s =
          "INSERT INTO " ++ Table (ParseModel (type_of (heap w (Entity e))))
          ++ " (" ++ Join cols ", " ++ ") VALUES ("
          ++ Join (numbered 0 (List.length (args s))) ", " ++ ")" /\
        exists n, trace w' = (trace w ++ [EvTxExec tx (Entity e) s n])%list)).
Proof. intros E tx e w r w'. apply executeInsert_text. Qed.

(** The new patient of the demo. *)
Lemma X13_insert_statement_witness :
  exists e s x w',
    map_get "Patient:ptr:0x2" (entries pending_world) = Some e /\
    executeInsert (obliging []) 0%nat e pending_world = (Ok 1, w') /\
    trace w' = (trace pending_world ++ [EvConnQueryRow 2%nat s x])%list /\
    placeholders (sql s) = iota 1 (List.length (args s)) /\
    exists cols,
      sql s = ("INSERT INTO patients (" ++ Join cols ", " ++ ") VALUES ("
               ++ Join (numbered 0 (List.length (args s))) ", " ++ ")")
              ++ " RETURNING id".
Proof.
  pose (e := newEntityEntry (heap pending_world) 2%nat Added).
  pose (w' := snd (executeInsert (obliging []) 0%nat e pending_world)).
  assert (Hx : executeInsert (obliging []) 0%nat e pending_world = (Ok 1, w'))
    by (vm_compute; reflexivity).
  destruct (X13_insert_statement (obliging []) 0%nat e pending_world (Ok 1) w'
              Patient_safe Hx) as [(Hp & _)|(s & cols & Hal & _ & _ & Hroute)];
    [discriminate Hp|].
  destruct Hroute as [(_ & _ & Hsql & x & Ht)|([Hk|Hk] & _)];
    [|discriminate Hk|discriminate Hk].
  exists e, s, x, w'. split; [reflexivity|]. split; [exact Hx|].
  split; [exact Ht|]. split; [exact Hal|]. exists cols. exact Hsql.
Defined.

Lemma pending_world_safe :
  forall k e, In (k, e) (entries pending_world) ->
    sql_safe (type_of (heap pending_world (Entity e))) (pkField e).
Proof.
  intros k e Hin. vm_compute in Hin.
  destruct Hin as [H|[H|[]]]; inversion H; subst; exact Patient_safe.
Qed.

(** X14.  Every statement a flush sends, whatever its kind and
    whether or not the flush succeeds, carries in its text the
    placeholders [$1 .. $n], in this order, for its [n] arguments.
    (The names of the tracked types carry no [$].) *)
Theorem X14_flush_statements_aligned :
  forall E tx w r w',
    fair_range E -> tracker_ok w ->
    (forall k e, In (k, e) (entries w) ->
       sql_safe (type_of (heap w (Entity e))) (pkField e)) ->
    SaveChangesContext E tx w = (r, w') ->
    exists evs,
      trace w' = (trace w ++ evs)%list /\
      forall ev s, In ev evs -> event_stmt ev = Some s ->
        placeholders (sql s) = iota 1 (List.length (args s)).
Proof. intros E tx w r w'. apply flush_aligned. Qed.

Lemma X14_flush_statements_aligned_witness :
  exists r w' evs,
    SaveChangesContext refusing_updates None pending_world = (r, w') /\
    trace w' = (trace pending_world ++ evs)%list /\
    forall ev s, In ev evs -> event_stmt ev = Some s ->
      placeholders (sql s) = iota 1 (List.length (args s)).
Proof.
  destruct (SaveChangesContext refusing_updates None pending_world)
    as [r w'] eqn:Hs.
  destruct (X14_flush_statements_aligned refusing_updates None pending_world r w'
              refusing_updates_fair pending_world_ok pending_world_safe Hs)
    as (evs & Ht & Hal).
  exists r, w', evs. auto.
Defined.

(** ** Queries (query.go) *)

Lemma count_args q : snd (count_sql q) = snd (buildSQL q).
Proof.
  unfold count_sql, buildSQL.
  destruct (q_conditions q) as [|c cs]; [reflexivity|].
  now destruct (lower_all ToSQL (c :: cs) 1) as [[wp a] nx].
Qed.

Lemma count_placeholders q :
  dollar_free (q_table q) = true -> forallb cond_wf (q_conditions q) = true ->
  1 + len (snd (count_sql q)) <= max_int ->
  placeholders (fst (count_sql q)) = iota 1 (List.length (snd (count_sql q))).
Proof.
  intros Ht Hc Hb. apply emits_text.
  apply (where_emits ("SELECT COUNT(*) FROM " ++ q_table q) (q_conditions q));
    [exact Ht|exact Hc| |exact Hb].
  unfold count_sql. cbn zeta.
  destruct (q_conditions q) as [|c cs]; [reflexivity|].
  now destruct (lower_all ToSQL (c :: cs) 1) as [[wp a] nx].
Qed.

(** X15.  [Count] reads and changes nothing: it sends one statement
    on the connection and leaves the entities, the tracker and the
    database as they are.  The statement takes from the query its
    table and its conditions only, so that ordering, limit and offset
    do not change the count; its arguments are those of the SELECT of
    the same query, and its text carries the placeholders [$1 .. $n],
    in this order, for these [n] arguments.  [Exists] is [Count]
    compared with zero. *)
Theorem X15_count_statement :
  forall E q w r w',
    Count E q w = (r, w') ->
    heap w' = heap w /\ entries w' = entries w /\ conn w' = conn w /\
    (exists s ok,
       trace w' = (trace w ++ [EvConnQuery s ok])%list /\
       args s = snd (buildSQL q) /\
       (dollar_free (q_table q) = true ->
        forallb cond_wf (q_conditions q) = true ->
        1 + len (args s) <= max_int ->
        placeholders (sql s) = iota 1 (List.length (args s)))) /\
    (forall n o,
       Count E (Limit q n) w = (r, w') /\
       Count E (Offset q n) w = (r, w') /\
       Count E (OrderBy_ q o) w = (r, w')) /\
    Exists E q w =
      (match r with
       | Ok n => Ok (Z.ltb 0 n)
       | Error e => Error e
       | Panic => Panic
       end, w').
Proof.
  intros E q w r w' H.
  assert (Hrest : forall n o,
            Count E (Limit q n) w = (r, w') /\
            Count E (Offset q n) w = (r, w') /\
            Count E (OrderBy_ q o) w = (r, w')) by (intros; now rewrite <- H).
  assert (Hex : Exists E q w =
                (match r with
                 | Ok n => Ok (Z.ltb 0 n)
                 | Error e => Error e
                 | Panic => Panic
                 end, w')) by (unfold Exists; rewrite H; now destruct r).
  unfold Count in H.
  pose proof (count_args q) as Ha. pose proof (count_placeholders q) as Hp.
  destruct (count_sql q) as [text qargs]. cbn [fst snd] in Ha, Hp.
  set (s := {| sql := text; args := qargs |}) in *.
  assert (Hw : exists ok, w' = log w (EvConnQuery s ok)).
  { destruct (env_query_row E (conn w) s) as [x|].
    - exists true. destruct (env_scan E [KInt] [x]) as [[|[] []]|]; now inversion H.
    - exists false. now inversion H. }
  destruct Hw as (ok & ->).
  split; [reflexivity|]. split; [reflexivity|]. split; [reflexivity|].
  split; [|split; assumption].
  exists s, ok. split; [reflexivity|]. split; [exact Ha|exact Hp].
Qed.

(** The query of the demo, counted. *)
Lemma X15_count_statement_witness :
  exists w' s,
    Count (obliging []) demo_query empty_world = (Ok 2, w') /\
    trace w' = [EvConnQuery s true] /\
    sql s = "SELECT COUNT(*) FROM patients WHERE age > $1 AND name LIKE $2" /\
    args s = [VInt 18; VStr "%Milica%"] /\
    placeholders (sql s) = [1; 2] /\
    Exists (obliging []) demo_query empty_world = (Ok true, w').
Proof.
  pose (w' := snd (Count (obliging []) demo_query empty_world)).
  assert (Hc : Count (obliging []) demo_query empty_world = (Ok 2, w'))
    by (vm_compute; reflexivity).
  destruct (X15_count_statement (obliging []) demo_query empty_world (Ok 2) w' Hc)
    as (_ & _ & _ & _ & _ & Hex).
  eexists w', _. split; [exact Hc|].
  split; [vm_compute; reflexivity|].
  split; [reflexivity|]. split; [reflexivity|]. split; [reflexivity|].
  exact Hex.
Defined.

(** The slice of results in memory: consecutive new addresses, the
    older entities where they were. *)
Lemma place_spec items : forall h p ps h' p',
  place items h p = (ps, h', p') ->
  ps = seq p (List.length items) /\ p' = (p + List.length items)%nat /\
  (forall q, (q < p)%nat -> h' q = h q) /\
  (forall i v, nth_error items i = Some v -> h' (p + i)%nat = v).
Proof.
  induction items as [|v items IH]; intros h p ps h' p' H.
  - cbn in H. inversion H; subst. cbn. repeat split; try lia.
    intros [|i] v Hn; discriminate.
  - cbn [place] in H.
    destruct (place items (store h p v) (S p)) as [[ps0 h0] p0] eqn:Hp.
    inversion H; subst. clear H.
    destruct (IH _ _ _ _ _ Hp) as (-> & -> & Hold & Hnew).
    cbn [List.length seq]. repeat split; try lia.
    + intros q Hq. rewrite Hold by lia. apply store_other. lia.
    + intros [|i] x Hn; cbn in Hn.
      * inversion Hn; subst. rewrite Nat.add_0_r, Hold by lia. apply store_same.
      * replace (p + S i)%nat with (S p + i)%nat by lia. now apply Hnew.
Qed.

Lemma scan_rows_nth E T rows items :
  scan_rows E T rows = Some items ->
  forall i row, nth_error rows i = Some row ->
    exists vals,
      env_scan E (map FieldKind (Fields T)) row = Some vals /\
      nth_error items i = Some {| type_of := T; field_values := vals |}.
Proof.
  revert items. induction rows as [|r rows IH]; intros items H i row Hn.
  - destruct i; discriminate.
  - cbn in H. destruct (env_scan E _ r) as [vals|] eqn:Hs; [|discriminate].
    destruct (scan_rows E T rows) as [its|]; [|discriminate].
    inversion H; subst. destruct i as [|i]; cbn in Hn.
    + inversion Hn; subst. now exists vals.
    + now apply (IH its eq_refl).
Qed.

(** What [ToSlice] does up to the tracking of its results. *)
Lemma ToSlice_loaded E q w r w' :
  ToSlice E q w = (r, w') ->
  (exists ok, (r = Error QueryFailed \/ r = Error ScanFailed) /\
              w' = log w (EvConnQuery (select_stmt q) ok)) \/
  exists rows items h,
    env_query E (conn w) (select_stmt q) = Some rows /\
    scan_rows E (q_type q) rows = Some items /\
    place items (heap w) (next_ptr w)
      = (seq (next_ptr w) (List.length rows), h,
         (next_ptr w + List.length rows)%nat) /\
    let wl := {| heap := h; next_ptr := (next_ptr w + List.length rows)%nat;
                 entries := entries w; conn := conn w;
                 trace := (trace w ++ [EvConnQuery (select_stmt q) true])%list |} in
    if q_tracking q then
      match track_all (seq (next_ptr w) (List.length rows)) wl with
      | Some wt => r = Ok (seq (next_ptr w) (List.length rows)) /\ w' = wt
      | None => r = Panic /\ w' = wl
      end
    else r = Ok (seq (next_ptr w) (List.length rows)) /\ w' = wl.
Proof.
  unfold ToSlice, select_stmt, conn_query. intros H.
  destruct (buildSQL q) as [text qargs]. cbn [fst snd].
  set (s := {| sql := text; args := qargs |}) in *.
  destruct (env_query E (conn w) s) as [rows|] eqn:Hq.
  - destruct (scan_rows E (q_type q) rows) as [items|] eqn:Hs.
    + right. exists rows, items.
      destruct (place items (heap (log w (EvConnQuery s true)))
                  (next_ptr (log w (EvConnQuery s true)))) as [[ps h] p] eqn:Hp.
      cbn [heap next_ptr log] in Hp.
      destruct (place_spec _ _ _ _ _ _ Hp) as (-> & -> & _).
      rewrite (scan_rows_length _ _ _ _ Hs) in *.
      exists h. split; [reflexivity|]. split; [exact Hs|]. split; [exact Hp|].
      cbn [entries conn trace log] in H. cbn zeta.
      destruct (q_tracking q).
      * destruct (track_all _ _); now inversion H.
      * now inversion H.
    + left. exists true. inversion H. auto.
  - left. exists false. inversion H. auto.
Qed.

(** X16.  A query that does not track ([AsNoTracking]) leaves the
    tracker and the database as they are.  [ToSlice] then returns
    one element for each row, at consecutive new addresses and in the
    order of the rows; the element of a row holds the values scanned
    from it, and the entities that were there before stay as they
    were. *)
Theorem X16_no_tracking_query :
  forall E q w ps w',
    q_tracking q = false ->
    ToSlice E q w = (Ok ps, w') ->
    entries w' = entries w /\ conn w' = conn w /\
    trace w' = (trace w ++ [EvConnQuery (select_stmt q) true])%list /\
    exists rows,
      env_query E (conn w) (select_stmt q) = Some rows /\
      ps = seq (next_ptr w) (List.length rows) /\
      (forall p, (p < next_ptr w)%nat -> heap w' p = heap w p) /\
      (forall i row, nth_error rows i = Some row ->
         exists vals,
           env_scan E (map FieldKind (Fields (q_type q))) row = Some vals /\
           heap w' (next_ptr w + i)%nat
             = {| type_of := q_type q; field_values := vals |}).
Proof.
  intros E q w ps w' Hno H.
  destruct (ToSlice_loaded _ _ _ _ _ H) as [(ok & [Hr|Hr] & _)|Hl];
    [discriminate|discriminate|].
  destruct Hl as (rows & items & h & Hq & Hs & Hp & Hw). cbn zeta in Hw.
  rewrite Hno in Hw. destruct Hw as [Hr ->]. inversion Hr; subst ps.
  cbn [entries conn trace heap]. repeat split.
  exists rows. split; [exact Hq|]. split; [reflexivity|].
  destruct (place_spec _ _ _ _ _ _ Hp) as (_ & _ & Hold & Hnew).
  split; [exact Hold|].
  intros i row Hn. destruct (scan_rows_nth _ _ _ _ Hs i row Hn) as (vals & Hv & Hi).
  exists vals. split; [exact Hv|]. now apply Hnew.
Qed.

Lemma X16_no_tracking_query_witness :
  exists ps w',
    ToSlice (obliging [[VInt 7; VStr "Ana"; VInt 40]; [VInt 8; VStr "Iva"; VInt 41]])
            (AsNoTracking (newQuery Patient)) empty_world = (Ok ps, w') /\
    entries w' = [] /\ ps = [1%nat; 2%nat] /\
    heap w' 2%nat = patient 8 "Iva" 41.
Proof.
  pose (E := obliging [[VInt 7; VStr "Ana"; VInt 40]; [VInt 8; VStr "Iva"; VInt 41]]).
  pose (w' := snd (ToSlice E (AsNoTracking (newQuery Patient)) empty_world)).
  assert (H : ToSlice E (AsNoTracking (newQuery Patient)) empty_world
              = (Ok [1%nat; 2%nat], w')) by (vm_compute; reflexivity).
  destruct (X16_no_tracking_query E (AsNoTracking (newQuery Patient)) empty_world
              [1%nat; 2%nat] w' eq_refl H)
    as (He & _ & _ & rows & Hq & Hps & _ & Hrow).
  exists [1%nat; 2%nat], w'. split; [exact H|]. split; [exact He|].
  split; [reflexivity|].
  injection Hq as <-.
  destruct (Hrow 1%nat [VInt 8; VStr "Iva"; VInt 41] eq_refl) as (vals & Hv & Hh).
  injection Hv as <-. exact Hh.
Defined.

Lemma key_of_Track p st w :
  match Track p st w with
  | Some (key, e, w1) =>
      key_of (heap w) p = Some key /\ e = newEntityEntry (heap w) p st /\
      heap w1 = heap w /\ entries w1 = map_set key e (entries w) /\
      conn w1 = conn w /\ trace w1 = trace w
  | None => key_of (heap w) p = None
  end.
Proof.
  unfold Track, key_of. rewrite (entity_key (heap w) p Detached st).
  destruct (makeKey _ _ _) as [key|]; [|reflexivity]. repeat split.
Qed.

Lemma key_among h key ps :
  (exists p, In p ps /\ key_of h p = Some key) \/
  (forall p, In p ps -> key_of h p <> Some key).
Proof.
  induction ps as [|p ps IH]; [right; intros p []|].
  destruct IH as [(p' & Hin & Hk)|Hno].
  - left. exists p'. split; [now right|exact Hk].
  - assert (Hdec : {key_of h p = Some key} + {key_of h p <> Some key}).
    { destruct (key_of h p) as [k|]; [|right; discriminate].
      destruct (string_dec k key) as [->|Hne]; [now left|].
      right. intros [= Heq]. contradiction. }
    destruct Hdec as [Hk|Hk].
    + left. exists p. split; [now left|exact Hk].
    + right. intros p' [<-|Hin]; [exact Hk|now apply Hno].
Qed.

(** Tracking the elements of a slice one after the other: under the
    key of each element there is in the end the entry of an element
    with that key, and the other keys are left alone. *)
Lemma track_all_spec ps : forall w w',
  track_all ps w = Some w' ->
  heap w' = heap w /\ conn w' = conn w /\ trace w' = trace w /\
  (forall k, (forall p, In p ps -> key_of (heap w) p <> Some k) ->
             map_get k (entries w') = map_get k (entries w)) /\
  (forall p, In p ps ->
     exists key p',
       key_of (heap w) p = Some key /\ In p' ps /\
       key_of (heap w) p' = Some key /\
       map_get key (entries w') = Some (newEntityEntry (heap w) p' Unchanged)).
Proof.
  induction ps as [|p ps IH]; intros w w' H.
  - cbn in H. inversion H; subst. repeat split. intros p [].
  - cbn [track_all] in H. pose proof (key_of_Track p Unchanged w) as Ht.
    destruct (Track p Unchanged w) as [[[key e] w1]|]; [|discriminate].
    destruct Ht as (Hk & -> & Hh & He & Hc & Htr).
    destruct (IH _ _ H) as (Hh' & Hc' & Ht' & Hother & Hmine).
    rewrite Hh in *.
    split; [exact Hh'|]. split; [congruence|]. split; [congruence|]. split.
    + intros k Hno. rewrite Hother.
      * rewrite He, map_get_set.
        destruct (String.eqb key k) eqn:Hkk; [|reflexivity].
        apply String.eqb_eq in Hkk. subst k.
        now destruct (Hno p (or_introl eq_refl)).
      * intros p' Hin. apply Hno. now right.
    + assert (Hhead : exists key0 p',
                key_of (heap w) p = Some key0 /\ In p' (p :: ps) /\
                key_of (heap w) p' = Some key0 /\
                map_get key0 (entries w')
                  = Some (newEntityEntry (heap w) p' Unchanged)).
      { destruct (key_among (heap w) key ps) as [(p'' & Hin & Hk'')|Hno].
        - destruct (Hmine p'' Hin) as (k2 & p' & Hk2 & Hin' & Hk' & Hg).
          assert (k2 = key) by congruence. subst k2.
          exists key, p'. repeat split; try assumption. now right.
        - exists key, p. repeat split; try assumption; [now left|].
          rewrite (Hother key Hno), He, map_get_set, String.eqb_refl.
          reflexivity. }
      intros p0 [<-|Hin]; [exact Hhead|].
      destruct (Hmine p0 Hin) as (k2 & p' & Hk2 & Hin' & Hk' & Hg).
      exists k2, p'. repeat split; try assumption. now right.
Qed.

(** X17.  A query that tracks files its results in the tracker as
    Unchanged, by their keys.  After [ToSlice] the key of every
    returned element holds a new Unchanged entry, with its snapshot,
    of a returned element with that key (the last one, when several
    rows share a key): whatever entry was filed under that key before
    is replaced.  Entries under other keys are left as they are. *)
Theorem X17_tracking_query :
  forall E q w ps w',
    q_tracking q = true ->
    ToSlice E q w = (Ok ps, w') ->
    conn w' = conn w /\
    (forall p, In p ps ->
       exists key p',
         key_of (heap w') p = Some key /\ In p' ps /\
         key_of (heap w') p' = Some key /\
         map_get key (entries w')
           = Some (newEntityEntry (heap w') p' Unchanged)) /\
    (forall k, (forall p, In p ps -> key_of (heap w') p <> Some k) ->
       map_get k (entries w') = map_get k (entries w)).
Proof.
  intros E q w ps w' Hyes H.
  destruct (ToSlice_loaded _ _ _ _ _ H) as [(ok & [Hr|Hr] & _)|Hl];
    [discriminate|discriminate|].
  destruct Hl as (rows & items & h & Hq & Hs & Hp & Hw). cbn zeta in Hw.
  rewrite Hyes in Hw.
  destruct (track_all _ _) as [wt|] eqn:Ht; [|now destruct Hw].
  destruct Hw as [Hr ->]. inversion Hr; subst ps.
  destruct (track_all_spec _ _ _ Ht) as (Hh & Hc & _ & Hother & Hmine).
  cbn [heap conn entries] in *. rewrite Hh.
  split; [exact Hc|]. split; [exact Hmine|exact Hother].
Qed.

(** Two patients are loaded. *)
Lemma X17_tracking_query_witness :
  exists ps w',
    ToSlice (obliging [[VInt 7; VStr "Ana"; VInt 40]; [VInt 8; VStr "Iva"; VInt 41]])
            (newQuery Patient) empty_world = (Ok ps, w') /\
    forall p, In p ps ->
      exists key p',
        key_of (heap w') p = Some key /\ In p' ps /\
        key_of (heap w') p' = Some key /\
        map_get key (entries w') = Some (newEntityEntry (heap w') p' Unchanged).
Proof.
  pose (E := obliging [[VInt 7; VStr "Ana"; VInt 40]; [VInt 8; VStr "Iva"; VInt 41]]).
  destruct (ToSlice E (newQuery Patient) empty_world) as [r w'] eqn:H.
  assert (Hr : r = Ok [1%nat; 2%nat])
    by (change r with (fst (r, w')); rewrite <- H; vm_compute; reflexivity).
  subst r. exists [1%nat; 2%nat], w'. split; [exact H|].
  apply (X17_tracking_query E (newQuery Patient) empty_world _ w' eq_refl H).
Defined.

Lemma buildSQL_args q :
  snd (buildSQL q) = snd (fst (lower_all ToSQL (q_conditions q) 1)).
Proof.
  unfold buildSQL. destruct (q_conditions q) as [|c cs]; [reflexivity|].
  now destruct (lower_all ToSQL (c :: cs) 1) as [[wp a] nx].
Qed.

Lemma lower_all_snoc cs c idx :
  snd (fst (lower_all ToSQL (cs ++ [c]) idx)) =
  (snd (fst (lower_all ToSQL cs idx))
   ++ snd (fst (ToSQL c (snd (lower_all ToSQL cs idx)))))%list.
Proof.
  unfold lower_all. rewrite fold_left_app. cbn [fold_left].
  destruct (fold_left (lower_step ToSQL) cs ([], [], idx)) as [[parts args] i].
  unfold lower_step. cbn [fst snd].
  now destruct (ToSQL c i) as [[sql a] nx].
Qed.

(** X18.  On a miss [Find] asks the database, and changes the query
    it is called on.  When no entry is filed under the key, [Find]
    sends the SELECT of the query with one more condition, the key
    column equal to the key, and with LIMIT 1: its arguments are
    those of the query followed by the key.  The condition and the
    limit stay in the query afterwards. *)
Theorem X18_find_miss :
  forall E q pk w r q1 w1,
    GetEntryByKey (q_type q) pk w = None ->
    Find E q pk w = (r, q1, w1) ->
    q1 = Limit (Where q (SimpleCondition (getPKColumnFromType (q_type q)) "=" pk)) 1 /\
    q_conditions q1 =
      (q_conditions q
       ++ [SimpleCondition (getPKColumnFromType (q_type q)) "=" pk])%list /\
    q_limit q1 = Some 1 /\
    args (select_stmt q1) = (snd (buildSQL q) ++ [pk])%list /\
    exists ok, trace w1 = (trace w ++ [EvConnQuery (select_stmt q1) ok])%list.
Proof.
  intros E q pk w r q1 w1 Hmiss H. unfold Find in H. rewrite Hmiss in H.
  unfold First in H.
  set (q' := Limit (Where q (SimpleCondition (getPKColumnFromType (q_type q)) "=" pk)) 1)
    in *.
  destruct (ToSlice E q' w) as [rs ws] eqn:Hs.
  assert (Hq1 : q1 = q' /\ w1 = ws)
    by (destruct rs as [[|p ps]| |]; now inversion H).
  destruct Hq1 as [-> ->]. split; [reflexivity|]. split; [reflexivity|].
  split; [reflexivity|]. split.
  - unfold select_stmt. cbn [args]. rewrite !buildSQL_args.
    cbn [q_conditions q' Limit Where]. rewrite lower_all_snoc. reflexivity.
  - destruct (ToSlice_loaded _ _ _ _ _ Hs) as [(ok & _ & ->)|Hl].
    + now exists ok.
    + destruct Hl as (rows & items & h & _ & _ & _ & Hw). cbn zeta in Hw.
      exists true. destruct (q_tracking q').
      * destruct (track_all _ _) as [wt|] eqn:Ht.
        -- destruct Hw as [_ ->].
           now destruct (track_all_spec _ _ _ Ht) as (_ & _ & -> & _).
        -- now destruct Hw as [_ ->].
      * now destruct Hw as [_ ->].
Qed.

(** The query of the demo is used to find patient 7. *)
Lemma X18_find_miss_witness :
  exists r q1 w1,
    Find (obliging []) demo_query (VInt 7) empty_world = (r, q1, w1) /\
    args (select_stmt q1) = [VInt 18; VStr "%Milica%"; VInt 7] /\
    sql (select_stmt q1) =
      "SELECT id, name, age FROM patients WHERE age > $1 AND name LIKE $2 AND id = $3 ORDER BY age DESC LIMIT 1".
Proof.
  destruct (Find (obliging []) demo_query (VInt 7) empty_world)
    as [[r q1] w1] eqn:H.
  destruct (X18_find_miss (obliging []) demo_query (VInt 7) empty_world r q1 w1
              eq_refl H) as (-> & _ & _ & Ha & _).
  eexists _, _, w1. split; [reflexivity|]. split; [exact Ha|reflexivity].
Defined.

(** ** Schemas and migrations (schema.go, migration.go) *)

Lemma Split_from_hd s : forall cur,
  hd "" (Split_from s cur) = cur ++ before_comma s.
Proof.
  induction s as [|c s IH]; intros cur; cbn.
  - now rewrite append_nil_r.
  - destruct (Ascii.eqb c comma); cbn; [now rewrite append_nil_r|].
    rewrite IH, append_assoc. reflexivity.
Qed.

Lemma Split_comma_hd s : hd "" (Split_comma s) = before_comma s.
Proof. unfold Split_comma. now rewrite Split_from_hd. Qed.

Lemma parseTagOption_name col opt : ci_Name (parseTagOption col opt) = ci_Name col.
Proof.
  unfold parseTagOption.
  repeat match goal with
         | |- context [if ?b then _ else _] => destruct b; try reflexivity
         | |- context [match Atoi ?x with _ => _ end] => destruct (Atoi x); try reflexivity
         end.
Qed.

Lemma options_name opts : forall col,
  ci_Name (fold_left parseTagOption opts col) = ci_Name col.
Proof.
  induction opts as [|o opts IH]; intros col; [reflexivity|].
  cbn [fold_left]. now rewrite IH, parseTagOption_name.
Qed.

Lemma parseColumnInfo_name fname ftype tag :
  ci_Name (parseColumnInfo fname ftype tag) =
  if String.eqb tag "" then ToLower fname else before_comma tag.
Proof.
  unfold parseColumnInfo.
  destruct (String.eqb tag "").
  - cbn. reflexivity.
  - match goal with
    | |- ci_Name (if ?b then _ else _) = _ => destruct b
    end; cbn [ci_Name]; rewrite options_name; cbn [ci_Name]; apply Split_comma_hd.
Qed.

(** X19.  The schema and the model of a type agree: [ParseSchema],
    from which the tables are created, and [ParseModel], from which
    the statements are written, give the same table name and the
    same column names in the same order, whatever the tags. *)
Theorem X19_schema_matches_model :
  forall t,
    si_Table (ParseSchema t) = Table (ParseModel t) /\
    map ci_Name (si_Columns (ParseSchema t)) = Columns (ParseModel t).
Proof.
  intros t. split; [reflexivity|].
  unfold ParseSchema, ParseModel. cbn [si_Columns Columns].
  induction (Fields t) as [|f fs IH]; [reflexivity|].
  cbn [schema_columns model_columns].
  destruct (String.eqb (Tag f) "-"); [exact IH|].
  cbn [map]. rewrite parseColumnInfo_name, IH.
  now destruct (String.eqb (Tag f) "").
Qed.

Ltac option_cases :=
  unfold parseTagOption;
  repeat match goal with
         | |- context [if ?b then _ else _] => destruct b eqn:?
         | |- context [match Atoi ?x with _ => _ end] => destruct (Atoi x)
         end; cbn.

(** An option never clears a constraint. *)
Lemma parseTagOption_keeps col opt :
  (ci_IsPrimaryKey col = true -> ci_IsPrimaryKey (parseTagOption col opt) = true) /\
  (ci_IsNotNull col = true -> ci_IsNotNull (parseTagOption col opt) = true) /\
  (ci_IsUnique col = true -> ci_IsUnique (parseTagOption col opt) = true).
Proof. option_cases; auto. Qed.

Lemma parseTagOption_pk col opt :
  TrimSpace opt = "pk" ->
  ci_IsPrimaryKey (parseTagOption col opt) = true /\
  ci_IsNotNull (parseTagOption col opt) = true /\
  ci_IsUnique (parseTagOption col opt) = true.
Proof. intros H. unfold parseTagOption. rewrite H. cbn. auto. Qed.

Lemma options_keep opts : forall col,
  (ci_IsPrimaryKey col = true ->
   ci_IsPrimaryKey (fold_left parseTagOption opts col) = true) /\
  (ci_IsNotNull col = true ->
   ci_IsNotNull (fold_left parseTagOption opts col) = true) /\
  (ci_IsUnique col = true ->
   ci_IsUnique (fold_left parseTagOption opts col) = true).
Proof.
  induction opts as [|o opts IH]; intros col; [auto|].
  cbn [fold_left]. destruct (IH (parseTagOption col o)) as (H1 & H2 & H3).
  destruct (parseTagOption_keeps col o) as (K1 & K2 & K3). auto.
Qed.

Lemma options_pk opts : forall col,
  (exists opt, In opt opts /\ TrimSpace opt = "pk") ->
  ci_IsPrimaryKey (fold_left parseTagOption opts col) = true /\
  ci_IsNotNull (fold_left parseTagOption opts col) = true /\
  ci_IsUnique (fold_left parseTagOption opts col) = true.
Proof.
  induction opts as [|o opts IH]; intros col (opt & Hin & Hpk); [contradiction|].
  cbn [fold_left]. destruct Hin as [->|Hin].
  - destruct (parseTagOption_pk col opt Hpk) as (H1 & H2 & H3).
    destruct (options_keep opts (parseTagOption col opt)) as (K1 & K2 & K3). auto.
  - apply IH. now exists opt.
Qed.

Lemma parseTagOption_type col opt :
  HasPrefix (TrimSpace opt) "type:" = false ->
  ci_SQLType (parseTagOption col opt) = ci_SQLType col.
Proof. intros H. option_cases; try reflexivity; congruence. Qed.

Lemma options_type opts : forall col,
  (forall opt, In opt opts -> HasPrefix (TrimSpace opt) "type:" = false) ->
  ci_SQLType (fold_left parseTagOption opts col) = ci_SQLType col.
Proof.
  induction opts as [|o opts IH]; intros col H; [reflexivity|].
  cbn [fold_left]. rewrite IH by (intros; apply H; now right).
  apply parseTagOption_type, H. now left.
Qed.

(** X20.  The column of a field whose tag has the option [pk] (white
    space around an option does not count) is a primary key, NOT
    NULL and UNIQUE, wherever the option stands among the others.
    Its definition says PRIMARY KEY and UNIQUE and leaves NOT NULL
    out; and, unless an option gives a type, the column of an [int],
    [int32], [uint] or [uint32] field is SERIAL, that of an [int64]
    or [uint64] field BIGSERIAL. *)
Theorem X20_key_column_definition :
  forall fname ftype tag,
    tag <> "" ->
    (exists opt, In opt (tl (Split_comma tag)) /\ TrimSpace opt = "pk") ->
    let col := parseColumnInfo fname ftype tag in
    ci_IsPrimaryKey col = true /\ ci_IsNotNull col = true /\
    ci_IsUnique col = true /\
    buildColumnDefinition col =
      Join ([ci_Name col; ci_SQLType col; "PRIMARY KEY"; "UNIQUE"]
            ++ match ci_DefaultValue col with
               | Some d => ["DEFAULT"; d]
               | None => []
               end)%list " " /\
    ((forall opt, In opt (tl (Split_comma tag)) ->
        HasPrefix (TrimSpace opt) "type:" = false) ->
     match kind_of ftype with
     | Int | Int32 | Uint | Uint32 => ci_SQLType col = "SERIAL"
     | Int64 | Uint64 => ci_SQLType col = "BIGSERIAL"
     | _ => True
     end).
Proof.
  intros fname ftype tag Hne Hpk col.
  apply String.eqb_neq in Hne.
  set (c0 := {| ci_Name := hd "" (Split_comma tag);
                ci_GoType := type_string ftype; ci_SQLType := "";
                ci_IsPrimaryKey := false; ci_IsNotNull := false;
                ci_IsUnique := false; ci_DefaultValue := None; ci_Size := 0 |}).
  set (c1 := fold_left parseTagOption (tl (Split_comma tag)) c0).
  destruct (options_pk _ c0 Hpk) as (H1 & H2 & H3). fold c1 in H1, H2, H3.
  assert (Hcol : col = if String.eqb (ci_SQLType c1) ""
                       then {| ci_Name := ci_Name c1; ci_GoType := ci_GoType c1;
                               ci_SQLType := goTypeToSQLType ftype c1;
                               ci_IsPrimaryKey := ci_IsPrimaryKey c1;
                               ci_IsNotNull := ci_IsNotNull c1;
                               ci_IsUnique := ci_IsUnique c1;
                               ci_DefaultValue := ci_DefaultValue c1;
                               ci_Size := ci_Size c1 |}
                       else c1).
  { unfold col, parseColumnInfo. rewrite Hne. reflexivity. }
  assert (Hflags : ci_IsPrimaryKey col = true /\ ci_IsNotNull col = true /\
                   ci_IsUnique col = true).
  { rewrite Hcol. destruct (String.eqb (ci_SQLType c1) ""); cbn; auto. }
  destruct Hflags as (F1 & F2 & F3).
  split; [exact F1|]. split; [exact F2|]. split; [exact F3|]. split.
  - unfold buildColumnDefinition. rewrite F1, F2, F3. cbn [andb negb app].
    now destruct (ci_DefaultValue col).
  - intros Hty. pose proof (options_type _ c0 Hty) as Hs. fold c1 in Hs.
    cbn [ci_SQLType c0] in Hs. rewrite Hcol, Hs. cbn [String.eqb ci_SQLType].
    unfold goTypeToSQLType.
    destruct (kind_of ftype) eqn:Hk; try exact I;
      assert (Ht : is_time ftype = false)
        by (destruct ftype; try reflexivity; discriminate);
      rewrite Ht, Hk, H1; reflexivity.
Qed.

(** The key of the patients of the demo. *)
Lemma X20_key_column_definition_witness :
  buildColumnDefinition (parseColumnInfo "ID" (TBasic Int "int") "id,pk")
    = "id SERIAL PRIMARY KEY UNIQUE".
Proof.
  destruct (X20_key_column_definition "ID" (TBasic Int "int") "id,pk")
    as (_ & _ & _ & Hdef & Hser).
  - discriminate.
  - exists "pk". split; [now left|reflexivity].
  - rewrite Hdef. cbn zeta in Hser. rewrite Hser.
    + reflexivity.
    + intros opt [<-|[]]. reflexivity.
Defined.

(** X21.  [AutoMigrate] creates the tables one by one, in the order
    of its arguments and outside any transaction, and stops at the
    first statement the database refuses: the tables before it stay
    created, the ones after it are not attempted, and the error
    names the table that failed.  It touches neither the entities
    nor the tracker. *)
Theorem X21_auto_migrate :
  forall E entities w r w',
    AutoMigrate E entities w = (r, w') ->
    heap w' = heap w /\ entries w' = entries w /\ trace w' = trace w /\
    open_txs (conn w') = open_txs (conn w) /\
    exists k,
      durable (conn w') =
        (durable (conn w)
         ++ map (fun t => {| sql := BuildCreateTableSQL (ParseSchema t);
                             args := [] |}) (firstn k entities))%list /\
      match r with
      | None => k = List.length entities
      | Some table =>
          exists t, nth_error entities k = Some t /\
                    table = si_Table (ParseSchema t) /\
                    env_exec E (conn w')
                      {| sql := BuildCreateTableSQL (ParseSchema t); args := [] |}
                    = None
      end.
Proof.
  intros E entities. induction entities as [|t ts IH]; intros w r w' H.
  - cbn in H. inversion H; subst. repeat split. exists 0%nat. cbn.
    now rewrite app_nil_r.
  - cbn [AutoMigrate] in H. unfold conn_exec in H.
    destruct (env_exec E (conn w) _) as [n|] eqn:Hx.
    + apply IH in H. cbn [heap entries trace conn with_conn open_txs durable] in H.
      destruct H as (Hh & He & Ht & Ho & k & Hd & Hr).
      repeat split; try assumption.
      exists (S k). cbn [firstn map]. rewrite Hd, <- app_assoc. split; [reflexivity|].
      destruct r as [table|]; [exact Hr|cbn; now rewrite Hr].
    + inversion H; subst. repeat split. exists 0%nat. cbn. rewrite app_nil_r.
      split; [reflexivity|]. exists t. repeat split. exact Hx.
Qed.

(** The table of the demo is created. *)
Lemma X21_auto_migrate_witness :
  exists w',
    AutoMigrate (obliging []) [Patient] empty_world = (None, w') /\
    durable (conn w') =
      [{| sql := BuildCreateTableSQL (ParseSchema Patient); args := [] |}].
Proof.
  pose (w' := snd (AutoMigrate (obliging []) [Patient] empty_world)).
  assert (H : AutoMigrate (obliging []) [Patient] empty_world = (None, w'))
    by (vm_compute; reflexivity).
  destruct (X21_auto_migrate (obliging []) [Patient] empty_world None w' H)
    as (_ & _ & _ & _ & k & Hd & Hk).
  exists w'. split; [exact H|]. rewrite Hd, Hk. reflexivity.
Defined.

(** ** Immediate inserts (entity_builder.go) *)

(** With a key field that has a name, the loop of [Insert] is the
    loop of [executeInsert] for an entry with that key field. *)
Lemma Insert_loop_entry t v pkf e cs : forall i acc,
  pkf <> "" -> pkField e = pkf -> entityType e = t ->
  Insert_loop t v pkf cs i acc = insert_loop e v cs i acc.
Proof.
  induction cs as [|c cs IH]; intros i [[cols vals] phs] Hne Hp Ht; [reflexivity|].
  cbn [Insert_loop insert_loop]. rewrite Hp, Ht.
  apply String.eqb_neq in Hne. rewrite Hne. cbn [negb andb].
  apply String.eqb_neq in Hne.
  rewrite !IH by assumption. reflexivity.
Qed.

Lemma first_pk_field_spec fs v : forall i0,
  match first_pk_field fs with
  | Some (nm, col) =>
      exists j f,
        nth_error fs j = Some f /\ containsPK (Tag f) = true /\
        nm = Name f /\ col = before_comma (Tag f) /\
        first_pk fs v i0 = Some (nm, Field v (i0 + j))
  | None => first_pk fs v i0 = None
  end.
Proof.
  induction fs as [|f fs IH]; intros i0; [reflexivity|].
  cbn [first_pk_field first_pk].
  destruct (containsPK (Tag f)) eqn:Hpk.
  - exists 0%nat, f. rewrite Nat.add_0_r, Split_comma_hd. repeat split. exact Hpk.
  - specialize (IH (S i0)). destruct (first_pk_field fs) as [[nm col]|].
    + destruct IH as (j & g & Hn & Hg & Hnm & Hcol & Hf).
      exists (S j), g. replace (i0 + S j)%nat with (S i0 + j)%nat by lia.
      repeat split; assumption.
    + exact IH.
Qed.

Lemma nth_error_field t j f :
  nth_error (Fields t) j = Some f -> (j < NumField t)%nat /\ TypeField t j = f.
Proof.
  intros H. split.
  - apply nth_error_Some. unfold NumField. congruence.
  - unfold TypeField. now apply nth_error_nth.
Qed.

(** The key of an entity whose type has a field tagged [pk]. *)
Lemma primary_key_of_tagged v nm col i :
  type_ok (type_of v) ->
  first_pk_field (Fields (type_of v)) = Some (nm, col) -> nm <> "" ->
  FieldByName (type_of v) nm = Some i ->
  primary_key_of v = Field v i /\
  pkField (newEntityEntry (fun _ => v) 0%nat Detached) = nm /\
  getPKColumnName (type_of v) nm = col.
Proof.
  intros Hok Hf Hne Hi.
  pose proof (first_pk_field_spec (Fields (type_of v)) v 0) as Hs.
  rewrite Hf in Hs. destruct Hs as (j & f & Hn & Hpk & Hnm & Hcol & Hfp).
  destruct (nth_error_field _ _ _ Hn) as [Hj Hfj].
  destruct (FieldByName_spec _ _ _ Hi) as [Hil Hin].
  assert (i = j) by (apply (field_name_inj (type_of v)); try assumption;
                     rewrite Hfj; congruence).
  subst j.
  assert (Hpkf : pkField (newEntityEntry (fun _ => v) 0%nat Detached) = nm).
  { unfold newEntityEntry, captureMetadata. cbn [Entity pkField pkValue].
    rewrite Hfp. apply String.eqb_neq in Hne. now rewrite Hne. }
  split; [|split; [exact Hpkf|]].
  - unfold primary_key_of, GetPrimaryKey. rewrite Hpkf.
    apply String.eqb_neq in Hne. rewrite Hne.
    cbn beta. now rewrite Hi.
  - unfold getPKColumnName. rewrite Hi, Hfj.
    pose proof (containsPK_nonempty _ Hpk) as Ht. apply String.eqb_neq in Ht.
    now rewrite Ht.
Qed.

Lemma drop_nth_fresh (cs : list string) i c :
  NoDup cs -> nth_error cs i = Some c ->
  existsb (fun col => String.eqb col c) (drop_nth i cs) = false.
Proof.
  intros Hnd Hn.
  destruct (existsb _ _) eqn:Hex; [|reflexivity].
  apply existsb_exists in Hex. destruct Hex as (x & Hin & Hx).
  apply String.eqb_eq in Hx. subst x. exfalso.
  pose proof (firstn_skipn_middle i cs Hn) as Hsplit.
  rewrite <- Hsplit in Hnd. apply NoDup_remove_2 in Hnd. now apply Hnd.
Qed.

(** X22.  An entity inserted at once is found again by its key.  For
    an entity of a type all of whose fields are columns (none carries
    the tag [-]), whose key field, tagged [pk], holds the zero value:
    [Insert] sends the INSERT to the connection (it is durable at
    once), writes the generated key into the entity and tracks the
    entity as Unchanged under that key; [Find] with the key then
    returns this very instance from the tracker and asks the database
    nothing.  (The database generates keys that fit the key field and
    are not zero; the columns of the type have distinct names.) *)
Theorem X22_insert_then_find :
  forall E p w w' nm col i,
    let v := heap w p in
    let t := type_of v in
    type_ok t -> all_mapped t = true -> NoDup (Columns (ParseModel t)) ->
    first_pk_field (Fields t) = Some (nm, col) -> nm <> "" -> col <> "" ->
    FieldByName t nm = Some i ->
    (i < List.length (field_values v))%nat ->
    isZeroValue (Field v i) = Some true ->
    generates_keys E (FieldKind (TypeField t i)) ->
    Insert E p w = (Inserted, w') ->
    exists x e s,
      Field (heap w' p) i = x /\ isZeroValue x = Some false /\
      durable (conn w') = (durable (conn w) ++ [s])%list /\
      args s = drop_nth i (map (Field v) (seq 0 (NumField t))) /\
      GetEntryByKey t x w' = Some e /\ Entity e = p /\ State e = Unchanged /\
      forall q, q_type q = t -> Find E q x w' = (Ok (Some p), q, w').
Proof.
  intros E p w w' nm col i v t Hok Hmap Hnd Hfirst Hne Hcne Hi Hlen Hz Hgen H.
  unfold Insert in H. fold v in H. fold t in H. rewrite Hfirst in H.
  pose proof Hne as Hneb. apply String.eqb_neq in Hneb. rewrite Hneb in H.
  pose proof Hcne as Hcneb. apply String.eqb_neq in Hcneb.
  set (e0 := {| Entity := p; State := Added; OriginalValues := [];
                entityType := t; pkField := nm; pkValue := VNil |}).
  rewrite (Insert_loop_entry t v nm e0) in H by (try assumption; reflexivity).
  destruct (FieldByName_spec _ _ _ Hi) as [Hil Hin].
  pose proof (model_columns_length t Hmap) as Hcl.
  rewrite (insert_loop_zero_key e0 v (Columns (ParseModel t)) i) in H;
    [|now rewrite Hcl
     |intros j Hj; rewrite Hcl in Hj; now apply (pk_test_index e0 t i)
     |exact Hz].
  destruct (primary_key_of_tagged v nm col i Hok Hfirst Hne Hi) as (_ & _ & Hcol).
  fold t in Hcol.
  assert (Hnth : nth_error (Columns (ParseModel t)) i = Some col).
  { rewrite <- Hcol, <- (key_column t nm i Hmap Hi).
    apply nth_error_nth'. now rewrite Hcl. }
  rewrite (drop_nth_fresh _ _ _ Hnd Hnth), Hcneb in H. cbn [negb andb] in H.
  rewrite ?Hneb in H. cbn [negb andb] in H.
  rewrite Hcl in H.
  set (s := {| sql := _; args := _ |}) in H.
  unfold conn_query_row in H.
  destruct (env_query_row E (conn w) s) as [newPK|] eqn:Hrow; [|discriminate].
  destruct (Hgen _ _ _ Hrow) as (Hnil & x & Hconv & Hnz).
  unfold setPKValue in H. cbn [heap with_conn log] in H.
  fold v in H. fold t in H. rewrite Hi, Hconv in H.
  assert (Hset : match newPK with
                 | VNil => None
                 | _ => Some (store (heap w) p (SetField v i x))
                 end = Some (store (heap w) p (SetField v i x)))
    by (destruct newPK; try reflexivity; contradiction).
  rewrite Hset in H. clear Hset.
  set (w2 := with_heap _ _) in H.
  assert (Hv2 : heap w2 p = SetField v i x) by apply store_same.
  assert (Hpk2 : primary_key_of (heap w2 p) = x).
  { destruct (primary_key_of_tagged (heap w2 p) nm col i) as (-> & _);
      rewrite ?Hv2; try assumption.
    now rewrite Field_SetField, Nat.eqb_refl. }
  rewrite (Track_key p Unchanged w2) in H by (now rewrite Hpk2).
  rewrite Hpk2, Hv2 in H. cbn [type_of SetField] in H. fold t in H.
  assert (Hd2 : durable (conn w2) = (durable (conn w) ++ [s])%list) by reflexivity.
  set (ent := newEntityEntry (heap w2) p Unchanged) in *.
  destruct (newEntityEntry_facts (heap w2) p Unchanged) as (HE & HS & _).
  fold ent in HE, HS. clearbody ent. clearbody w2.
  set (key := TypeName t ++ ":" ++ fmt_v x) in *.
  assert (Hw : with_entries w2 (map_set key ent (entries w2)) = w') by congruence.
  clear H. subst w'.
  assert (Hget : GetEntryByKey t x (with_entries w2 (map_set key ent (entries w2)))
                 = Some ent).
  { unfold GetEntryByKey. cbn [entries with_entries]. fold key.
    now rewrite map_get_set, String.eqb_refl. }
  exists x, ent, s.
  split; [cbn [heap with_entries]; rewrite Hv2;
          now rewrite Field_SetField, Nat.eqb_refl|].
  split; [exact Hnz|]. split; [exact Hd2|]. split; [reflexivity|].
  split; [exact Hget|]. split; [exact HE|]. split; [exact HS|].
  intros q Hq. unfold Find. rewrite Hq, Hget. cbn [heap with_entries].
  rewrite HE, Hv2. cbn [type_of SetField]. fold t.
  now rewrite StructType_eqb_refl.
Qed.

(** The new patient of the demo, inserted at once. *)
Lemma X22_insert_then_find_witness :
  exists w',
    Insert (obliging []) 2%nat (snd (new (patient 0 "Milica2" 30) milica_world))
      = (Inserted, w') /\
    Field (heap w' 2%nat) 0 = VInt 2 /\
    Find (obliging []) (newQuery Patient) (VInt 2) w'
      = (Ok (Some 2%nat), newQuery Patient, w').
Proof.
  pose (w := snd (new (patient 0 "Milica2" 30) milica_world)).
  pose (w' := snd (Insert (obliging []) 2%nat w)).
  assert (H : Insert (obliging []) 2%nat w = (Inserted, w'))
    by (vm_compute; reflexivity).
  pose proof (X22_insert_then_find (obliging []) 2%nat w w' "ID" "id" 0%nat)
    as Hthm.
  cbv zeta in Hthm.
  destruct Hthm as (x & e & s & Hx & _ & _ & _ & _ & _ & _ & Hfind);
    [apply Patient_ok | reflexivity
    | repeat constructor; cbn; intuition discriminate
    | reflexivity | discriminate | discriminate | reflexivity
    | cbn; lia | reflexivity | apply obliging_generates | exact H |].
  exists w'. split; [exact H|].
  assert (Hx2 : x = VInt 2) by (rewrite <- Hx; vm_compute; reflexivity).
  rewrite Hx2 in Hx, Hfind. split; [exact Hx|]. now apply Hfind.
Defined.

(** ** Marking entities (db.go) *)

(** What [Update] and [Remove] do to the tracker. *)
Lemma mark_facts E st p w key e w1 :
  fair_range E -> tracker_ok w ->
  mark E st p w = Some (key, e, w1) ->
  State e = st /\ map_get key (entries w1) = Some e /\
  entries w1 = map_set key e (entries w) /\
  heap w1 = heap w /\ conn w1 = conn w /\ trace w1 = trace w /\
  tracker_ok w1 /\
  ((exists e0, GetEntry E site_GetEntry p w = Some (Some (key, e0)) /\
               map_get key (entries w) = Some e0 /\ e = set_State e0 st) \/
   (GetEntry E site_GetEntry p w = Some None /\
    map_get key (entries w) = None /\ e = newEntityEntry (heap w) p st)).
Proof.
  intros Hfair Hok H. unfold mark in H.
  destruct (GetEntry E site_GetEntry p w) as [[[k0 e0]|]|] eqn:HG; [| |discriminate].
  - inversion H; subst. clear H. cbn [heap conn trace entries with_entries].
    split; [reflexivity|]. split; [now rewrite map_get_set, String.eqb_refl|].
    repeat split; [now apply map_set_NoDup|].
    left. exists e0. repeat split.
    apply In_map_get; [exact Hok|now apply (GetEntry_found E site_GetEntry p)].
  - destruct (GetEntry_untracked E _ p w Hfair HG) as (_ & key0 & Hk0 & Hfree).
    destruct (Track_facts _ _ _ _ _ _ H) as (He & Hh & _ & Hc & Ht & Hes & Hget).
    assert (key0 = key).
    { unfold Track in H. rewrite (entity_key (heap w) p st Detached), Hk0 in H.
      now inversion H. }
    subst key0.
    split; [rewrite He; apply newEntityEntry_facts|].
    repeat split; try assumption.
    + eapply Track_ok; eassumption.
    + right. auto.
Qed.

(** What follows the first loop of the flush only adds to the
    history. *)
Lemma flush_rest_trace E tx aff w r w' :
  and_then
    (run_entries (executeInsert E tx) ActInsert
       (EntriesByState E site_Added Added w) aff w)
    (fun affected w =>
  and_then
    (run_entries (executeUpdate E tx) ActUpdate
       (EntriesByState E site_Modified Modified w) affected w)
    (fun affected w =>
     run_unchanged E tx
       (EntriesByState E site_Unchanged Unchanged w) affected w)) = (r, w') ->
  exists evs, trace w' = (trace w ++ evs)%list.
Proof.
  intros H.
  destruct (run_entries (executeInsert E tx) ActInsert _ aff w) as [r1 x1] eqn:H1.
  destruct (run_entries_trace _ _ _ _ _ _ _ (executeInsert_effect E tx) H1)
    as (evs1 & _ & T1 & _).
  destruct r1 as [a1| |]; cbn [and_then] in H;
    try (inversion H; subst; now exists evs1).
  destruct (run_entries (executeUpdate E tx) ActUpdate _ a1 x1) as [r2 x2] eqn:H2.
  destruct (run_entries_trace _ _ _ _ _ _ _ (executeUpdate_entry E tx) H2)
    as (evs2 & _ & T2 & _).
  destruct r2 as [a2| |]; cbn [and_then] in H;
    try (inversion H; subst; exists (evs1 ++ evs2)%list;
         now rewrite T2, T1, <- app_assoc).
  destruct (run_unchanged_trace _ _ _ _ _ _ _ H) as (_ & _ & evs3 & _ & T3 & _).
  exists (evs1 ++ evs2 ++ evs3)%list. now rewrite T3, T2, T1, <- !app_assoc.
Qed.

(** A flush that succeeds has sent the DELETE of every entry that was
    Deleted when its loops began, with the key the entity had then. *)
Lemma flush_delete_event E h wb n wf key e :
  fair_range E -> tracker_ok wb ->
  map_get key (entries wb) = Some e -> State e = Deleted ->
  flush_statements E h wb = (Saved n, wf) ->
  let t := type_of (heap wb (Entity e)) in
  exists evs k,
    trace wf = (trace wb ++ evs)%list /\
    In (EvTxExec h (Entity e)
          {| sql := "DELETE FROM " ++ Table (ParseModel t) ++ " WHERE "
                    ++ getPKColumnName t (pkField e) ++ " = $1";
             args := [GetPrimaryKey (heap wb) e] |} (Some k)) evs.
Proof.
  intros Hfair Hok Hget Hst Hf t. unfold flush_statements in Hf.
  set (s := {| sql := "DELETE FROM " ++ Table (ParseModel t) ++ " WHERE "
                      ++ getPKColumnName t (pkField e) ++ " = $1";
               args := [GetPrimaryKey (heap wb) e] |}).
  destruct (run_entries (executeDelete E h) ActDelete _ 0 wb) as [r1 x1] eqn:H1.
  destruct r1 as [a1| |]; cbn [and_then] in Hf; try discriminate.
  assert (HQ : exists evs k, trace x1 = (trace wb ++ evs)%list /\
                             In (EvTxExec h (Entity e) s (Some k)) evs).
  { apply (run_entries_saved
             (fun x => heap x = heap wb /\
                       exists evs, trace x = (trace wb ++ evs)%list)
             (fun x => exists evs k, trace x = (trace wb ++ evs)%list /\
                                     In (EvTxExec h (Entity e) s (Some k)) evs)
             _ _ _ key e _ _ _ _ H1).
    - left. now apply EntriesByState_In.
    - split; [reflexivity|]. exists []. now rewrite app_nil_r.
    - intros k' e' w1 r1 w2 _ (Hh & evs & Ht) Hx.
      apply executeDelete_effect in Hx as ((_ & _ & _ & _ & evs' & Ht' & _) & Hh').
      cbn [heap trace log] in Hh', Ht'. split; [congruence|].
      exists (evs ++ EvProcess ActDelete k' :: evs')%list.
      rewrite Ht', Ht, <- !app_assoc. reflexivity.
    - intros w1 m w2 (Hh & evs & Ht) Hx. unfold executeDelete in Hx.
      cbn [heap log] in Hx. rewrite Hh in Hx. fold t in Hx. fold s in Hx.
      destruct (tx_exec E h (Entity e) s _) as [[k|] wx] eqn:Hq; [|discriminate].
      inversion Hx; subst. apply tx_exec_facts in Hq as (_ & _ & _ & Htr).
      cbn [trace log] in Htr.
      exists (evs ++ [EvProcess ActDelete key; EvTxExec h (Entity e) s (Some m)])%list, m.
      split; [rewrite Htr, Ht, <- !app_assoc; reflexivity|].
      apply in_or_app. right. right. now left.
    - intros k' e' w1 m w2 _ _ (evs & k & Ht & Hin) Hx.
      apply executeDelete_effect in Hx as ((_ & _ & _ & _ & evs' & Ht' & _) & _).
      cbn [trace log] in Ht'.
      exists (evs ++ EvProcess ActDelete k' :: evs')%list, k.
      split; [rewrite Ht', Ht, <- !app_assoc; reflexivity|].
      apply in_or_app. now left. }
  destruct HQ as (evs & k & Ht & Hin).
  destruct (flush_rest_trace _ _ _ _ _ _ Hf) as (evs' & Ht').
  exists (evs ++ evs')%list, k. split; [now rewrite Ht', Ht, <- app_assoc|].
  apply in_or_app. now left.
Qed.

Lemma DetectChanges_deleted h e : State e = Deleted -> DetectChanges h e = e.
Proof. intros Hs. unfold DetectChanges. now rewrite Hs. Qed.

(** X23.  [Remove] leaves the entity in the tracker as Deleted: an
    entry it already had keeps its key and its snapshot, an untracked
    entity is tracked first.  A flush that then succeeds has sent
    [DELETE FROM table WHERE key column = $1] for it on its
    transaction, with the key the entity holds, and the tracker has no
    entry under that key afterwards. *)
Theorem X23_remove_then_flush :
  forall E p w key e w1,
    fair_range E -> tracker_ok w ->
    Remove E p w = Some (key, e, w1) ->
    State e = Deleted /\ map_get key (entries w1) = Some e /\
    heap w1 = heap w /\ conn w1 = conn w /\ trace w1 = trace w /\
    (forall e0, map_get key (entries w) = Some e0 -> e = set_State e0 Deleted) /\
    (map_get key (entries w) = None -> e = newEntityEntry (heap w) p Deleted) /\
    forall tx n w2,
      SaveChangesContext E tx w1 = (Saved n, w2) ->
      map_get key (entries w2) = None /\
      let t := type_of (heap w (Entity e)) in
      exists h k evs,
        (forall h0, tx = Some h0 -> h = h0) /\
        trace w2 = (trace w1 ++ evs)%list /\
        In (EvTxExec h (Entity e)
              {| sql := "DELETE FROM " ++ Table (ParseModel t) ++ " WHERE "
                        ++ getPKColumnName t (pkField e) ++ " = $1";
                 args := [GetPrimaryKey (heap w) e] |} (Some k)) evs.
Proof.
  intros E p w key e w1 Hfair Hok HR. unfold Remove in HR.
  destruct (mark_facts _ _ _ _ _ _ _ Hfair Hok HR)
    as (Hs & Hg & _ & Hh & Hc & Ht & Hok1 & Hcase).
  repeat (split; [assumption|]).
  split.
  { intros e0 H0. destruct Hcase as [(e1 & _ & H1 & ->)|(_ & H1 & _)]; congruence. }
  split.
  { intros H0. destruct Hcase as [(e1 & _ & H1 & _)|(_ & _ & ->)]; congruence. }
  intros tx n w2 HS.
  split.
  { destruct (flush_success_state _ _ _ _ _ Hfair Hok1 HS) as (_ & _ & Hk).
    rewrite Hk, Hg, Hs. reflexivity. }
  intros t.
  destruct (SaveChangesContext_inv _ _ _ _ _ HS) as [(_ & Hr & _)|Hrun];
    [discriminate|].
  destruct Hrun as (h & ownTx & wb & rf & wf & Hb & Hf & Hend).
  destruct (SaveChangesContext_trace E tx w1 (Saved n) w2 h ownTx wb rf wf Hb Hend)
    as ((Hhb & Heb & pre & Tb & _) & (_ & post & Tp & _) & Hrf).
  rewrite (Hrf n eq_refl) in Hf.
  assert (Hokb : tracker_ok wb).
  { unfold tracker_ok. rewrite Heb. now apply DetectChanges_all_ok. }
  assert (Hgb : map_get key (entries wb) = Some e).
  { rewrite Heb, (DetectChanges_all_get E _ w1 key Hfair Hok1), Hg.
    cbn [option_map]. now rewrite DetectChanges_deleted. }
  destruct (flush_delete_event E h wb n wf key e Hfair Hokb Hgb Hs Hf)
    as (evs & k & Tf & Hin).
  rewrite Hhb, Hh in Hin. fold t in Hin.
  exists h, k, (EvDetectChanges :: pre ++ evs ++ post)%list.
  split.
  { intros h0 Htx. destruct Hb as [(Hb & _)|(Hb & _)]; congruence. }
  split.
  { rewrite Tp, Tf, Tb, <- !app_assoc. reflexivity. }
  right. apply in_or_app. right. apply in_or_app. now left.
Qed.

Lemma X23_remove_then_flush_witness :
  exists key e w1,
    Remove (obliging []) 1%nat (tracked 1%nat Unchanged milica_world)
      = Some (key, e, w1) /\
    State e = Deleted /\ map_get key (entries w1) = Some e /\
    map_get key (entries (snd (SaveChangesContext (obliging []) None w1))) = None.
Proof.
  destruct (Remove (obliging []) 1%nat (tracked 1%nat Unchanged milica_world))
    as [[[key e] w1]|] eqn:HR; [|vm_compute in HR; discriminate].
  assert (Hok : tracker_ok (tracked 1%nat Unchanged milica_world)).
  { unfold tracker_ok. vm_compute. repeat constructor. intros []. }
  destruct (X23_remove_then_flush (obliging []) 1%nat _ key e w1
              (obliging_fair []) Hok HR) as (Hs & Hg & _ & _ & _ & _ & _ & Hflush).
  exists key, e, w1. split; [reflexivity|]. split; [exact Hs|]. split; [exact Hg|].
  assert (HS : exists n, SaveChangesContext (obliging []) None w1
                         = (Saved n, snd (SaveChangesContext (obliging []) None w1))).
  { vm_compute in HR. inversion HR; subst. exists 1. vm_compute. reflexivity. }
  destruct HS as (n & HS). now destruct (Hflush None n _ HS).
Defined.

(** ** Ranges of entities (change_tracker.go, db.go) *)

Lemma find_snoc {A} (f : A -> bool) l x :
  find f (l ++ [x]) =
  match find f l with
  | Some y => Some y
  | None => if f x then Some x else None
  end.
Proof.
  induction l as [|a l IH]; cbn; [reflexivity|].
  destruct (f a); [reflexivity|exact IH].
Qed.

(** [TrackRange] over a slice: it stops at the first entity for which
    [makeKey] panics; otherwise the entry under a key is the one of
    the last entity of the slice that has this key. *)
Lemma track_each_spec st : forall ps w,
  match track_each ps st w with
  | Some w' =>
      heap w' = heap w /\ conn w' = conn w /\ trace w' = trace w /\
      next_ptr w' = next_ptr w /\
      (tracker_ok w -> tracker_ok w') /\
      forall k,
        map_get k (entries w') =
        match find (fun p => match key_of (heap w) p with
                             | Some k' => String.eqb k' k
                             | None => false
                             end) (rev ps) with
        | Some p => Some (newEntityEntry (heap w) p st)
        | None => map_get k (entries w)
        end
  | None => exists p, In p ps /\ key_of (heap w) p = None
  end.
Proof.
  induction ps as [|p ps IH]; intros w; cbn [track_each].
  - repeat split; auto.
  - destruct (Track p st w) as [[[key e] w1]|] eqn:HT.
    + destruct (Track_facts _ _ _ _ _ _ HT) as (He & Hh & Hn & Hc & Ht & Hes & _).
      assert (Hkey : key_of (heap w) p = Some key).
      { unfold Track in HT. unfold key_of.
        rewrite (entity_key (heap w) p Detached st).
        destruct (makeKey _ _ _); [now inversion HT|discriminate]. }
      specialize (IH w1). destruct (track_each ps st w1) as [w'|].
      * destruct IH as (Hh' & Hc' & Ht' & Hn' & Hok' & Hget).
        repeat split; try congruence.
        -- intros Hok. apply Hok'. eapply Track_ok; eassumption.
        -- intros k. rewrite Hget, Hh. cbn [rev]. rewrite find_snoc.
           destruct (find _ (rev ps)); [reflexivity|].
           rewrite Hes, map_get_set, Hkey.
           destruct (String.eqb key k); [now rewrite He|reflexivity].
      * destruct IH as (q & Hin & Hq). exists q. split; [now right|].
        now rewrite <- Hh.
    + exists p. split; [now left|]. unfold Track in HT. unfold key_of.
      rewrite (entity_key (heap w) p Detached st).
      destruct (makeKey _ _ _); [discriminate|reflexivity].
Qed.

Lemma AddRange_track_each : forall ps w, AddRange ps w = track_each ps Added w.
Proof.
  induction ps as [|p ps IH]; intros w; cbn [AddRange track_each]; [reflexivity|].
  unfold Add. destruct (Track p Added w) as [[[k e] w1]|]; [apply IH|reflexivity].
Qed.

(** When [TrackRange] returns, [makeKey] had a key for every entity
    of the slice. *)
Lemma track_each_keys st : forall ps w w',
  track_each ps st w = Some w' ->
  forall p, In p ps -> exists k, key_of (heap w) p = Some k.
Proof.
  induction ps as [|q ps IH]; intros w w' H p Hin; [destruct Hin|].
  cbn [track_each] in H.
  destruct (Track q st w) as [[[key e] w1]|] eqn:HT; [|discriminate].
  destruct (Track_facts _ _ _ _ _ _ HT) as (_ & Hh & _).
  destruct Hin as [<-|Hin].
  - exists key. unfold Track in HT. unfold key_of.
    rewrite (entity_key (heap w) q Detached st).
    destruct (makeKey _ _ _); [now inversion HT|discriminate].
  - rewrite <- Hh. now apply (IH w1 w').
Qed.

(** X24.  [AddRange] and [TrackRange] with state Added do the same to
    the tracker.  [TrackRange], in whatever state, touches nothing
    but the tracker; afterwards the entry under a key is the entry, in
    that state, of the last entity of the slice that has this key, so
    of two entities with the same non-zero key only the later one is
    tracked; other keys keep their entries.  The call panics exactly
    when one of the entities has a key for which [makeKey] panics:
    when it returns every entity of the slice has a key, and when it
    panics one of them has none. *)
Theorem X24_add_range :
  forall ps st w,
    AddRange ps w = TrackRange (Some ps) Added w /\
    match TrackRange (Some ps) st w with
    | Some w' =>
        (forall p, In p ps -> exists k, key_of (heap w) p = Some k) /\
        heap w' = heap w /\ conn w' = conn w /\ trace w' = trace w /\
        (tracker_ok w -> tracker_ok w') /\
        forall k,
          map_get k (entries w') =
          match find (fun p => match key_of (heap w) p with
                               | Some k' => String.eqb k' k
                               | None => false
                               end) (rev ps) with
          | Some p => Some (newEntityEntry (heap w) p st)
          | None => map_get k (entries w)
          end
    | None => exists p, In p ps /\ key_of (heap w) p = None
    end.
Proof.
  intros ps st w. split; [apply AddRange_track_each|].
  cbn [TrackRange]. pose proof (track_each_spec st ps w) as H.
  pose proof (track_each_keys st ps w) as Hk.
  destruct (track_each ps st w) as [w'|]; [|exact H].
  destruct H as (H1 & H2 & H3 & _ & H4 & H5).
  split; [exact (Hk w' eq_refl)|]. auto.
Qed.

(** ** An entity added and then updated (db.go) *)

(** An entry without a snapshot has no changed properties. *)
Lemma GetChangedProperties_no_snapshot h e :
  OriginalValues e = [] -> GetChangedProperties h e = [].
Proof.
  intros Ho. unfold GetChangedProperties.
  assert (H : forall v idxs acc, fold_left (changed_step e v) idxs acc = acc).
  { intros v idxs. induction idxs as [|i idxs IH]; intros acc; [reflexivity|].
    cbn [fold_left]. rewrite IH. unfold changed_step. now rewrite Ho. }
  destruct (State e); auto.
Qed.

Lemma newEntityEntry_Added h p : OriginalValues (newEntityEntry h p Added) = [].
Proof.
  unfold newEntityEntry.
  now destruct (captureMetadata_facts h
    {| Entity := p; State := Added; OriginalValues := [];
       entityType := {| TypeName := ""; Fields := [] |};
       pkField := ""; pkValue := VNil |}) as (_ & _ & -> & _).
Qed.

(** A flush sends no statement for an entity whose only entry is
    Modified and has no changed properties whatever the entity
    holds. *)
Lemma flush_skips_entity E p e w1 :
  fair_range E -> tracker_ok w1 ->
  (forall k' e', map_get k' (entries w1) = Some e' -> Entity e' = p -> e' = e) ->
  State e = Modified ->
  (forall h, GetChangedProperties h e = []) ->
  forall tx r w2, SaveChangesContext E tx w1 = (r, w2) ->
    heap w2 p = heap w1 p /\
    exists evs, trace w2 = (trace w1 ++ evs)%list /\
                forallb (fun ev => negb (stmt_for p ev)) evs = true.
Proof.
  intros Hfair Hok1 Honly HS Hclean tx r w2 Hsave.
  pose proof (DetectChanges_all_ok E w1 Hfair Hok1) as Hokd.
  set (wd := DetectChanges_all E site_DetectChanges w1) in *.
  assert (Hsole : forall k' e', map_get k' (entries wd) = Some e' ->
                    Entity e' = p -> e' = e).
  { intros k' e' Hg Hp. unfold wd in Hg.
    rewrite DetectChanges_all_get in Hg by assumption.
    destruct (map_get k' (entries w1)) as [e0|] eqn:Hg0; [|discriminate].
    cbn in Hg. inversion Hg; subst e'. rewrite DetectChanges_Entity in Hp.
    rewrite (Honly k' e0 Hg0 Hp). unfold DetectChanges. now rewrite HS. }
  apply SaveChangesContext_inv in Hsave. cbv zeta in Hsave. fold wd in Hsave.
  destruct Hsave as [(Htx & Hr & Hw)|(h & ownTx & wb & rf & wf & Hbegin & Hflush & Hend)].
  { rewrite Hw. split; [reflexivity|]. exists [EvDetectChanges; EvBegin false].
    cbn [trace log wd DetectChanges_all]. now rewrite <- app_assoc. }
  destruct (SaveChangesContext_trace E tx w1 r w2 h ownTx wb rf wf Hbegin Hend)
    as ((Hhb & Hewb & pre & Tb & _ & Bpre) & (Hhw & post & Tw & _ & Bpost) & _).
  fold wd in Hewb.
  assert (Hokb : tracker_ok wb) by (unfold tracker_ok; now rewrite Hewb).
  assert (Hinv : untouched p wb wf).
  { apply (flush_statements_inv (untouched p wb) E h wb rf wf Hfair Hokb Hflush).
    - apply untouched_refl.
    - intros k e' x r1 y Hg Hst Hx Hexec. rewrite Hewb in Hg.
      apply executeDelete_entry in Hexec.
      eapply untouched_foreign; [|exact Hx|exact Hexec].
      intros Hp. apply (Hsole k e' Hg) in Hp. subst e'. congruence.
    - intros k e' x r1 y Hg Hst Hx Hexec. rewrite Hewb in Hg.
      apply executeInsert_effect in Hexec.
      eapply untouched_foreign; [|exact Hx|exact Hexec].
      intros Hp. apply (Hsole k e' Hg) in Hp. subst e'. congruence.
    - intros k e' x r1 y Hg Hst Hx Hexec. rewrite Hewb in Hg.
      destruct (Nat.eq_dec (Entity e') p) as [Hp|Hp].
      + apply (Hsole k e' Hg) in Hp. subst e'.
        rewrite executeUpdate_clean in Hexec by apply Hclean.
        injection Hexec as _ <-. now apply untouched_log.
      + apply executeUpdate_entry in Hexec.
        eapply untouched_foreign; [exact Hp|exact Hx|exact Hexec]. }
  destruct Hinv as (Hh & evs & Tf & Sf). split.
  - rewrite Hhw, Hh, Hhb. reflexivity.
  - exists (EvDetectChanges :: pre ++ evs ++ post)%list.
    rewrite Tw, Tf, Tb, <- !app_assoc. split; [reflexivity|].
    cbn [forallb stmt_for negb andb].
    rewrite !forallb_app, Sf, (bookkeeping_not_stmt p pre Bpre),
      (bookkeeping_not_stmt p post Bpost). reflexivity.
Qed.

(** X25.  [Update] on an entity that [Add] has just tracked (no entry
    pointed to it before) turns its entry from Added into Modified;
    the entry has no snapshot, so it has no changed properties.  The
    next flush sends no statement for the entity, neither INSERT nor
    UPDATE, and when it succeeds the entity is tracked as Unchanged:
    it has not been inserted. *)
Theorem X25_add_then_update :
  forall E p w key e w1,
    fair_range E -> tracker_ok w ->
    (forall k e0, In (k, e0) (entries w) -> Entity e0 <> p) ->
    Add p w = Some (key, e, w1) ->
    State e = Added /\
    exists e' w2,
      Update E p w1 = Some (key, e', w2) /\
      e' = set_State e Modified /\
      map_get key (entries w2) = Some e' /\
      heap w2 = heap w /\ trace w2 = trace w /\
      (forall h, GetChangedProperties h e' = []) /\
      forall tx r w3,
        SaveChangesContext E tx w2 = (r, w3) ->
        heap w3 p = heap w p /\
        (exists evs, trace w3 = (trace w2 ++ evs)%list /\
                     forallb (fun ev => negb (stmt_for p ev)) evs = true) /\
        ((exists n, r = Saved n) ->
         exists e3, map_get key (entries w3) = Some e3 /\
                    Entity e3 = p /\ State e3 = Unchanged).
Proof.
  intros E p w key e w1 Hfair Hok Hnone HA. unfold Add in HA.
  destruct (Track_facts _ _ _ _ _ _ HA) as (He & Hh & _ & _ & Ht & Hes & Hg).
  destruct (newEntityEntry_facts (heap w) p Added) as (HE & HS & _).
  rewrite <- He in HE, HS. split; [exact HS|].
  assert (Hok1 : tracker_ok w1) by (eapply Track_ok; eassumption).
  assert (Honly1 : forall k' e', In (k', e') (entries w1) -> Entity e' = p ->
                                 (k', e') = (key, e)).
  { intros k' e' Hin Hp. rewrite Hes in Hin.
    apply In_map_set in Hin as [Heq|Hin]; [exact Heq|].
    now apply Hnone in Hin. }
  destruct (GetEntry_by_pointer E site_GetEntry p w1 key e Hfair
              (map_get_In _ _ _ Hg) HE) as (k' & e0 & HG & Hin & Hp).
  apply (Honly1 k' e0 Hin) in Hp. inversion Hp; subst k' e0.
  exists (set_State e Modified),
         (with_entries w1 (map_set key (set_State e Modified) (entries w1))).
  assert (Hclean : forall h, GetChangedProperties h (set_State e Modified) = []).
  { intros h. apply GetChangedProperties_no_snapshot. cbn [OriginalValues set_State].
    rewrite He. apply newEntityEntry_Added. }
  split; [unfold Update, mark; now rewrite HG|].
  split; [reflexivity|].
  split; [cbn [entries with_entries]; now rewrite map_get_set, String.eqb_refl|].
  split; [exact Hh|]. split; [exact Ht|]. split; [exact Hclean|].
  set (e' := set_State e Modified) in *.
  set (w2 := with_entries w1 (map_set key e' (entries w1))).
  assert (Hok2 : tracker_ok w2) by (apply map_set_NoDup, Hok1).
  assert (Hg2 : map_get key (entries w2) = Some e')
    by (cbn [entries with_entries w2]; now rewrite map_get_set, String.eqb_refl).
  assert (Honly2 : forall k' e0, map_get k' (entries w2) = Some e0 ->
                                 Entity e0 = p -> e0 = e').
  { intros k' e0 Hg0 Hp0. cbn [entries with_entries w2] in Hg0.
    rewrite map_get_set in Hg0.
    destruct (String.eqb key k') eqn:Hk; [congruence|].
    apply map_get_In in Hg0. apply (Honly1 k' e0 Hg0) in Hp0.
    inversion Hp0; subst k'. now rewrite String.eqb_refl in Hk. }
  intros tx r w3 HSv.
  destruct (flush_skips_entity E p e' w2 Hfair Hok2 Honly2 eq_refl Hclean tx r w3 HSv)
    as (Hh3 & Hevs).
  split; [rewrite Hh3; cbn [heap with_entries w2]; now rewrite Hh|].
  split; [exact Hevs|].
  intros (n & ->).
  destruct (flush_success_state _ _ _ _ _ Hfair Hok2 HSv) as (_ & _ & Hk).
  specialize (Hk key). rewrite Hg2 in Hk. cbn [State set_State e' EntityState_eqb] in Hk.
  eexists. split; [exact Hk|].
  destruct (AcceptChanges_facts (heap w3) (DetectChanges (heap w2) e')) as (-> & ->).
  split; [|reflexivity]. rewrite DetectChanges_Entity. exact HE.
Qed.

Lemma X25_add_then_update_witness :
  exists key e w1 e' w2,
    Add 1%nat milica_world = Some (key, e, w1) /\
    Update (obliging []) 1%nat w1 = Some (key, e', w2) /\
    State e' = Modified /\
    exists evs,
      trace (snd (SaveChangesContext (obliging []) None w2)) = (trace w2 ++ evs)%list /\
      forallb (fun ev => negb (stmt_for 1%nat ev)) evs = true.
Proof.
  destruct (Add 1%nat milica_world) as [[[key e] w1]|] eqn:HA;
    [|vm_compute in HA; discriminate].
  assert (Hok : tracker_ok milica_world) by constructor.
  destruct (X25_add_then_update (obliging []) 1%nat milica_world key e w1
              (obliging_fair []) Hok (fun k e0 (H : In (k, e0) []) => match H with end) HA)
    as (_ & e' & w2 & HU & -> & _ & _ & _ & _ & Hflush).
  exists key, e, w1, (set_State e Modified), w2.
  split; [reflexivity|]. split; [exact HU|]. split; [reflexivity|].
  destruct (Hflush None _ _ (surjective_pairing _)) as (_ & Hevs & _).
  exact Hevs.
Defined.

(** ** Immediate inserts with a key (entity_builder.go) *)

(** When the key field does not hold its zero value the loop takes
    every column. *)
Lemma insert_loop_all e v cs : forall k cols vals phs,
  (forall j, (j < List.length cs)%nat ->
     (negb (String.eqb (pkField e) "")
      && String.eqb (Name (TypeField (entityType e) (k + j))) (pkField e))%bool
     = true ->
     isZeroValue (Field v (k + j)) = Some false) ->
  insert_loop e v cs k (cols, vals, phs) =
  Some ((cols ++ cs)%list,
        (vals ++ map (Field v) (seq k (List.length cs)))%list,
        (phs ++ numbered (List.length vals) (List.length cs))%list).
Proof.
  unfold numbered.
  induction cs as [|c cs IH]; intros k cols vals phs Hpk.
  - cbn. now rewrite !app_nil_r.
  - cbn [insert_loop List.length seq map].
    pose proof (Hpk 0%nat ltac:(cbn; lia)) as H0. rewrite Nat.add_0_r in H0.
    assert (Hstep :
      insert_loop e v cs (S k)
        ((cols ++ [c])%list, (vals ++ [Field v k])%list,
         (phs ++ [("$" ++ fmt_d (len (vals ++ [Field v k])%list))%string])%list) =
      Some ((cols ++ c :: cs)%list,
            (vals ++ Field v k :: map (Field v) (seq (S k) (List.length cs)))%list,
            (phs ++ ("$" ++ fmt_d (Z.of_nat (List.length vals + 1)))%string
                 :: map (fun m => ("$" ++ fmt_d (Z.of_nat (List.length vals + m)))%string)
                        (seq 2 (List.length cs)))%list)).
    { rewrite IH.
      - rewrite <- !app_assoc. cbn [app].
        assert (Hhead : len (vals ++ [Field v k])%list
                        = Z.of_nat (List.length vals + 1))
          by (unfold len; rewrite length_app; reflexivity).
        assert (Htail :
                  map (fun m => "$" ++ fmt_d (Z.of_nat
                         (List.length (vals ++ [Field v k])%list + m)))
                      (seq 1 (List.length cs)) =
                  map (fun m => "$" ++ fmt_d (Z.of_nat (List.length vals + m)))
                      (seq 2 (List.length cs))).
        { rewrite <- (seq_shift (List.length cs) 1), map_map. apply map_ext.
          intros m. rewrite length_app. cbn [List.length].
          do 3 f_equal. lia. }
        now rewrite Hhead, Htail.
      - intros j Hj. specialize (Hpk (S j) ltac:(cbn; lia)).
        now replace (S k + j)%nat with (k + S j)%nat by lia. }
    destruct (negb _ && _)%bool; [rewrite (H0 eq_refl)|]; exact Hstep.
Qed.

(** X26.  For an entity of a type all of whose fields are columns
    (none carries the tag [-]), whose key field, tagged [pk], holds a
    value that is not zero: [Insert] sends one INSERT with every
    column, the key included, and no RETURNING clause; the
    placeholders are [$1 .. $n] for the [n] field values.  When the
    database accepts it the statement is durable at once, the entity
    is left as it is and is tracked as Unchanged under its key; when
    the database refuses it [Insert] returns the error as it is and
    nothing has changed. *)
Theorem X26_insert_with_key :
  forall E p w nm col i,
    let v := heap w p in
    let t := type_of v in
    let s := {| sql := "INSERT INTO " ++ Table (ParseModel t) ++ " ("
                       ++ Join (Columns (ParseModel t)) ", " ++ ") VALUES ("
                       ++ Join (numbered 0 (NumField t)) ", " ++ ")";
                args := map (Field v) (seq 0 (NumField t)) |} in
    type_ok t -> all_mapped t = true ->
    first_pk_field (Fields t) = Some (nm, col) -> nm <> "" ->
    FieldByName t nm = Some i ->
    isZeroValue (Field v i) = Some false ->
    match env_exec E (conn w) s with
    | Some _ =>
        exists e w',
          Insert E p w = (Inserted, w') /\
          heap w' = heap w /\ trace w' = trace w /\
          durable (conn w') = (durable (conn w) ++ [s])%list /\
          GetEntryByKey t (Field v i) w' = Some e /\
          Entity e = p /\ State e = Unchanged /\
          (forall k, k <> (TypeName t ++ ":" ++ fmt_v (Field v i))%string ->
                     map_get k (entries w') = map_get k (entries w))
    | None => Insert E p w = (InsertError false, w)
    end.
Proof.
  intros E p w nm col i v t s Hok Hmap Hfirst Hne Hi Hz.
  unfold Insert. fold v. fold t. rewrite Hfirst.
  pose proof Hne as Hneb. apply String.eqb_neq in Hneb. rewrite Hneb.
  set (e0 := {| Entity := p; State := Added; OriginalValues := [];
                entityType := t; pkField := nm; pkValue := VNil |}).
  rewrite (Insert_loop_entry t v nm e0) by (try assumption; reflexivity).
  destruct (FieldByName_spec _ _ _ Hi) as [Hil Hin].
  pose proof (model_columns_length t Hmap) as Hcl.
  rewrite (insert_loop_all e0 v (Columns (ParseModel t)) 0).
  2:{ intros j Hj Htest. rewrite Hcl in Hj. cbn [Nat.add] in *.
      rewrite (pk_test_index e0 t i eq_refl Hok Hne Hi j Hj) in Htest.
      apply Nat.eqb_eq in Htest. now subst j. }
  cbn [app List.length]. rewrite Hcl.
  destruct (primary_key_of_tagged v nm col i Hok Hfirst Hne Hi) as (Hpk & _ & Hcol).
  fold t in Hcol.
  assert (Hbranch :
    (negb (String.eqb nm "") && negb (String.eqb col "")
     && negb (existsb (fun c => String.eqb c col) (Columns (ParseModel t))))%bool
    = false).
  { rewrite Hneb. cbn [negb andb].
    destruct (String.eqb col "") eqn:Hc; [reflexivity|]. cbn [negb andb].
    assert (Hex : existsb (fun c => String.eqb c col) (Columns (ParseModel t)) = true).
    { apply existsb_exists. exists col. split; [|apply String.eqb_refl].
      rewrite <- Hcol, <- (key_column t nm i Hmap Hi).
      apply nth_In. now rewrite Hcl. }
    now rewrite Hex. }
  rewrite Hbranch. fold s. unfold conn_exec.
  destruct (env_exec E (conn w) s) as [n|]; [|reflexivity].
  set (w1 := with_conn w _).
  assert (Hh1 : heap w1 = heap w) by reflexivity.
  assert (Hz1 : isZeroValue (primary_key_of (heap w1 p)) = Some false).
  { rewrite Hh1. fold v. now rewrite Hpk. }
  rewrite (Track_key p Unchanged w1 Hz1). rewrite Hh1. fold v. fold t. rewrite Hpk.
  destruct (newEntityEntry_facts (heap w) p Unchanged) as (HE & HS & _).
  exists (newEntityEntry (heap w) p Unchanged). eexists. split; [reflexivity|].
  cbn [heap trace conn entries with_entries with_conn w1 durable].
  split; [reflexivity|]. split; [reflexivity|]. split; [reflexivity|].
  split; [unfold GetEntryByKey; cbn [entries with_entries];
          now rewrite map_get_set, String.eqb_refl|].
  split; [exact HE|]. split; [exact HS|].
  intros k Hk. rewrite map_get_set.
  destruct (String.eqb _ k) eqn:Hkk; [|reflexivity].
  apply String.eqb_eq in Hkk. congruence.
Qed.

Lemma X26_insert_with_key_witness :
  exists e w',
    Insert (obliging []) 1%nat milica_world = (Inserted, w') /\
    GetEntryByKey Patient (VInt 1) w' = Some e /\ State e = Unchanged.
Proof.
  pose proof (X26_insert_with_key (obliging []) 1%nat milica_world "ID" "id" 0%nat)
    as Hthm.
  cbv zeta in Hthm.
  assert (Hm := Hthm Patient_ok eq_refl eq_refl
                  (fun H : "ID"%string = ""%string => eq_ind "ID"%string
                     (fun s => match s with EmptyString => False | _ => True end)
                     I _ H)
                  eq_refl eq_refl).
  match type of Hm with
  | match ?x with _ => _ end => destruct x eqn:Hx
  end; [|vm_compute in Hx; discriminate].
  destruct Hm as (e & w' & HI & _ & _ & _ & HG & _ & HS & _).
  exists e, w'. split; [exact HI|]. split; [exact HG|exact HS].
Defined.

(** ** Finding a removed entity (query.go, db.go) *)

(** X27.  [Find] answers from the tracker whatever the state of the
    entry and whatever the conditions of the query: an entity that
    [Remove] has marked as Deleted is still returned by [Find] with
    its key, the same instance and without a query, until a flush has
    succeeded; after that flush the tracker no longer knows the key. *)
Theorem X27_find_removed :
  forall E q pk w e p,
    fair_range E -> tracker_ok w ->
    GetEntryByKey (q_type q) pk w = Some e -> Entity e = p ->
    type_of (heap w p) = q_type q ->
    (forall k e0, In (k, e0) (entries w) -> Entity e0 = p ->
                  k = (TypeName (q_type q) ++ ":" ++ fmt_v pk)%string) ->
    exists w1,
      Remove E p w =
        Some ((TypeName (q_type q) ++ ":" ++ fmt_v pk)%string,
              set_State e Deleted, w1) /\
      Find E q pk w1 = (Ok (Some p), q, w1) /\
      forall tx n w2,
        SaveChangesContext E tx w1 = (Saved n, w2) ->
        GetEntryByKey (q_type q) pk w2 = None.
Proof.
  intros E q pk w e p Hfair Hok Hget Hp Hty Hsole.
  unfold GetEntryByKey in Hget.
  set (key := (TypeName (q_type q) ++ ":" ++ fmt_v pk)%string) in *.
  destruct (GetEntry_by_pointer E site_GetEntry p w key e Hfair
              (map_get_In _ _ _ Hget) Hp) as (k' & e' & HG & Hin & Hp').
  pose proof (Hsole k' e' Hin Hp') as Hk. subst k'.
  assert (e' = e).
  { apply (In_map_get _ _ _ Hok) in Hin. congruence. }
  subst e'.
  exists (with_entries w (map_set key (set_State e Deleted) (entries w))).
  split; [unfold Remove, mark; now rewrite HG|].
  assert (Hg1 : map_get key (map_set key (set_State e Deleted) (entries w))
                = Some (set_State e Deleted))
    by now rewrite map_get_set, String.eqb_refl.
  split.
  - unfold Find, GetEntryByKey. cbn [entries with_entries heap]. fold key.
    rewrite Hg1. cbn [Entity set_State]. rewrite Hp, Hty.
    now rewrite StructType_eqb_refl.
  - intros tx n w2 HS.
    assert (Hok1 : tracker_ok
              (with_entries w (map_set key (set_State e Deleted) (entries w))))
      by (apply map_set_NoDup, Hok).
    destruct (flush_success_state _ _ _ _ _ Hfair Hok1 HS) as (_ & _ & Hk).
    unfold GetEntryByKey. fold key. rewrite Hk. cbn [entries with_entries].
    now rewrite Hg1.
Qed.

Lemma X27_find_removed_witness :
  exists e w1,
    Remove (obliging []) 1%nat (tracked 1%nat Unchanged milica_world)
      = Some ("Patient:1"%string, e, w1) /\
    Find (obliging []) (newQuery Patient) (VInt 1) w1
      = (Ok (Some 1%nat), newQuery Patient, w1).
Proof.
  assert (Hok : tracker_ok (tracked 1%nat Unchanged milica_world)).
  { unfold tracker_ok. vm_compute. repeat constructor. intros []. }
  destruct (GetEntryByKey Patient (VInt 1) (tracked 1%nat Unchanged milica_world))
    as [e|] eqn:Hg; [|vm_compute in Hg; discriminate].
  destruct (X27_find_removed (obliging []) (newQuery Patient) (VInt 1)
              (tracked 1%nat Unchanged milica_world) e 1%nat
              (obliging_fair []) Hok Hg) as (w1 & HR & HF & _).
  - vm_compute in Hg. now inversion Hg.
  - reflexivity.
  - intros k e0 Hin _. vm_compute in Hin. destruct Hin as [Hin|[]].
    now inversion Hin.
  - exists (set_State e Deleted), w1. split; [exact HR|exact HF].
Defined.
